(** * DevVisionFlow Prototype 2: the file-transfer core, embedded and verified

    A shallow embedding of the wire codec ([shared/protocol.py]), the
    cryptographic session wrapper ([shared/encryption.py]), the sender's
    transmitter ([sender/network/transmitter.py]) and the receiver's
    listener ([receiver/network/listener.py]).

    Conventions.
    - Python [bytes] are [list byte]; Python [int] is [Z]; Python [str] is
      [string] (code points below 256).
    - A call that may raise returns a [result]: [Ok v] or [Raise e], where
      [e] carries the exception class and the text of [str(exc)].
    - Code that talks to a socket, a file or a queue runs in a state and
      exception monad over an explicit world record. *)

From Stdlib Require Import ZArith Lia String Ascii List Bool.
From Stdlib.Strings Require Import Byte.
From stdpp Require Import gmap strings list pretty.

Local Open Scope Z_scope.

(** ** Python values *)

Abbreviation bytes := (list byte).

#[global] Instance byte_eq_decision : EqDecision byte := Byte.byte_eq_dec.

Definition byte_to_Z (b : byte) : Z := Z.of_N (Byte.to_N b).

(** The byte whose value is [z mod 256]. *)
Definition byte_of_Z (z : Z) : byte :=
  default x00 (Byte.of_N (Z.to_N (z mod 256))).

Definition len {A} (l : list A) : Z := Z.of_nat (length l).

(** Exception classes that the modelled code raises or catches. *)
Inductive exn_class :=
| struct_error
| socket_timeout
| ConnectionError
| RuntimeError
| ValueError
| KeyError
| TypeError
| AttributeError
| ZeroDivisionError
| OverflowError
| OSError.

#[global] Instance exn_class_eq_decision : EqDecision exn_class.
Proof. solve_decision. Defined.

(** An exception object: its class and [str(exc)]. *)
Record exn := Exn { exn_cls : exn_class; exn_str : string }.

(** The outcome of a call: a value, an exception, or (for the loops that
    are not bounded by their data) the fuel of the model running out. *)
Inductive result (A : Type) :=
| Ok (a : A)
| Raise (e : exn)
| OutOfFuel.
Arguments Ok {A} a.
Arguments Raise {A} e.
Arguments OutOfFuel {A}.

Definition rbind {A B} (r : result A) (k : A -> result B) : result B :=
  match r with
  | Ok a => k a
  | Raise e => Raise e
  | OutOfFuel => OutOfFuel
  end.

Declare Scope result_scope.
Delimit Scope result_scope with result.
Notation "x <~ r ;; k" := (rbind r (fun x => k))
  (at level 100, r at next level, right associativity) : result_scope.
Local Open Scope result_scope.

(** Effectful code: a state transformer that may raise; the state reached
    before the exception is kept. *)
Definition M (St A : Type) : Type := St -> result A * St.

Definition ret {St A} (a : A) : M St A := fun s => (Ok a, s).
Definition raise {St A} (e : exn) : M St A := fun s => (Raise e, s).
Definition lift {St A} (r : result A) : M St A := fun s => (r, s).
Definition gets {St A} (f : St -> A) : M St A := fun s => (Ok (f s), s).
Definition modify {St} (f : St -> St) : M St unit := fun s => (Ok tt, f s).

Definition bind {St A B} (m : M St A) (k : A -> M St B) : M St B :=
  fun s =>
    match m s with
    | (Ok a, s') => k a s'
    | (Raise e, s') => (Raise e, s')
    | (OutOfFuel, s') => (OutOfFuel, s')
    end.

Declare Scope monad_scope.
Delimit Scope monad_scope with monad.
Notation "x <- m ;; k" := (bind m (fun x => k))
  (at level 100, m at next level, right associativity) : monad_scope.
Notation "m ;;; k" := (bind m (fun _ => k))
  (at level 100, right associativity) : monad_scope.
Local Open Scope monad_scope.

(** ** [shared/constants.py] *)

Definition MAGIC_NUMBER_FULL : bytes := [x00; x00; xde; x0f].
Definition PROTOCOL_VERSION : Z := 2.
Definition HEADER_SIZE : Z := 256.

Definition MSG_HANDSHAKE : Z := 1.
Definition MSG_FILE_META : Z := 2.
Definition MSG_CHUNK : Z := 3.
Definition MSG_ACK : Z := 4.
Definition MSG_ERROR : Z := 5.
Definition MSG_DONE : Z := 6.

Definition DEFAULT_CHUNK_SIZE : Z := 65536.
Definition LARGE_FILE_CHUNK_SIZE : Z := 262144.
Definition LARGE_FILE_THRESHOLD : Z := 1073741824.

Definition MAX_RETRIES : nat := 3.

(** ** The [struct] formats used by the codec *)

Module Struct.

(** Format [B]: one unsigned byte. *)
Definition pack_B (n : Z) : result bytes :=
  if (0 <=? n) && (n <=? 255) then Ok [byte_of_Z n]
  else Raise (Exn struct_error "ubyte format requires 0 <= number <= 255").

(** Format [>I]: unsigned 32 bits, most significant byte first. *)
Definition pack_I (n : Z) : result bytes :=
  if (0 <=? n) && (n <=? 4294967295) then
    Ok [ byte_of_Z (Z.shiftr n 24); byte_of_Z (Z.shiftr n 16);
         byte_of_Z (Z.shiftr n 8); byte_of_Z n ]
  else Raise (Exn struct_error "'I' format requires 0 <= number <= 4294967295").

(** Format [ks]: the argument cut or padded with null bytes to [k] bytes. *)
Definition pack_s (k : nat) (s : bytes) : bytes :=
  take k (s ++ replicate k x00).

(** Big-endian value of a byte string. *)
Definition be_value (b : bytes) : Z :=
  fold_left (fun acc x => Z.lor (Z.shiftl acc 8) (byte_to_Z x)) b 0.

(** [struct.unpack(">I", b)]: the buffer must hold exactly 4 bytes. *)
Definition unpack_I (b : bytes) : result Z :=
  if decide (length b = 4%nat) then Ok (be_value b)
  else Raise (Exn struct_error "unpack requires a buffer of 4 bytes").

End Struct.

(** ** [hashlib.sha256]: SHA-256 as in FIPS 180-4 *)

Module SHA256.

Definition w32 (x : Z) : Z := x mod 4294967296.

Definition rotr (n x : Z) : Z :=
  Z.lor (Z.shiftr x n) (w32 (Z.shiftl x (32 - n))).

Definition Ch (x y z : Z) : Z :=
  Z.lxor (Z.land x y) (Z.land (Z.lxor x 4294967295) z).
Definition Maj (x y z : Z) : Z :=
  Z.lxor (Z.lxor (Z.land x y) (Z.land x z)) (Z.land y z).
Definition Sigma0 (x : Z) : Z :=
  Z.lxor (Z.lxor (rotr 2 x) (rotr 13 x)) (rotr 22 x).
Definition Sigma1 (x : Z) : Z :=
  Z.lxor (Z.lxor (rotr 6 x) (rotr 11 x)) (rotr 25 x).
Definition sigma0 (x : Z) : Z :=
  Z.lxor (Z.lxor (rotr 7 x) (rotr 18 x)) (Z.shiftr x 3).
Definition sigma1 (x : Z) : Z :=
  Z.lxor (Z.lxor (rotr 17 x) (rotr 19 x)) (Z.shiftr x 10).

(** The first 64 primes. *)
Definition is_prime (n : Z) : bool :=
  forallb (fun d => negb (n mod Z.of_nat d =? 0)) (seq 2 (Z.to_nat n - 2)).

Definition primes : list Z :=
  filter (fun n => is_prime n = true) (map Z.of_nat (seq 2 310)).

(** Integer cube root, bit by bit from bit [k - 1] down. *)
Fixpoint icbrt (k : nat) (n r : Z) : Z :=
  match k with
  | O => r
  | S k' =>
      let r' := r + 2 ^ Z.of_nat k' in
      icbrt k' n (if r' * r' * r' <=? n then r' else r)
  end.

(** The round constants: the first 32 bits of the fractional parts of the
    cube roots of the first 64 primes. *)
Definition K : list Z :=
  Eval vm_compute in map (fun p => w32 (icbrt 36 (p * 2 ^ 96) 0)) primes.

(** The eight working words. *)
Record state := State { sa : Z; sb : Z; sc : Z; sd : Z;
                        se : Z; sf : Z; sg : Z; sh : Z }.

(** The initial hash value: the first 32 bits of the fractional parts of
    the square roots of the first 8 primes. *)
Definition H0 : state :=
  Eval vm_compute in
  let h i := w32 (Z.sqrt (nth i primes 0 * 2 ^ 64)) in
  State (h 0%nat) (h 1%nat) (h 2%nat) (h 3%nat)
        (h 4%nat) (h 5%nat) (h 6%nat) (h 7%nat).

(** Message padding: a 1 bit, zeros, and the bit length on 64 bits. *)
Definition length_bytes (bits : Z) : bytes :=
  map (fun i => byte_of_Z (Z.shiftr bits (8 * i))) [7; 6; 5; 4; 3; 2; 1; 0].

Definition pad (msg : bytes) : bytes :=
  let n := len msg in
  msg ++ [x80] ++ replicate (Z.to_nat ((55 - n) mod 64)) x00
      ++ length_bytes (8 * n).

Fixpoint words (fuel : nat) (b : bytes) : list Z :=
  match fuel with
  | O => []
  | S fuel' => Struct.be_value (take 4 b) :: words fuel' (drop 4 b)
  end.

(** Message schedule: [n] further words after the words [ws]. *)
Fixpoint expand (n : nat) (ws : list Z) : list Z :=
  match n with
  | O => ws
  | S n' =>
      let i := length ws in
      let at_ k := nth (i - k) ws 0 in
      expand n' (ws ++ [w32 (sigma1 (at_ 2%nat) + at_ 7%nat
                             + sigma0 (at_ 15%nat) + at_ 16%nat)])
  end.

Definition round (s : state) (kw : Z * Z) : state :=
  let t1 := sh s + Sigma1 (se s) + Ch (se s) (sf s) (sg s) + kw.1 + kw.2 in
  let t2 := Sigma0 (sa s) + Maj (sa s) (sb s) (sc s) in
  State (w32 (t1 + t2)) (sa s) (sb s) (sc s)
        (w32 (sd s + t1)) (se s) (sf s) (sg s).

Definition compress (s : state) (block : bytes) : state :=
  let w := expand 48 (words 16 block) in
  let r := fold_left round (zip K w) s in
  State (w32 (sa s + sa r)) (w32 (sb s + sb r))
        (w32 (sc s + sc r)) (w32 (sd s + sd r))
        (w32 (se s + se r)) (w32 (sf s + sf r))
        (w32 (sg s + sg r)) (w32 (sh s + sh r)).

Fixpoint blocks (fuel : nat) (s : state) (b : bytes) : state :=
  match fuel with
  | O => s
  | S fuel' => blocks fuel' (compress s (take 64 b)) (drop 64 b)
  end.

Definition word_bytes (w : Z) : bytes :=
  [ byte_of_Z (Z.shiftr w 24); byte_of_Z (Z.shiftr w 16);
    byte_of_Z (Z.shiftr w 8); byte_of_Z w ].

(** [hashlib.sha256(msg).digest()] *)
Definition digest (msg : bytes) : bytes :=
  let p := pad msg in
  let s := blocks (length p / 64) H0 p in
  word_bytes (sa s) ++ word_bytes (sb s) ++ word_bytes (sc s)
    ++ word_bytes (sd s) ++ word_bytes (se s) ++ word_bytes (sf s)
    ++ word_bytes (sg s) ++ word_bytes (sh s).

End SHA256.

Definition hex_of_byte (b : byte) : string :=
  let d (n : Z) := default "0"%char
       (nth_error (list_ascii_of_string "0123456789abcdef") (Z.to_nat n)) in
  String (d (byte_to_Z b / 16)) (String (d (byte_to_Z b mod 16)) EmptyString).

Definition hexdigest (msg : bytes) : string :=
  String.concat EmptyString (map hex_of_byte (SHA256.digest msg)).

Definition encode_ascii (s : string) : bytes :=
  map byte_of_ascii (list_ascii_of_string s).

(** ** [shared/protocol.py] *)

Record ProtocolHeader := {
  message_type : Z;
  payload_length : Z;
  payload_hash : bytes;
  version : Z
}.

(** [ProtocolHeader.validate_payload] *)
Definition validate_payload (self : ProtocolHeader) (payload : bytes) : bool :=
  bool_decide (SHA256.digest payload = payload_hash self).

(** [_HEADER_STRUCT = struct.Struct(">4sBBI32s")] and its [size]. *)
Definition _HEADER_STRUCT_size : Z := 4 + 1 + 1 + 4 + 32.
Definition _PADDING_SIZE : Z := HEADER_SIZE - _HEADER_STRUCT_size.

Definition _HEADER_STRUCT_pack
    (magic : bytes) (ver msg_type plen : Z) (hash : bytes) : result bytes :=
  v <~ Struct.pack_B ver ;;
  t <~ Struct.pack_B msg_type ;;
  l <~ Struct.pack_I plen ;;
  Ok (Struct.pack_s 4 magic ++ v ++ t ++ l ++ Struct.pack_s 32 hash).

Definition _HEADER_STRUCT_unpack_from (data : bytes)
  : result (bytes * Z * Z * Z * bytes) :=
  if decide (len data < _HEADER_STRUCT_size) then
    Raise (Exn struct_error "unpack_from requires a buffer of at least 42 bytes")
  else
    Ok (take 4 data,
        byte_to_Z (nth 4 data x00),
        byte_to_Z (nth 5 data x00),
        Struct.be_value (take 4 (drop 6 data)),
        take 32 (drop 10 data)).

Definition build_header (message_type : Z) (payload : bytes) : result bytes :=
  let payload_hash := SHA256.digest payload in
  header <~ _HEADER_STRUCT_pack MAGIC_NUMBER_FULL PROTOCOL_VERSION
              message_type (len payload) payload_hash ;;
  Ok (header ++ replicate (Z.to_nat _PADDING_SIZE) x00).

Definition parse_header (data : bytes) : result (option ProtocolHeader) :=
  if decide (len data < HEADER_SIZE) then Ok None
  else
    fields <~ _HEADER_STRUCT_unpack_from data ;;
    let '(magic, ver, msg_type, plen, hash) := fields in
    if decide (magic <> MAGIC_NUMBER_FULL) then Ok None
    else if decide (ver <> PROTOCOL_VERSION) then Ok None
    else Ok (Some {| message_type := msg_type; payload_length := plen;
                     payload_hash := hash; version := ver |}).

Definition build_chunk_payload (chunk_index : Z) (data : bytes) : result bytes :=
  idx <~ Struct.pack_I chunk_index ;;
  Ok (idx ++ data).

Definition parse_chunk_payload (payload : bytes) : result (Z * bytes) :=
  chunk_index <~ Struct.unpack_I (take 4 payload) ;;
  let chunk_data := drop 4 payload in
  Ok (chunk_index, chunk_data).

(** ** Python arithmetic used by the transmitter *)

Module PyFloat.

(** A finite binary64 value: [mant * 2 ^ expo]. *)
Record float := { mant : Z; expo : Z }.

Definition scale (x e : Z) : Z := x * 2 ^ Z.max 0 e.

(** The quotient [n / d] ([d] positive) rounded to the nearest integer,
    ties to the even one. *)
Definition round_half_even (n d : Z) : Z :=
  let q := n / d in
  let r := n mod d in
  if 2 * r <? d then q
  else if d <? 2 * r then q + 1
  else if Z.even q then q else q + 1.

(** The binary exponent [e] of the positive rational [a / b]:
    [2 ^ e <= a / b < 2 ^ (e + 1)]. *)
Definition exponent (a b : Z) : Z :=
  let d := Z.log2 a - Z.log2 b in
  if scale a (- d) <? scale b d then d - 1 else d.

(** [a / b] on Python ints: the exact quotient rounded once to binary64
    (53-bit significand, ties to even, gradual underflow below 2^-1022). *)
Definition true_divide (a b : Z) : result float :=
  if b =? 0 then Raise (Exn ZeroDivisionError "division by zero")
  else if a =? 0 then Ok {| mant := 0; expo := 0 |}
  else
    let e := exponent (Z.abs a) (Z.abs b) in
    let s := Z.max (e - 52) (- 1074) in
    let m := round_half_even (scale (Z.abs a) (- s)) (scale (Z.abs b) s) in
    if 2 ^ 1024 <=? scale m s then
      Raise (Exn OverflowError "integer division result too large for a float")
    else Ok {| mant := Z.sgn a * Z.sgn b * m; expo := s |}.

(** [math.ceil] *)
Definition ceil (x : float) : Z :=
  if 0 <=? expo x then mant x * 2 ^ expo x
  else - ((- mant x) / 2 ^ (- expo x)).

(** What a division of floats returns: a finite value, or an infinity when
    the quotient is too large for a float. *)
Inductive value :=
| Finite (x : float)
| Infinity (negative : bool).

(** [float(a)] for a Python int. *)
Definition of_int (a : Z) : result float :=
  match true_divide a 1 with
  | Raise _ => Raise (Exn OverflowError "int too large to convert to float")
  | r => r
  end.

(** [x / y] on floats: the exact quotient rounded once; no exception but
    for the divisor zero. *)
Definition float_divide (x y : float) : result value :=
  if mant y =? 0 then Raise (Exn ZeroDivisionError "float division by zero")
  else
    match true_divide (scale (mant x) (expo x - expo y))
                      (scale (mant y) (expo y - expo x)) with
    | Ok q => Ok (Finite q)
    | Raise _ => Ok (Infinity (mant x * mant y <? 0))
    | OutOfFuel => OutOfFuel
    end.

(** [a / y] for a Python int and a float: the int is converted first. *)
Definition int_over_float (a : Z) (y : float) : result value :=
  match of_int a with
  | Ok x => float_divide x y
  | Raise e => Raise e
  | OutOfFuel => OutOfFuel
  end.

End PyFloat.

(** ** [sender/network/transmitter.py]: sizing a transfer *)

(** Lines 131 to 136 of [_transfer_worker]: the chunk size and the number of
    chunks for a file of [file_size] bytes, [config_chunk_size] being
    [self.config.chunk_size]. *)
Definition choose_chunk_size (config_chunk_size file_size : Z) : Z :=
  if LARGE_FILE_THRESHOLD <=? file_size then LARGE_FILE_CHUNK_SIZE
  else config_chunk_size.

Definition compute_total_chunks (file_size chunk_size : Z) : result Z :=
  if 0 <? file_size then
    q <~ PyFloat.true_divide file_size chunk_size ;;
    Ok (PyFloat.ceil q)
  else Ok 1.

(** The exact ceiling of [a / b], for comparison. *)
Definition ceil_div (a b : Z) : Z := - ((- a) / b).

(** [c in s] for one character. *)
Fixpoint str_contains (c : ascii) (s : string) : bool :=
  match s with
  | EmptyString => false
  | String c' s' => Ascii.eqb c' c || str_contains c s'
  end.

(** A character that is not a decimal digit. *)
Definition not_digit (c : ascii) : Prop :=
  c <> "0"%char /\ c <> "1"%char /\ c <> "2"%char /\ c <> "3"%char /\
  c <> "4"%char /\ c <> "5"%char /\ c <> "6"%char /\ c <> "7"%char /\
  c <> "8"%char /\ c <> "9"%char.

(** ** [pathlib], POSIX flavour *)

Module Pathlib.

(** A path is the tuple of its parts ([PurePosixPath.parts]); an absolute
    path starts with the part ["/"] (or ["//"]). *)
Abbreviation Path := (list string).

Fixpoint split_slash (s : string) : list string :=
  match s with
  | EmptyString => [EmptyString]
  | String c s' =>
      if Ascii.eqb c "/" then EmptyString :: split_slash s'
      else match split_slash s' with
           | [] => [String c EmptyString]
           | h :: t => String c h :: t
           end
  end.

Fixpoint leading_slashes (s : string) : nat :=
  match s with
  | String c s' => if Ascii.eqb c "/" then S (leading_slashes s') else O
  | EmptyString => O
  end.

(** Exactly two leading slashes are kept as the root ["//"]. *)
Definition root_of (s : string) : list string :=
  match leading_slashes s with
  | O => []
  | 2%nat => ["//"%string]
  | _ => ["/"%string]
  end.

Definition is_root (p : string) : bool :=
  bool_decide (p = "/"%string \/ p = "//"%string).

Definition parse_parts (s : string) : Path :=
  root_of s
    ++ filter (fun p => p <> EmptyString /\ p <> "."%string) (split_slash s).

(** [self / other] *)
Definition joinpath (self : Path) (other : string) : Path :=
  match root_of other with
  | [] => self ++ parse_parts other
  | _ => parse_parts other
  end.

(** [Path.name] *)
Definition name (p : Path) : string :=
  match p with
  | [] => EmptyString
  | [r] => if is_root r then EmptyString else r
  | _ => List.last p EmptyString
  end.

(** [str.rfind] of one character. *)
Fixpoint rfind (c : ascii) (s : string) : option nat :=
  match s with
  | EmptyString => None
  | String c' s' =>
      match rfind c s' with
      | Some i => Some (S i)
      | None => if Ascii.eqb c' c then Some O else None
      end
  end.

Fixpoint drop_str (n : nat) (s : string) : string :=
  match n, s with
  | S n', String _ s' => drop_str n' s'
  | _, _ => s
  end.

Fixpoint take_str (n : nat) (s : string) : string :=
  match n, s with
  | S n', String c s' => String c (take_str n' s')
  | _, _ => EmptyString
  end.

(** The index at which [Path.suffix] starts, if the name has a suffix. *)
Definition suffix_index (nm : string) : option nat :=
  match rfind "." nm with
  | Some i =>
      if (0 <? i)%nat && (i <? String.length nm - 1)%nat then Some i else None
  | None => None
  end.

(** [Path.suffix] *)
Definition suffix (p : Path) : string :=
  match suffix_index (name p) with
  | Some i => drop_str i (name p)
  | None => EmptyString
  end.

(** [Path.stem] *)
Definition stem (p : Path) : string :=
  match suffix_index (name p) with
  | Some i => take_str i (name p)
  | None => name p
  end.

End Pathlib.

Abbreviation Path := Pathlib.Path.

(** ** [shared/encryption.py] *)

(** The [cryptography] package, when it can be imported. *)
Record CryptoBackend := {
  X25519_generate : bytes -> bytes * bytes;
  X25519_HKDF : bytes -> bytes -> result bytes;
  AESGCM_encrypt : bytes -> bytes -> bytes -> result bytes;
  AESGCM_decrypt : bytes -> bytes -> bytes -> result bytes
}.

Definition NONCE_SIZE : nat := 12.

Section Encryption.

(** [None] when the import at the top of the module fails. *)
Variable cryptography : option CryptoBackend.

Definition CRYPTO_AVAILABLE : bool :=
  match cryptography with Some _ => true | None => false end.

Definition crypto_required : exn :=
  Exn RuntimeError "cryptography library is required for encryption".

(** [entropy] stands for the randomness drawn by [X25519PrivateKey.generate]. *)
Definition generate_keypair (entropy : bytes) : result (bytes * bytes) :=
  match cryptography with
  | None => Raise crypto_required
  | Some lib => Ok (X25519_generate lib entropy)
  end.

Definition derive_shared_key (private_bytes peer_public_bytes : bytes)
  : result bytes :=
  match cryptography with
  | None => Raise crypto_required
  | Some lib => X25519_HKDF lib private_bytes peer_public_bytes
  end.

(** [nonce] is the value of [os.urandom(NONCE_SIZE)]. *)
Definition encrypt_chunk (aes_key nonce plaintext : bytes) : result bytes :=
  match cryptography with
  | None => Raise crypto_required
  | Some lib =>
      ciphertext <~ AESGCM_encrypt lib aes_key nonce plaintext ;;
      Ok (nonce ++ ciphertext)
  end.

Definition decrypt_chunk (aes_key data : bytes) : result bytes :=
  match cryptography with
  | None => Raise crypto_required
  | Some lib =>
      let nonce := take NONCE_SIZE data in
      let ciphertext := drop NONCE_SIZE data in
      AESGCM_decrypt lib aes_key nonce ciphertext
  end.

Record EncryptionContext := {
  enabled : bool;
  _aes_key : bytes;
  _private_bytes : bytes;
  _public_bytes : bytes
}.

(** [EncryptionContext.__init__] *)
Definition EncryptionContext_init (entropy : bytes) (enabled_arg : bool)
  : result EncryptionContext :=
  let self := {| enabled := enabled_arg && CRYPTO_AVAILABLE;
                 _aes_key := []; _private_bytes := []; _public_bytes := [] |} in
  if enabled self then
    kp <~ generate_keypair entropy ;;
    Ok {| enabled := enabled self; _aes_key := _aes_key self;
          _private_bytes := kp.1; _public_bytes := kp.2 |}
  else Ok self.

Definition complete_handshake (self : EncryptionContext)
    (peer_public_bytes : bytes) : result EncryptionContext :=
  if negb (enabled self) then Ok self
  else
    k <~ derive_shared_key (_private_bytes self) peer_public_bytes ;;
    Ok {| enabled := enabled self; _aes_key := k;
          _private_bytes := _private_bytes self;
          _public_bytes := _public_bytes self |}.

Definition encrypt (self : EncryptionContext) (nonce data : bytes)
  : result bytes :=
  if negb (enabled self) then Ok data
  else encrypt_chunk (_aes_key self) nonce data.

Definition decrypt (self : EncryptionContext) (data : bytes) : result bytes :=
  if negb (enabled self) then Ok data
  else decrypt_chunk (_aes_key self) data.

End Encryption.

(** ** [json] values and the payload codecs of [shared/protocol.py] *)

#[warnings="-register-all"]
Inductive json :=
| JNull
| JBool (b : bool)
| JInt (n : Z)
| JFloat (x : PyFloat.float)
| JStr (s : string)
| JList (l : list json)
| JDict (d : list (string * json)).

(** What the codecs take from the Python runtime: [json.dumps(v).encode("utf-8")],
    [json.loads(b.decode("utf-8"))] and [repr]. *)
Class PyRuntime := {
  dumps_utf8 : json -> bytes;
  loads_utf8 : bytes -> result json;
  py_repr : json -> string
}.

Definition dict_lookup (d : list (string * json)) (k : string) : option json :=
  snd <$> List.find (fun kv => bool_decide (kv.1 = k)) d.

(** [v.get(k, dflt)] *)
Definition py_get (v : json) (k : string) (dflt : json) : result json :=
  match v with
  | JDict d => Ok (default dflt (dict_lookup d k))
  | _ => Raise (Exn AttributeError "object has no attribute 'get'")
  end.

(** [v[k]] for a string key. *)
Definition py_getitem (v : json) (k : string) : result json :=
  match v with
  | JDict d =>
      match dict_lookup d k with
      | Some x => Ok x
      | None => Raise (Exn KeyError k)
      end
  | _ => Raise (Exn TypeError "object is not subscriptable by a string")
  end.

(** Truth value of a decoded value. *)
Definition truthy (v : json) : bool :=
  match v with
  | JNull => false
  | JBool b => b
  | JInt n => negb (n =? 0)
  | JFloat x => negb (PyFloat.mant x =? 0)
  | JStr s => negb (bool_decide (s = EmptyString))
  | JList l => match l with [] => false | _ => true end
  | JDict d => match d with [] => false | _ => true end
  end.

(** [type(v).__name__] *)
Definition py_type_name (v : json) : string :=
  match v with
  | JNull => "NoneType"
  | JBool _ => "bool"
  | JInt _ => "int"
  | JFloat _ => "float"
  | JStr _ => "str"
  | JList _ => "list"
  | JDict _ => "dict"
  end.

(** [self / other] for a path and a decoded value: only a string can be
    joined to a path. *)
Definition path_truediv (self : Path) (other : json) : result Path :=
  match other with
  | JStr s => Ok (Pathlib.joinpath self s)
  | _ =>
      Raise (Exn TypeError
               ("unsupported operand type(s) for /: 'PosixPath' and '"
                  +:+ py_type_name other +:+ "'"))
  end.

(** [a <= v] for an int [a] and a decoded value [v]: numbers (among them
    the booleans, which count as 0 and 1) are compared by their values;
    with anything else the comparison raises [TypeError], which is [None]
    here. *)
Definition py_int_le (a : Z) (v : json) : option bool :=
  match v with
  | JInt n => Some (a <=? n)
  | JBool b => Some (a <=? (if b then 1 else 0))
  | JFloat x =>
      Some (if 0 <=? PyFloat.expo x
            then a <=? PyFloat.mant x * 2 ^ PyFloat.expo x
            else a * 2 ^ (- PyFloat.expo x) <=? PyFloat.mant x)
  | _ => None
  end.

(** [v == 0] *)
Definition py_eq_zero (v : json) : bool :=
  match v with
  | JInt n => n =? 0
  | JBool b => negb b
  | JFloat x => PyFloat.mant x =? 0
  | _ => false
  end.

(** [a / v] for an int [a] and a decoded value [v]. *)
Definition py_int_truediv (a : Z) (v : json) : result PyFloat.value :=
  match v with
  | JInt n => x <~ PyFloat.true_divide a n ;; Ok (PyFloat.Finite x)
  | JBool b =>
      x <~ PyFloat.true_divide a (if b then 1 else 0) ;; Ok (PyFloat.Finite x)
  | JFloat y => PyFloat.int_over_float a y
  | _ =>
      Raise (Exn TypeError
               ("unsupported operand type(s) for /: 'int' and '"
                  +:+ py_type_name v +:+ "'"))
  end.

Section PayloadCodecs.
Context {rt : PyRuntime}.

(** [f"{v}"] *)
Definition py_format (v : json) : string :=
  match v with
  | JStr s => s
  | JInt n => pretty n
  | _ => py_repr v
  end.

Definition build_handshake_payload (sender_id : string)
    (encryption_enabled : bool) : bytes :=
  dumps_utf8 (JDict [("sender_id"%string, JStr sender_id);
                     ("encryption"%string, JBool encryption_enabled)]).

Definition parse_handshake_payload (payload : bytes) : result json :=
  loads_utf8 payload.

Definition build_file_meta_payload (filename : string) (file_size : Z)
    (mime_type : string) (chunk_count chunk_size : Z) : bytes :=
  dumps_utf8 (JDict [("filename"%string, JStr filename);
                     ("file_size"%string, JInt file_size);
                     ("mime_type"%string, JStr mime_type);
                     ("chunk_count"%string, JInt chunk_count);
                     ("chunk_size"%string, JInt chunk_size)]).

Definition parse_file_meta_payload (payload : bytes) : result json :=
  loads_utf8 payload.

Definition build_ack_payload (success : bool) (message : string) : bytes :=
  dumps_utf8 (JDict [("success"%string, JBool success);
                     ("message"%string, JStr message)]).

Definition parse_ack_payload (payload : bytes) : result json :=
  loads_utf8 payload.

Definition build_error_payload (error_code : Z) (reason : string) : bytes :=
  dumps_utf8 (JDict [("error_code"%string, JInt error_code);
                     ("reason"%string, JStr reason)]).

Definition parse_error_payload (payload : bytes) : result json :=
  loads_utf8 payload.

Definition build_done_payload : bytes :=
  dumps_utf8 (JDict [("status"%string, JStr "complete")]).

Definition parse_done_payload (payload : bytes) : result json :=
  loads_utf8 payload.

End PayloadCodecs.

(** ** Sockets *)

(** What a blocking read finds next: a byte of the stream, or an exception
    raised by [recv] ([socket.timeout], a reset, ...).  When the list is
    empty the peer has closed and [recv] returns the empty byte string. *)
Inductive recv_item :=
| Rx (b : byte)
| RxRaise (e : exn).

Record Socket := {
  sock_in : list recv_item;
  sock_out : list bytes;               (* arguments of [sendall], oldest first *)
  sock_send_faults : list (option exn); (* outcome of the next [sendall] calls *)
  sock_closed : bool
}.

Definition connection_closed : exn :=
  Exn ConnectionError "Connection closed while reading".

(** The loop of [_recv_exact]: read until [buf] holds [num_bytes] bytes. *)
Fixpoint recv_loop (items : list recv_item) (num_bytes : Z) (buf : bytes)
  : result bytes * list recv_item :=
  if len buf <? num_bytes then
    match items with
    | [] => (Raise connection_closed, [])
    | RxRaise e :: rest => (Raise e, rest)
    | Rx b :: rest => recv_loop rest num_bytes (buf ++ [b])
    end
  else (Ok buf, items).

Definition sock_recv_exact (num_bytes : Z) : M Socket bytes :=
  fun s =>
    let (r, rest) := recv_loop (sock_in s) num_bytes [] in
    (r, {| sock_in := rest; sock_out := sock_out s;
           sock_send_faults := sock_send_faults s;
           sock_closed := sock_closed s |}).

Definition sock_sendall (data : bytes) : M Socket unit :=
  fun s =>
    match sock_send_faults s with
    | Some e :: faults =>
        (Raise e, {| sock_in := sock_in s; sock_out := sock_out s;
                     sock_send_faults := faults;
                     sock_closed := sock_closed s |})
    | None :: faults =>
        (Ok tt, {| sock_in := sock_in s; sock_out := sock_out s ++ [data];
                   sock_send_faults := faults;
                   sock_closed := sock_closed s |})
    | [] =>
        (Ok tt, {| sock_in := sock_in s; sock_out := sock_out s ++ [data];
                   sock_send_faults := [];
                   sock_closed := sock_closed s |})
    end.

Definition sock_close (s : Socket) : Socket :=
  {| sock_in := sock_in s; sock_out := sock_out s;
     sock_send_faults := sock_send_faults s; sock_closed := true |}.

(** The socket with [items] left to read. *)
Definition socket_with_in (items : list recv_item) (s : Socket) : Socket :=
  {| sock_in := items; sock_out := sock_out s;
     sock_send_faults := sock_send_faults s; sock_closed := sock_closed s |}.

(** The next [sendall] succeeds: no fault is scheduled for it. *)
Definition next_send_ok (s : Socket) : Prop :=
  match sock_send_faults s with
  | Some _ :: _ => False
  | _ => True
  end.

(** The socket after a [sendall] of [data] that succeeded. *)
Definition socket_after_send (data : bytes) (s : Socket) : Socket :=
  {| sock_in := sock_in s; sock_out := sock_out s ++ [data];
     sock_send_faults := tail (sock_send_faults s);
     sock_closed := sock_closed s |}.

(** ** [receiver/network/listener.py] *)

(** The record of the file being received.  The five fields that
    [_handle_connection] fills from a FILE_META payload hold whatever JSON
    value the payload has under their names: the annotations of the class
    check nothing. *)
Record ReceivedFileInfo := {
  filename : json;
  file_size : json;
  mime_type : json;
  chunk_count : json;
  chunk_size : json;
  chunks_received : Z;
  save_path : Path
}.

(** [ReceivedFileInfo.__init__] *)
Definition ReceivedFileInfo_init : ReceivedFileInfo :=
  {| filename := JStr EmptyString; file_size := JInt 0;
     mime_type := JStr EmptyString; chunk_count := JInt 0;
     chunk_size := JInt 0; chunks_received := 0; save_path := [] |}.

(** The listener object: receive directory, session, and which callbacks
    were given to the constructor. *)
Record FileListener := {
  _receive_dir : Path;
  _encryption : EncryptionContext;
  _on_file_received : bool;
  _on_progress : bool
}.

(** The file system as the listener sees it.  [files]: the regular files,
    each under the path by which it was opened.  [dirs]: the directories,
    each under its path without [..], from the root or from the working
    directory (the working directory itself, the directories above it and
    the root are always there and need not be listed).  [io_faults]: the
    outcome of the next calls of [open], [write] and [close] ([Some e]: the
    call raises [e]).  Symbolic links are not modelled. *)
Record FileSystem := {
  files : gmap Path bytes;
  dirs : gset Path;
  io_faults : list (option exn)
}.

(** The working directory [[]] and the directories above it, [..],
    [../..], ... *)
Definition ups (q : Path) : bool := forallb (String.eqb "..") q.

Definition root_dir (q : Path) : bool :=
  match q with
  | [r] => Pathlib.is_root r
  | _ => false
  end.

Definition is_dir (d : FileSystem) (q : Path) : bool :=
  root_dir q || ups q || bool_decide (q ∈ dirs d).

(** The directory above the directory [q]. *)
Definition parent_dir (q : Path) : Path :=
  if root_dir q then q
  else if ups q then q ++ [".."%string]
  else removelast q.

(** The walk of the system along the parts of a path, from the directory
    [cur]: every part is looked up in a directory, and [..] leads to the
    directory above. *)
Fixpoint walk (d : FileSystem) (cur : Path) (parts : list string)
  : option Path :=
  match parts with
  | [] => Some cur
  | part :: rest =>
      if is_dir d cur then
        walk d (if String.eqb part ".." then parent_dir cur
                else cur ++ [part]) rest
      else None
  end.

(** Where the path [p] leads: the walk starts at the root for an absolute
    path, at the working directory otherwise. *)
Definition locate (d : FileSystem) (p : Path) : option Path :=
  match p with
  | r :: rest =>
      if Pathlib.is_root r then walk d ["/"%string] rest else walk d [] p
  | [] => Some []
  end.

(** A regular file or a directory is known under the path [q]. *)
Definition entry (d : FileSystem) (q : Path) : bool :=
  bool_decide (is_Some (files d !! q)) || bool_decide (q ∈ dirs d).

(** [os.stat] succeeds on [p]: there is a regular file or a directory under
    the path as it is spelled, or where it leads. *)
Definition exists_at (d : FileSystem) (p : Path) : bool :=
  entry d p
  || match locate d p with
     | Some q => is_dir d q || entry d q
     | None => false
     end.

(** One connection being handled: the socket, the files of the receive
    side, the locals [file_info] and [file_handle] of [_handle_connection],
    and the calls made to the two callbacks.  [file_handle] is the file
    that the local holds open: a file whose [close] failed is closed too,
    and only the [finally] block looks at the local after that.  The
    callbacks are taken to return normally and to leave the record
    alone. *)
Record Conn := {
  conn : Socket;
  fs : FileSystem;
  file_info : ReceivedFileInfo;
  file_handle : option Path;
  progress_calls : list ReceivedFileInfo;
  received_calls : list (Path * json)
}.

Definition with_conn (f : Socket -> Socket) (c : Conn) : Conn :=
  {| conn := f (conn c); fs := fs c; file_info := file_info c;
     file_handle := file_handle c; progress_calls := progress_calls c;
     received_calls := received_calls c |}.

Definition with_fs (f : FileSystem -> FileSystem) (c : Conn) : Conn :=
  {| conn := conn c; fs := f (fs c); file_info := file_info c;
     file_handle := file_handle c; progress_calls := progress_calls c;
     received_calls := received_calls c |}.

Definition with_file_info (f : ReceivedFileInfo -> ReceivedFileInfo)
    (c : Conn) : Conn :=
  {| conn := conn c; fs := fs c; file_info := f (file_info c);
     file_handle := file_handle c; progress_calls := progress_calls c;
     received_calls := received_calls c |}.

Definition with_file_handle (h : option Path) (c : Conn) : Conn :=
  {| conn := conn c; fs := fs c; file_info := file_info c;
     file_handle := h; progress_calls := progress_calls c;
     received_calls := received_calls c |}.

Definition call_on_progress (c : Conn) : Conn :=
  {| conn := conn c; fs := fs c; file_info := file_info c;
     file_handle := file_handle c;
     progress_calls := progress_calls c ++ [file_info c];
     received_calls := received_calls c |}.

Definition call_on_file_received (p : Path) (mime : json) (c : Conn) : Conn :=
  {| conn := conn c; fs := fs c; file_info := file_info c;
     file_handle := file_handle c; progress_calls := progress_calls c;
     received_calls := received_calls c ++ [(p, mime)] |}.

(** Run a socket operation on the connection's socket. *)
Definition on_conn {A} (m : M Socket A) : M Conn A :=
  fun c => let (r, s) := m (conn c) in (r, with_conn (fun _ => s) c).

Definition set_filename (v : json) (i : ReceivedFileInfo) :=
  {| filename := v; file_size := file_size i; mime_type := mime_type i;
     chunk_count := chunk_count i; chunk_size := chunk_size i;
     chunks_received := chunks_received i; save_path := save_path i |}.
Definition set_file_size (v : json) (i : ReceivedFileInfo) :=
  {| filename := filename i; file_size := v; mime_type := mime_type i;
     chunk_count := chunk_count i; chunk_size := chunk_size i;
     chunks_received := chunks_received i; save_path := save_path i |}.
Definition set_mime_type (v : json) (i : ReceivedFileInfo) :=
  {| filename := filename i; file_size := file_size i; mime_type := v;
     chunk_count := chunk_count i; chunk_size := chunk_size i;
     chunks_received := chunks_received i; save_path := save_path i |}.
Definition set_chunk_count (v : json) (i : ReceivedFileInfo) :=
  {| filename := filename i; file_size := file_size i;
     mime_type := mime_type i; chunk_count := v; chunk_size := chunk_size i;
     chunks_received := chunks_received i; save_path := save_path i |}.
Definition set_chunk_size (v : json) (i : ReceivedFileInfo) :=
  {| filename := filename i; file_size := file_size i;
     mime_type := mime_type i; chunk_count := chunk_count i; chunk_size := v;
     chunks_received := chunks_received i; save_path := save_path i |}.
Definition set_chunks_received (v : Z) (i : ReceivedFileInfo) :=
  {| filename := filename i; file_size := file_size i;
     mime_type := mime_type i; chunk_count := chunk_count i;
     chunk_size := chunk_size i; chunks_received := v;
     save_path := save_path i |}.
Definition set_save_path (v : Path) (i : ReceivedFileInfo) :=
  {| filename := filename i; file_size := file_size i;
     mime_type := mime_type i; chunk_count := chunk_count i;
     chunk_size := chunk_size i; chunks_received := chunks_received i;
     save_path := v |}.

(** The connection with [items] left to read. *)
Definition conn_with_in (items : list recv_item) (c : Conn) : Conn :=
  with_conn (socket_with_in items) c.

(** What a reply changes: the socket's output side only. *)
Definition same_but_output (c c' : Conn) : Prop :=
  sock_in (conn c') = sock_in (conn c) /\ fs c' = fs c /\
  file_info c' = file_info c /\ file_handle c' = file_handle c /\
  progress_calls c' = progress_calls c /\
  received_calls c' = received_calls c.

Section Listener.
Context {rt : PyRuntime}.
Variable cryptography : option CryptoBackend.
Variable self : FileListener.

(** [Path.exists] *)
Definition path_exists (p : Path) : M Conn bool :=
  gets (fun c => exists_at (fs c) p).

(** The [while target.exists()] loop of [_unique_path]. *)
Fixpoint _unique_path_loop (fuel : nat) (stem suffix : string)
    (target : Path) (counter : Z) : M Conn Path :=
  match fuel with
  | O => lift OutOfFuel
  | S fuel' =>
      e <- path_exists target ;;
      if e then
        _unique_path_loop fuel' stem suffix
          (Pathlib.joinpath (_receive_dir self)
             (stem +:+ "_" +:+ pretty counter +:+ suffix))
          (counter + 1)
      else ret target
  end.

(** [_unique_path]; the argument is the value stored in
    [file_info.filename].  A loop over more names than there are files and
    directories cannot go on, hence the fuel. *)
Definition _unique_path (filename : json) : M Conn Path :=
  target <- lift (path_truediv (_receive_dir self) filename) ;;
  e <- path_exists target ;;
  if negb e then ret target
  else
    let stem := Pathlib.stem target in
    let suffix := Pathlib.suffix target in
    n <- gets (fun c => (size (files (fs c)) + size (dirs (fs c)))%nat) ;;
    _unique_path_loop (S (S n)) stem suffix target 1.

Definition _recv_exact (num_bytes : Z) : M Conn bytes :=
  on_conn (sock_recv_exact num_bytes).

Definition _send_ack (success : bool) (message : string) : M Conn unit :=
  let payload := build_ack_payload success message in
  header <- lift (build_header MSG_ACK payload) ;;
  on_conn (sock_sendall (header ++ payload)).

Definition _send_error (code : Z) (reason : string) : M Conn unit :=
  let payload := build_error_payload code reason in
  header <- lift (build_header MSG_ERROR payload) ;;
  on_conn (sock_sendall (header ++ payload)).

(** The outcome scheduled for the next file operation. *)
Definition next_io_fault : M Conn (option exn) :=
  fun c =>
    match io_faults (fs c) with
    | [] => (Ok None, c)
    | fault :: l =>
        (Ok fault,
         with_fs (fun d => {| files := files d; dirs := dirs d;
                              io_faults := l |}) c)
    end.

Definition with_files (f : gmap Path bytes -> gmap Path bytes)
    (d : FileSystem) : FileSystem :=
  {| files := f (files d); dirs := dirs d; io_faults := io_faults d |}.

(** [open(path, "wb")]: the file is created or emptied. *)
Definition open_wb (p : Path) : M Conn unit :=
  fault <- next_io_fault ;;
  match fault with
  | Some e => raise e
  | None =>
      modify (fun c => with_file_handle (Some p)
                         (with_fs (with_files (insert p [])) c))
  end.

(** [file_handle.write(data)] *)
Definition file_write (p : Path) (data : bytes) : M Conn unit :=
  fault <- next_io_fault ;;
  match fault with
  | Some e => raise e
  | None => modify (with_fs (with_files (alter (fun old => old ++ data) p)))
  end.

(** [file_handle.close()]: what is still buffered is written out, which
    may fail as a [write] may; the file is closed whether or not that
    fails, and to close it once more does nothing. *)
Definition file_close : M Conn unit :=
  fault <- next_io_fault ;;
  modify (with_file_handle None) ;;;
  match fault with
  | Some e => raise e
  | None => ret tt
  end.

(** The dispatch by message type of [_handle_connection] (lines 170 to
    223), on a frame whose payload passed the integrity check; the result
    tells whether the loop goes on ([true]) or is left by [break].  The
    fields of a FILE_META payload are stored as they come, before the path
    is chosen.  The calls of the logger are left out but for the
    arguments that they evaluate: [logging] catches what formatting a
    message raises. *)
Definition handle_message (msg_type : Z) (payload : bytes) : M Conn bool :=
  if msg_type =? MSG_HANDSHAKE then
    hs <- lift (parse_handshake_payload payload) ;;
    _ <- lift (py_get hs "sender_id" JNull) ;;
    _ <- lift (py_get hs "encryption" JNull) ;;
    _send_ack true "Ready" ;;; ret true
  else if msg_type =? MSG_FILE_META then
    meta <- lift (parse_file_meta_payload payload) ;;
    v <- lift (py_getitem meta "filename") ;;
    modify (with_file_info (set_filename v)) ;;;
    v <- lift (py_getitem meta "file_size") ;;
    modify (with_file_info (set_file_size v)) ;;;
    v <- lift (py_getitem meta "mime_type") ;;
    modify (with_file_info (set_mime_type v)) ;;;
    v <- lift (py_getitem meta "chunk_count") ;;
    modify (with_file_info (set_chunk_count v)) ;;;
    v <- lift (py_getitem meta "chunk_size") ;;
    modify (with_file_info (set_chunk_size v)) ;;;
    name <- gets (fun c => filename (file_info c)) ;;
    p <- _unique_path name ;;
    modify (with_file_info (set_save_path p)) ;;;
    open_wb p ;;;
    _send_ack true "Metadata accepted" ;;; ret true
  else if msg_type =? MSG_CHUNK then
    chunk <- lift (parse_chunk_payload payload) ;;
    decrypted <- lift (decrypt cryptography (_encryption self) chunk.2) ;;
    fh <- gets file_handle ;;
    match fh with
    | None => _send_error 2 "No file metadata received" ;;; ret false
    | Some p =>
        file_write p decrypted ;;;
        modify (with_file_info
                  (fun i => set_chunks_received (chunks_received i + 1) i)) ;;;
        (if _on_progress self then modify call_on_progress else ret tt) ;;;
        _send_ack true ("Chunk " +:+ pretty chunk.1 +:+ " OK") ;;;
        ret true
    end
  else if msg_type =? MSG_DONE then
    fh <- gets file_handle ;;
    match fh with
    | Some _ => file_close
    | None => ret tt
    end ;;;
    _send_ack true "File saved" ;;;
    (if _on_file_received self then
       modify (fun c => call_on_file_received
                          (save_path (file_info c))
                          (mime_type (file_info c)) c)
     else ret tt) ;;;
    ret false
  else ret false.

(** One turn of the [while True] loop of [_handle_connection]: read a
    header and its payload, check the digest, dispatch. *)
Definition handle_frame : M Conn bool :=
  header_data <- _recv_exact HEADER_SIZE ;;
  hdr <- lift (parse_header header_data) ;;
  match hdr with
  | None => ret false
  | Some hdr =>
      payload <- _recv_exact (payload_length hdr) ;;
      if negb (validate_payload hdr payload) then
        _send_error 1 "Integrity check failed" ;;; ret false
      else handle_message (message_type hdr) payload
  end.

Fixpoint handle_loop (fuel : nat) : M Conn unit :=
  match fuel with
  | O => lift OutOfFuel
  | S fuel' =>
      continue <- handle_frame ;;
      if continue then handle_loop fuel' else ret tt
  end.

(** The [finally] block of [_handle_connection]: a file that is still open
    is closed, outside any [try], so that an exception of this [close]
    leaves the handler and [conn.close()] is not reached; then the socket
    is closed. *)
Definition handle_finally : M Conn unit :=
  fh <- gets file_handle ;;
  match fh with
  | Some _ => file_close
  | None => ret tt
  end ;;;
  modify (with_conn sock_close).

(** [_handle_connection]: the loop inside [try], whose exceptions are
    caught and logged, then the [finally] block. *)
Definition _handle_connection (fuel : nat) : M Conn unit :=
  fun c =>
    let (r, c') := handle_loop fuel c in
    match r with
    | OutOfFuel => (OutOfFuel, c')
    | _ => handle_finally c'
    end.

End Listener.

(** The states of a connection handler: [running c0 c] when the loop,
    started in [c0], is about to take a turn in [c]; [reachable c0 c] when
    [c] is such a state or the state in which a turn ended, be it by
    [break] or by an exception. *)
Section Reachability.
Context {rt : PyRuntime}.
Variable cryptography : option CryptoBackend.
Variable self : FileListener.

Inductive running (c0 : Conn) : Conn -> Prop :=
| running_start : running c0 c0
| running_turn c c' :
    running c0 c -> handle_frame cryptography self c = (Ok true, c') ->
    running c0 c'.

Inductive reachable (c0 : Conn) : Conn -> Prop :=
| reachable_running c : running c0 c -> reachable c0 c
| reachable_turn c r c' :
    running c0 c -> handle_frame cryptography self c = (r, c') ->
    reachable c0 c'.

End Reachability.

(** A frame on the wire: the header built for the payload, then the
    payload. *)
Definition wire (frame : Z * bytes) : bytes :=
  match build_header frame.1 frame.2 with
  | Ok header => header ++ frame.2
  | _ => []
  end.

Definition well_formed (frame : Z * bytes) : Prop :=
  0 <= frame.1 <= 255 /\ len frame.2 <= 4294967295.

(** What a peer that sends the frames [frames] leaves to read. *)
Definition stream (frames : list (Z * bytes)) : list recv_item :=
  map Rx (concat (map wire frames)).

Definition count_chunks (frames : list (Z * bytes)) : Z :=
  len (filter (fun f => f.1 = MSG_CHUNK) frames).

(** The frames that the loop of [_handle_connection] takes from [items] in
    at most [fuel] turns, whatever it then does with them: a turn takes a
    header and its payload when both come in whole, the header parses and
    the digest agrees; reading ends at the first turn that finds less. *)
Fixpoint frames_read (fuel : nat) (items : list recv_item)
  : list (Z * bytes) :=
  match fuel with
  | O => []
  | S fuel' =>
      match recv_loop items HEADER_SIZE [] with
      | (Ok header_data, rest) =>
          match parse_header header_data with
          | Ok (Some hdr) =>
              match recv_loop rest (payload_length hdr) [] with
              | (Ok payload, rest') =>
                  if validate_payload hdr payload
                  then (message_type hdr, payload) :: frames_read fuel' rest'
                  else []
              | _ => []
              end
          | _ => []
          end
      | _ => []
      end
  end.

(** The frames that come in with [items]: every frame takes a header off
    the items, so that there are fewer frames than items. *)
Definition incoming (items : list recv_item) : list (Z * bytes) :=
  frames_read (length items) items.


(** The state in which a handler starts on an accepted connection. *)
Definition Conn_init (s : Socket) (disk : FileSystem) : Conn :=
  {| conn := s; fs := disk; file_info := ReceivedFileInfo_init;
     file_handle := None; progress_calls := []; received_calls := [] |}.

(** ** [sender/network/transmitter.py] *)

Module Transmitter.

(** [TransferProgress]; the constructor's defaults are in
    [TransferProgress_default]. *)
Record TransferProgress := {
  chunks_sent : Z;
  total_chunks : Z;
  bytes_sent : Z;
  total_bytes : Z;
  done : bool;
  error : string
}.

Definition TransferProgress_default : TransferProgress :=
  {| chunks_sent := 0; total_chunks := 0; bytes_sent := 0; total_bytes := 0;
     done := false; error := EmptyString |}.

(** The fields of [SenderConfig] that the transmitter reads. *)
Record SenderConfig := {
  chunk_size : Z;
  encryption_enabled : bool
}.

Definition SenderConfig_default : SenderConfig :=
  {| chunk_size := DEFAULT_CHUNK_SIZE; encryption_enabled := false |}.

Record FileTransmitter := {
  config : SenderConfig;
  _encryption : EncryptionContext
}.

(** What one transfer runs against. *)
Record World := {
  source : bytes;                 (* the content of the file at [filepath] *)
  file_faults : list (option exn);
                                  (* outcomes of the next calls of [stat],
                                     [open] and [read]: [Some e] raises [e] *)
  mime_guess : option string;     (* [mimetypes.guess_type(str(filepath))[0]] *)
  connect_fault : option exn;     (* raised by [sock.connect], if any *)
  sock_created : bool;
  sock : Socket;
  cancel_polls : list bool;       (* answers of [_cancel_event.is_set()] *)
  urandom : list bytes;           (* values of [os.urandom(NONCE_SIZE)] *)
  progress_queue : list TransferProgress
}.

Definition with_sock (f : Socket -> Socket) (w : World) : World :=
  {| source := source w; file_faults := file_faults w;
     mime_guess := mime_guess w;
     connect_fault := connect_fault w; sock_created := sock_created w;
     sock := f (sock w); cancel_polls := cancel_polls w;
     urandom := urandom w; progress_queue := progress_queue w |}.

Definition with_sock_created (w : World) : World :=
  {| source := source w; file_faults := file_faults w;
     mime_guess := mime_guess w;
     connect_fault := connect_fault w; sock_created := true;
     sock := sock w; cancel_polls := cancel_polls w;
     urandom := urandom w; progress_queue := progress_queue w |}.

Definition with_cancel_polls (l : list bool) (w : World) : World :=
  {| source := source w; file_faults := file_faults w;
     mime_guess := mime_guess w;
     connect_fault := connect_fault w; sock_created := sock_created w;
     sock := sock w; cancel_polls := l;
     urandom := urandom w; progress_queue := progress_queue w |}.

Definition with_urandom (l : list bytes) (w : World) : World :=
  {| source := source w; file_faults := file_faults w;
     mime_guess := mime_guess w;
     connect_fault := connect_fault w; sock_created := sock_created w;
     sock := sock w; cancel_polls := cancel_polls w;
     urandom := l; progress_queue := progress_queue w |}.

(** [self.progress_queue.put(p)] *)
Definition queue_put (p : TransferProgress) (w : World) : World :=
  {| source := source w; file_faults := file_faults w;
     mime_guess := mime_guess w;
     connect_fault := connect_fault w; sock_created := sock_created w;
     sock := sock w; cancel_polls := cancel_polls w;
     urandom := urandom w; progress_queue := progress_queue w ++ [p] |}.

Definition on_sock {A} (m : M Socket A) : M World A :=
  fun w => let (r, s) := m (sock w) in (r, with_sock (fun _ => s) w).

(** [self._cancel_event.is_set()] *)
Definition cancel_is_set : M World bool :=
  fun w =>
    match cancel_polls w with
    | [] => (Ok false, w)
    | b :: l => (Ok b, with_cancel_polls l w)
    end.

(** [os.urandom(NONCE_SIZE)] *)
Definition os_urandom : M World bytes :=
  fun w =>
    match urandom w with
    | [] => (Ok (replicate NONCE_SIZE x00), w)
    | n :: l => (Ok n, with_urandom l w)
    end.

Definition with_file_faults (l : list (option exn)) (w : World) : World :=
  {| source := source w; file_faults := l;
     mime_guess := mime_guess w;
     connect_fault := connect_fault w; sock_created := sock_created w;
     sock := sock w; cancel_polls := cancel_polls w;
     urandom := urandom w; progress_queue := progress_queue w |}.

(** Run a file operation: it raises what is scheduled for it, if anything,
    and gives [value] otherwise. *)
Definition file_op {A} (value : World -> A) : M World A :=
  fun w =>
    match file_faults w with
    | [] => (Ok (value w), w)
    | None :: l => (Ok (value w), with_file_faults l w)
    | Some e :: l => (Raise e, with_file_faults l w)
    end.

(** What [f.read(n)] gives on the unread rest of the file: what is read,
    what is left. *)
Definition file_read (n : Z) (rest : bytes) : bytes * bytes :=
  if n <? 0 then (rest, [])
  else (take (Z.to_nat n) rest, drop (Z.to_nat n) rest).

(** The exceptions that [_send_with_retry] catches. *)
Definition retriable (e : exn) : bool :=
  bool_decide (exn_cls e = socket_timeout \/ exn_cls e = ConnectionError).

Section Worker.
Context {rt : PyRuntime}.
Variable cryptography : option CryptoBackend.
Variable self : FileTransmitter.

Definition _recv_exact (num_bytes : Z) : M World bytes :=
  on_sock (sock_recv_exact num_bytes).

Definition _send_message (msg_type : Z) (payload : bytes) : M World unit :=
  header <- lift (build_header msg_type payload) ;;
  on_sock (sock_sendall (header ++ payload)).

Definition _wait_for_ack : M World json :=
  header_data <- _recv_exact HEADER_SIZE ;;
  hdr <- lift (parse_header header_data) ;;
  match hdr with
  | None =>
      raise (Exn ConnectionError "Invalid header received while waiting for ACK")
  | Some hdr =>
      payload <- _recv_exact (payload_length hdr) ;;
      if message_type hdr =? MSG_ERROR then
        err <- lift (parse_error_payload payload) ;;
        reason <- lift (py_get err "reason" (JStr "unknown")) ;;
        raise (Exn ConnectionError ("Receiver error: " +:+ py_format reason))
      else if negb (message_type hdr =? MSG_ACK) then
        raise (Exn ConnectionError
                 ("Expected ACK, got message type "
                    +:+ pretty (message_type hdr)))
      else
        ack <- lift (parse_ack_payload payload) ;;
        success <- lift (py_get ack "success" (JBool false)) ;;
        if negb (truthy success) then
          message <- lift (py_get ack "message" (JStr EmptyString)) ;;
          raise (Exn ConnectionError ("Receiver NACK: " +:+ py_format message))
        else ret ack
  end.

(** The [for attempt in range(MAX_RETRIES)] loop of [_send_with_retry],
    with [n] attempts left. *)
Fixpoint retry_loop (n : nat) (attempt : Z) (msg_type : Z) (payload : bytes)
  : M World unit :=
  match n with
  | O => ret tt
  | S n' =>
      fun w =>
        match (_send_message msg_type payload ;;; _wait_for_ack) w with
        | (Ok _, w') => (Ok tt, w')
        | (Raise e, w') =>
            if retriable e then
              if attempt =? Z.of_nat MAX_RETRIES - 1 then (Raise e, w')
              else retry_loop n' (attempt + 1) msg_type payload w'
            else (Raise e, w')
        | (OutOfFuel, w') => (OutOfFuel, w')
        end
  end.

Definition _send_with_retry (msg_type : Z) (payload : bytes) : M World unit :=
  retry_loop MAX_RETRIES 0 msg_type payload.

(** [self._encryption.encrypt(raw_data)]; the nonce is drawn only on the
    enabled path. *)
Definition encrypt_data (raw_data : bytes) : M World bytes :=
  if negb (enabled (_encryption self)) then ret raw_data
  else
    nonce <- os_urandom ;;
    lift (encrypt cryptography (_encryption self) nonce raw_data).

(** Lines 181 to 193: one chunk read from the file is encrypted, sent with
    retry and reported; the result is the new [bytes_sent]. *)
Definition send_chunk (total file_size chunk_idx : Z) (raw_data : bytes)
    (sent : Z) : M World Z :=
  data <- encrypt_data raw_data ;;
  chunk_payload <- lift (build_chunk_payload chunk_idx data) ;;
  _send_with_retry MSG_CHUNK chunk_payload ;;;
  let sent' := sent + len raw_data in
  modify (queue_put {| chunks_sent := chunk_idx + 1; total_chunks := total;
                       bytes_sent := sent'; total_bytes := file_size;
                       done := false; error := EmptyString |}) ;;;
  ret sent'.

(** The [for chunk_idx in range(total_chunks)] loop with [n] turns left;
    [true] when the loop is left towards DONE, [false] when the worker
    returns on a cancellation. *)
Fixpoint chunk_loop (n : nat) (total file_size csize chunk_idx : Z)
    (f : bytes) (sent : Z) : M World bool :=
  match n with
  | O => ret true
  | S n' =>
      cancelled <- cancel_is_set ;;
      if cancelled then
        modify (queue_put {| chunks_sent := 0; total_chunks := 0;
                             bytes_sent := 0; total_bytes := 0;
                             done := false; error := "Cancelled by user" |}) ;;;
        ret false
      else
        read <- file_op (fun _ => file_read csize f) ;;
        let (raw_data, rest) := read : bytes * bytes in
        match raw_data with
        | [] => ret true
        | _ =>
            sent' <- send_chunk total file_size chunk_idx raw_data sent ;;
            chunk_loop n' total file_size csize (chunk_idx + 1) rest sent'
        end
  end.

(** [filepath.stat().st_size] *)
Definition stat_size : M World Z := file_op (fun w => len (source w)).

(** [open(filepath, "rb")]: the content there is to read. *)
Definition open_rb : M World bytes := file_op source.

(** [socket.socket(...)] followed by [sock.connect(...)] *)
Definition connect : M World unit :=
  fun w =>
    match connect_fault w with
    | Some e => (Raise e, with_sock_created w)
    | None => (Ok tt, with_sock_created w)
    end.

(** The body of the [try] block of [_transfer_worker]. *)
Definition transfer_body (filepath : Path) : M World unit :=
  file_size <- stat_size ;;
  let csize := choose_chunk_size (chunk_size (config self)) file_size in
  total <- lift (compute_total_chunks file_size csize) ;;
  connect ;;;
  _send_message MSG_HANDSHAKE
    (build_handshake_payload "sender" (encryption_enabled (config self))) ;;;
  _wait_for_ack ;;;
  guess <- gets mime_guess ;;
  let mime := default "application/octet-stream"%string guess in
  let meta_payload :=
    build_file_meta_payload (Pathlib.name filepath) file_size mime total csize in
  _send_message MSG_FILE_META meta_payload ;;;
  _wait_for_ack ;;;
  content <- open_rb ;;
  go_on <- chunk_loop (Z.to_nat total) total file_size csize 0 content 0 ;;
  if go_on then
    _send_message MSG_DONE build_done_payload ;;;
    _wait_for_ack ;;;
    modify (queue_put {| chunks_sent := total; total_chunks := total;
                         bytes_sent := file_size; total_bytes := file_size;
                         done := true; error := EmptyString |})
  else ret tt.

(** [_transfer_worker]: an exception of the body is reported on the queue,
    and the socket, once created, is closed in any case. *)
Definition _transfer_worker (filepath : Path) : World -> World :=
  fun w =>
    let (r, w1) := transfer_body filepath w in
    let w2 :=
      match r with
      | Raise exc =>
          queue_put {| chunks_sent := 0; total_chunks := 0; bytes_sent := 0;
                       total_bytes := 0; done := false;
                       error := exn_str exc |} w1
      | _ => w1
      end in
    if sock_created w2 then with_sock sock_close w2 else w2.

End Worker.

End Transmitter.

(** The condition of the data model on a progress snapshot: [done] and a
    non-empty [error] do not hold together. *)
Definition snapshot_ok (p : Transmitter.TransferProgress) : Prop :=
  ~ (Transmitter.done p = true /\ Transmitter.error p <> EmptyString).

(** An effectful step of the transmitter that only adds snapshots
    satisfying [snapshot_ok] to the progress queue. *)
Definition appends_ok {A} (m : M Transmitter.World A) : Prop :=
  forall w r w',
    m w = (r, w') ->
    exists new,
      Transmitter.progress_queue w' = Transmitter.progress_queue w ++ new /\
      Forall snapshot_ok new.

(** The exception that [_wait_for_ack] raises on an ACK frame whose
    [success] is false, [d] being the decoded payload. *)
Definition nack_error {rt : PyRuntime} (d : list (string * json)) : exn :=
  Exn ConnectionError
    ("Receiver NACK: "
       +:+ py_format (default (JStr EmptyString) (dict_lookup d "message"))).

(** [success] as [_wait_for_ack] reads it from a decoded ACK payload. *)
Definition ack_success (d : list (string * json)) : bool :=
  truthy (default (JBool false) (dict_lookup d "success")).

(** The socket after one attempt that was answered: the frame is written,
    the reply is read, [rest] is left to read. *)
Definition answered (frame : bytes) (rest : list recv_item)
    (w : Transmitter.World) : Transmitter.World :=
  Transmitter.with_sock
    (fun s => {| sock_in := rest; sock_out := sock_out s ++ [frame];
                 sock_send_faults := []; sock_closed := sock_closed s |}) w.

(** ** A runtime for the worked examples

    [MiniJson] writes JSON the way [json.dumps] does with its default
    separators, and reads back ASCII JSON made of objects, arrays, strings,
    integers, booleans and null; on those payloads it agrees with
    [json.loads].  Anything else (floats, code points above 255, ill-formed
    text) is [ValueError] here.  It is used by the examples only: every
    theorem on the transmitter and the listener holds for any runtime. *)

Module MiniJson.

Definition dquote : ascii := ascii_of_nat 34.
Definition backslash : ascii := ascii_of_nat 92.

Definition hex_digit (n : N) : ascii :=
  nth (N.to_nat n) (list_ascii_of_string "0123456789abcdef") "0"%char.

Definition escape_char (c : ascii) : string :=
  let n := N_of_ascii c in
  if Ascii.eqb c dquote then String backslash (String dquote EmptyString)
  else if Ascii.eqb c backslash then String backslash (String backslash EmptyString)
  else if (n =? 10)%N then String backslash "n"
  else if (n =? 13)%N then String backslash "r"
  else if (n =? 9)%N then String backslash "t"
  else if (n =? 8)%N then String backslash "b"
  else if (n =? 12)%N then String backslash "f"
  else if (n <? 32)%N || (127 <? n)%N then
    String backslash
      (String "u" (String "0" (String "0"
         (String (hex_digit (n / 16)) (String (hex_digit (n mod 16)) EmptyString)))))
  else String c EmptyString.

Fixpoint escape (s : string) : string :=
  match s with
  | EmptyString => EmptyString
  | String c s' => escape_char c +:+ escape s'
  end.

Definition quote (s : string) : string :=
  String dquote (escape s +:+ String dquote EmptyString).

Fixpoint dumps (v : json) : string :=
  match v with
  | JNull => "null"
  | JBool b => if b then "true" else "false"
  | JInt n => pretty n
  | JFloat _ => "NaN"
  | JStr s => quote s
  | JList l =>
      "[" +:+ (fix items (l : list json) : string :=
                 match l with
                 | [] => EmptyString
                 | [x] => dumps x
                 | x :: r => dumps x +:+ ", " +:+ items r
                 end) l +:+ "]"
  | JDict d =>
      "{" +:+ (fix members (d : list (string * json)) : string :=
                 match d with
                 | [] => EmptyString
                 | [(k, x)] => quote k +:+ ": " +:+ dumps x
                 | (k, x) :: r => quote k +:+ ": " +:+ dumps x +:+ ", " +:+ members r
                 end) d +:+ "}"
  end.

Definition is_ws (c : ascii) : bool :=
  let n := N_of_ascii c in
  (n =? 32)%N || (n =? 9)%N || (n =? 10)%N || (n =? 13)%N.

Fixpoint skip_ws (s : list ascii) : list ascii :=
  match s with
  | c :: r => if is_ws c then skip_ws r else s
  | [] => []
  end.

Definition digit_value (c : ascii) : option Z :=
  let n := Z.of_N (N_of_ascii c) in
  if (48 <=? n) && (n <=? 57) then Some (n - 48) else None.

Definition hex_value (c : ascii) : option N :=
  let n := N_of_ascii c in
  if (48 <=? n)%N && (n <=? 57)%N then Some (n - 48)%N
  else if (97 <=? n)%N && (n <=? 102)%N then Some (n - 87)%N
  else if (65 <=? n)%N && (n <=? 70)%N then Some (n - 55)%N
  else None.

(** The digits at the head of [s], as a number, and what follows. *)
Fixpoint parse_digits (s : list ascii) (acc : Z) : Z * list ascii :=
  match s with
  | c :: r =>
      match digit_value c with
      | Some d => parse_digits r (10 * acc + d)
      | None => (acc, s)
      end
  | [] => (acc, [])
  end.

Definition starts_float (s : list ascii) : bool :=
  match s with
  | c :: _ => Ascii.eqb c "." || Ascii.eqb c "e" || Ascii.eqb c "E"
  | [] => false
  end.

(** An integer: no leading zero, no fraction, no exponent. *)
Definition parse_int (s : list ascii) : option (Z * list ascii) :=
  let '(neg, s1) :=
    match s with
    | c :: r => if Ascii.eqb c "-" then (true, r) else (false, s)
    | [] => (false, s)
    end in
  match s1 with
  | c :: r =>
      match digit_value c with
      | Some d =>
          let '(n, rest) := if d =? 0 then (0, r) else parse_digits s1 0 in
          if starts_float rest then None
          else Some (if neg : bool then - n else n, rest)
      | None => None
      end
  | [] => None
  end.

(** The characters of a string up to its closing quote. *)
Fixpoint parse_string (s : list ascii) : option (string * list ascii) :=
  match s with
  | [] => None
  | c :: r =>
      if Ascii.eqb c dquote then Some (EmptyString, r)
      else if Ascii.eqb c backslash then
        match r with
        | e :: r' =>
            let plain (x : ascii) :=
              match parse_string r' with
              | Some (t, rest) => Some (String x t, rest)
              | None => None
              end in
            if Ascii.eqb e dquote then plain dquote
            else if Ascii.eqb e backslash then plain backslash
            else if Ascii.eqb e "/" then plain "/"%char
            else if Ascii.eqb e "n" then plain (ascii_of_nat 10)
            else if Ascii.eqb e "r" then plain (ascii_of_nat 13)
            else if Ascii.eqb e "t" then plain (ascii_of_nat 9)
            else if Ascii.eqb e "b" then plain (ascii_of_nat 8)
            else if Ascii.eqb e "f" then plain (ascii_of_nat 12)
            else if Ascii.eqb e "u" then
              match r' with
              | h1 :: h2 :: h3 :: h4 :: r'' =>
                  match hex_value h1, hex_value h2, hex_value h3, hex_value h4 with
                  | Some 0%N, Some 0%N, Some a, Some b =>
                      match parse_string r'' with
                      | Some (t, rest) =>
                          Some (String (ascii_of_N (16 * a + b)) t, rest)
                      | None => None
                      end
                  | _, _, _, _ => None
                  end
              | _ => None
              end
            else None
        | [] => None
        end
      else if (N_of_ascii c <? 32)%N || (127 <? N_of_ascii c)%N then None
      else
        match parse_string r with
        | Some (t, rest) => Some (String c t, rest)
        | None => None
        end
  end.

(** [d[k] = v] *)
Fixpoint dict_set (d : list (string * json)) (k : string) (v : json)
  : list (string * json) :=
  match d with
  | [] => [(k, v)]
  | (k', v') :: r =>
      if bool_decide (k' = k) then (k, v) :: r else (k', v') :: dict_set r k v
  end.

Definition literal (word : string) (v : json) (s : list ascii)
  : option (json * list ascii) :=
  let w := list_ascii_of_string word in
  if bool_decide (take (length w) s = w) then Some (v, drop (length w) s)
  else None.

Fixpoint parse_value (fuel : nat) (s : list ascii) : option (json * list ascii) :=
  match fuel with
  | O => None
  | S fuel' =>
      match skip_ws s with
      | [] => None
      | c :: r =>
          if Ascii.eqb c dquote then
            match parse_string r with
            | Some (t, rest) => Some (JStr t, rest)
            | None => None
            end
          else if Ascii.eqb c "[" then
            match skip_ws r with
            | c' :: r' =>
                if Ascii.eqb c' "]" then Some (JList [], r')
                else parse_items fuel' r []
            | [] => None
            end
          else if Ascii.eqb c "{" then
            match skip_ws r with
            | c' :: r' =>
                if Ascii.eqb c' "}" then Some (JDict [], r')
                else parse_members fuel' r []
            | [] => None
            end
          else if Ascii.eqb c "n" then literal "null" JNull (c :: r)
          else if Ascii.eqb c "t" then literal "true" (JBool true) (c :: r)
          else if Ascii.eqb c "f" then literal "false" (JBool false) (c :: r)
          else
            match parse_int (c :: r) with
            | Some (n, rest) => Some (JInt n, rest)
            | None => None
            end
      end
  end
with parse_items (fuel : nat) (s : list ascii) (acc : list json)
  : option (json * list ascii) :=
  match fuel with
  | O => None
  | S fuel' =>
      match parse_value fuel' s with
      | Some (v, rest) =>
          match skip_ws rest with
          | c :: r =>
              if Ascii.eqb c "," then parse_items fuel' r (acc ++ [v])
              else if Ascii.eqb c "]" then Some (JList (acc ++ [v]), r)
              else None
          | [] => None
          end
      | None => None
      end
  end
with parse_members (fuel : nat) (s : list ascii) (acc : list (string * json))
  : option (json * list ascii) :=
  match fuel with
  | O => None
  | S fuel' =>
      match skip_ws s with
      | q :: r =>
          if Ascii.eqb q dquote then
            match parse_string r with
            | Some (k, rest) =>
                match skip_ws rest with
                | colon :: r1 =>
                    if Ascii.eqb colon ":" then
                      match parse_value fuel' r1 with
                      | Some (v, rest') =>
                          match skip_ws rest' with
                          | c :: r2 =>
                              if Ascii.eqb c "," then
                                parse_members fuel' r2 (dict_set acc k v)
                              else if Ascii.eqb c "}" then
                                Some (JDict (dict_set acc k v), r2)
                              else None
                          | [] => None
                          end
                      | None => None
                      end
                    else None
                | [] => None
                end
            | None => None
            end
          else None
      | [] => None
      end
  end.

Definition loads (s : list ascii) : result json :=
  match parse_value (2 * length s + 2) s with
  | Some (v, rest) =>
      match skip_ws rest with
      | [] => Ok v
      | _ => Raise (Exn ValueError "Extra data")
      end
  | None => Raise (Exn ValueError "Expecting value")
  end.

Fixpoint repr (v : json) : string :=
  match v with
  | JNull => "None"
  | JBool b => if b then "True" else "False"
  | JInt n => pretty n
  | JFloat _ => "nan"
  | JStr s => "'" +:+ s +:+ "'"
  | JList l =>
      "[" +:+ (fix items (l : list json) : string :=
                 match l with
                 | [] => EmptyString
                 | [x] => repr x
                 | x :: r => repr x +:+ ", " +:+ items r
                 end) l +:+ "]"
  | JDict d =>
      "{" +:+ (fix members (d : list (string * json)) : string :=
                 match d with
                 | [] => EmptyString
                 | [(k, x)] => "'" +:+ k +:+ "': " +:+ repr x
                 | (k, x) :: r =>
                     "'" +:+ k +:+ "': " +:+ repr x +:+ ", " +:+ members r
                 end) d +:+ "}"
  end.

Definition runtime : PyRuntime :=
  {| dumps_utf8 v := map byte_of_ascii (list_ascii_of_string (dumps v));
     loads_utf8 b := loads (map ascii_of_byte b);
     py_repr := repr |}.

End MiniJson.

(** ** Fixtures for the worked examples *)

(** A session whose enable flag is off. *)
Definition plain_session : EncryptionContext :=
  {| enabled := false; _aes_key := []; _private_bytes := [];
     _public_bytes := [] |}.

(** A listener on the directory [recv] with both callbacks given. *)
Definition recv_listener : FileListener :=
  {| _receive_dir := ["recv"%string]; _encryption := plain_session;
     _on_file_received := true; _on_progress := true |}.

(** A quiet socket: nothing to read, nothing sent yet. *)
Definition idle_socket : Socket :=
  {| sock_in := []; sock_out := []; sock_send_faults := [];
     sock_closed := false |}.

(** The receive directory of scenario S5, with [report.pdf] and
    [report_1.pdf] in it. *)
Definition report_files : FileSystem :=
  {| files :=
       <[ ["recv"; "report_1.pdf"]%string := encode_ascii "second" ]>
         (<[ ["recv"; "report.pdf"]%string := encode_ascii "first" ]> ∅);
     dirs := {[ ["recv"%string] ]};
     io_faults := [] |}.

(** An empty receive directory. *)
Definition empty_disk : FileSystem :=
  {| files := ∅; dirs := {[ ["recv"%string] ]}; io_faults := [] |}.

(** A peer's frames for the examples, encoded with the example runtime. *)
Definition example_handshake : Z * bytes :=
  (MSG_HANDSHAKE, @build_handshake_payload MiniJson.runtime "sender" false).

Definition example_meta (chunk_count : Z) : Z * bytes :=
  (MSG_FILE_META,
   @build_file_meta_payload MiniJson.runtime "a.txt" 2 "text/plain"
     chunk_count 65536).

Definition example_chunk (index : Z) (data : string) : Z * bytes :=
  (MSG_CHUNK,
   match build_chunk_payload index (encode_ascii data) with
   | Ok payload => payload
   | _ => []
   end).

Definition example_done : Z * bytes :=
  (MSG_DONE, @build_done_payload MiniJson.runtime).

(** A socket on which the peer has written [frames] and closed. *)
Definition socket_reading (frames : list (Z * bytes)) : Socket :=
  {| sock_in := stream frames; sock_out := []; sock_send_faults := [];
     sock_closed := false |}.

(** A peer that announces one chunk and sends two. *)
Definition overrun_frames : list (Z * bytes) :=
  [example_meta 1; example_chunk 0 "a"; example_chunk 1 "b"].

(** A peer that keeps to what it announced. *)
Definition honest_frames : list (Z * bytes) :=
  [example_handshake; example_meta 2; example_chunk 0 "a";
   example_chunk 1 "b"; example_done].

(** The state after one more turn of the handler's loop, in the example
    setting. *)
Definition turn (c : Conn) : Conn :=
  (@handle_frame MiniJson.runtime None recv_listener c).2.

(** A transmitter with the default configuration, and the world of
    scenario S4's retry: a five-byte file, and a peer that refuses the
    chunk twice before it accepts it. *)
Definition default_transmitter : Transmitter.FileTransmitter :=
  {| Transmitter.config := Transmitter.SenderConfig_default;
     Transmitter._encryption := plain_session |}.

Definition example_nack : Z * bytes :=
  (MSG_ACK, @build_ack_payload MiniJson.runtime false "busy").

Definition example_ack : Z * bytes :=
  (MSG_ACK, @build_ack_payload MiniJson.runtime true "Chunk 0 OK").

Definition retry_world : Transmitter.World :=
  {| Transmitter.source := encode_ascii "hello";
     Transmitter.file_faults := [];
     Transmitter.mime_guess := Some "text/plain"%string;
     Transmitter.connect_fault := None;
     Transmitter.sock_created := true;
     Transmitter.sock := socket_reading [example_nack; example_nack; example_ack];
     Transmitter.cancel_polls := [];
     Transmitter.urandom := [];
     Transmitter.progress_queue := [] |}.

(** Scenario S1: the five bytes [hello] in [hello.txt], and a peer that
    acknowledges each of the four frames. *)
Definition hello_world : Transmitter.World :=
  {| Transmitter.source := encode_ascii "hello";
     Transmitter.file_faults := [];
     Transmitter.mime_guess := Some "text/plain"%string;
     Transmitter.connect_fault := None;
     Transmitter.sock_created := false;
     Transmitter.sock :=
       socket_reading
         [(MSG_ACK, @build_ack_payload MiniJson.runtime true "Ready");
          (MSG_ACK, @build_ack_payload MiniJson.runtime true "Metadata accepted");
          (MSG_ACK, @build_ack_payload MiniJson.runtime true "Chunk 0 OK");
          (MSG_ACK, @build_ack_payload MiniJson.runtime true "File saved")];
     Transmitter.cancel_polls := [];
     Transmitter.urandom := [];
     Transmitter.progress_queue := [] |}.

Definition hello_sent : Transmitter.World :=
  @Transmitter._transfer_worker MiniJson.runtime None default_transmitter
    ["send"; "hello.txt"]%string hello_world.

(** The listener's end of S1: what the transmitter wrote, read back. *)
Definition hello_received : result unit * Conn :=
  @_handle_connection MiniJson.runtime None recv_listener 5
    (Conn_init
       {| sock_in := map Rx (concat (sock_out (Transmitter.sock hello_sent)));
          sock_out := []; sock_send_faults := []; sock_closed := false |}
       empty_disk).

(** ** Vocabulary of the further properties *)

(** A string without a path separator. *)
Definition plain (s : string) : Prop := str_contains "/" s = false.

(** The name tried after [counter] collisions with [target]. *)
Definition candidate (target : Path) (counter : Z) : string :=
  Pathlib.stem target +:+ "_" +:+ pretty counter +:+ Pathlib.suffix target.

(** What [Path(...)] and [/] build: at most a root, then parts without
    separators. *)
Definition parsed_path (p : Path) : Prop :=
  exists r q, p = r ++ q /\
    (r = [] \/ r = ["/"%string] \/ r = ["//"%string]) /\ Forall plain q.

(** A CHUNK frame for [data] as chunk [index]. *)
Definition chunk_frame (index : Z) (data : bytes) : Z * bytes :=
  (MSG_CHUNK,
   match build_chunk_payload index data with
   | Ok payload => payload
   | _ => []
   end).

(** No failure is scheduled for the next file operation. *)
Definition next_io_ok (d : FileSystem) : Prop :=
  match io_faults d with
  | Some _ :: _ => False
  | _ => True
  end.

(** The dictionary that [build_file_meta_payload] encodes. *)
Definition file_meta_dict (filename : string) (file_size : Z)
    (mime_type : string) (chunk_count chunk_size : Z) : json :=
  JDict [("filename"%string, JStr filename);
         ("file_size"%string, JInt file_size);
         ("mime_type"%string, JStr mime_type);
         ("chunk_count"%string, JInt chunk_count);
         ("chunk_size"%string, JInt chunk_size)].

Section ListenerStates.
Context {rt : PyRuntime}.
Variable self : FileListener.

(** The frame that [_send_error] writes. *)
Definition error_frame (code : Z) (reason : string) : bytes :=
  wire (MSG_ERROR, build_error_payload code reason).

(** The frame that [_send_ack] writes for a success. *)
Definition ack_frame (message : string) : bytes :=
  wire (MSG_ACK, build_ack_payload true message).

(** The state in which [_handle_connection] leaves a connection whose loop
    stopped in [c] with no file open. *)
Definition hung_up (c : Conn) : Conn :=
  with_conn sock_close (with_file_handle None c).

(** The state after a chunk was written. *)
Definition chunk_stored (idx : Z) (data : bytes) (path : Path)
    (rest : list recv_item) (c : Conn) : Conn :=
  let info := set_chunks_received (chunks_received (file_info c) + 1)
                (file_info c) in
  {| conn := socket_after_send
               (ack_frame ("Chunk " +:+ pretty idx +:+ " OK"))
               (socket_with_in rest (conn c));
     fs := {| files := alter (fun old => old ++ data) path (files (fs c));
              dirs := dirs (fs c);
              io_faults := tail (io_faults (fs c)) |};
     file_info := info;
     file_handle := Some path;
     progress_calls :=
       if _on_progress self then progress_calls c ++ [info]
       else progress_calls c;
     received_calls := received_calls c |}.

(** The state after the chunks [cs] were written, one frame after the
    other. *)
Fixpoint chunks_stored (cs : list (Z * bytes)) (path : Path)
    (rest : list recv_item) (c : Conn) : Conn :=
  match cs with
  | [] => c
  | ix :: cs' =>
      chunks_stored cs' path rest
        (chunk_stored ix.1 ix.2 path
           (stream (map (fun ix => chunk_frame ix.1 ix.2) cs') ++ rest) c)
  end.

(** The chunks fit in a frame, and so do the replies to them. *)
Definition chunks_fit (cs : list (Z * bytes)) : Prop :=
  Forall (fun ix : Z * bytes =>
            0 <= ix.1 <= 4294967295 /\ len ix.2 + 4 <= 4294967295 /\
            len (build_ack_payload true ("Chunk " +:+ pretty ix.1 +:+ " OK"))
              <= 4294967295) cs.

(** The file system after a [close] that succeeded. *)
Definition after_io (d : FileSystem) : FileSystem :=
  {| files := files d; dirs := dirs d; io_faults := tail (io_faults d) |}.

(** The state in which a DONE frame leaves the connection, when the file
    that is open, if one is, is closed without an error. *)
Definition done_handled (rest : list recv_item) (c : Conn) : Conn :=
  {| conn := socket_after_send (ack_frame "File saved")
               (socket_with_in rest (conn c));
     fs := match file_handle c with
           | Some _ => after_io (fs c)
           | None => fs c
           end;
     file_info := file_info c; file_handle := None;
     progress_calls := progress_calls c;
     received_calls :=
       if _on_file_received self
       then received_calls c
              ++ [(save_path (file_info c), mime_type (file_info c))]
       else received_calls c |}.

End ListenerStates.

(** A step that returns or raises: its loops end. *)
Definition returns {St A} (m : M St A) : Prop :=
  forall s s', m s <> (OutOfFuel, s').

(** From [c] to [c'] the socket has not been closed, and no failure of a
    file operation is scheduled if none was. *)
Definition kept (c c' : Conn) : Prop :=
  sock_closed (conn c') = sock_closed (conn c) /\
  (io_faults (fs c) = [] -> io_faults (fs c') = []).

Definition keeping {A} (m : M Conn A) : Prop :=
  forall c r c', m c = (r, c') -> kept c c'.

(** [TransferProgress(error=message)] *)
Definition error_report (message : string) : Transmitter.TransferProgress :=
  {| Transmitter.chunks_sent := 0; Transmitter.total_chunks := 0;
     Transmitter.bytes_sent := 0; Transmitter.total_bytes := 0;
     Transmitter.done := false; Transmitter.error := message |}.

(** A snapshot queued after a chunk. *)
Definition progress_report (p : Transmitter.TransferProgress) : Prop :=
  Transmitter.done p = false /\ Transmitter.error p = EmptyString.

(** A step of the transmitter that returns or raises, and puts nothing on
    the progress queue. *)
Definition quiet {A} (m : M Transmitter.World A) : Prop :=
  forall w r w',
    m w = (r, w') ->
    r <> OutOfFuel /\
    Transmitter.progress_queue w' = Transmitter.progress_queue w.

(** ** Fixtures for the further examples *)

(** A socket with the bytes [data] to read. *)
Definition socket_holding (data : bytes) : Socket :=
  {| sock_in := map Rx data ++ []; sock_out := []; sock_send_faults := [];
     sock_closed := false |}.

(** The header made for chunk 0 with data [ab]. *)
Definition tampered_header : bytes := take 256 (wire (example_chunk 0 "ab")).


(** A world in which the file to send is missing. *)
Definition missing_file_world : Transmitter.World :=
  {| Transmitter.source := [];
     Transmitter.file_faults :=
       [Some (Exn OSError
                "[Errno 2] No such file or directory: 'send/gone.txt'")];
     Transmitter.mime_guess := None;
     Transmitter.connect_fault := None;
     Transmitter.sock_created := false;
     Transmitter.sock := idle_socket;
     Transmitter.cancel_polls := [];
     Transmitter.urandom := [];
     Transmitter.progress_queue := [] |}.

(** A transmitter configured with a chunk size of zero. *)
Definition zero_chunk_transmitter : Transmitter.FileTransmitter :=
  {| Transmitter.config :=
       {| Transmitter.chunk_size := 0;
          Transmitter.encryption_enabled := false |};
     Transmitter._encryption := plain_session |}.

(** A connection on which [a.txt] was announced and is open. *)
Definition open_transfer : Conn :=
  turn (Conn_init (socket_reading [example_meta 1; chunk_frame 7 [x61; x62]])
          empty_disk).

(** A whole transfer of [a.txt] in two chunks, without a handshake. *)
Definition transfer_frames : list (Z * bytes) :=
  [example_meta 2; chunk_frame 0 [x61]; chunk_frame 1 [x62]; example_done].

(** A world whose peer has acknowledged one frame. *)
Definition acked_world : Transmitter.World :=
  {| Transmitter.source := [];
     Transmitter.file_faults := [];
     Transmitter.mime_guess := None;
     Transmitter.connect_fault := None;
     Transmitter.sock_created := true;
     Transmitter.sock := socket_reading [example_ack];
     Transmitter.cancel_polls := [];
     Transmitter.urandom := [];
     Transmitter.progress_queue := [] |}.

(** The header of the acknowledgement of chunk 0, followed by the payload
    of the acknowledgement of chunk 9. *)
Definition mismatched_ack : bytes :=
  take 256 (wire example_ack)
    ++ @build_ack_payload MiniJson.runtime true "Chunk 9 OK".

Definition mismatched_world : Transmitter.World :=
  Transmitter.with_sock (fun _ => socket_holding mismatched_ack) acked_world.

(** [FileTransmitter.__init__]: the configuration and the session; the
    queue, the thread and the cancel event are part of the world. *)
Definition FileTransmitter_init (cryptography : option CryptoBackend)
    (entropy : bytes) (config : Transmitter.SenderConfig)
  : result Transmitter.FileTransmitter :=
  session <~ EncryptionContext_init cryptography entropy
               (Transmitter.encryption_enabled config) ;;
  Ok {| Transmitter.config := config; Transmitter._encryption := session |}.

(** [EncryptionContext.public_key_bytes] *)
Definition public_key_bytes (self : EncryptionContext) : bytes :=
  _public_bytes self.

(** A stand-in for the [cryptography] package in the examples: keys are
    checked for their length as [AESGCM] does, the cipher reverses the
    bytes, and the agreed key depends on the lengths of the two keys
    only. *)
Definition mirror_key_error : exn :=
  Exn ValueError "AESGCM key must be 128, 192, or 256 bits.".

Definition mirror_key_ok (key : bytes) : bool :=
  bool_decide (length key = 16%nat \/ length key = 24%nat
               \/ length key = 32%nat).

Definition mirror_backend : CryptoBackend :=
  {| X25519_generate entropy := (entropy, entropy);
     X25519_HKDF private_bytes peer_public_bytes :=
       Ok (replicate 32
             (byte_of_Z (len private_bytes + len peer_public_bytes)));
     AESGCM_encrypt key nonce plaintext :=
       if mirror_key_ok key then Ok (rev plaintext)
       else Raise mirror_key_error;
     AESGCM_decrypt key nonce ciphertext :=
       if mirror_key_ok key then Ok (rev ciphertext)
       else Raise mirror_key_error |}.

(** A configuration that asks for encryption. *)
Definition encrypting_config : Transmitter.SenderConfig :=
  {| Transmitter.chunk_size := DEFAULT_CHUNK_SIZE;
     Transmitter.encryption_enabled := true |}.

(** ** [sender/file_browser.py] *)

Module Browser.

(** [FileEntry]: the attributes that [__init__] reads off the file
    system. *)
Record FileEntry := {
  name : string;
  path : Path;
  size : Z;
  mime_type : string
}.

(** The state of a [FileBrowser]; the directory is scanned by the caller of
    [refresh] in this model. *)
Record FileBrowser := {
  _files : list FileEntry;
  _current_index : Z
}.

(** [l[i]] on a Python list: a negative index counts from the end, and
    [None] stands for [IndexError]. *)
Definition py_index {A} (l : list A) (i : Z) : option A :=
  let j := if i <? 0 then i + len l else i in
  if (0 <=? j) && (j <? len l) then l !! Z.to_nat j else None.

Definition is_empty (self : FileBrowser) : bool :=
  len (_files self) =? 0.

Definition file_count (self : FileBrowser) : Z := len (_files self).

(** [current_file]: [Some None] is the value [None], and [None] stands
    for [IndexError]. *)
Definition current_file (self : FileBrowser) : option (option FileEntry) :=
  match _files self with
  | [] => Some None
  | _ => Some <$> py_index (_files self) (_current_index self)
  end.

Definition with_index (i : Z) (self : FileBrowser) : FileBrowser :=
  {| _files := _files self; _current_index := i |}.

Definition next_file (self : FileBrowser)
  : option (option FileEntry) * FileBrowser :=
  match _files self with
  | [] => (Some None, self)
  | _ =>
      let self' :=
        with_index ((_current_index self + 1) mod len (_files self)) self in
      (current_file self', self')
  end.

Definition previous_file (self : FileBrowser)
  : option (option FileEntry) * FileBrowser :=
  match _files self with
  | [] => (Some None, self)
  | _ =>
      let self' :=
        with_index ((_current_index self - 1) mod len (_files self)) self in
      (current_file self', self')
  end.

(** [refresh]: [scan] is what the directory listing gives, the files in
    sorted order, or [None] when it raises [OSError]. *)
Definition refresh (scan : option (list FileEntry)) (self : FileBrowser)
  : FileBrowser :=
  let files := default [] scan in
  {| _files := files;
     _current_index :=
       match files with
       | [] => 0
       | _ => Z.min (_current_index self) (len files - 1)
       end |}.

(** [FileBrowser.__init__] *)
Definition FileBrowser_init (scan : option (list FileEntry)) : FileBrowser :=
  refresh scan {| _files := []; _current_index := 0 |}.

(** [get_visible_window]; [None] stands for [IndexError]. *)
Definition get_visible_window (self : FileBrowser) (window_size : Z)
  : option (list FileEntry) :=
  match _files self with
  | [] => Some []
  | _ =>
      let half := window_size / 2 in
      let total := len (_files self) in
      if total <=? window_size then Some (_files self)
      else
        let start := _current_index self - half in
        let indices :=
          map (fun i => (start + Z.of_nat i) mod total)
              (seq 0 (Z.to_nat window_size)) in
        mapM (py_index (_files self)) indices
  end.

(** The browsers that the application can get to: built by the
    constructor, then refreshed and moved in any order. *)
Inductive reachable : FileBrowser -> Prop :=
| reach_init scan : reachable (FileBrowser_init scan)
| reach_refresh scan b : reachable b -> reachable (refresh scan b)
| reach_next b : reachable b -> reachable (next_file b).2
| reach_previous b : reachable b -> reachable (previous_file b).2.

(** The index points into the list, or is 0 on an empty list. *)
Definition in_range (self : FileBrowser) : Prop :=
  match _files self with
  | [] => _current_index self = 0
  | _ => 0 <= _current_index self < len (_files self)
  end.

End Browser.

(** Three files for the examples. *)
Definition three_files : list Browser.FileEntry :=
  map (fun n => {| Browser.name := n; Browser.path := ["send"%string; n];
                   Browser.size := 1;
                   Browser.mime_type := "text/plain" |})
      ["a.txt"; "b.txt"; "c.txt"]%string.

(** The browser on [three_files] after one move to the next file. *)
Definition second_of_three : Browser.FileBrowser :=
  (Browser.next_file (Browser.FileBrowser_init (Some three_files))).2.

(** ** A transfer that nothing disturbs *)

(** What the loop of [_transfer_worker] reads in at most [n] turns: the
    results of [f.read(chunk_size)] up to the first empty one. *)
Fixpoint file_chunks (n : nat) (csize : Z) (f : bytes) : list bytes :=
  match n with
  | O => []
  | S n' =>
      let (raw_data, rest) := Transmitter.file_read csize f in
      match raw_data with
      | [] => []
      | _ => raw_data :: file_chunks n' csize rest
      end
  end.

(** The chunks with their indices, counted from [idx]. *)
Fixpoint numbered (idx : Z) (cs : list bytes) : list (Z * bytes) :=
  match cs with
  | [] => []
  | data :: cs' => (idx, data) :: numbered (idx + 1) cs'
  end.

(** The snapshots queued for the chunks [cs], the first of which has index
    [idx], after [sent] bytes. *)
Fixpoint chunk_reports (total file_size idx sent : Z) (cs : list bytes)
  : list Transmitter.TransferProgress :=
  match cs with
  | [] => []
  | data :: cs' =>
      {| Transmitter.chunks_sent := idx + 1;
         Transmitter.total_chunks := total;
         Transmitter.bytes_sent := sent + len data;
         Transmitter.total_bytes := file_size;
         Transmitter.done := false; Transmitter.error := EmptyString |}
        :: chunk_reports total file_size (idx + 1) (sent + len data) cs'
  end.

(** The snapshot queued after the reply to DONE. *)
Definition completion_report (total file_size : Z)
  : Transmitter.TransferProgress :=
  {| Transmitter.chunks_sent := total; Transmitter.total_chunks := total;
     Transmitter.bytes_sent := file_size;
     Transmitter.total_bytes := file_size;
     Transmitter.done := true; Transmitter.error := EmptyString |}.

(** A reply payload that [_wait_for_ack] accepts. *)
Definition accepted_ack {rt : PyRuntime} (p : bytes) : Prop :=
  len p <= 4294967295 /\
  exists d, loads_utf8 p = Ok (JDict d) /\ ack_success d = true.

(** The ACK frames for the payloads [replies], as they come in. *)
Definition acks_in (replies : list bytes) : list recv_item :=
  stream (map (fun p => (MSG_ACK, p)) replies).

(** Nothing is scheduled to fail, and no cancellation is pending. *)
Definition clean (w : Transmitter.World) : Prop :=
  Transmitter.file_faults w = [] /\
  Transmitter.connect_fault w = None /\
  Forall (fun b => b = false) (Transmitter.cancel_polls w) /\
  sock_send_faults (Transmitter.sock w) = [].

(** From [w] to [w'] the transmitter has written [frames], is left with
    [rest] to read and has queued [reports]. *)
Definition advanced (frames : list bytes) (rest : list recv_item)
    (reports : list Transmitter.TransferProgress)
    (w w' : Transmitter.World) : Prop :=
  clean w' /\
  Transmitter.source w' = Transmitter.source w /\
  Transmitter.mime_guess w' = Transmitter.mime_guess w /\
  Transmitter.sock_created w' = Transmitter.sock_created w /\
  sock_closed (Transmitter.sock w') = sock_closed (Transmitter.sock w) /\
  sock_out (Transmitter.sock w') = sock_out (Transmitter.sock w) ++ frames /\
  sock_in (Transmitter.sock w') = rest /\
  Transmitter.progress_queue w' = Transmitter.progress_queue w ++ reports.

(** The frames of a whole transfer of the file at [filepath], cut into
    [total] chunks at most. *)
Definition sender_frames {rt : PyRuntime} (self : Transmitter.FileTransmitter)
    (filepath : Path) (w : Transmitter.World) (total : Z) : list (Z * bytes) :=
  let file_size := len (Transmitter.source w) in
  let csize :=
    choose_chunk_size (Transmitter.chunk_size (Transmitter.config self))
      file_size in
  let mime :=
    default "application/octet-stream"%string (Transmitter.mime_guess w) in
  [(MSG_HANDSHAKE,
    build_handshake_payload "sender"
      (Transmitter.encryption_enabled (Transmitter.config self)));
   (MSG_FILE_META,
    build_file_meta_payload (Pathlib.name filepath) file_size mime total csize)]
    ++ map (fun ix => chunk_frame ix.1 ix.2)
         (numbered 0 (file_chunks (Z.to_nat total) csize
                        (Transmitter.source w)))
    ++ [(MSG_DONE, build_done_payload)].

(** The runtime reads back the value [v] that it wrote, and what it wrote
    fits in a frame. *)
Definition reads_back {rt : PyRuntime} (v : json) : Prop :=
  loads_utf8 (dumps_utf8 v) = Ok v /\ len (dumps_utf8 v) <= 4294967295.

(** The dictionary of a positive reply. *)
Definition ack_dict (message : string) : json :=
  JDict [("success"%string, JBool true); ("message"%string, JStr message)].

(** The messages of the listener's replies to a whole transfer with the
    chunks [cs]. *)
Definition ack_messages (cs : list (Z * bytes)) : list string :=
  ["Ready"; "Metadata accepted"]%string
    ++ map (fun ix : Z * bytes => "Chunk " +:+ pretty ix.1 +:+ " OK") cs
    ++ ["File saved"%string].

(** The listener's replies to a whole transfer with the chunks [cs], as
    frames. *)
Definition listener_acks {rt : PyRuntime} (cs : list (Z * bytes))
  : list (Z * bytes) :=
  map (fun m => (MSG_ACK, build_ack_payload true m)) (ack_messages cs).

(** The listener's end of scenario S1: a fresh connection on which the
    frames of [hello.txt] come in, over an empty receive directory. *)
Definition hello_listening : Conn :=
  Conn_init
    (socket_reading
       (@sender_frames MiniJson.runtime default_transmitter
          ["send"; "hello.txt"]%string hello_world 1))
    empty_disk.

(** ** [sender/gesture_engine.py]: the state machine *)

Module Gesture.

(** The states and the gestures of [shared/constants.py]. *)
Definition STATE_IDLE : string := "IDLE".
Definition STATE_BROWSING : string := "BROWSING".
Definition STATE_FILE_SELECTED : string := "FILE_SELECTED".
Definition STATE_CONFIRMING_SEND : string := "CONFIRMING_SEND".
Definition STATE_SENDING : string := "SENDING".
Definition STATE_SEND_COMPLETE : string := "SEND_COMPLETE".

Definition GESTURE_OPEN_PALM : string := "Open Palm".
Definition GESTURE_SWIPE_LEFT : string := "Swipe Left".
Definition GESTURE_SWIPE_RIGHT : string := "Swipe Right".
Definition GESTURE_PINCH : string := "Pinch".
Definition GESTURE_FIST : string := "Fist".
Definition GESTURE_TWO_FINGER : string := "Two Finger Point".
Definition GESTURE_NONE : string := "None".

(** The dictionary [_VALID_GESTURES]. *)
Definition _VALID_GESTURES : gmap string (gset string) :=
  <[STATE_IDLE := {[GESTURE_OPEN_PALM]}]>
  (<[STATE_BROWSING :=
       {[GESTURE_SWIPE_LEFT; GESTURE_SWIPE_RIGHT; GESTURE_PINCH;
         GESTURE_FIST]}]>
  (<[STATE_FILE_SELECTED :=
       {[GESTURE_OPEN_PALM; GESTURE_SWIPE_LEFT; GESTURE_SWIPE_RIGHT;
         GESTURE_FIST; GESTURE_TWO_FINGER]}]>
  (<[STATE_CONFIRMING_SEND := {[GESTURE_PINCH; GESTURE_FIST]}]>
  (<[STATE_SENDING := {[GESTURE_FIST]}]>
  (<[STATE_SEND_COMPLETE := ∅]> ∅))))).

(** [_VALID_GESTURES.get(state, set())] *)
Definition valid_gestures (state : string) : gset string :=
  default ∅ (_VALID_GESTURES !! state).

(** The six states and the six gestures. *)
Definition states : list string :=
  [STATE_IDLE; STATE_BROWSING; STATE_FILE_SELECTED; STATE_CONFIRMING_SEND;
   STATE_SENDING; STATE_SEND_COMPLETE].

Definition gestures : list string :=
  [GESTURE_OPEN_PALM; GESTURE_SWIPE_LEFT; GESTURE_SWIPE_RIGHT; GESTURE_PINCH;
   GESTURE_FIST; GESTURE_TWO_FINGER].

(** What the engine takes from Python floats: the type of the time stamps
    and the cooldowns, [a - b], [a < b], and the literals [0.0] and
    [0.5]. *)
Class PyFloats := {
  pyfloat : Type;
  fsub : pyfloat -> pyfloat -> pyfloat;
  flt : pyfloat -> pyfloat -> bool;
  f_zero : pyfloat;
  f_half : pyfloat
}.

Section Engine.
Context {fl : PyFloats}.

(** The fields of [SenderConfig] that the engine reads. *)
Record GestureConfig := {
  hysteresis_frames : Z;
  cooldown_open_palm : pyfloat;
  cooldown_swipe : pyfloat;
  cooldown_pinch : pyfloat;
  cooldown_fist : pyfloat;
  cooldown_two_finger : pyfloat
}.

Record GestureEngine := {
  _state : string;
  _cooldowns : gmap string pyfloat;
  _cooldown_durations : gmap string pyfloat;
  _hysteresis : gmap string Z;
  _hysteresis_threshold : Z;
  _point_history : list (Z * Z);
  _send_complete_time : pyfloat;
  last_gesture : string
}.

(** [GestureEngine.__init__] *)
Definition GestureEngine_init (config : GestureConfig) : GestureEngine :=
  let cooldowns : gmap string pyfloat :=
    <[GESTURE_OPEN_PALM := f_zero]>
    (<[GESTURE_SWIPE_LEFT := f_zero]>
    (<[GESTURE_SWIPE_RIGHT := f_zero]>
    (<[GESTURE_PINCH := f_zero]>
    (<[GESTURE_FIST := f_zero]>
    (<[GESTURE_TWO_FINGER := f_zero]> ∅))))) in
  {| _state := STATE_IDLE;
     _cooldowns := cooldowns;
     _cooldown_durations :=
       <[GESTURE_OPEN_PALM := cooldown_open_palm config]>
       (<[GESTURE_SWIPE_LEFT := cooldown_swipe config]>
       (<[GESTURE_SWIPE_RIGHT := cooldown_swipe config]>
       (<[GESTURE_PINCH := cooldown_pinch config]>
       (<[GESTURE_FIST := cooldown_fist config]>
       (<[GESTURE_TWO_FINGER := cooldown_two_finger config]> ∅)))));
     _hysteresis := (fun _ => 0) <$> cooldowns;
     _hysteresis_threshold := hysteresis_frames config;
     _point_history := [];
     _send_complete_time := f_zero;
     last_gesture := GESTURE_NONE |}.

(** The setter of the property [state]. *)
Definition set_state (value : string) (self : GestureEngine) : GestureEngine :=
  {| _state := value;
     _cooldowns := _cooldowns self;
     _cooldown_durations := _cooldown_durations self;
     _hysteresis := _hysteresis self;
     _hysteresis_threshold := _hysteresis_threshold self;
     _point_history := _point_history self;
     _send_complete_time := _send_complete_time self;
     last_gesture := last_gesture self |}.

Definition with_hysteresis (h : gmap string Z) (self : GestureEngine)
  : GestureEngine :=
  {| _state := _state self;
     _cooldowns := _cooldowns self;
     _cooldown_durations := _cooldown_durations self;
     _hysteresis := h;
     _hysteresis_threshold := _hysteresis_threshold self;
     _point_history := _point_history self;
     _send_complete_time := _send_complete_time self;
     last_gesture := last_gesture self |}.

Definition _reset_hysteresis (self : GestureEngine) : GestureEngine :=
  with_hysteresis ((fun _ => 0) <$> _hysteresis self) self.

(** The end of [_apply_hysteresis], once the gesture is confirmed. *)
Definition confirm (gesture : string) (now : pyfloat) (self : GestureEngine)
  : GestureEngine :=
  let self1 :=
    {| _state := _state self;
       _cooldowns := <[gesture := now]> (_cooldowns self);
       _cooldown_durations := _cooldown_durations self;
       _hysteresis := _hysteresis self;
       _hysteresis_threshold := _hysteresis_threshold self;
       _point_history := [];
       _send_complete_time := _send_complete_time self;
       last_gesture := last_gesture self |} in
  _reset_hysteresis self1.

Definition _apply_hysteresis (gesture : string) (now : pyfloat)
  : M GestureEngine (option string) :=
  fun self =>
    if bool_decide (gesture = GESTURE_NONE) then
      (Ok None, _reset_hysteresis self)
    else if negb (bool_decide (gesture ∈ valid_gestures (_state self))) then
      (Ok None, _reset_hysteresis self)
    else
      let self1 :=
        with_hysteresis
          (map_imap
             (fun g n => Some (if bool_decide (g = gesture) then n + 1 else 0))
             (_hysteresis self))
          self in
      match _hysteresis self1 !! gesture with
      | None => (Raise (Exn KeyError gesture), self1)
      | Some n =>
          if n <? _hysteresis_threshold self1 then (Ok None, self1)
          else
            let cooldown :=
              default f_half (_cooldown_durations self1 !! gesture) in
            if flt (fsub now (default f_zero (_cooldowns self1 !! gesture)))
                 cooldown
            then (Ok None, self1)
            else (Ok (Some gesture), confirm gesture now self1)
      end.

Definition _process_transition (gesture : string) (self : GestureEngine)
  : GestureEngine :=
  if bool_decide (_state self = STATE_IDLE) then
    if bool_decide (gesture = GESTURE_OPEN_PALM)
    then set_state STATE_BROWSING self else self
  else if bool_decide (_state self = STATE_BROWSING) then
    if bool_decide (gesture = GESTURE_PINCH)
    then set_state STATE_FILE_SELECTED self
    else if bool_decide (gesture = GESTURE_FIST)
    then set_state STATE_IDLE self else self
  else if bool_decide (_state self = STATE_FILE_SELECTED) then
    if bool_decide (gesture = GESTURE_OPEN_PALM)
    then set_state STATE_CONFIRMING_SEND self
    else if bool_decide (gesture = GESTURE_SWIPE_LEFT
                         \/ gesture = GESTURE_SWIPE_RIGHT)
    then set_state STATE_BROWSING self
    else if bool_decide (gesture = GESTURE_FIST)
    then set_state STATE_IDLE self else self
  else if bool_decide (_state self = STATE_CONFIRMING_SEND) then
    if bool_decide (gesture = GESTURE_PINCH)
    then set_state STATE_SENDING self
    else if bool_decide (gesture = GESTURE_FIST)
    then set_state STATE_FILE_SELECTED self else self
  else if bool_decide (_state self = STATE_SENDING) then
    if bool_decide (gesture = GESTURE_FIST)
    then set_state STATE_FILE_SELECTED self else self
  else self.

(** [notify_transfer_complete], [now] being [time.time()]. *)
Definition notify_transfer_complete (now : pyfloat) (self : GestureEngine)
  : GestureEngine :=
  let self1 := set_state STATE_SEND_COMPLETE self in
  {| _state := _state self1;
     _cooldowns := _cooldowns self1;
     _cooldown_durations := _cooldown_durations self1;
     _hysteresis := _hysteresis self1;
     _hysteresis_threshold := _hysteresis_threshold self1;
     _point_history := _point_history self1;
     _send_complete_time := now;
     last_gesture := last_gesture self1 |}.

Definition notify_transfer_error (self : GestureEngine) : GestureEngine :=
  set_state STATE_FILE_SELECTED self.

(** The calls that reach the hysteresis counters or the state, in the
    order in which [update] and the application make them. *)
Inductive call :=
| apply_hysteresis (gesture : string) (now : pyfloat)
| reset_hysteresis
| process_transition (gesture : string)
| transfer_complete (now : pyfloat)
| transfer_error.

Definition make (c : call) : M GestureEngine (option string) :=
  match c with
  | apply_hysteresis gesture now => _apply_hysteresis gesture now
  | reset_hysteresis => fun self => (Ok None, _reset_hysteresis self)
  | process_transition gesture =>
      fun self => (Ok None, _process_transition gesture self)
  | transfer_complete now =>
      fun self => (Ok None, notify_transfer_complete now self)
  | transfer_error => fun self => (Ok None, notify_transfer_error self)
  end.

(** The calls [cs] one after the other; the result of the last one. *)
Fixpoint make_all (cs : list call) (latest : option string)
  : M GestureEngine (option string) :=
  match cs with
  | [] => ret latest
  | c :: cs' => r <- make c ;; make_all cs' r
  end.

(** For how many of the latest calls of [_apply_hysteresis] the gesture was
    [gesture] without a break: another gesture or a reset breaks the run,
    the other calls do not. *)
Fixpoint run_back (gesture : string) (latest_first : list call) : Z :=
  match latest_first with
  | [] => 0
  | apply_hysteresis g _ :: earlier =>
      if bool_decide (g = gesture) then 1 + run_back gesture earlier else 0
  | reset_hysteresis :: _ => 0
  | _ :: earlier => run_back gesture earlier
  end.

Definition held_for (gesture : string) (cs : list call) : Z :=
  run_back gesture (rev cs).

(** What holds of the engine after the calls [history]: the six gestures
    have a counter, and the counter of a gesture is at most the number of
    the latest calls in a row with that gesture. *)
Definition counters_bounded (config : GestureConfig) (self : GestureEngine)
    (history : list call) : Prop :=
  (forall g, In g gestures -> is_Some (_hysteresis self !! g)) /\
  (forall g n, _hysteresis self !! g = Some n ->
               0 <= n <= held_for g history) /\
  _hysteresis_threshold self = hysteresis_frames config.

End Engine.

(** Time in milliseconds, for the examples. *)
Definition millis : PyFloats :=
  {| pyfloat := Z; fsub := Z.sub; flt := Z.ltb; f_zero := 0; f_half := 500 |}.

End Gesture.

(** The default configuration, in milliseconds. *)
Definition default_gestures : @Gesture.GestureConfig Gesture.millis :=
  {| Gesture.hysteresis_frames := 3;
     Gesture.cooldown_open_palm := 1500 : @Gesture.pyfloat Gesture.millis;
     Gesture.cooldown_swipe := 600 : @Gesture.pyfloat Gesture.millis;
     Gesture.cooldown_pinch := 1000 : @Gesture.pyfloat Gesture.millis;
     Gesture.cooldown_fist := 1000 : @Gesture.pyfloat Gesture.millis;
     Gesture.cooldown_two_finger := 800 : @Gesture.pyfloat Gesture.millis |}.

(** ** [sender/network/transmitter.py] and [sender/main.py]: reading the
    progress queue *)

Definition with_progress_queue (q : list Transmitter.TransferProgress)
    (w : Transmitter.World) : Transmitter.World :=
  {| Transmitter.source := Transmitter.source w;
     Transmitter.file_faults := Transmitter.file_faults w;
     Transmitter.mime_guess := Transmitter.mime_guess w;
     Transmitter.connect_fault := Transmitter.connect_fault w;
     Transmitter.sock_created := Transmitter.sock_created w;
     Transmitter.sock := Transmitter.sock w;
     Transmitter.cancel_polls := Transmitter.cancel_polls w;
     Transmitter.urandom := Transmitter.urandom w;
     Transmitter.progress_queue := q |}.

(** The loop of [get_latest_progress] on a queue that nobody else touches
    meanwhile: [get_nowait] until the queue is empty. *)
Fixpoint drain (q : list Transmitter.TransferProgress)
    (latest : option Transmitter.TransferProgress)
  : option Transmitter.TransferProgress :=
  match q with
  | [] => latest
  | p :: q' => drain q' (Some p)
  end.

Definition get_latest_progress (w : Transmitter.World)
  : option Transmitter.TransferProgress * Transmitter.World :=
  (drain (Transmitter.progress_queue w) None, with_progress_queue [] w).

Module App.

Section Polling.
Context {fl : Gesture.PyFloats}.

(** What [_poll_transfer] reads and writes of the application: the gesture
    engine, the transmitter's world, the connection status, and the names
    passed to [sound.play], oldest first. *)
Record App := {
  gesture_engine : Gesture.GestureEngine;
  transmitter : Transmitter.World;
  _connection_status : string;
  sounds : list string
}.

(** [_poll_transfer]; [is_transferring] is the value of
    [self.transmitter.is_transferring], and [now] the time that
    [notify_transfer_complete] reads. *)
Definition _poll_transfer (is_transferring : bool) (now : Gesture.pyfloat)
    (self : App) : App :=
  if negb is_transferring
     && negb (bool_decide (Gesture._state (gesture_engine self)
                           = Gesture.STATE_SENDING))
  then self
  else
    let (progress, w) := get_latest_progress (transmitter self) in
    match progress with
    | None =>
        {| gesture_engine := gesture_engine self; transmitter := w;
           _connection_status := _connection_status self;
           sounds := sounds self |}
    | Some progress =>
        if negb (bool_decide (Transmitter.error progress = EmptyString)) then
          {| gesture_engine :=
               Gesture.notify_transfer_error (gesture_engine self);
             transmitter := w;
             _connection_status := "disconnected";
             sounds := sounds self ++ ["error"%string] |}
        else if Transmitter.done progress then
          {| gesture_engine :=
               Gesture.notify_transfer_complete now (gesture_engine self);
             transmitter := w;
             _connection_status := "connected";
             sounds := sounds self ++ ["complete"%string] |}
        else
          {| gesture_engine := gesture_engine self; transmitter := w;
             _connection_status := "connected";
             sounds := sounds self |}
    end.

(** The application once the worker has run on the file at [filepath]. *)
Definition after_worker (w : Transmitter.World) (self : App) : App :=
  {| gesture_engine := gesture_engine self; transmitter := w;
     _connection_status := _connection_status self;
     sounds := sounds self |}.

(** What the rendering step of [run] does to the application in state
    SENDING (lines 138 to 141): it reads the queue as [_poll_transfer]
    does, for the fraction of the progress arc, and so empties it. *)
Definition render_state (self : App) : App :=
  if bool_decide (Gesture._state (gesture_engine self)
                  = Gesture.STATE_SENDING)
  then
    {| gesture_engine := gesture_engine self;
       transmitter := (get_latest_progress (transmitter self)).2;
       _connection_status := _connection_status self;
       sounds := sounds self |}
  else self.

End Polling.

End App.

(** The application while [hello.txt] is being sent: the engine is in
    SENDING, as [_start_transfer] finds it. *)
Definition sending_app : @App.App Gesture.millis :=
  {| App.gesture_engine :=
       Gesture.set_state Gesture.STATE_SENDING
         (Gesture.GestureEngine_init default_gestures);
     App.transmitter := hello_world;
     App._connection_status := "connecting";
     App.sounds := ["send"%string] |}.

(** ** The progress values *)

(** [TransferProgress.fraction] *)
Definition fraction (self : Transmitter.TransferProgress)
  : result PyFloat.float :=
  if Transmitter.total_chunks self =? 0
  then Ok {| PyFloat.mant := 0; PyFloat.expo := 0 |}
  else PyFloat.true_divide (Transmitter.chunks_sent self)
         (Transmitter.total_chunks self).

(** [ReceivedFileInfo.progress] *)
Definition progress (self : ReceivedFileInfo) : result PyFloat.value :=
  if py_eq_zero (chunk_count self)
  then Ok (PyFloat.Finite {| PyFloat.mant := 0; PyFloat.expo := 0 |})
  else py_int_truediv (chunks_received self) (chunk_count self).

(** The float [x] lies between 0 and 1, is 1, is 0. *)
Definition in_unit_interval (x : PyFloat.float) : Prop :=
  PyFloat.expo x <= 0 /\ 0 <= PyFloat.mant x <= 2 ^ (- PyFloat.expo x).

Definition is_one (x : PyFloat.float) : Prop :=
  PyFloat.expo x <= 0 /\ PyFloat.mant x = 2 ^ (- PyFloat.expo x).

Definition is_zero (x : PyFloat.float) : Prop := PyFloat.mant x = 0.

(** * Properties *)

(** ** Bytes and the [struct] formats *)

Lemma byte_to_Z_range b : 0 <= byte_to_Z b <= 255.
Proof.
  unfold byte_to_Z. pose proof (Byte.to_N_bounded b). lia.
Qed.

Lemma byte_of_to_Z b : byte_of_Z (byte_to_Z b) = b.
Proof.
  unfold byte_of_Z. pose proof (byte_to_Z_range b) as Hr.
  rewrite Z.mod_small by lia. unfold byte_to_Z.
  rewrite N2Z.id, Byte.of_to_N. reflexivity.
Qed.

Lemma byte_to_of_Z z : byte_to_Z (byte_of_Z z) = z mod 256.
Proof.
  unfold byte_of_Z, byte_to_Z.
  pose proof (Z.mod_pos_bound z 256 ltac:(lia)) as Hm.
  destruct (Byte.of_N (Z.to_N (z mod 256))) as [b|] eqn:E.
  - apply Byte.to_of_N in E. simpl. rewrite E. lia.
  - apply Byte.of_N_None_iff in E. lia.
Qed.

Lemma byte_to_Z_inj a b : byte_to_Z a = byte_to_Z b -> a = b.
Proof.
  intros H. rewrite <- (byte_of_to_Z a), <- (byte_of_to_Z b). now rewrite H.
Qed.

Lemma be_value_4 b0 b1 b2 b3 :
  Struct.be_value [b0; b1; b2; b3] =
  byte_to_Z b0 * 16777216 + byte_to_Z b1 * 65536 + byte_to_Z b2 * 256 + byte_to_Z b3.
Proof.
  unfold Struct.be_value. simpl.
  pose proof (byte_to_Z_range b0). pose proof (byte_to_Z_range b1).
  pose proof (byte_to_Z_range b2). pose proof (byte_to_Z_range b3).
  assert (Hadd : forall a x, 0 <= a -> 0 <= x <= 255 ->
             Z.lor (Z.shiftl a 8) x = a * 256 + x).
  { intros a x Ha Hx. rewrite Z.shiftl_mul_pow2 by lia.
    assert (Hland : Z.land (a * 2 ^ 8) x = 0).
    { apply Z.bits_inj'. intros n Hn. rewrite Z.land_spec, Z.bits_0.
      destruct (Z.ltb_spec n 8).
      + rewrite Z.mul_pow2_bits_low by lia. reflexivity.
      + rewrite (Z.bits_above_log2 x n); [apply andb_false_r| lia |].
        destruct (Z.eq_dec x 0) as [->|]; [simpl; lia|].
        apply Z.log2_lt_pow2; [lia|].
        apply Z.lt_le_trans with (2 ^ 8); [simpl; lia|].
        apply Z.pow_le_mono_r; lia. }
    rewrite <- Z.lxor_lor by exact Hland.
    rewrite <- Z.add_nocarry_lxor by exact Hland. reflexivity. }
  rewrite Z.shiftl_0_l, Z.lor_0_l.
  rewrite (Hadd (byte_to_Z b0) (byte_to_Z b1)) by lia.
  rewrite (Hadd _ (byte_to_Z b2)) by lia.
  rewrite Hadd by lia. lia.
Qed.

Lemma unpack_pack_I n bs :
  Struct.pack_I n = Ok bs -> length bs = 4%nat /\ Struct.be_value bs = n.
Proof.
  unfold Struct.pack_I. intros H.
  destruct ((0 <=? n) && (n <=? 4294967295)) eqn:E; [|discriminate].
  apply andb_prop in E as [H0 H1]. apply Z.leb_le in H0, H1.
  injection H as <-. split; [reflexivity|].
  rewrite be_value_4, !byte_to_of_Z, !Z.shiftr_div_pow2 by lia.
  change (2 ^ 24) with 16777216. change (2 ^ 16) with 65536.
  change (2 ^ 8) with 256.
  pose proof (Z.div_mod n 256 ltac:(lia)).
  pose proof (Z.div_mod (n / 256) 256 ltac:(lia)).
  pose proof (Z.div_mod (n / 256 / 256) 256 ltac:(lia)).
  rewrite !Z.div_div in * by lia.
  change (256 * 256) with 65536 in *. change (65536 * 256) with 16777216 in *.
  assert (0 <= n / 16777216 < 256).
  { split; [apply Z.div_pos; lia|apply Z.div_lt_upper_bound; lia]. }
  rewrite (Z.mod_small (n / 16777216)) by lia. lia.
Qed.

Lemma pack_I_Ok n :
  0 <= n <= 4294967295 -> exists bs, Struct.pack_I n = Ok bs.
Proof.
  intros [H0 H1]. unfold Struct.pack_I.
  apply Z.leb_le in H0, H1. rewrite H0, H1. simpl. eauto.
Qed.

Lemma pack_s_exact k (s : bytes) : length s = k -> Struct.pack_s k s = s.
Proof.
  intros <-. unfold Struct.pack_s. now rewrite take_app_length.
Qed.

Lemma pack_s_length k (s : bytes) : length (Struct.pack_s k s) = k.
Proof.
  unfold Struct.pack_s. rewrite length_take, length_app, length_replicate. lia.
Qed.

(** ** SHA-256 *)

Lemma digest_length msg : length (SHA256.digest msg) = 32%nat.
Proof. reflexivity. Qed.

Example sha256_empty :
  hexdigest [] =
  "e3b0c44298fc1c149afbf4c8996fb92427ae41e4649b934ca495991b7852b855"%string.
Proof. vm_compute. reflexivity. Qed.

Example sha256_abc :
  hexdigest (encode_ascii "abc") =
  "ba7816bf8f01cfea414140de5dae2223b00361a396177a9cb410ff61f20015ad"%string.
Proof. vm_compute. reflexivity. Qed.

Example sha256_55 :
  hexdigest (replicate 55 x61) =
  "9f4390f8d30c2dd92ec9f095b65e2b9ae9b0a925a5258e241c9f1e910f734318"%string.
Proof. vm_compute. reflexivity. Qed.

Example sha256_56 :
  hexdigest (replicate 56 x61) =
  "b35439a4ac6f0948b6d6f9e3c6af0f5f590ce20f1bde7090ef7970686ec6738a"%string.
Proof. vm_compute. reflexivity. Qed.

Example sha256_64 :
  hexdigest (replicate 64 x61) =
  "ffe054fe7ae0cb6dc65c3af9b61d5209f439851db43d0ba5997337df154668eb"%string.
Proof. vm_compute. reflexivity. Qed.


(** ** The codec *)

Lemma len_app {A} (l k : list A) : len (l ++ k) = len l + len k.
Proof. unfold len. rewrite length_app. lia. Qed.

Lemma len_nonneg {A} (l : list A) : 0 <= len l.
Proof. unfold len. lia. Qed.

Lemma build_header_Ok (t : Z) (P : bytes) :
  0 <= t <= 255 -> len P <= 4294967295 ->
  exists l0 l1 l2 l3,
    Struct.pack_I (len P) = Ok [l0; l1; l2; l3] /\
    build_header t P =
      Ok ([x00; x00; xde; x0f] ++ [x02] ++ [byte_of_Z t] ++ [l0; l1; l2; l3]
            ++ SHA256.digest P ++ replicate 214 x00).
Proof.
  intros [Ht0 Ht1] HP. pose proof (len_nonneg P) as HP0.
  unfold build_header, _HEADER_STRUCT_pack.
  change (Struct.pack_B PROTOCOL_VERSION) with (Ok [x02]).
  unfold Struct.pack_B at 1, Struct.pack_I.
  apply Z.leb_le in Ht0, Ht1, HP, HP0. rewrite Ht0, Ht1, HP, HP0.
  do 4 eexists. split; [reflexivity|].
  cbn [rbind andb]. rewrite (pack_s_exact 32) by apply digest_length.
  change (Struct.pack_s 4 MAGIC_NUMBER_FULL) with [x00; x00; xde; x0f].
  change (Z.to_nat _PADDING_SIZE) with 214%nat.
  rewrite <- !app_assoc. reflexivity.
Qed.

(** C1, as amended: for a message type that fits one byte and a payload
    whose length fits the 32-bit length field, [build_header] returns exactly
    256 bytes, and [parse_header] on them returns a header carrying the
    message type, the payload length and a digest that validates the
    payload. *)
Theorem build_parse_header_roundtrip (t : Z) (P : bytes) :
  0 <= t <= 255 ->
  len P <= 4294967295 ->
  exists buf h,
    build_header t P = Ok buf /\
    len buf = 256 /\
    parse_header buf = Ok (Some h) /\
    message_type h = t /\
    payload_length h = len P /\
    validate_payload h P = true.
Proof.
  intros Ht HP.
  destruct (build_header_Ok t P Ht HP) as (l0 & l1 & l2 & l3 & Hl & Hb).
  apply unpack_pack_I in Hl as [_ Hl].
  pose proof (digest_length P) as Hd.
  remember (SHA256.digest P) as dg eqn:Edg.
  assert (Hlen : len ([x00; x00; xde; x0f] ++ [x02] ++ [byte_of_Z t]
                        ++ [l0; l1; l2; l3] ++ dg ++ replicate 214 x00) = 256).
  { unfold len. rewrite !length_app, length_replicate, Hd. reflexivity. }
  eexists. eexists. split; [exact Hb|]. split; [exact Hlen|].
  unfold parse_header, _HEADER_STRUCT_unpack_from.
  rewrite Hlen.
  destruct (decide (256 < HEADER_SIZE)) as [Hc|_]; [unfold HEADER_SIZE in Hc; lia|].
  destruct (decide (256 < _HEADER_STRUCT_size)) as [Hc|_];
    [unfold _HEADER_STRUCT_size in Hc; lia|].
  cbn [rbind app take drop nth].
  destruct (decide ([x00; x00; xde; x0f] <> MAGIC_NUMBER_FULL)) as [Hc|_];
    [exfalso; apply Hc; reflexivity|].
  change (byte_to_Z x02) with PROTOCOL_VERSION.
  destruct (decide (PROTOCOL_VERSION <> PROTOCOL_VERSION)) as [Hc|_];
    [exfalso; apply Hc; reflexivity|].
  split; [reflexivity|]. cbn [message_type payload_length payload_hash].
  split; [rewrite byte_to_of_Z; apply Z.mod_small; lia|].
  split; [exact Hl|].
  unfold validate_payload. cbn [payload_hash].
  rewrite drop_0, <- Edg, take_app_length' by (symmetry; exact Hd).
  apply bool_decide_eq_true. reflexivity.
Qed.

(** C1, witness: a FILE_META header for a seventeen-byte payload. *)
Lemma build_parse_header_roundtrip_witness :
  exists buf h,
    build_header MSG_FILE_META (encode_ascii "test payload data") = Ok buf /\
    len buf = 256 /\
    parse_header buf = Ok (Some h) /\
    message_type h = MSG_FILE_META /\
    payload_length h = 17 /\
    validate_payload h (encode_ascii "test payload data") = true.
Proof.
  apply (build_parse_header_roundtrip MSG_FILE_META
           (encode_ascii "test payload data")).
  - unfold MSG_FILE_META. lia.
  - vm_compute. discriminate.
Defined.

(** C1, as stated, fails: a payload of 2^32 bytes does not fit the 32-bit
    length field and [build_header] raises [struct.error] instead of
    returning 256 bytes. *)
Lemma build_header_oversized_payload :
  build_header MSG_CHUNK (replicate (Z.to_nat 4294967296) x00) =
  Raise (Exn struct_error "'I' format requires 0 <= number <= 4294967295").
Proof.
  unfold build_header, _HEADER_STRUCT_pack.
  assert (E : len (replicate (Z.to_nat 4294967296) x00) = 4294967296).
  { unfold len. rewrite length_replicate. apply Z2Nat.id. lia. }
  rewrite E. reflexivity.
Qed.

Lemma version_byte_iff (b : byte) : byte_to_Z b = PROTOCOL_VERSION <-> b = x02.
Proof.
  split; [|intros ->; reflexivity].
  intros H. apply byte_to_Z_inj. exact H.
Qed.

Lemma parse_header_unfold (B : bytes) :
  parse_header B =
  Ok (if decide (len B < 256) then None
      else if decide (take 4 B <> MAGIC_NUMBER_FULL) then None
      else if decide (nth 4 B x00 <> x02) then None
      else Some {| message_type := byte_to_Z (nth 5 B x00);
                   payload_length := Struct.be_value (take 4 (drop 6 B));
                   payload_hash := take 32 (drop 10 B);
                   version := byte_to_Z (nth 4 B x00) |}).
Proof.
  unfold parse_header, _HEADER_STRUCT_unpack_from, HEADER_SIZE.
  destruct (decide (len B < 256)) as [|Hlen]; [reflexivity|].
  destruct (decide (len B < _HEADER_STRUCT_size)) as [Hc|_];
    [unfold _HEADER_STRUCT_size in Hc; lia|].
  cbn [rbind].
  destruct (decide (take 4 B <> MAGIC_NUMBER_FULL)); [reflexivity|].
  destruct (decide (byte_to_Z (nth 4 B x00) <> PROTOCOL_VERSION)) as [Hv|Hv];
    destruct (decide (nth 4 B x00 <> x02)) as [Hb|Hb]; try reflexivity.
  - exfalso. apply Hv. apply version_byte_iff.
    destruct (decide (nth 4 B x00 = x02)); [assumption|contradiction].
  - exfalso. apply Hb. apply version_byte_iff.
    destruct (decide (byte_to_Z (nth 4 B x00) = PROTOCOL_VERSION));
      [assumption|contradiction].
Qed.

(** C2: [parse_header] never raises; it returns [None] exactly when the
    buffer is shorter than 256 bytes, or its first four bytes are not
    00 00 DE 0F, or the byte at offset 4 is not 02; otherwise it returns a
    header whose message type is the byte at offset 5, whatever its value. *)
Theorem parse_header_failure_iff (B : bytes) :
  (parse_header B = Ok None <->
     len B < 256 \/ take 4 B <> [x00; x00; xde; x0f] \/ nth 4 B x00 <> x02)
  /\ (exists r, parse_header B = Ok r)
  /\ (256 <= len B -> take 4 B = [x00; x00; xde; x0f] -> nth 4 B x00 = x02 ->
      exists h, parse_header B = Ok (Some h) /\
                message_type h = byte_to_Z (nth 5 B x00)).
Proof.
  rewrite parse_header_unfold. change MAGIC_NUMBER_FULL with [x00; x00; xde; x0f].
  repeat split.
  - intros H. injection H as H.
    destruct (decide (len B < 256)); [now left|].
    destruct (decide (take 4 B <> [x00; x00; xde; x0f])); [now right; left|].
    destruct (decide (nth 4 B x00 <> x02)); [now right; right|discriminate].
  - intros [H|[H|H]].
    + destruct (decide (len B < 256)); [reflexivity|contradiction].
    + destruct (decide (len B < 256)); [reflexivity|].
      destruct (decide (take 4 B <> [x00; x00; xde; x0f]));
        [reflexivity|contradiction].
    + destruct (decide (len B < 256)); [reflexivity|].
      destruct (decide (take 4 B <> [x00; x00; xde; x0f])); [reflexivity|].
      destruct (decide (nth 4 B x00 <> x02)); [reflexivity|contradiction].
  - eexists. reflexivity.
  - intros Hlen Hm Hv.
    destruct (decide (len B < 256)); [lia|].
    destruct (decide (take 4 B <> [x00; x00; xde; x0f])); [contradiction|].
    destruct (decide (nth 4 B x00 <> x02)); [contradiction|].
    eexists. split; reflexivity.
Qed.

(** C2, witness: valid magic and version with the unknown message type
    0x99 is parsed through. *)
Lemma parse_header_failure_iff_witness :
  exists h,
    parse_header ([x00; x00; xde; x0f; x02; x99] ++ replicate 250 x00)
      = Ok (Some h) /\
    message_type h = 153.
Proof.
  destruct (parse_header_failure_iff
              ([x00; x00; xde; x0f; x02; x99] ++ replicate 250 x00))
    as (_ & _ & H).
  apply H.
  - vm_compute. discriminate.
  - reflexivity.
  - reflexivity.
Defined.

(** C9: for a chunk index that fits 32 unsigned bits and any data,
    [build_chunk_payload] succeeds and [parse_chunk_payload] gives back
    exactly the index and the data. *)
Theorem chunk_payload_roundtrip (i : Z) (D : bytes) :
  0 <= i <= 4294967295 ->
  exists p, build_chunk_payload i D = Ok p /\
            parse_chunk_payload p = Ok (i, D).
Proof.
  intros Hi. destruct (pack_I_Ok i Hi) as [bs Hbs].
  pose proof (unpack_pack_I _ _ Hbs) as [Hlen Hval].
  exists (bs ++ D). unfold build_chunk_payload, parse_chunk_payload.
  rewrite Hbs. cbn [rbind]. split; [reflexivity|].
  rewrite take_app_length' by (symmetry; exact Hlen).
  rewrite drop_app_length' by (symmetry; exact Hlen).
  unfold Struct.unpack_I.
  destruct (decide (length bs = 4%nat)); [|contradiction].
  cbn [rbind]. now rewrite Hval.
Qed.

(** C9, witness: index 42 with four bytes of data. *)
Lemma chunk_payload_roundtrip_witness :
  exists p, build_chunk_payload 42 [x00; x01; x02; x03] = Ok p /\
            parse_chunk_payload p = Ok (42, [x00; x01; x02; x03]).
Proof.
  apply (chunk_payload_roundtrip 42 [x00; x01; x02; x03]). lia.
Defined.

(** ** Sizing a transfer *)

Example total_chunks_80000 : compute_total_chunks 80000 65536 = Ok 2.
Proof. vm_compute. reflexivity. Qed.

Example total_chunks_65536 : compute_total_chunks 65536 65536 = Ok 1.
Proof. vm_compute. reflexivity. Qed.

Example total_chunks_2_53_1 :
  compute_total_chunks 9007199254740993 262144 = Ok 34359738368.
Proof. vm_compute. reflexivity. Qed.

Example total_chunks_2_53_3 :
  compute_total_chunks 9007199254740995 262144 = Ok 34359738369.
Proof. vm_compute. reflexivity. Qed.

Example total_chunks_tiny :
  compute_total_chunks 1 (10 ^ 400) = Ok 0.
Proof. vm_compute. reflexivity. Qed.

Example total_chunks_7_3 : compute_total_chunks 7 (-3) = Ok (-2).
Proof. vm_compute. reflexivity. Qed.

Example total_chunks_subnormal_tie :
  compute_total_chunks 1 (2 ^ 1075) = Ok 0.
Proof. vm_compute. reflexivity. Qed.

Example total_chunks_subnormal_up :
  compute_total_chunks 1 (2 ^ 1075 - 1) = Ok 1.
Proof. vm_compute. reflexivity. Qed.

Example total_chunks_overflow :
  compute_total_chunks (2 ^ 1024 - 2 ^ 970) 1 =
  Raise (Exn OverflowError "integer division result too large for a float").
Proof. vm_compute. reflexivity. Qed.

Section FloatCeiling.
Import PyFloat.

Lemma scale_nonpos x e : e <= 0 -> scale x e = x.
Proof. intros H. unfold scale. rewrite Z.max_l by lia. simpl. lia. Qed.

Lemma scale_nonneg x e : 0 <= e -> scale x e = x * 2 ^ e.
Proof. intros H. unfold scale. now rewrite Z.max_r by lia. Qed.

(** The exponent is a lower bound: [b * 2^e <= a], written without
    negative powers. *)
Lemma exponent_lower a b :
  0 < a -> 0 < b ->
  scale b (exponent a b) <= scale a (- exponent a b).
Proof.
  intros Ha Hb. unfold exponent.
  destruct (Z.log2_spec a Ha) as [La Ua].
  destruct (Z.log2_spec b Hb) as [Lb Ub].
  pose proof (Z.log2_nonneg a) as Na. pose proof (Z.log2_nonneg b) as Nb.
  set (la := Z.log2 a) in *. set (lb := Z.log2 b) in *.
  destruct (Z.ltb_spec (scale a (- (la - lb))) (scale b (la - lb))) as [Hlt|Hge];
    [|lia].
  destruct (Z_le_gt_dec 0 (la - lb - 1)) as [Hd|Hd].
  - rewrite scale_nonneg, scale_nonpos by lia.
    assert (2 ^ la = 2 ^ (lb + 1) * 2 ^ (la - lb - 1)) as E.
    { rewrite <- Z.pow_add_r by lia. f_equal. lia. }
    assert (0 < 2 ^ (la - lb - 1)) by (apply Z.pow_pos_nonneg; lia).
    nia.
  - rewrite scale_nonpos, scale_nonneg by lia.
    assert (2 ^ (lb + 1) = 2 ^ la * 2 ^ (- (la - lb - 1))) as E.
    { rewrite <- Z.pow_add_r by lia. f_equal. lia. }
    assert (0 < 2 ^ (- (la - lb - 1))) by (apply Z.pow_pos_nonneg; lia).
    nia.
Qed.

Lemma round_half_even_exact N d : 0 < d -> round_half_even (N * d) d = N.
Proof.
  intros Hd. unfold round_half_even.
  rewrite Z.div_mul, Z.mod_mul by lia.
  destruct (Z.ltb_spec (2 * 0) d); [reflexivity|lia].
Qed.

Lemma round_half_even_le n d N :
  0 < d -> n <= N * d -> round_half_even n d <= N.
Proof.
  intros Hd Hn. unfold round_half_even.
  pose proof (Z.div_mod n d ltac:(lia)) as E.
  pose proof (Z.mod_pos_bound n d Hd) as Hr.
  assert (n / d <= N) by (apply Z.div_le_upper_bound; lia).
  destruct (Z.ltb_spec (2 * (n mod d)) d); [lia|].
  assert (n / d < N) by nia.
  destruct (Z.ltb_spec d (2 * (n mod d))); [lia|].
  destruct (Z.even (n / d)); lia.
Qed.

Lemma round_half_even_gt n d N :
  0 < d -> N * d <= n -> d < 2 * (n - N * d) -> N < round_half_even n d.
Proof.
  intros Hd Hn Hr. unfold round_half_even.
  pose proof (Z.div_mod n d ltac:(lia)) as E.
  pose proof (Z.mod_pos_bound n d Hd) as Hm.
  assert (N <= n / d) by (apply Z.div_le_lower_bound; lia).
  destruct (Z.ltb_spec (2 * (n mod d)) d).
  - assert (N < n / d) by nia. lia.
  - destruct (Z.ltb_spec d (2 * (n mod d))); [lia|].
    assert (N < n / d) by nia.
    destruct (Z.even (n / d)); lia.
Qed.

Lemma ceil_div_unique a b K :
  0 < b -> (K - 1) * b < a <= K * b -> ceil_div a b = K.
Proof.
  intros Hb [H1 H2]. unfold ceil_div.
  assert ((- a) / b = - K); [|lia].
  symmetry. apply Z.div_unique with (r := K * b - a); lia.
Qed.

Lemma ceil_div_bounds a b :
  0 < b -> (ceil_div a b - 1) * b < a <= ceil_div a b * b.
Proof.
  intros Hb. unfold ceil_div.
  pose proof (Z.div_mod (- a) b ltac:(lia)).
  pose proof (Z.mod_pos_bound (- a) b Hb). nia.
Qed.

Lemma exponent_upper a b :
  0 < a -> 0 < b ->
  scale a (- (exponent a b + 1)) < scale b (exponent a b + 1).
Proof.
  intros Ha Hb. unfold exponent.
  destruct (Z.log2_spec a Ha) as [La Ua].
  destruct (Z.log2_spec b Hb) as [Lb Ub].
  pose proof (Z.log2_nonneg a) as Na. pose proof (Z.log2_nonneg b) as Nb.
  set (la := Z.log2 a) in *. set (lb := Z.log2 b) in *.
  destruct (Z.ltb_spec (scale a (- (la - lb))) (scale b (la - lb))) as [Hlt|Hge].
  - replace (la - lb - 1 + 1) with (la - lb) by lia. exact Hlt.
  - destruct (Z_le_gt_dec 0 (la - lb + 1)) as [Hd|Hd].
    + rewrite scale_nonpos, scale_nonneg by lia.
      assert (2 ^ Z.succ la = 2 ^ lb * 2 ^ (la - lb + 1)) as E.
      { rewrite <- Z.pow_add_r by lia. f_equal. lia. }
      assert (0 < 2 ^ (la - lb + 1)) by (apply Z.pow_pos_nonneg; lia).
      nia.
    + rewrite scale_nonneg, scale_nonpos by lia.
      assert (2 ^ lb = 2 ^ Z.succ la * 2 ^ (- (la - lb + 1))) as E.
      { rewrite <- Z.pow_add_r by lia. f_equal. lia. }
      assert (0 < 2 ^ (- (la - lb + 1))) by (apply Z.pow_pos_nonneg; lia).
      nia.
Qed.

Lemma true_divide_pos a b :
  0 < a -> 0 < b ->
  true_divide a b =
  let s := Z.max (exponent a b - 52) (- 1074) in
  let m := round_half_even (scale a (- s)) (scale b s) in
  if 2 ^ 1024 <=? scale m s then
    Raise (Exn OverflowError "integer division result too large for a float")
  else Ok {| mant := m; expo := s |}.
Proof.
  intros Ha Hb. unfold true_divide.
  destruct (Z.eqb_spec b 0); [lia|]. destruct (Z.eqb_spec a 0); [lia|].
  rewrite (Z.abs_eq a), (Z.abs_eq b) by lia.
  rewrite (Z.sgn_pos a), (Z.sgn_pos b) by lia.
  cbv zeta. destruct (_ <=? _); [reflexivity|].
  do 2 f_equal. lia.
Qed.

Lemma ceil_float_nonpos m s :
  s <= 0 -> ceil {| mant := m; expo := s |} = ceil_div m (2 ^ (- s)).
Proof.
  intros Hs. unfold ceil, ceil_div. cbn [mant expo].
  destruct (Z.leb_spec 0 s); [|reflexivity].
  replace s with 0 by lia. simpl. rewrite Z.div_1_r. lia.
Qed.

(** Below 2^53 the rounding of the quotient cannot hide a remainder: the
    float ceiling is the exact one. *)
Lemma compute_total_chunks_exact S c :
  0 < S <= 2 ^ 53 -> 0 < c <= 2 ^ 1022 ->
  compute_total_chunks S c = Ok (ceil_div S c).
Proof.
  intros [HS0 HS1] [Hc0 Hc1]. unfold compute_total_chunks.
  destruct (Z.ltb_spec 0 S); [|lia].
  rewrite true_divide_pos by lia. cbv zeta.
  pose proof (exponent_lower S c HS0 Hc0) as L.
  pose proof (exponent_upper S c HS0 Hc0) as U.
  remember (exponent S c) as e eqn:Ee.
  set (s := Z.max (e - 52) (- 1074)).
  remember (2 ^ 53) as p53 eqn:E53.
  assert (Hp53 : 0 < p53) by (subst p53; apply Z.pow_pos_nonneg; lia).
  destruct (Z_le_gt_dec s 0) as [Hs|Hs].
  - (* the significand has fractional bits *)
    rewrite (scale_nonpos c s), (scale_nonneg S (- s)) by lia.
    set (t := 2 ^ (- s)).
    assert (Ht : 0 < t) by (apply Z.pow_pos_nonneg; lia).
    set (m := round_half_even (S * t) c).
    assert (He : e <= 52) by lia.
    assert (Htle : t <= 2 ^ (52 - e)).
    { apply Z.pow_le_mono_r; lia. }
    assert (H53 : S * 2 ^ (52 - e) <= p53 * c).
    { destruct (Z_le_gt_dec 0 e) as [He0|He0].
      - rewrite (scale_nonpos S), (scale_nonneg c) in U by lia.
        assert (p53 = 2 ^ (52 - e) * 2 ^ (e + 1)) as E.
        { rewrite E53, <- Z.pow_add_r by lia. f_equal. lia. }
        assert (0 < 2 ^ (52 - e)) by (apply Z.pow_pos_nonneg; lia).
        clear - U E H0. nia.
      - rewrite (scale_nonneg S), (scale_nonpos c) in U by lia.
        assert (2 ^ (52 - e) = 2 ^ (- (e + 1)) * p53) as E.
        { rewrite E53, <- Z.pow_add_r by lia. f_equal. lia. }
        clear - U E Hp53. nia. }
    assert (Hm : m <= p53).
    { apply round_half_even_le; [lia|]. clear - H53 Htle HS0. nia. }
    rewrite (scale_nonpos m s) by lia.
    destruct (Z.leb_spec (2 ^ 1024) m) as [Hov|_].
    { exfalso. assert (2 ^ 53 < 2 ^ 1024) by (apply Z.pow_lt_mono_r; lia). lia. }
    cbn [rbind]. f_equal. rewrite ceil_float_nonpos by lia. fold t.
    pose proof (ceil_div_bounds S c Hc0) as [K1 K2].
    set (K := ceil_div S c) in *.
    apply ceil_div_unique; [lia|]. split.
    + destruct (Z.eq_dec S (K * c)) as [EK|NK].
      * unfold m. rewrite EK.
        replace (K * c * t) with (K * t * c) by lia.
        rewrite round_half_even_exact by lia. clear - Ht. nia.
      * unfold m. apply round_half_even_gt; [lia|clear - K1 Ht; nia|].
        assert (Hr : 1 <= S - (K - 1) * c) by lia.
        assert (Hct : c < 2 * t \/ (S < c /\ c <= S * t)).
        { destruct (Z.max_spec (e - 52) (- 1074)) as [[_ Es]|[_ Es]];
            fold s in Es.
          - (* subnormal range *)
            left. assert (t = 2 ^ 1074) as -> by (unfold t; rewrite Es; reflexivity).
            assert (2 ^ 1022 < 2 ^ 1074) by (apply Z.pow_lt_mono_r; lia).
            lia.
          - assert (Et : t = 2 ^ (52 - e)) by (unfold t; f_equal; lia).
            destruct (Z_le_gt_dec 0 e) as [He0|He0].
            + left. rewrite (scale_nonneg c), (scale_nonpos S) in L by lia.
              assert (p53 = 2 * t * 2 ^ e) as E.
              { rewrite E53, Et. change 2 with (2 ^ 1) at 2.
                rewrite <- !Z.pow_add_r by lia. f_equal. lia. }
              assert (Hx : 0 < 2 ^ e) by (apply Z.pow_pos_nonneg; lia).
              assert (c * 2 ^ e <> S).
              { intros Heq. rewrite <- Heq in K1, K2, NK.
                assert (K - 1 < 2 ^ e)
                  by (apply Z.mul_lt_mono_pos_r with c; lia).
                assert (2 ^ e < K)
                  by (apply Z.mul_lt_mono_pos_r with c; lia).
                lia. }
              assert (c * 2 ^ e < 2 * t * 2 ^ e) by lia.
              apply Z.mul_lt_mono_pos_r with (2 ^ e); assumption.
            + right. rewrite (scale_nonpos c), (scale_nonneg S) in L by lia.
              rewrite (scale_nonneg S), (scale_nonpos c) in U by lia.
              assert (t = 2 ^ 52 * 2 ^ (- e)) as E.
              { rewrite Et, <- Z.pow_add_r by lia. f_equal; lia. }
              assert (0 < 2 ^ (- (e + 1))) by (apply Z.pow_pos_nonneg; lia).
              assert (0 < 2 ^ 52) by (apply Z.pow_pos_nonneg; lia).
              split; [clear - U H0 HS0; nia|].
              rewrite E. clear - L H1 HS0. nia. }
        destruct Hct as [Hct|[Hlt Hle]].
        -- clear - Hct Hr Ht. nia.
        -- assert (K = 1) by (clear - K1 K2 Hlt HS0 Hc0; nia).
           subst K. rewrite H0. lia.
    + unfold m. apply round_half_even_le; [lia|]. clear - K2 Ht. nia.
  - (* only 2^53 / 1 has exponent 53 *)
    assert (He : 53 <= e) by lia.
    rewrite (scale_nonneg c), (scale_nonpos S) in L by lia.
    assert (p53 <= 2 ^ e) by (subst p53; apply Z.pow_le_mono_r; lia).
    assert (c = 1) by (clear - H0 L HS1 Hc0 Hp53; nia).
    assert (S = p53) by (clear - H0 L HS1 H1; nia).
    subst c S p53. subst s e. vm_compute. reflexivity.
Qed.

End FloatCeiling.

Lemma choose_chunk_size_spec cfg S :
  choose_chunk_size cfg S = if decide (1073741824 <= S) then 262144 else cfg.
Proof.
  unfold choose_chunk_size, LARGE_FILE_THRESHOLD, LARGE_FILE_CHUNK_SIZE.
  destruct (Z.leb_spec 1073741824 S); destruct (decide (1073741824 <= S));
    first [reflexivity|lia].
Qed.

(** Up to 2^53 bytes the sizing is the intended one: the large-file chunk
    size from 1 GiB on, the configured one below, and the exact ceiling of
    the quotient, or 1 for an empty file. *)
Lemma transfer_sizing_below_2_53 cfg S :
  0 <= S <= 2 ^ 53 -> 0 < cfg <= 2 ^ 1022 ->
  let chunk_size := choose_chunk_size cfg S in
  chunk_size = (if decide (1073741824 <= S) then 262144 else cfg) /\
  compute_total_chunks S chunk_size =
    Ok (if decide (S = 0) then 1 else ceil_div S chunk_size).
Proof.
  intros HS Hcfg. cbv zeta. split; [apply choose_chunk_size_spec|].
  destruct (decide (S = 0)) as [->|HS0]; [reflexivity|].
  apply compute_total_chunks_exact; [lia|].
  rewrite choose_chunk_size_spec.
  destruct (decide (1073741824 <= S)); [|lia].
  split; [lia|]. change 262144 with (2 ^ 18).
  apply Z.pow_le_mono_r; lia.
Qed.

(** C4 fails on the code at a file of 2^53 + 1 bytes: the chunk size is
    262144 as claimed, but the float quotient rounds to 2^35 and
    [math.ceil] returns 34359738368, one less than the ceiling
    34359738369 of the quotient. *)
Theorem total_chunks_float_rounding :
  choose_chunk_size DEFAULT_CHUNK_SIZE 9007199254740993 = 262144 /\
  compute_total_chunks 9007199254740993 262144 = Ok 34359738368 /\
  ceil_div 9007199254740993 262144 = 34359738369.
Proof. repeat split; vm_compute; reflexivity. Qed.

(** ** Strings and paths *)

Lemma str_cons_app a s t : String a s +:+ t = String a (s +:+ t).
Proof. reflexivity. Qed.

Lemma str_nil_app t : EmptyString +:+ t = t.
Proof. reflexivity. Qed.

Lemma str_contains_app c s t :
  str_contains c (s +:+ t) = str_contains c s || str_contains c t.
Proof.
  induction s as [|a s IH]; [reflexivity|].
  rewrite str_cons_app. simpl. rewrite IH. apply orb_assoc.
Qed.

Lemma str_length_app s t :
  String.length (s +:+ t) = (String.length s + String.length t)%nat.
Proof.
  induction s as [|a s IH]; [reflexivity|].
  rewrite str_cons_app. simpl. now rewrite IH.
Qed.

Lemma str_app_inv_tail s t u : s +:+ u = t +:+ u -> s = t.
Proof.
  revert t. induction s as [|a s IH]; intros [|b t] H.
  - reflexivity.
  - exfalso. apply (f_equal String.length) in H.
    rewrite !str_length_app in H. simpl in H. lia.
  - exfalso. apply (f_equal String.length) in H.
    rewrite !str_length_app in H. simpl in H. lia.
  - rewrite !str_cons_app in H. injection H as -> H. f_equal. now apply IH.
Qed.

Lemma str_app_assoc (s t u : string) : (s +:+ t) +:+ u = s +:+ (t +:+ u).
Proof.
  induction s as [|a s IH]; [reflexivity|].
  rewrite !str_cons_app. f_equal. exact IH.
Qed.

(** Decimal numerals hold decimal digits only. *)
Lemma pretty_N_char_digit x c :
  c <> "0"%char -> c <> "1"%char -> c <> "2"%char -> c <> "3"%char ->
  c <> "4"%char -> c <> "5"%char -> c <> "6"%char -> c <> "7"%char ->
  c <> "8"%char -> c <> "9"%char ->
  Ascii.eqb (pretty_N_char x) c = false.
Proof.
  intros. apply Ascii.eqb_neq. unfold pretty_N_char.
  repeat case_match; congruence.
Qed.

Lemma pretty_N_go_contains c x s :
  not_digit c -> str_contains c (pretty_N_go x s) = str_contains c s.
Proof.
  intros Hc. revert s.
  induction (N.lt_wf_0 x) as [x _ IH]. intros s.
  destruct (N.eq_dec x 0%N) as [->|Hx]; [now rewrite pretty_N_go_0|].
  rewrite pretty_N_go_step by lia.
  rewrite IH by (apply N.div_lt; lia).
  cbn [str_contains]. destruct Hc as (?&?&?&?&?&?&?&?&?&?).
  rewrite pretty_N_char_digit by assumption. reflexivity.
Qed.

Lemma pretty_Z_contains c (z : Z) :
  not_digit c -> c <> "-"%char -> str_contains c (pretty z) = false.
Proof.
  intros Hc Hd.
  assert (H0 : str_contains c "0" = false).
  { cbn [str_contains]. destruct Hc as (H0 & _).
    rewrite orb_false_r. apply Ascii.eqb_neq. congruence. }
  assert (HN : forall n : N, str_contains c (pretty n) = false).
  { intros n. unfold pretty, pretty_N.
    destruct (decide (n = 0%N)); [exact H0|].
    now rewrite pretty_N_go_contains. }
  destruct z as [|p|p]; unfold pretty, pretty_Z.
  - exact H0.
  - apply HN.
  - rewrite str_contains_app. change (pretty p) with (pretty (N.pos p)).
    rewrite (HN (N.pos p)). cbn [str_contains].
    rewrite !orb_false_r. apply Ascii.eqb_neq. congruence.
Qed.

Lemma slash_not_digit : not_digit "/"%char.
Proof. repeat split; discriminate. Qed.

Section PathFacts.
Import Pathlib.

Lemma split_slash_plain s : str_contains "/" s = false -> split_slash s = [s].
Proof.
  induction s as [|a s IH]; simpl; [reflexivity|].
  intros H. apply orb_false_elim in H as [Ha Hs].
  rewrite Ha, (IH Hs). reflexivity.
Qed.

Lemma root_of_plain s : str_contains "/" s = false -> root_of s = [].
Proof.
  destruct s as [|a s]; [reflexivity|]. simpl. intros H.
  apply orb_false_elim in H as [Ha _]. unfold root_of. simpl.
  now rewrite Ha.
Qed.

Lemma is_root_plain s : str_contains "/" s = false -> is_root s = false.
Proof.
  intros H. unfold is_root. apply bool_decide_eq_false.
  intros [->| ->]; discriminate.
Qed.

(** Joining a directory with a plain file name appends one part. *)
Lemma joinpath_plain dir s :
  str_contains "/" s = false -> s <> EmptyString -> s <> "."%string ->
  joinpath dir s = dir ++ [s].
Proof.
  intros Hs He Hd. unfold joinpath, parse_parts.
  rewrite (root_of_plain s Hs), (split_slash_plain s Hs). simpl.
  rewrite filter_cons_True by (split; assumption). reflexivity.
Qed.







End PathFacts.

(** ** The file system *)

Section FileSystemFacts.
Variable d : FileSystem.

Lemma walk_snoc l : forall cur n q,
  n <> ".."%string -> walk d cur (l ++ [n]) = Some q ->
  exists q', q = q' ++ [n].
Proof.
  induction l as [|x l IH]; intros cur n q Hn H; cbn [app walk] in H.
  - destruct (is_dir d cur); [|discriminate].
    destruct (String.eqb_spec n ".."); [contradiction|].
    injection H as <-. eauto.
  - destruct (is_dir d cur); [|discriminate]. eapply IH; eassumption.
Qed.

Lemma locate_snoc dir n q :
  n <> ".."%string -> Pathlib.is_root n = false ->
  locate d (dir ++ [n]) = Some q -> exists q', q = q' ++ [n].
Proof.
  intros Hn Hr H. destruct dir as [|r rest]; cbn [app locate] in H.
  - rewrite Hr in H. exact (walk_snoc [] [] n q Hn H).
  - destruct (Pathlib.is_root r).
    + exact (walk_snoc rest _ n q Hn H).
    + exact (walk_snoc (r :: rest) [] n q Hn H).
Qed.

(** A path that ends in a name is neither the root nor the working
    directory nor above it. *)
Lemma named_is_dir q n :
  n <> ".."%string -> Pathlib.is_root n = false ->
  is_dir d (q ++ [n]) = bool_decide (q ++ [n] ∈ dirs d).
Proof.
  intros Hn Hr. unfold is_dir.
  assert (H1 : root_dir (q ++ [n]) = false).
  { destruct q as [|a [|b q]]; cbn; [exact Hr|reflexivity..]. }
  assert (H2 : ups (q ++ [n]) = false).
  { unfold ups. rewrite forallb_app. cbn [forallb].
    destruct (String.eqb_spec ".." n) as [E|_]; [now symmetry in E|].
    now rewrite andb_false_r. }
  now rewrite H1, H2.
Qed.

(** What exists under a path that ends in the name [n] is an entry whose
    path ends in [n]. *)
Lemma exists_at_named dir n :
  n <> ".."%string -> Pathlib.is_root n = false ->
  exists_at d (dir ++ [n]) = true ->
  exists q, entry d (q ++ [n]) = true.
Proof.
  intros Hn Hr H. unfold exists_at in H.
  apply orb_true_iff in H as [H|H]; [eauto|].
  destruct (locate d (dir ++ [n])) as [q|] eqn:E; [|discriminate].
  apply locate_snoc in E as [q' ->]; [|assumption..].
  exists q'. rewrite named_is_dir in H by assumption.
  unfold entry. apply orb_true_iff in H as [H|H]; [|exact H].
  rewrite H. apply orb_true_r.
Qed.

Lemma entries_bounded (l : list Path) :
  NoDup l -> Forall (fun q => entry d q = true) l ->
  (length l <= size (files d) + size (dirs d))%nat.
Proof.
  intros Hnd Hl.
  assert (Hsub : list_to_set (C := gset Path) l ⊆ dom (files d) ∪ dirs d).
  { intros q Hq. apply elem_of_list_to_set in Hq.
    rewrite Forall_forall in Hl. specialize (Hl q Hq).
    unfold entry in Hl. apply orb_true_iff in Hl as [H|H].
    - apply elem_of_union_l, elem_of_dom. now apply bool_decide_eq_true in H.
    - apply elem_of_union_r. now apply bool_decide_eq_true in H. }
  apply subseteq_size in Hsub.
  rewrite size_list_to_set in Hsub by exact Hnd.
  rewrite size_union_alt, size_dom in Hsub.
  assert (Hle : (size (dirs d ∖ dom (files d)) <= size (dirs d))%nat).
  { apply subseteq_size. intros x Hx.
    now apply elem_of_difference in Hx as [Hx _]. }
  lia.
Qed.

(** As many names as exist in one directory fit among the entries. *)
Lemma existing_names_bounded dir (nm : nat -> string) k :
  (forall i j, nm i = nm j -> i = j) ->
  (forall j, nm j <> ".."%string /\ Pathlib.is_root (nm j) = false) ->
  (forall j, (j < k)%nat -> exists_at d (dir ++ [nm j]) = true) ->
  (k <= size (files d) + size (dirs d))%nat.
Proof.
  intros Hinj Hnm Hex.
  assert (H : exists l : list Path,
            length l = k /\ NoDup l /\
            Forall (fun q => entry d q = true) l /\
            Forall (fun q => exists j q', (j < k)%nat /\ q = q' ++ [nm j]) l).
  { induction k as [|k IH].
    - exists []. repeat split; constructor.
    - destruct IH as (l & Hlen & Hnd & Hent & Hsh);
        [intros j Hj; apply Hex; lia|].
      destruct (Hnm k) as [Hk1 Hk2].
      destruct (exists_at_named dir (nm k) Hk1 Hk2 (Hex k ltac:(lia)))
        as [q Hq].
      exists ((q ++ [nm k]) :: l). split; [cbn; now rewrite Hlen|].
      split.
      { constructor; [|exact Hnd]. intros Hin.
        rewrite Forall_forall in Hsh.
        destruct (Hsh _ Hin) as (j & q' & Hj & E).
        apply app_inj_tail in E as [_ E]. apply Hinj in E. lia. }
      split; [constructor; assumption|].
      constructor; [exists k, q; split; [lia|reflexivity]|].
      eapply Forall_impl; [exact Hsh|].
      intros p (j & q' & Hj & ->). exists j, q'. split; [lia|reflexivity]. }
  destruct H as (l & <- & Hnd & Hent & _). now apply entries_bounded.
Qed.

End FileSystemFacts.

(** ** The listener's save path *)

Section UniquePathLoop.
Import Pathlib.
Variable self : FileListener.

Lemma path_exists_eq p (c : Conn) :
  path_exists p c = (Ok (exists_at (fs c) p), c).
Proof. reflexivity. Qed.

(** The loop goes through the numbered names up to the first one under
    which nothing exists. *)
Lemma unique_path_loop_finds (c : Conn) stem suffix m :
  let mk z := joinpath (_receive_dir self)
                (stem +:+ "_" +:+ pretty z +:+ suffix) in
  forall fuel target counter,
  (m + 1 < fuel)%nat ->
  exists_at (fs c) target = true ->
  (forall i, (i < m)%nat ->
     exists_at (fs c) (mk (counter + Z.of_nat i)) = true) ->
  exists_at (fs c) (mk (counter + Z.of_nat m)) = false ->
  _unique_path_loop self fuel stem suffix target counter c
    = (Ok (mk (counter + Z.of_nat m)), c).
Proof.
  intros mk. induction m as [|m IH]; intros fuel target counter Hf Ht Hex Hno.
  - destruct fuel as [|[|fuel]]; [lia..|].
    cbn [_unique_path_loop]. unfold bind at 1. rewrite path_exists_eq, Ht.
    cbn [_unique_path_loop]. unfold bind. rewrite path_exists_eq.
    rewrite Z.add_0_r in Hno. fold (mk counter). rewrite Hno.
    change (Z.of_nat 0) with 0. rewrite Z.add_0_r. reflexivity.
  - destruct fuel as [|fuel]; [lia|].
    cbn [_unique_path_loop]. unfold bind at 1. rewrite path_exists_eq, Ht.
    fold (mk counter).
    rewrite (IH fuel (mk counter) (counter + 1)).
    + replace (counter + 1 + Z.of_nat m) with (counter + Z.of_nat (S m)) by lia.
      reflexivity.
    + lia.
    + specialize (Hex 0%nat ltac:(lia)). now rewrite Z.add_0_r in Hex.
    + intros i Hi. specialize (Hex (S i) ltac:(lia)).
      replace (counter + 1 + Z.of_nat i) with (counter + Z.of_nat (S i)) by lia.
      exact Hex.
    + replace (counter + 1 + Z.of_nat m) with (counter + Z.of_nat (S m)) by lia.
      exact Hno.
Qed.

End UniquePathLoop.

Section UniquePath.
Import Pathlib.
Variable self : FileListener.
Variables name ext : string.
Hypothesis name_nonempty : name <> EmptyString.
Hypothesis ext_nonempty : ext <> EmptyString.
Hypothesis name_plain : str_contains "/" name = false.
Hypothesis ext_plain : str_contains "/" ext = false.
Hypothesis ext_dotless : str_contains "." ext = false.

Let dir := _receive_dir self.








End UniquePath.


Example unique_path_fresh :
  _unique_path recv_listener (JStr "notes.txt")
    (Conn_init idle_socket report_files)
  = (Ok ["recv"; "notes.txt"]%string, Conn_init idle_socket report_files).
Proof. vm_compute. reflexivity. Qed.

Example unique_path_one_collision :
  let disk := with_files (delete ["recv"; "report_1.pdf"]%string) report_files in
  _unique_path recv_listener (JStr "report.pdf") (Conn_init idle_socket disk)
  = (Ok ["recv"; "report_1.pdf"]%string, Conn_init idle_socket disk).
Proof. vm_compute. reflexivity. Qed.

(** A directory under the name counts as well: with a directory
    [recv/photos.d] the choice for [photos.d] is [recv/photos_1.d]. *)
Example unique_path_directory_in_the_way :
  let disk :=
    {| files := ∅;
       dirs := {[ ["recv"%string]; ["recv"; "photos.d"]%string ]};
       io_faults := [] |} in
  _unique_path recv_listener (JStr "photos.d") (Conn_init idle_socket disk)
  = (Ok ["recv"; "photos_1.d"]%string, Conn_init idle_socket disk).
Proof. vm_compute. reflexivity. Qed.

(** ** The cryptographic session *)

(** C6, as stated, fails: with the backend absent and the enable flag set,
    the constructor raises nothing and returns a session that is switched
    off. *)
Lemma session_enabled_without_backend_is_silent :
  EncryptionContext_init None [] true = Ok plain_session.
Proof. reflexivity. Qed.

(** C6, as amended: without the backend the constructor never raises,
    whatever the enable flag; the session it returns has [enabled = false],
    holds no key material, and its [encrypt] and [decrypt] are the
    identity. *)
Theorem session_without_backend_is_disabled (entropy : bytes) (flag : bool) :
  EncryptionContext_init None entropy flag = Ok plain_session /\
  enabled plain_session = false /\
  (forall nonce data, encrypt None plain_session nonce data = Ok data) /\
  (forall data, decrypt None plain_session data = Ok data).
Proof.
  repeat split. unfold EncryptionContext_init, CRYPTO_AVAILABLE.
  cbn [enabled]. rewrite andb_false_r. reflexivity.
Qed.

(** With the backend present the flag is honoured and a key pair is
    generated at construction. *)
Lemma session_with_backend (lib : CryptoBackend) (entropy : bytes) :
  EncryptionContext_init (Some lib) entropy true =
  Ok {| enabled := true; _aes_key := [];
        _private_bytes := (X25519_generate lib entropy).1;
        _public_bytes := (X25519_generate lib entropy).2 |}.
Proof. reflexivity. Qed.

(** ** The example runtime *)

Example mini_dumps_ack :
  MiniJson.dumps (JDict [("success"%string, JBool true);
                         ("message"%string, JStr "File saved")])
  = ("{" +:+ MiniJson.quote "success" +:+ ": true, "
         +:+ MiniJson.quote "message" +:+ ": "
         +:+ MiniJson.quote "File saved" +:+ "}")%string.
Proof. vm_compute. reflexivity. Qed.

Example mini_loads_meta :
  let v := JDict [("filename"%string, JStr "a b.txt");
                  ("file_size"%string, JInt 12345);
                  ("mime_type"%string, JStr "text/plain");
                  ("chunk_count"%string, JInt 1);
                  ("chunk_size"%string, JInt 65536);
                  ("extra"%string, JList [JNull; JBool false; JInt (-7); JDict []])] in
  @loads_utf8 MiniJson.runtime (@dumps_utf8 MiniJson.runtime v) = Ok v.
Proof. vm_compute. reflexivity. Qed.

Example mini_loads_rejects :
  @loads_utf8 MiniJson.runtime (encode_ascii "{1: 2}")
  = Raise (Exn ValueError "Expecting value").
Proof. vm_compute. reflexivity. Qed.

(** ** Reading from a socket *)

Lemma recv_loop_unfold items n buf :
  recv_loop items n buf =
  if len buf <? n then
    match items with
    | [] => (Raise connection_closed, [])
    | RxRaise e :: rest => (Raise e, rest)
    | Rx b :: rest => recv_loop rest n (buf ++ [b])
    end
  else (Ok buf, items).
Proof. destruct items; reflexivity. Qed.

(** When the bytes asked for are there, [_recv_exact] returns them and
    leaves the rest. *)
Lemma recv_loop_bytes (bs : bytes) rest n buf :
  len buf + len bs = n ->
  recv_loop (map Rx bs ++ rest) n buf = (Ok (buf ++ bs), rest).
Proof.
  revert buf. induction bs as [|b bs IH]; intros buf Hn.
  - rewrite recv_loop_unfold. unfold len in *. simpl in *.
    destruct (Z.ltb_spec (Z.of_nat (length buf)) n); [lia|].
    now rewrite app_nil_r.
  - rewrite recv_loop_unfold. unfold len in *. simpl in *.
    destruct (Z.ltb_spec (Z.of_nat (length buf)) n); [|lia].
    rewrite IH; [now rewrite <- app_assoc|].
    rewrite length_app. simpl. lia.
Qed.

Lemma sock_recv_exact_bytes (bs : bytes) rest s :
  sock_in s = map Rx bs ++ rest ->
  sock_recv_exact (len bs) s = (Ok bs, socket_with_in rest s).
Proof.
  intros H. unfold sock_recv_exact. rewrite H.
  rewrite (recv_loop_bytes bs rest (len bs) []) by reflexivity.
  reflexivity.
Qed.

Lemma sock_recv_exact_out n s r s' :
  sock_recv_exact n s = (r, s') ->
  sock_out s' = sock_out s /\ sock_send_faults s' = sock_send_faults s /\
  sock_closed s' = sock_closed s.
Proof.
  unfold sock_recv_exact. destruct (recv_loop _ _ _). intros [= <- <-].
  repeat split.
Qed.

Lemma sock_sendall_ok data s :
  next_send_ok s -> sock_sendall data s = (Ok tt, socket_after_send data s).
Proof.
  unfold next_send_ok, sock_sendall, socket_after_send.
  destruct (sock_send_faults s) as [|[e|] l]; [reflexivity|contradiction|reflexivity].
Qed.

(** ** The listener: one frame at a time *)

Lemma wire_well_formed t p :
  well_formed (t, p) ->
  exists buf h,
    wire (t, p) = buf ++ p /\ build_header t p = Ok buf /\ len buf = 256 /\
    parse_header buf = Ok (Some h) /\ message_type h = t /\
    payload_length h = len p /\ validate_payload h p = true.
Proof.
  intros [Ht Hp]. cbn [fst snd] in *.
  destruct (build_header_Ok t p Ht Hp) as (l0 & l1 & l2 & l3 & Hl & Hb).
  apply unpack_pack_I in Hl as [_ Hl].
  pose proof (digest_length p) as Hd.
  remember (SHA256.digest p) as dg eqn:Edg.
  set (buf := [x00; x00; xde; x0f] ++ [x02] ++ [byte_of_Z t]
                ++ [l0; l1; l2; l3] ++ dg ++ replicate 214 x00) in *.
  assert (Hlen : len buf = 256).
  { unfold len, buf. rewrite !length_app, length_replicate, Hd. reflexivity. }
  exists buf, {| message_type := byte_to_Z (byte_of_Z t);
                 payload_length := Struct.be_value [l0; l1; l2; l3];
                 payload_hash := dg; version := 2 |}.
  unfold wire. cbn [fst snd]. rewrite Hb.
  split; [reflexivity|]. split; [reflexivity|]. split; [exact Hlen|].
  split.
  { rewrite parse_header_unfold, Hlen.
    destruct (decide (256 < 256)) as [Hc|_]; [lia|].
    unfold buf. cbn [app take drop nth].
    destruct (decide ([x00; x00; xde; x0f] <> MAGIC_NUMBER_FULL)) as [Hc|_];
      [exfalso; apply Hc; reflexivity|].
    destruct (decide (x02 <> x02)) as [Hc|_]; [contradiction|].
    rewrite !take_0, drop_0.
    rewrite take_app_length' by (symmetry; exact Hd). reflexivity. }
  cbn [message_type payload_length payload_hash].
  split; [rewrite byte_to_of_Z; apply Z.mod_small; lia|].
  split; [exact Hl|].
  unfold validate_payload. cbn [payload_hash].
  apply bool_decide_eq_true. now rewrite Edg.
Qed.

Section ListenerFacts.
Context {rt : PyRuntime}.
Variable cryptography : option CryptoBackend.
Variable self : FileListener.

(** Reading a well-formed frame comes to taking it off the stream and
    dispatching it. *)
Lemma handle_frame_wire t p rest c :
  well_formed (t, p) ->
  sock_in (conn c) = map Rx (wire (t, p)) ++ rest ->
  handle_frame cryptography self c =
  handle_message cryptography self t p (conn_with_in rest c).
Proof.
  intros Hwf Hin.
  destruct (wire_well_formed t p Hwf)
    as (buf & h & Hw & Hb & Hlen & Hparse & Hty & Hpl & Hv).
  rewrite Hw, map_app, <- app_assoc in Hin.
  unfold handle_frame, bind at 1, _recv_exact, on_conn.
  change HEADER_SIZE with 256. rewrite <- Hlen.
  rewrite (sock_recv_exact_bytes buf (map Rx p ++ rest)) by exact Hin.
  unfold bind at 1, lift. rewrite Hparse.
  unfold bind at 1, on_conn. rewrite Hpl.
  cbn [conn with_conn].
  rewrite (sock_recv_exact_bytes p rest) by reflexivity.
  rewrite Hv, Hty. cbn [negb]. reflexivity.
Qed.

End ListenerFacts.

(** ** Inverting monadic code *)

Lemma bind_inv {St A B} (m : M St A) (k : A -> M St B) s r s' :
  bind m k s = (r, s') ->
  (exists a s1, m s = (Ok a, s1) /\ k a s1 = (r, s')) \/
  (exists e, m s = (Raise e, s') /\ r = Raise e) \/
  (m s = (OutOfFuel, s') /\ r = OutOfFuel).
Proof.
  unfold bind. destruct (m s) as [[a|e|] s1]; intros H.
  - left. eauto.
  - right. left. injection H as <- <-. eauto.
  - right. right. injection H as <- <-. eauto.
Qed.

Lemma bind_inv_Ok {St A B} (m : M St A) (k : A -> M St B) s b s' :
  bind m k s = (Ok b, s') ->
  exists a s1, m s = (Ok a, s1) /\ k a s1 = (Ok b, s').
Proof.
  intros H. apply bind_inv in H as [H|[(e & _ & H)|[_ H]]];
    [exact H|discriminate..].
Qed.

Lemma bind_inv_Raise {St A B} (m : M St A) (k : A -> M St B) s e s' :
  bind m k s = (Raise e, s') ->
  (exists a s1, m s = (Ok a, s1) /\ k a s1 = (Raise e, s')) \/
  m s = (Raise e, s').
Proof.
  intros H. apply bind_inv in H as [H|[(e' & H & E)|[_ H]]];
    [now left| |discriminate].
  right. now injection E as <-.
Qed.

Lemma bind_inv_OutOfFuel {St A B} (m : M St A) (k : A -> M St B) s s' :
  bind m k s = (OutOfFuel, s') ->
  (exists a s1, m s = (Ok a, s1) /\ k a s1 = (OutOfFuel, s')) \/
  m s = (OutOfFuel, s').
Proof.
  intros H. apply bind_inv in H as [H|[(e' & H & E)|[H _]]];
    [now left|discriminate|now right].
Qed.

Lemma lift_inv {St A} (x : result A) (s : St) r s' :
  lift x s = (r, s') -> r = x /\ s' = s.
Proof. unfold lift. intros [= <- <-]. auto. Qed.

Lemma ret_inv {St A} (a : A) (s : St) r s' :
  ret a s = (r, s') -> r = Ok a /\ s' = s.
Proof. unfold ret. intros [= <- <-]. auto. Qed.

Lemma gets_inv {St A} (f : St -> A) (s : St) r s' :
  gets f s = (r, s') -> r = Ok (f s) /\ s' = s.
Proof. unfold gets. intros [= <- <-]. auto. Qed.

Lemma modify_inv {St} (f : St -> St) (s : St) r s' :
  modify f s = (r, s') -> r = Ok tt /\ s' = f s.
Proof. unfold modify. intros [= <- <-]. auto. Qed.

Lemma raise_inv {St A} (e : exn) (s : St) (r : result A) s' :
  raise e s = (r, s') -> r = Raise e /\ s' = s.
Proof. unfold raise. intros [= <- <-]. auto. Qed.

(** Take a run of monadic code apart, one operation at a time. *)
Ltac minv :=
  repeat match goal with
  | H : bind _ _ _ = (Ok _, _) |- _ =>
      apply bind_inv_Ok in H as (? & ? & ? & H)
  | H : bind _ _ _ = (Raise _, _) |- _ =>
      apply bind_inv_Raise in H as [(? & ? & ? & H)|H]
  | H : bind _ _ _ = (OutOfFuel, _) |- _ =>
      apply bind_inv_OutOfFuel in H as [(? & ? & ? & H)|H]
  | H : bind _ _ _ = (_, _) |- _ =>
      apply bind_inv in H as [(? & ? & ? & H)|[(? & ? & ->)|[? ->]]]
  | H : lift _ _ = (_, _) |- _ => apply lift_inv in H as [? ?]; subst
  | H : ret _ _ = (_, _) |- _ => apply ret_inv in H as [? ?]; subst
  | H : raise _ _ = (_, _) |- _ => apply raise_inv in H as [? ?]; subst
  | H : gets _ _ = (_, _) |- _ => apply gets_inv in H as [? ?]; subst
  | H : modify _ _ = (_, _) |- _ => apply modify_inv in H as [? ?]; subst
  | H : Ok _ = Ok _ |- _ => injection H as H; subst
  | H : Ok _ = Raise _ |- _ => discriminate H
  | H : Raise _ = Ok _ |- _ => discriminate H
  | H : OutOfFuel = Ok _ |- _ => discriminate H
  | H : Ok _ = OutOfFuel |- _ => discriminate H
  end.

(** The file operations touch the files and the open handle only, whether
    they succeed or raise. *)
Lemma open_wb_effect p c r c' :
  open_wb p c = (r, c') ->
  conn c' = conn c /\ file_info c' = file_info c /\
  progress_calls c' = progress_calls c /\
  received_calls c' = received_calls c /\
  ((r = Ok tt /\ file_handle c' = Some p) \/
   ((exists e, r = Raise e) /\ file_handle c' = file_handle c)).
Proof.
  unfold open_wb, next_io_fault, bind, raise, modify.
  destruct (io_faults (fs c)) as [|[e|] l]; intros [= <- <-]; cbn; eauto 10.
Qed.

Lemma file_write_effect p data c r c' :
  file_write p data c = (r, c') ->
  conn c' = conn c /\ file_info c' = file_info c /\
  file_handle c' = file_handle c /\
  progress_calls c' = progress_calls c /\
  received_calls c' = received_calls c /\
  (r = Ok tt \/ exists e, r = Raise e).
Proof.
  unfold file_write, next_io_fault, bind, raise, modify.
  destruct (io_faults (fs c)) as [|[e|] l]; intros [= <- <-]; cbn; eauto 10.
Qed.

Lemma file_close_effect c r c' :
  file_close c = (r, c') ->
  conn c' = conn c /\ file_info c' = file_info c /\
  file_handle c' = None /\
  progress_calls c' = progress_calls c /\
  received_calls c' = received_calls c /\
  (r = Ok tt \/ exists e, r = Raise e).
Proof.
  unfold file_close, next_io_fault, bind, raise, ret, modify.
  destruct (io_faults (fs c)) as [|[e|] l]; intros [= <- <-]; cbn; eauto 10.
Qed.

Section ListenerEffects.
Context {rt : PyRuntime}.
Variable cryptography : option CryptoBackend.
Variable self : FileListener.

Lemma unique_path_loop_pure fuel stem suffix target counter c r c' :
  _unique_path_loop self fuel stem suffix target counter c = (r, c') -> c' = c.
Proof.
  revert target counter.
  induction fuel as [|fuel IH]; intros target counter H; cbn [_unique_path_loop] in H.
  - now apply lift_inv in H.
  - unfold path_exists in H. minv.
    destruct (exists_at _ _); [eauto|]. minv. reflexivity.
Qed.

(** [_unique_path] only looks: it leaves the state as it was. *)
Lemma unique_path_pure name c r c' :
  _unique_path self name c = (r, c') -> c' = c.
Proof.
  unfold _unique_path, path_exists. intros H. minv; [|reflexivity..].
  destruct (negb _); minv; [reflexivity|].
  eapply unique_path_loop_pure; eassumption.
Qed.

Lemma on_conn_sendall_effect data c r c' :
  on_conn (sock_sendall data) c = (r, c') -> same_but_output c c'.
Proof.
  unfold on_conn, sock_sendall.
  destruct (sock_send_faults (conn c)) as [|[e|] l]; intros [= <- <-];
    repeat split.
Qed.

Lemma send_ack_effect b m c r c' :
  _send_ack b m c = (r, c') -> same_but_output c c'.
Proof.
  unfold _send_ack. intros H. minv; try (repeat split; fail).
  eapply on_conn_sendall_effect; eassumption.
Qed.

Lemma send_error_effect code m c r c' :
  _send_error code m c = (r, c') -> same_but_output c c'.
Proof.
  unfold _send_error. intros H. minv; try (repeat split; fail).
  eapply on_conn_sendall_effect; eassumption.
Qed.

End ListenerEffects.

Section ListenerInvariant.
Context {rt : PyRuntime}.
Variable cryptography : option CryptoBackend.
Variable self : FileListener.

Ltac use_effects :=
  repeat match goal with
  | H : _send_ack _ _ _ = _ |- _ =>
      apply send_ack_effect in H as (?&?&?&?&?&?)
  | H : _send_error _ _ _ = _ |- _ =>
      apply send_error_effect in H as (?&?&?&?&?&?)
  | H : _unique_path _ _ _ = _ |- _ => apply unique_path_pure in H; subst
  | H : open_wb _ _ = _ |- _ =>
      apply open_wb_effect in H as (?&?&?&?&[[? ?]|[[? ?] ?]])
  | H : file_write _ _ _ = _ |- _ =>
      apply file_write_effect in H as (?&?&?&?&?&?)
  | H : file_close _ = _ |- _ =>
      apply file_close_effect in H as (?&?&?&?&?&?)
  end.

Ltac info_eq :=
  repeat match goal with
  | H : file_info _ = _ |- _ => rewrite H
  end; cbn; first [reflexivity | congruence].

Ltac unchanged :=
  split; [congruence|];
  right; split; [info_eq|];
  left; split; [info_eq|];
  first [left; congruence | right; congruence | right; reflexivity].

Ltac declared :=
  split; [congruence|];
  right; split; [info_eq|];
  right; split; [reflexivity|];
  do 2 eexists; split; [symmetry; eassumption|];
  split; [symmetry; eassumption|info_eq].

Ltac counted :=
  split; [congruence|];
  left; split; [reflexivity|];
  split; [congruence|];
  split; [congruence|];
  split; info_eq.

(** What a dispatched frame does to the counters of the record: a CHUNK
    frame on an open file adds one to [chunks_received]; a FILE_META frame
    may replace [chunk_count] by the value it declares; nothing else moves
    them, and nothing is read from the socket. *)
Lemma handle_message_effect t p c r c' :
  handle_message cryptography self t p c = (r, c') ->
  sock_in (conn c') = sock_in (conn c) /\
  ((t = MSG_CHUNK /\ file_handle c <> None /\
    file_handle c' = file_handle c /\
    chunk_count (file_info c') = chunk_count (file_info c) /\
    chunks_received (file_info c') = chunks_received (file_info c) + 1)
   \/
   (chunks_received (file_info c') = chunks_received (file_info c) /\
    ((chunk_count (file_info c') = chunk_count (file_info c) /\
      (file_handle c' = file_handle c \/ file_handle c' = None))
     \/
     (t = MSG_FILE_META /\
      exists meta v,
        loads_utf8 p = Ok meta /\
        py_getitem meta "chunk_count" = Ok v /\
        chunk_count (file_info c') = v)))).
Proof.
  unfold handle_message. intros H.
  destruct (Z.eqb_spec t MSG_HANDSHAKE) as [->|_].
  { minv; use_effects; unchanged. }
  destruct (Z.eqb_spec t MSG_FILE_META) as [->|_].
  { unfold parse_file_meta_payload in H. minv; use_effects; cbn in *;
      first [unchanged | declared]. }
  destruct (Z.eqb_spec t MSG_CHUNK) as [->|_].
  { minv; try unchanged.
    destruct (file_handle c) as [path|] eqn:Hfh; minv; use_effects;
      try unchanged.
    all: destruct (_on_progress self); minv; use_effects; cbn in *;
      counted. }
  destruct (Z.eqb_spec t MSG_DONE) as [->|_].
  { apply bind_inv in H as [(fh & c0 & H0 & H)|[(e & H0 & ->)|[H0 ->]]];
      [|apply gets_inv in H0 as [? _]; discriminate..].
    apply gets_inv in H0 as [[= ->] ->].
    destruct (file_handle c) as [path|] eqn:Hfh; cbv beta iota in H;
      minv; use_effects; cbn in *; try unchanged.
    all: destruct (_on_file_received self); minv; use_effects; cbn in *;
      unchanged. }
  minv. unchanged.
Qed.

End ListenerInvariant.

(** ** The listener's counters *)

Lemma count_chunks_app l k : count_chunks (l ++ k) = count_chunks l + count_chunks k.
Proof. unfold count_chunks. now rewrite filter_app, len_app. Qed.

Lemma count_chunks_nonneg l : 0 <= count_chunks l.
Proof. apply len_nonneg. Qed.

Lemma count_chunks_one f :
  count_chunks [f] = if decide (f.1 = MSG_CHUNK) then 1 else 0.
Proof.
  unfold count_chunks. rewrite filter_cons, filter_nil.
  destruct (decide (f.1 = MSG_CHUNK)); reflexivity.
Qed.

Lemma stream_cons f frames rest :
  stream (f :: frames) ++ rest = map Rx (wire f) ++ (stream frames ++ rest).
Proof.
  unfold stream. cbn [map concat]. now rewrite map_app, <- app_assoc.
Qed.

(** ** DONE before FILE_META *)

Section DoneFirst.
Context {rt : PyRuntime}.
Variable cryptography : option CryptoBackend.
Variable self : FileListener.

(** The acknowledgement frame as [_send_ack] puts it on the wire. *)
Let ack (message : string) : bytes :=
  wire (MSG_ACK, build_ack_payload true message).

Lemma send_ack_ok message c :
  len (build_ack_payload true message) <= 4294967295 ->
  sock_send_faults (conn c) = [] ->
  _send_ack true message c =
  (Ok tt, with_conn (socket_after_send (ack message)) c).
Proof.
  intros Hlen Hf. unfold _send_ack, ack, wire. cbn [fst snd].
  destruct (build_header_Ok MSG_ACK (build_ack_payload true message))
    as (l0 & l1 & l2 & l3 & _ & ->); [unfold MSG_ACK; lia|exact Hlen|].
  unfold bind, lift, on_conn.
  rewrite sock_sendall_ok by (unfold next_send_ok; now rewrite Hf).
  reflexivity.
Qed.

Variable p : bytes.
Variable rest : list recv_item.
Hypothesis callback_given : _on_file_received self = true.
Hypothesis done_fits : len p <= 4294967295.
Hypothesis ready_fits : len (build_ack_payload true "Ready") <= 4294967295.
Hypothesis saved_fits : len (build_ack_payload true "File saved") <= 4294967295.

Lemma handle_loop_done_first (hs : list bytes) :
  Forall (fun q => len q <= 4294967295) hs ->
  Forall (fun q => exists d, loads_utf8 q = Ok (JDict d)) hs ->
  forall c fuel,
  file_info c = ReceivedFileInfo_init ->
  file_handle c = None ->
  sock_send_faults (conn c) = [] ->
  sock_in (conn c) =
    stream (map (pair MSG_HANDSHAKE) hs ++ [(MSG_DONE, p)]) ++ rest ->
  (length hs < fuel)%nat ->
  exists c',
    handle_loop cryptography self fuel c = (Ok tt, c') /\
    sock_out (conn c') =
      sock_out (conn c) ++ replicate (length hs) (ack "Ready")
        ++ [ack "File saved"] /\
    received_calls c' = received_calls c ++ [([], JStr EmptyString)] /\
    progress_calls c' = progress_calls c /\
    sock_in (conn c') = rest /\
    sock_closed (conn c') = sock_closed (conn c) /\
    file_handle c' = None /\
    fs c' = fs c.
Proof.
  intros Hfit Hdict. induction hs as [|q hs IH]; intros c fuel Hinfo Hfh Hsf Hin Hfuel.
  - destruct fuel as [|fuel]; [simpl in Hfuel; lia|].
    cbn [map app] in Hin. rewrite stream_cons in Hin.
    cbn [handle_loop]. unfold bind at 1.
    assert (Hwf : well_formed (MSG_DONE, p))
      by (split; [cbn; unfold MSG_DONE; lia|exact done_fits]).
    rewrite (handle_frame_wire _ _ MSG_DONE p _ c Hwf Hin).
    unfold handle_message.
    change (MSG_DONE =? MSG_HANDSHAKE) with false.
    change (MSG_DONE =? MSG_FILE_META) with false.
    change (MSG_DONE =? MSG_CHUNK) with false.
    change (MSG_DONE =? MSG_DONE) with true. cbv iota.
    unfold bind at 1, gets.
    cbn [conn_with_in with_conn file_handle]. rewrite Hfh.
    unfold bind at 1, ret. unfold bind at 1.
    rewrite send_ack_ok by (exact saved_fits || exact Hsf).
    rewrite callback_given. unfold bind, modify, ret.
    eexists. split; [reflexivity|].
    cbn. rewrite Hinfo. cbn. auto 10.
  - destruct fuel as [|fuel]; [simpl in Hfuel; lia|].
    apply Forall_cons in Hfit as [Hq Hfit].
    apply Forall_cons in Hdict as [[d Hd] Hdict].
    cbn [map app] in Hin. rewrite stream_cons in Hin.
    cbn [handle_loop]. unfold bind at 1.
    assert (Hwf : well_formed (MSG_HANDSHAKE, q))
      by (split; [cbn; unfold MSG_HANDSHAKE; lia|exact Hq]).
    rewrite (handle_frame_wire _ _ MSG_HANDSHAKE q _ c Hwf Hin).
    unfold handle_message.
    change (MSG_HANDSHAKE =? MSG_HANDSHAKE) with true. cbv iota.
    unfold parse_handshake_payload. unfold bind at 1, lift. rewrite Hd.
    cbn [py_get]. unfold bind at 1. unfold bind at 1. unfold bind at 1.
    rewrite send_ack_ok by (exact ready_fits || exact Hsf).
    unfold ret.
    destruct (IH Hfit Hdict
                (with_conn (socket_after_send (ack "Ready"))
                   (conn_with_in
                      (stream (map (pair MSG_HANDSHAKE) hs ++ [(MSG_DONE, p)])
                         ++ rest) c))
                fuel)
      as (c' & Hloop & Hout & Hrc & Hpc & Hin' & Hcl & Hfh' & Hfs);
      try (cbn; assumption); try reflexivity.
    { cbn. now rewrite Hsf. }
    { simpl in Hfuel. lia. }
    exists c'. split; [exact Hloop|].
    cbn in Hout, Hrc, Hpc, Hcl, Hfs.
    rewrite Hout, <- app_assoc. auto 10.
Qed.

(** C10: a well-formed DONE frame that arrives before any FILE_META frame
    (only HANDSHAKE frames can have been accepted before it) is answered by
    the success ACK, the [on_file_received] callback is called once with the
    record's default path (no parts) and empty mime type, and the handler
    ends by closing the connection. *)
Theorem done_before_file_meta (hs : list bytes) (s : Socket)
    (disk : FileSystem) (fuel : nat) :
  Forall (fun q => len q <= 4294967295) hs ->
  Forall (fun q => exists d, loads_utf8 q = Ok (JDict d)) hs ->
  sock_send_faults s = [] ->
  sock_in s = stream (map (pair MSG_HANDSHAKE) hs ++ [(MSG_DONE, p)]) ++ rest ->
  (length hs < fuel)%nat ->
  exists c',
    _handle_connection cryptography self fuel (Conn_init s disk) = (Ok tt, c') /\
    sock_out (conn c') =
      sock_out s ++ replicate (length hs) (ack "Ready") ++ [ack "File saved"] /\
    received_calls c' = [([], JStr EmptyString)] /\
    progress_calls c' = [] /\
    sock_closed (conn c') = true /\
    fs c' = disk.
Proof.
  intros Hfit Hdict Hsf Hin Hfuel.
  destruct (handle_loop_done_first hs Hfit Hdict (Conn_init s disk) fuel)
    as (c' & Hloop & Hout & Hrc & Hpc & Hin' & Hcl & Hfh' & Hfs);
    try assumption; try reflexivity.
  unfold _handle_connection. rewrite Hloop.
  unfold handle_finally, bind, gets, ret, modify. rewrite Hfh'.
  eexists. split; [reflexivity|]. cbn. auto 10.
Qed.

End DoneFirst.

(** ** Worked examples on the listener *)

(** C7, as stated, fails: the handler does not compare the two counters.
    After a FILE_META frame that announces one chunk and two CHUNK frames,
    the handler is in a state with [chunks_received = 2] and
    [chunk_count = 1], in which [chunks_received <= chunk_count] is
    false. *)
Lemma chunks_received_overruns_chunk_count :
  exists c,
    reachable (rt := MiniJson.runtime) None recv_listener
      (Conn_init (socket_reading overrun_frames) empty_disk) c /\
    chunk_count (file_info c) = JInt 1 /\
    chunks_received (file_info c) = 2 /\
    py_int_le (chunks_received (file_info c)) (chunk_count (file_info c))
      = Some false.
Proof.
  set (c0 := Conn_init (socket_reading overrun_frames) empty_disk).
  exists (turn (turn (turn c0))).
  split; [|vm_compute; repeat split; reflexivity].
  apply reachable_running.
  apply running_turn with (turn (turn c0)); [|vm_compute; reflexivity].
  apply running_turn with (turn c0); [|vm_compute; reflexivity].
  apply running_turn with c0; [|vm_compute; reflexivity].
  apply running_start.
Qed.

Example honest_transfer_saved :
  let c := turn (turn (turn (turn (turn
             (Conn_init (socket_reading honest_frames) empty_disk))))) in
  files (fs c) !! ["recv"; "a.txt"]%string = Some (encode_ascii "ab") /\
  received_calls c = [(["recv"; "a.txt"]%string, JStr "text/plain")] /\
  chunks_received (file_info c) = 2 /\ length (sock_out (conn c)) = 5%nat.
Proof. vm_compute. repeat split; reflexivity. Qed.

(** C10, witness: a handshake, then DONE with no FILE_META in between. *)
Lemma done_before_file_meta_witness :
  exists c',
    _handle_connection (rt := MiniJson.runtime) None recv_listener 2
      (Conn_init (socket_reading [example_handshake; example_done]) empty_disk)
      = (Ok tt, c') /\
    sock_out (conn c') =
      [wire (MSG_ACK, @build_ack_payload MiniJson.runtime true "Ready");
       wire (MSG_ACK, @build_ack_payload MiniJson.runtime true "File saved")] /\
    received_calls c' = [([], JStr EmptyString)] /\
    progress_calls c' = [] /\
    sock_closed (conn c') = true /\
    fs c' = empty_disk.
Proof.
  apply (done_before_file_meta (rt := MiniJson.runtime) None recv_listener
           example_done.2 [] eq_refl
           ltac:(vm_compute; discriminate) ltac:(vm_compute; discriminate)
           ltac:(vm_compute; discriminate)
           [example_handshake.2]
           (socket_reading [example_handshake; example_done]) empty_disk 2).
  - repeat constructor. vm_compute. discriminate.
  - repeat constructor. eexists. vm_compute. reflexivity.
  - reflexivity.
  - unfold socket_reading. cbn [sock_in]. now rewrite app_nil_r.
  - simpl. lia.
Defined.

(** ** The transmitter's progress queue *)

Section ProgressQueue.
Import Transmitter.
Context {rt : PyRuntime}.
Variable cryptography : option CryptoBackend.
Variable self : FileTransmitter.

Lemma appends_ok_same {A} (m : M World A) :
  (forall w r w', m w = (r, w') -> progress_queue w' = progress_queue w) ->
  appends_ok m.
Proof.
  intros H w r w' Hm. exists []. rewrite app_nil_r. split; [eauto|constructor].
Qed.

Lemma appends_ok_bind {A B} (m : M World A) (k : A -> M World B) :
  appends_ok m -> (forall a, appends_ok (k a)) -> appends_ok (bind m k).
Proof.
  intros Hm Hk w r w' H.
  apply bind_inv in H as [(a & w1 & H1 & H2)|[(e & H1 & ->)|[H1 ->]]].
  - destruct (Hm _ _ _ H1) as (n1 & E1 & F1).
    destruct (Hk a _ _ _ H2) as (n2 & E2 & F2).
    exists (n1 ++ n2). rewrite E2, E1, <- app_assoc.
    split; [reflexivity|]. now apply Forall_app.
  - eapply Hm; eassumption.
  - eapply Hm; eassumption.
Qed.

Lemma appends_ok_ret {A} (a : A) : appends_ok (ret a).
Proof. apply appends_ok_same. now intros w r w' [= _ <-]. Qed.

Lemma appends_ok_raise {A} e : appends_ok (raise (A := A) e).
Proof. apply appends_ok_same. now intros w r w' [= _ <-]. Qed.

Lemma appends_ok_lift {A} (x : result A) : appends_ok (lift x).
Proof. apply appends_ok_same. now intros w r w' [= _ <-]. Qed.

Lemma appends_ok_gets {A} (f : World -> A) : appends_ok (gets f).
Proof. apply appends_ok_same. now intros w r w' [= _ <-]. Qed.

Lemma appends_ok_put p : snapshot_ok p -> appends_ok (modify (queue_put p)).
Proof.
  intros Hp w r w' [= _ <-]. exists [p]. split; [reflexivity|].
  now constructor.
Qed.

Lemma appends_ok_on_sock {A} (m : M Socket A) : appends_ok (on_sock m).
Proof.
  apply appends_ok_same. unfold on_sock. intros w r w'.
  destruct (m (sock w)). now intros [= _ <-].
Qed.

Lemma appends_ok_cancel_is_set : appends_ok cancel_is_set.
Proof.
  apply appends_ok_same. unfold cancel_is_set. intros w r w'.
  destruct (cancel_polls w); now intros [= _ <-].
Qed.

Lemma appends_ok_os_urandom : appends_ok os_urandom.
Proof.
  apply appends_ok_same. unfold os_urandom. intros w r w'.
  destruct (urandom w); now intros [= _ <-].
Qed.

Lemma appends_ok_file_op {A} (value : World -> A) : appends_ok (file_op value).
Proof.
  apply appends_ok_same. unfold file_op. intros w r w'.
  destruct (file_faults w) as [|[e|] l]; now intros [= _ <-].
Qed.

Lemma appends_ok_connect : appends_ok connect.
Proof.
  apply appends_ok_same. unfold connect. intros w r w'.
  destruct (connect_fault w); now intros [= _ <-].
Qed.

Create HintDb progress.

#[local] Hint Resolve appends_ok_ret appends_ok_raise appends_ok_lift appends_ok_gets
  appends_ok_on_sock appends_ok_cancel_is_set appends_ok_os_urandom
  appends_ok_file_op appends_ok_connect : progress.

(** Decompose a step into its operations. *)
Ltac appends :=
  repeat first
    [ solve [auto with progress]
    | apply appends_ok_bind; [|intros ?]
    | apply appends_ok_put; unfold snapshot_ok; cbn; intros [? ?];
      first [discriminate | congruence]
    | match goal with
      | |- appends_ok (if ?b then _ else _) => destruct b
      | |- appends_ok (match ?x with _ => _ end) => destruct x
      end ].

Lemma appends_ok_send_message t payload : appends_ok (_send_message t payload).
Proof. unfold _send_message. appends. Qed.

Lemma appends_ok_wait_for_ack : appends_ok _wait_for_ack.
Proof. unfold _wait_for_ack, _recv_exact. appends. Qed.

Lemma appends_ok_retry_loop n attempt t payload :
  appends_ok (retry_loop n attempt t payload).
Proof.
  revert attempt. induction n as [|n IH]; intros attempt; cbn [retry_loop].
  - apply appends_ok_ret.
  - intros w r w' H.
    assert (Hstep : appends_ok (_send_message t payload ;;; _wait_for_ack)).
    { apply appends_ok_bind;
        [apply appends_ok_send_message|intros _; apply appends_ok_wait_for_ack]. }
    destruct ((_send_message t payload ;;; _wait_for_ack) w)
      as [[a|e|] w1] eqn:E; apply Hstep in E as (n1 & E1 & F1).
    + injection H as <- <-. eauto.
    + destruct (retriable e); [|injection H as <- <-; eauto].
      destruct (attempt =? Z.of_nat MAX_RETRIES - 1);
        [injection H as <- <-; eauto|].
      apply IH in H as (n2 & E2 & F2).
      exists (n1 ++ n2). rewrite E2, E1, <- app_assoc.
      split; [reflexivity|]. now apply Forall_app.
    + injection H as <- <-. eauto.
Qed.

Lemma appends_ok_send_chunk total file_size idx raw sent :
  appends_ok (send_chunk cryptography self total file_size idx raw sent).
Proof.
  unfold send_chunk, encrypt_data, _send_with_retry.
  pose proof appends_ok_retry_loop. appends.
Qed.

Lemma appends_ok_chunk_loop n total file_size csize idx f sent :
  appends_ok (chunk_loop cryptography self n total file_size csize idx f sent).
Proof.
  revert idx f sent. induction n as [|n IH]; intros idx f sent; cbn [chunk_loop].
  - apply appends_ok_ret.
  - pose proof appends_ok_send_chunk.
    apply appends_ok_bind; [apply appends_ok_cancel_is_set|intros cancelled].
    destruct cancelled; [appends|].
    apply appends_ok_bind; [apply appends_ok_file_op|intros [raw rest]].
    destruct raw; [apply appends_ok_ret|].
    apply appends_ok_bind; [auto|intros sent'; apply IH].
Qed.

Lemma appends_ok_transfer_body filepath :
  appends_ok (transfer_body cryptography self filepath).
Proof.
  unfold transfer_body, stat_size, open_rb.
  pose proof appends_ok_send_message. pose proof appends_ok_wait_for_ack.
  pose proof appends_ok_chunk_loop. appends.
Qed.

(** C8: every snapshot that [_transfer_worker] puts on the progress queue,
    during the chunks, on completion, on cancellation or on failure, has
    [done] false or [error] empty. *)
Theorem progress_done_error_exclusive (filepath : Path) (w : World) :
  exists new,
    progress_queue (_transfer_worker cryptography self filepath w)
      = progress_queue w ++ new /\
    Forall snapshot_ok new.
Proof.
  unfold _transfer_worker.
  destruct (transfer_body cryptography self filepath w) as [r w1] eqn:E.
  apply appends_ok_transfer_body in E as (n1 & E1 & F1).
  assert (Hq : forall w2, progress_queue
                 (if sock_created w2 then with_sock sock_close w2 else w2)
               = progress_queue w2).
  { intros w2. now destruct (sock_created w2). }
  rewrite Hq. destruct r as [a|e|].
  - eauto.
  - exists (n1 ++ [{| chunks_sent := 0; total_chunks := 0; bytes_sent := 0;
                      total_bytes := 0; done := false; error := exn_str e |}]).
    cbn [queue_put progress_queue]. rewrite E1, <- app_assoc.
    split; [reflexivity|]. apply Forall_app. split; [exact F1|].
    constructor; [|constructor]. unfold snapshot_ok. cbn. intros [? _].
    discriminate.
  - eauto.
Qed.

End ProgressQueue.

(** ** The transmitter: sending with retry *)

Section Retry.
Import Transmitter.
Context {rt : PyRuntime}.
Variable cryptography : option CryptoBackend.
Variable self : FileTransmitter.

Lemma send_message_ok t payload header w :
  build_header t payload = Ok header ->
  sock_send_faults (sock w) = [] ->
  _send_message t payload w =
  (Ok tt, with_sock (socket_after_send (header ++ payload)) w).
Proof.
  intros Hb Hf. unfold _send_message, bind, lift, on_sock. rewrite Hb.
  rewrite sock_sendall_ok by (unfold next_send_ok; now rewrite Hf).
  reflexivity.
Qed.

(** An ACK frame at the head of the stream: [_wait_for_ack] takes it and
    returns the decoded payload, or raises on [success = false]. *)
Lemma wait_for_ack_reply p d rest w :
  len p <= 4294967295 ->
  loads_utf8 p = Ok (JDict d) ->
  sock_in (sock w) = map Rx (wire (MSG_ACK, p)) ++ rest ->
  _wait_for_ack w =
  (if ack_success d then Ok (JDict d) else Raise (nack_error d),
   with_sock (socket_with_in rest) w).
Proof.
  intros Hlen Hd Hin.
  assert (Hwf : well_formed (MSG_ACK, p))
    by (split; [cbn; unfold MSG_ACK; lia|exact Hlen]).
  destruct (wire_well_formed MSG_ACK p Hwf)
    as (buf & h & Hw & Hb & Hbl & Hparse & Hty & Hpl & Hv).
  rewrite Hw, map_app, <- app_assoc in Hin.
  unfold _wait_for_ack, bind at 1, _recv_exact, on_sock.
  change HEADER_SIZE with 256. rewrite <- Hbl.
  rewrite (sock_recv_exact_bytes buf (map Rx p ++ rest)) by exact Hin.
  unfold bind at 1, lift. rewrite Hparse.
  unfold bind at 1, on_sock. rewrite Hpl. cbn [sock with_sock].
  rewrite (sock_recv_exact_bytes p rest) by reflexivity.
  rewrite Hty. change (MSG_ACK =? MSG_ERROR) with false.
  change (MSG_ACK =? MSG_ACK) with true. cbv iota. cbn [negb].
  unfold parse_ack_payload, bind at 1. rewrite Hd.
  cbn [py_get]. unfold bind at 1. fold (ack_success d).
  destruct (ack_success d); cbn [negb]; [reflexivity|].
  unfold bind, raise. reflexivity.
Qed.

(** One attempt writes at most one frame, the frame of the payload. *)
Lemma attempt_output t payload w r w' :
  (_send_message t payload ;;; _wait_for_ack) w = (r, w') ->
  exists l,
    sock_out (sock w') = sock_out (sock w) ++ l /\ (length l <= 1)%nat /\
    Forall (fun x => x = wire (t, payload)) l.
Proof.
  assert (Hwait : forall w r w', _wait_for_ack w = (r, w') ->
            sock_out (sock w') = sock_out (sock w)).
  { clear. intros w r w' H. unfold _wait_for_ack, _recv_exact in H.
    assert (Hrecv : forall n w r w', on_sock (sock_recv_exact n) w = (r, w') ->
              sock_out (sock w') = sock_out (sock w)).
    { clear. intros n w r w'. unfold on_sock.
      destruct (sock_recv_exact n (sock w)) eqn:E. intros [= _ <-].
      now apply sock_recv_exact_out in E as (? & _). }
    apply bind_inv in H as [(hd & w1 & H1 & H)|[(e & H1 & ->)|[H1 ->]]];
      [|eauto..].
    apply Hrecv in H1. rewrite <- H1.
    apply bind_inv in H as [(hdr & w2 & H2 & H)|[(e & H2 & ->)|[H2 ->]]];
      apply lift_inv in H2 as [_ ->]; [|reflexivity..].
    destruct hdr as [hdr|]; [|now apply lift_inv in H as [_ ->]].
    apply bind_inv in H as [(pl & w3 & H3 & H)|[(e & H3 & ->)|[H3 ->]]];
      [|eauto..].
    apply Hrecv in H3. rewrite <- H3.
    repeat first
      [ progress minv
      | match goal with
        | H : (if ?b then _ else _) _ = (_, _) |- _ => destruct b
        end ]; reflexivity. }
  intros H. unfold _send_message in H.
  apply bind_inv in H as [(u & w1 & H1 & H)|[(e & H1 & ->)|[H1 ->]]].
  - apply Hwait in H. rewrite H.
    apply bind_inv in H1 as [(hdr & w2 & H2 & H1)|[(e & H2 & ?)|[H2 ?]]];
      [|discriminate..].
    apply lift_inv in H2 as [Hb ->].
    unfold on_sock, sock_sendall in H1.
    destruct (sock_send_faults (sock w)) as [|[e|] l];
      try discriminate H1; injection H1 as _ <-; cbn.
    + exists [hdr ++ payload]. repeat split; [simpl; lia|].
      constructor; [|constructor]. unfold wire. cbn. now rewrite <- Hb.
    + exists [hdr ++ payload]. repeat split; [simpl; lia|].
      constructor; [|constructor]. unfold wire. cbn. now rewrite <- Hb.
  - exists []. rewrite app_nil_r.
    apply bind_inv in H1 as [(hdr & w2 & H2 & H1)|[(e' & H2 & ?)|[H2 ?]]].
    + apply lift_inv in H2 as [_ ->].
      unfold on_sock, sock_sendall in H1.
      destruct (sock_send_faults (sock w)) as [|[e'|] l];
        try discriminate H1;
        injection H1 as _ <-; cbn; repeat split; try (simpl; lia); constructor.
    + apply lift_inv in H2 as [_ ->]. repeat split; [simpl; lia|constructor].
    + apply lift_inv in H2 as [_ ->]. repeat split; [simpl; lia|constructor].
  - exists []. rewrite app_nil_r.
    apply bind_inv in H1 as [(hdr & w2 & H2 & H1)|[(e' & H2 & ?)|[H2 ?]]].
    + apply lift_inv in H2 as [_ ->].
      unfold on_sock, sock_sendall in H1.
      destruct (sock_send_faults (sock w)) as [|[e'|] l];
        try discriminate H1;
        injection H1 as _ <-; cbn; repeat split; try (simpl; lia); constructor.
    + apply lift_inv in H2 as [_ ->]. repeat split; [simpl; lia|constructor].
    + apply lift_inv in H2 as [_ ->]. repeat split; [simpl; lia|constructor].
Qed.

(** With [n] attempts left, at most [n] frames are written. *)
Lemma retry_loop_output n attempt t payload w r w' :
  retry_loop n attempt t payload w = (r, w') ->
  exists l,
    sock_out (sock w') = sock_out (sock w) ++ l /\ (length l <= n)%nat /\
    Forall (fun x => x = wire (t, payload)) l.
Proof.
  revert attempt w. induction n as [|n IH]; intros attempt w H;
    cbn [retry_loop] in H.
  - apply ret_inv in H as [_ ->]. exists []. rewrite app_nil_r.
    repeat split; [simpl; lia|constructor].
  - destruct ((_send_message t payload ;;; _wait_for_ack) w)
      as [[a|e|] w1] eqn:E;
      apply attempt_output in E as (l1 & E1 & L1 & F1).
    + injection H as _ <-. exists l1. repeat split; [exact E1|lia|exact F1].
    + destruct (retriable e);
        [|injection H as _ <-; exists l1; repeat split; [exact E1|lia|exact F1]].
      destruct (attempt =? Z.of_nat MAX_RETRIES - 1);
        [injection H as _ <-; exists l1; repeat split; [exact E1|lia|exact F1]|].
      apply IH in H as (l2 & E2 & L2 & F2).
      exists (l1 ++ l2). rewrite E2, E1, <- app_assoc.
      repeat split; [rewrite length_app; lia|now apply Forall_app].
    + injection H as _ <-. exists l1. repeat split; [exact E1|lia|exact F1].
Qed.

End Retry.

Section ChunkRetry.
Import Transmitter.
Context {rt : PyRuntime}.
Variable cryptography : option CryptoBackend.
Variable self : FileTransmitter.

(** One attempt against a peer that answers with an ACK frame. *)
Lemma attempt_answered t cp p d rest w :
  well_formed (t, cp) ->
  len p <= 4294967295 ->
  loads_utf8 p = Ok (JDict d) ->
  sock_send_faults (sock w) = [] ->
  sock_in (sock w) = map Rx (wire (MSG_ACK, p)) ++ rest ->
  (_send_message t cp ;;; _wait_for_ack) w =
  (if ack_success d then Ok (JDict d) else Raise (nack_error d),
   answered (wire (t, cp)) rest w).
Proof.
  intros Hwf Hp Hd Hf Hin.
  destruct (wire_well_formed t cp Hwf) as (hdr & h & Hw & Hb & _).
  unfold bind. rewrite (send_message_ok t cp hdr w Hb Hf).
  rewrite (wait_for_ack_reply p d rest) by assumption.
  rewrite Hw. unfold answered, socket_after_send, socket_with_in, with_sock.
  cbn. rewrite Hf. reflexivity.
Qed.

Lemma nack_retriable d : retriable (nack_error d) = true.
Proof. apply bool_decide_eq_true. right. reflexivity. Qed.

Variables total file_size idx sent : Z.
Variables raw data cp : bytes.
Variable w0 w : World.
Hypothesis encrypted : encrypt_data cryptography self raw w0 = (Ok data, w).
Hypothesis payload_built : build_chunk_payload idx data = Ok cp.
Hypothesis payload_fits : len cp <= 4294967295.

Let frame := wire (MSG_CHUNK, cp).
Let snapshot :=
  {| chunks_sent := idx + 1; total_chunks := total;
     bytes_sent := sent + len raw; total_bytes := file_size;
     done := false; error := EmptyString |}.

Lemma chunk_frame_well_formed : well_formed (MSG_CHUNK, cp).
Proof. split; [cbn; unfold MSG_CHUNK; lia|exact payload_fits]. Qed.

Lemma send_chunk_unfold :
  send_chunk cryptography self total file_size idx raw sent w0 =
  match _send_with_retry MSG_CHUNK cp w with
  | (Ok _, w') => (Ok (sent + len raw), queue_put snapshot w')
  | (Raise e, w') => (Raise e, w')
  | (OutOfFuel, w') => (OutOfFuel, w')
  end.
Proof.
  unfold send_chunk. unfold bind at 1. rewrite encrypted.
  unfold bind at 1, lift. rewrite payload_built.
  unfold bind at 1.
  destruct (_send_with_retry MSG_CHUNK cp w) as [[u|e|] w']; reflexivity.
Qed.

(** C3: (1) when the peer answers the first two attempts with an ACK frame
    whose [success] is false and the third with one whose [success] is
    true, the chunk's frame is written three times and one progress
    snapshot is queued; (2) whatever the peer does, [_send_with_retry]
    writes the frame at most three times and nothing else; (3) when two
    attempts in a row have failed on an exception that is retried, the
    exception of a third failed attempt is raised again; (4) after three
    refusals no snapshot is queued for the chunk and the chunk loop stops
    with that exception, (5) and [_transfer_worker] reports an exception of
    its body as the transfer's error. *)
Theorem chunk_sent_with_retry
    (p1 p2 p3 : bytes) (d1 d2 d3 : list (string * json))
    (rest : list recv_item) :
  len p1 <= 4294967295 -> len p2 <= 4294967295 -> len p3 <= 4294967295 ->
  loads_utf8 p1 = Ok (JDict d1) -> loads_utf8 p2 = Ok (JDict d2) ->
  loads_utf8 p3 = Ok (JDict d3) ->
  ack_success d1 = false -> ack_success d2 = false ->
  sock_send_faults (sock w) = [] ->
  sock_in (sock w) =
    stream [(MSG_ACK, p1); (MSG_ACK, p2); (MSG_ACK, p3)] ++ rest ->
  (ack_success d3 = true ->
   exists w',
     send_chunk cryptography self total file_size idx raw sent w0
       = (Ok (sent + len raw), w') /\
     sock_out (sock w') = sock_out (sock w) ++ [frame; frame; frame] /\
     sock_in (sock w') = rest /\
     progress_queue w' = progress_queue w ++ [snapshot])
  /\
  (forall wx r wx',
     _send_with_retry MSG_CHUNK cp wx = (r, wx') ->
     exists l,
       sock_out (sock wx') = sock_out (sock wx) ++ l /\
       (length l <= 3)%nat /\ Forall (fun x => x = frame) l)
  /\
  (forall wa e1 wb e2 wc e3 wd,
     (_send_message MSG_CHUNK cp ;;; _wait_for_ack) wa = (Raise e1, wb) ->
     retriable e1 = true ->
     (_send_message MSG_CHUNK cp ;;; _wait_for_ack) wb = (Raise e2, wc) ->
     retriable e2 = true ->
     (_send_message MSG_CHUNK cp ;;; _wait_for_ack) wc = (Raise e3, wd) ->
     _send_with_retry MSG_CHUNK cp wa = (Raise e3, wd))
  /\
  (ack_success d3 = false ->
   exists w',
     send_chunk cryptography self total file_size idx raw sent w0
       = (Raise (nack_error d3), w') /\
     sock_out (sock w') = sock_out (sock w) ++ [frame; frame; frame] /\
     progress_queue w' = progress_queue w /\
     forall n csize f tail_of_file wc wr,
       cancel_is_set wc = (Ok false, wr) ->
       file_op (fun _ => file_read csize f) wr = (Ok (raw, tail_of_file), w0) ->
       raw <> [] ->
       chunk_loop cryptography self (S n) total file_size csize idx f sent wc
         = (Raise (nack_error d3), w'))
  /\
  (forall filepath wz e w1,
     transfer_body cryptography self filepath wz = (Raise e, w1) ->
     progress_queue (_transfer_worker cryptography self filepath wz)
       = progress_queue w1
           ++ [{| chunks_sent := 0; total_chunks := 0; bytes_sent := 0;
                  total_bytes := 0; done := false; error := exn_str e |}]).
Proof.
  intros Hp1 Hp2 Hp3 Hd1 Hd2 Hd3 Hn1 Hn2 Hf Hin.
  pose proof chunk_frame_well_formed as Hwf.
  rewrite !stream_cons in Hin. unfold stream in Hin. cbn [concat map app] in Hin.
  (* the first two attempts, common to (1) and (3) *)
  set (w1 := answered frame
               (map Rx (wire (MSG_ACK, p2)) ++ map Rx (wire (MSG_ACK, p3)) ++ rest) w).
  set (w2 := answered frame (map Rx (wire (MSG_ACK, p3)) ++ rest) w1).
  set (w3 := answered frame rest w2).
  assert (A1 : (_send_message MSG_CHUNK cp ;;; _wait_for_ack) w
               = (Raise (nack_error d1), w1)).
  { rewrite (attempt_answered MSG_CHUNK cp p1 d1 _ w Hwf Hp1 Hd1 Hf Hin).
    now rewrite Hn1. }
  assert (A2 : (_send_message MSG_CHUNK cp ;;; _wait_for_ack) w1
               = (Raise (nack_error d2), w2)).
  { rewrite (attempt_answered MSG_CHUNK cp p2 d2
               (map Rx (wire (MSG_ACK, p3)) ++ rest) w1 Hwf Hp2 Hd2)
      by reflexivity.
    now rewrite Hn2. }
  assert (A3 : (_send_message MSG_CHUNK cp ;;; _wait_for_ack) w2
               = (if ack_success d3 then Ok (JDict d3) else Raise (nack_error d3),
                  w3)).
  { now rewrite (attempt_answered MSG_CHUNK cp p3 d3 rest w2 Hwf Hp3 Hd3)
      by reflexivity. }
  assert (Hretry : _send_with_retry MSG_CHUNK cp w =
                   (if ack_success d3 then Ok tt else Raise (nack_error d3), w3)).
  { unfold _send_with_retry. change MAX_RETRIES with 3%nat.
    cbn [retry_loop]. rewrite A1, nack_retriable.
    change (0 =? Z.of_nat 3 - 1) with false. cbv iota.
    rewrite A2, nack_retriable.
    change (0 + 1 =? Z.of_nat 3 - 1) with false. cbv iota.
    rewrite A3. destruct (ack_success d3); [reflexivity|].
    rewrite nack_retriable.
    change (0 + 1 + 1 =? Z.of_nat 3 - 1) with true. reflexivity. }
  assert (Hout : sock_out (sock w3) = sock_out (sock w) ++ [frame; frame; frame]).
  { cbn. now rewrite <- !app_assoc. }
  repeat split.
  - intros Hack. rewrite Hack in Hretry.
    exists (queue_put snapshot w3). rewrite send_chunk_unfold, Hretry.
    split; [reflexivity|]. split; [exact Hout|]. split; reflexivity.
  - intros wx r wx' H. apply (retry_loop_output _ _ _ _ _ _ _ H).
  - intros wa e1 wb e2 wc e3 wd H1 R1 H2 R2 H3.
    unfold _send_with_retry. change MAX_RETRIES with 3%nat.
    cbn [retry_loop]. rewrite H1, R1.
    change (0 =? Z.of_nat 3 - 1) with false. cbv iota.
    rewrite H2, R2.
    change (0 + 1 =? Z.of_nat 3 - 1) with false. cbv iota.
    rewrite H3. change (0 + 1 + 1 =? Z.of_nat 3 - 1) with true.
    now destruct (retriable e3).
  - intros Hnack. rewrite Hnack in Hretry.
    exists w3. rewrite send_chunk_unfold, Hretry.
    split; [reflexivity|]. split; [exact Hout|]. split; [reflexivity|].
    intros n csize f tail_of_file wc wr Hc Hread Hraw.
    assert (Hm : forall (B : Type) (x y : B),
              match raw with [] => x | _ :: _ => y end = y).
    { clear - Hraw. intros B x y. destruct raw; [contradiction|reflexivity]. }
    cbn [chunk_loop]. unfold bind at 1. rewrite Hc.
    unfold bind at 1. rewrite Hread, Hm.
    unfold bind at 1. rewrite send_chunk_unfold, Hretry. reflexivity.
  - intros filepath wz e w1' Hbody. unfold _transfer_worker. rewrite Hbody.
    now destruct (sock_created _).
Qed.

End ChunkRetry.

(** ** Worked examples on the transmitter *)

(** C3, witness: the five bytes of [hello] as chunk 0, refused twice and
    then accepted: three copies of the frame on the wire, one snapshot. *)
Lemma chunk_sent_with_retry_witness :
  exists w',
    Transmitter.send_chunk (rt := MiniJson.runtime) None default_transmitter
      1 5 0 (encode_ascii "hello") 0 retry_world = (Ok 5, w') /\
    sock_out (Transmitter.sock w') =
      [wire (example_chunk 0 "hello"); wire (example_chunk 0 "hello");
       wire (example_chunk 0 "hello")] /\
    sock_in (Transmitter.sock w') = [] /\
    Transmitter.progress_queue w' =
      [{| Transmitter.chunks_sent := 1; Transmitter.total_chunks := 1;
          Transmitter.bytes_sent := 5; Transmitter.total_bytes := 5;
          Transmitter.done := false; Transmitter.error := EmptyString |}].
Proof.
  destruct (chunk_sent_with_retry (rt := MiniJson.runtime) None
              default_transmitter 1 5 0 0
              (encode_ascii "hello") (encode_ascii "hello")
              (example_chunk 0 "hello").2 retry_world retry_world
              eq_refl eq_refl ltac:(vm_compute; discriminate)
              example_nack.2 example_nack.2 example_ack.2
              [("success"%string, JBool false); ("message"%string, JStr "busy")]
              [("success"%string, JBool false); ("message"%string, JStr "busy")]
              [("success"%string, JBool true);
               ("message"%string, JStr "Chunk 0 OK")]
              []
              ltac:(vm_compute; discriminate) ltac:(vm_compute; discriminate)
              ltac:(vm_compute; discriminate)
              ltac:(vm_compute; reflexivity) ltac:(vm_compute; reflexivity)
              ltac:(vm_compute; reflexivity)
              eq_refl eq_refl eq_refl
              ltac:(cbn; now rewrite app_nil_r))
    as [H _].
  exact (H eq_refl).
Defined.

Example three_refusals_are_fatal :
  let peer := socket_reading [example_nack; example_nack; example_nack] in
  let w := Transmitter.with_sock (fun _ => peer) retry_world in
  exists w',
    Transmitter.chunk_loop (rt := MiniJson.runtime) None default_transmitter
      1 1 5 65536 0 (encode_ascii "hello") 0 w
    = (Raise (Exn ConnectionError "Receiver NACK: busy"), w') /\
    length (sock_out (Transmitter.sock w')) = 3%nat /\
    Transmitter.progress_queue w' = [].
Proof. eexists. vm_compute. repeat split; reflexivity. Qed.

(** Scenario S1, sender side: four frames on the wire, a snapshot for the
    chunk and the terminal one, the socket closed. *)
Example hello_transfer_sender :
  Transmitter.progress_queue hello_sent =
    [{| Transmitter.chunks_sent := 1; Transmitter.total_chunks := 1;
        Transmitter.bytes_sent := 5; Transmitter.total_bytes := 5;
        Transmitter.done := false; Transmitter.error := EmptyString |};
     {| Transmitter.chunks_sent := 1; Transmitter.total_chunks := 1;
        Transmitter.bytes_sent := 5; Transmitter.total_bytes := 5;
        Transmitter.done := true; Transmitter.error := EmptyString |}] /\
  sock_out (Transmitter.sock hello_sent) =
    [wire (MSG_HANDSHAKE, @build_handshake_payload MiniJson.runtime "sender" false);
     wire (MSG_FILE_META,
           @build_file_meta_payload MiniJson.runtime "hello.txt" 5 "text/plain"
             1 65536);
     wire (example_chunk 0 "hello");
     wire example_done] /\
  sock_closed (Transmitter.sock hello_sent) = true.
Proof. vm_compute. repeat split; reflexivity. Qed.

(** Scenario S1, receiver side: the file arrives under its name with its
    content, and the callback is called once. *)
Example hello_transfer_receiver :
  hello_received.1 = Ok tt /\
  files (fs hello_received.2) !! ["recv"; "hello.txt"]%string = Some (encode_ascii "hello") /\
  received_calls hello_received.2 =
    [(["recv"; "hello.txt"]%string, JStr "text/plain")] /\
  length (sock_out (conn hello_received.2)) = 4%nat /\
  sock_closed (conn hello_received.2) = true.
Proof. vm_compute. repeat split; reflexivity. Qed.

(** * Further properties of the code *)

(** ** The codec: failures, layout and the inverse round trips *)





Lemma nth_take_lt {A} (l : list A) (i n : nat) d :
  (i < n)%nat -> nth i (take n l) d = nth i l d.
Proof.
  revert i n. induction l as [|a l IH]; intros i n H.
  - now rewrite take_nil.
  - destruct n as [|n]; [lia|]. destruct i as [|i]; [reflexivity|].
    cbn. apply IH. lia.
Qed.

Lemma take_plus_app {A} (l : list A) (n m : nat) :
  take (n + m) l = take n l ++ take m (drop n l).
Proof.
  revert l. induction n as [|n IH]; intros l; [reflexivity|].
  destruct l as [|a l]; [now rewrite !take_nil, drop_nil, take_nil|].
  cbn. now rewrite IH.
Qed.

Lemma take_one_nth {A} (l : list A) d :
  (1 <= length l)%nat -> take 1 l = [nth 0 l d].
Proof. destruct l; cbn; [lia|reflexivity]. Qed.

Lemma nth_drop_0 {A} (l : list A) n d : nth 0 (drop n l) d = nth n l d.
Proof.
  revert l. induction n as [|n IH]; intros l; [now rewrite drop_0|].
  destruct l as [|a l]; [reflexivity|]. cbn. apply IH.
Qed.

(** The 42 bytes that [_HEADER_STRUCT] covers, field by field. *)
Lemma header_fields (B : bytes) :
  (42 <= length B)%nat ->
  take 42 B =
  take 4 B ++ [nth 4 B x00] ++ [nth 5 B x00] ++ take 4 (drop 6 B)
    ++ take 32 (drop 10 B).
Proof.
  intros H.
  change 42%nat with (4 + (1 + (1 + (4 + 32))))%nat.
  rewrite take_plus_app. f_equal.
  rewrite take_plus_app, (take_one_nth _ x00), nth_drop_0
    by (rewrite length_drop; lia).
  f_equal.
  rewrite drop_drop, take_plus_app, (take_one_nth _ x00), nth_drop_0
    by (rewrite length_drop; lia).
  f_equal.
  rewrite drop_drop, take_plus_app, drop_drop. reflexivity.
Qed.

(** [parse_header] reads the 42 bytes of the fixed fields and nothing else:
    the 214 reserved bytes, and whatever follows the 256th byte, are never
    looked at. *)
Theorem parse_header_ignores_padding (B B' : bytes) :
  256 <= len B -> 256 <= len B' -> take 42 B = take 42 B' ->
  parse_header B = parse_header B'.
Proof.
  unfold len. intros HB HB' E.
  rewrite (header_fields B), (header_fields B') in E by lia.
  assert (L4 : forall X : bytes, (42 <= length X)%nat -> length (take 4 X) = 4%nat)
    by (intros X HX; rewrite length_take; lia).
  assert (L4' : forall X : bytes, (42 <= length X)%nat ->
                  length (take 4 (drop 6 X)) = 4%nat)
    by (intros X HX; rewrite length_take, length_drop; lia).
  apply app_inj_1 in E as [E1 E]; [|rewrite !L4 by lia; reflexivity].
  injection E as E2 E3 E.
  apply app_inj_1 in E as [E4 E5]; [|rewrite !L4' by lia; reflexivity].
  rewrite !parse_header_unfold, E1, E2, E3, E4, E5.
  unfold len.
  destruct (decide (Z.of_nat (length B) < 256)); [lia|].
  destruct (decide (Z.of_nat (length B') < 256)); [lia|].
  reflexivity.
Qed.

(** Two buffers that agree on the fixed fields and differ in the reserved
    bytes and in length. *)
Lemma parse_header_ignores_padding_witness :
  parse_header ([x00; x00; xde; x0f; x02; x03] ++ replicate 250 x00) =
  parse_header ([x00; x00; xde; x0f; x02; x03] ++ replicate 36 x00
                  ++ replicate 300 xff).
Proof.
  apply parse_header_ignores_padding.
  - vm_compute. discriminate.
  - vm_compute. discriminate.
  - reflexivity.
Defined.

Lemma be_value_4_range b0 b1 b2 b3 :
  0 <= Struct.be_value [b0; b1; b2; b3] <= 4294967295.
Proof.
  rewrite be_value_4.
  pose proof (byte_to_Z_range b0). pose proof (byte_to_Z_range b1).
  pose proof (byte_to_Z_range b2). pose proof (byte_to_Z_range b3). lia.
Qed.

Lemma pack_I_be_value (bs : bytes) :
  length bs = 4%nat -> Struct.pack_I (Struct.be_value bs) = Ok bs.
Proof.
  intros H.
  destruct bs as [|b0 [|b1 [|b2 [|b3 [|? ?]]]]]; try discriminate H.
  destruct (pack_I_Ok _ (be_value_4_range b0 b1 b2 b3)) as [cs Hcs].
  rewrite Hcs. f_equal.
  apply unpack_pack_I in Hcs as [Hlen Hval].
  destruct cs as [|c0 [|c1 [|c2 [|c3 [|? ?]]]]]; try discriminate Hlen.
  rewrite !be_value_4 in Hval.
  pose proof (byte_to_Z_range b0). pose proof (byte_to_Z_range b1).
  pose proof (byte_to_Z_range b2). pose proof (byte_to_Z_range b3).
  pose proof (byte_to_Z_range c0). pose proof (byte_to_Z_range c1).
  pose proof (byte_to_Z_range c2). pose proof (byte_to_Z_range c3).
  assert (byte_to_Z c0 = byte_to_Z b0) by lia.
  assert (byte_to_Z c1 = byte_to_Z b1) by lia.
  assert (byte_to_Z c2 = byte_to_Z b2) by lia.
  assert (byte_to_Z c3 = byte_to_Z b3) by lia.
  f_equal; [|f_equal; [|f_equal; [|f_equal]]]; now apply byte_to_Z_inj.
Qed.

(** A buffer that [parse_header] accepts, with a payload of the announced
    length that passes [validate_payload], is the header that [build_header]
    makes for that message type and payload, up to the reserved bytes. *)
Theorem parse_build_header_roundtrip (B : bytes) (h : ProtocolHeader)
    (P : bytes) :
  parse_header B = Ok (Some h) ->
  payload_length h = len P ->
  validate_payload h P = true ->
  build_header (message_type h) P = Ok (take 42 B ++ replicate 214 x00).
Proof.
  rewrite parse_header_unfold. intros Hp Hl Hv.
  destruct (decide (len B < 256)) as [|Hlen]; [discriminate|].
  destruct (decide (take 4 B <> MAGIC_NUMBER_FULL)) as [|Hm]; [discriminate|].
  destruct (decide (nth 4 B x00 <> x02)) as [|Hver]; [discriminate|].
  injection Hp as <-. cbn [message_type payload_length payload_hash] in *.
  assert (Hm' : take 4 B = MAGIC_NUMBER_FULL)
    by (destruct (decide (take 4 B = MAGIC_NUMBER_FULL)); tauto).
  assert (Hver' : nth 4 B x00 = x02)
    by (destruct (decide (nth 4 B x00 = x02)); tauto).
  unfold validate_payload in Hv. apply bool_decide_eq_true in Hv.
  cbn [payload_hash] in Hv.
  unfold len in Hlen.
  assert (H4 : length (take 4 (drop 6 B)) = 4%nat)
    by (rewrite length_take, length_drop; lia).
  pose proof (pack_I_be_value _ H4) as Hpack. rewrite Hl in Hpack.
  destruct (take 4 (drop 6 B)) as [|l0 [|l1 [|l2 [|l3 [|? ?]]]]] eqn:El;
    try discriminate H4.
  pose proof (be_value_4_range l0 l1 l2 l3) as Hr. rewrite Hl in Hr.
  destruct (build_header_Ok (byte_to_Z (nth 5 B x00)) P
              (byte_to_Z_range _) (proj2 Hr))
    as (k0 & k1 & k2 & k3 & Hk & ->).
  rewrite Hpack in Hk. injection Hk as <- <- <- <-.
  rewrite header_fields by lia.
  rewrite Hm', Hver', El, <- Hv, byte_of_to_Z, <- !app_assoc. reflexivity.
Qed.

Lemma parse_build_header_roundtrip_witness :
  build_header 3 [] =
  Ok (take 42 ([x00; x00; xde; x0f; x02; x03; x00; x00; x00; x00]
                 ++ SHA256.digest [] ++ replicate 300 xff)
        ++ replicate 214 x00).
Proof.
  apply (parse_build_header_roundtrip
           ([x00; x00; xde; x0f; x02; x03; x00; x00; x00; x00]
              ++ SHA256.digest [] ++ replicate 300 xff)
           {| message_type := 3; payload_length := 0;
              payload_hash := SHA256.digest []; version := 2 |} []).
  - vm_compute. reflexivity.
  - reflexivity.
  - vm_compute. reflexivity.
Defined.

(** [parse_chunk_payload] succeeds exactly on payloads of at least four
    bytes, raising [struct.error] on shorter ones, and what it returns is
    the index and data from which [build_chunk_payload] makes the same
    payload again. *)
Theorem parse_chunk_payload_total (p : bytes) :
  (len p < 4 <->
   parse_chunk_payload p =
   Raise (Exn struct_error "unpack requires a buffer of 4 bytes"))
  /\ (4 <= len p <->
      exists i D, parse_chunk_payload p = Ok (i, D) /\
                  0 <= i <= 4294967295 /\ len D = len p - 4 /\
                  build_chunk_payload i D = Ok p).
Proof.
  unfold parse_chunk_payload, Struct.unpack_I, len.
  destruct (decide (length (take 4 p) = 4%nat)) as [H4|H4];
    rewrite length_take in H4; cbn [rbind].
  - split; split; try discriminate; try lia.
    + intros _. exists (Struct.be_value (take 4 p)), (drop 4 p).
      split; [reflexivity|].
      assert (H4' : length (take 4 p) = 4%nat) by (rewrite length_take; lia).
      destruct (take 4 p) as [|b0 [|b1 [|b2 [|b3 [|? ?]]]]] eqn:E;
        try discriminate H4'.
      split; [apply be_value_4_range|].
      split; [rewrite length_drop; lia|].
      unfold build_chunk_payload. rewrite pack_I_be_value by reflexivity.
      cbn [rbind]. rewrite <- E, take_drop. reflexivity.
  - split; split; try reflexivity; try lia.
    intros (i & D & H & _). discriminate.
Qed.

(** ** [_recv_exact] *)

Lemma recv_loop_spec items n buf r rest :
  recv_loop items n buf = (r, rest) ->
  match r with
  | Ok out =>
      exists bs, out = buf ++ bs /\ items = map Rx bs ++ rest /\
                 len out = Z.max (len buf) n
  | Raise e =>
      exists bs, len buf + len bs < n /\
        ((items = map Rx bs /\ e = connection_closed /\ rest = []) \/
         items = map Rx bs ++ RxRaise e :: rest)
  | OutOfFuel => False
  end.
Proof.
  revert buf. induction items as [|[b|e] items IH]; intros buf;
    rewrite recv_loop_unfold;
    destruct (Z.ltb_spec (len buf) n) as [Hlt|Hge].
  - intros [= <- <-]. exists []. split; [unfold len in *; simpl; lia|].
    left. auto.
  - intros [= <- <-]. exists []. rewrite app_nil_r. repeat split. lia.
  - intros H. apply IH in H. destruct r as [out|e|]; [| |exact H].
    + destruct H as (bs & -> & -> & Hl). exists (b :: bs).
      rewrite <- app_assoc. repeat split.
      unfold len in *. rewrite !length_app in Hl. rewrite !length_app.
      simpl in *. lia.
    + destruct H as (bs & Hl & H). exists (b :: bs).
      unfold len in *. rewrite !length_app in Hl. simpl in *.
      split; [lia|].
      destruct H as [(-> & -> & ->)| ->]; [left|right]; auto.
  - intros [= <- <-]. exists []. rewrite app_nil_r. repeat split. lia.
  - intros [= <- <-]. exists []. split; [unfold len in *; simpl; lia|].
    right. reflexivity.
  - intros [= <- <-]. exists []. rewrite app_nil_r. repeat split. lia.
Qed.

Lemma sock_recv_exact_spec (num_bytes : Z) (s : Socket) r s' :
  sock_recv_exact num_bytes s = (r, s') ->
  sock_out s' = sock_out s /\ sock_closed s' = sock_closed s /\
  match r with
  | Ok buf =>
      len buf = Z.max 0 num_bytes /\ sock_in s = map Rx buf ++ sock_in s'
  | Raise e =>
      exists bs, len bs < num_bytes /\
        ((sock_in s = map Rx bs /\ sock_in s' = [] /\
          e = Exn ConnectionError "Connection closed while reading") \/
         sock_in s = map Rx bs ++ RxRaise e :: sock_in s')
  | OutOfFuel => False
  end.
Proof.
  intros H. pose proof (sock_recv_exact_out _ _ _ _ H) as (Ho & _ & Hc).
  split; [exact Ho|]. split; [exact Hc|].
  unfold sock_recv_exact in H.
  destruct (recv_loop (sock_in s) num_bytes []) as [r0 rest] eqn:E.
  injection H as <- <-. cbn [sock_in].
  apply recv_loop_spec in E. destruct r0 as [out|e|]; [| |exact E].
  - destruct E as (bs & -> & -> & Hl). cbn [app]. split; [exact Hl|reflexivity].
  - destruct E as (bs & Hl & E). exists bs. split; [exact Hl|].
    destruct E as [(-> & -> & ->)| ->]; [left|right]; auto.
Qed.

(** [_recv_exact] returns exactly the [num_bytes] next bytes of the stream
    (none when [num_bytes] is not positive) and takes just these off it; it
    raises [ConnectionError] when the peer closes before that many bytes
    have come, and passes on an exception of [recv]; it leaves the rest of
    the socket alone. *)
Theorem recv_exact_spec (num_bytes : Z) (s : Socket) r s' :
  sock_recv_exact num_bytes s = (r, s') ->
  sock_out s' = sock_out s /\ sock_closed s' = sock_closed s /\
  match r with
  | Ok buf =>
      len buf = Z.max 0 num_bytes /\ sock_in s = map Rx buf ++ sock_in s'
  | Raise e =>
      exists bs, len bs < num_bytes /\
        ((sock_in s = map Rx bs /\ sock_in s' = [] /\
          e = Exn ConnectionError "Connection closed while reading") \/
         sock_in s = map Rx bs ++ RxRaise e :: sock_in s')
  | OutOfFuel => False
  end.
Proof. apply sock_recv_exact_spec. Qed.

(** Five bytes are asked of a peer that closes after three. *)
Lemma recv_exact_spec_witness :
  exists bs, len bs < 5 /\
    ((map Rx [x01; x02; x03] = map Rx bs /\ [] = @nil recv_item /\
      connection_closed =
        Exn ConnectionError "Connection closed while reading") \/
     map Rx [x01; x02; x03] = map Rx bs ++ RxRaise connection_closed :: []).
Proof.
  exact (proj2 (proj2 (recv_exact_spec 5
    {| sock_in := map Rx [x01; x02; x03]; sock_out := [];
       sock_send_faults := []; sock_closed := false |}
    (Raise connection_closed)
    {| sock_in := []; sock_out := []; sock_send_faults := [];
       sock_closed := false |} eq_refl))).
Defined.

(** ** The listener: frames that end the connection *)

Section ListenerErrors.
Context {rt : PyRuntime}.
Variable cryptography : option CryptoBackend.
Variable self : FileListener.

Lemma send_error_ok code reason c :
  len (build_error_payload code reason) <= 4294967295 ->
  next_send_ok (conn c) ->
  _send_error code reason c =
  (Ok tt, with_conn (socket_after_send (error_frame code reason)) c).
Proof.
  intros Hlen Hf. unfold _send_error, error_frame, wire. cbn [fst snd].
  destruct (build_header_Ok MSG_ERROR (build_error_payload code reason))
    as (l0 & l1 & l2 & l3 & _ & ->); [unfold MSG_ERROR; lia|exact Hlen|].
  unfold bind, lift, on_conn.
  rewrite sock_sendall_ok by exact Hf.
  reflexivity.
Qed.

(** With no file open, the [finally] block closes the socket and nothing
    else. *)
Lemma handle_finally_closed c :
  file_handle c = None -> handle_finally c = (Ok tt, hung_up c).
Proof.
  intros H. unfold handle_finally, bind, gets, ret, modify, hung_up.
  rewrite H. do 2 f_equal. destruct c. cbn in H. now subst.
Qed.

Lemma handle_connection_break fuel c c1 :
  handle_frame cryptography self c = (Ok false, c1) ->
  file_handle c1 = None ->
  _handle_connection cryptography self (S fuel) c = (Ok tt, hung_up c1).
Proof.
  intros H Hfh. unfold _handle_connection. cbn [handle_loop].
  unfold bind at 1. rewrite H. now apply handle_finally_closed.
Qed.

(** Reading a header and a payload of the announced length off the
    stream. *)
Lemma handle_frame_read buf h p rest c :
  len buf = 256 ->
  parse_header buf = Ok (Some h) ->
  payload_length h = len p ->
  sock_in (conn c) = map Rx (buf ++ p) ++ rest ->
  handle_frame cryptography self c =
  (if negb (validate_payload h p) then
     _send_error 1 "Integrity check failed" ;;; ret false
   else handle_message cryptography self (message_type h) p)
    (conn_with_in rest c).
Proof.
  intros Hlen Hparse Hpl Hin.
  rewrite map_app, <- app_assoc in Hin.
  unfold handle_frame, bind at 1, _recv_exact, on_conn.
  change HEADER_SIZE with 256. rewrite <- Hlen.
  rewrite (sock_recv_exact_bytes buf (map Rx p ++ rest)) by exact Hin.
  unfold bind at 1, lift. rewrite Hparse.
  unfold bind at 1, on_conn. rewrite Hpl.
  cbn [conn with_conn].
  rewrite (sock_recv_exact_bytes p rest) by reflexivity.
  reflexivity.
Qed.

(** A payload that does not match the digest of its header is answered by
    the ERROR frame with code 1 and the connection is closed; the payload is
    not dispatched, whatever the message type: no file is touched and the
    record of the transfer stays as it was.  (No file is open here, so that
    the [finally] block has no file to close.) *)
Theorem integrity_failure_closes (buf : bytes) (h : ProtocolHeader)
    (p : bytes) (rest : list recv_item) (c : Conn) (fuel : nat) :
  len buf = 256 ->
  parse_header buf = Ok (Some h) ->
  payload_length h = len p ->
  validate_payload h p = false ->
  file_handle c = None ->
  sock_in (conn c) = map Rx (buf ++ p) ++ rest ->
  next_send_ok (conn c) ->
  len (build_error_payload 1 "Integrity check failed") <= 4294967295 ->
  exists c',
    _handle_connection cryptography self (S fuel) c = (Ok tt, c') /\
    sock_out (conn c') =
      sock_out (conn c) ++ [error_frame 1 "Integrity check failed"] /\
    sock_closed (conn c') = true /\
    fs c' = fs c /\ file_info c' = file_info c /\
    progress_calls c' = progress_calls c /\
    received_calls c' = received_calls c.
Proof.
  intros Hlen Hparse Hpl Hv Hfh Hin Hsend Hfit.
  eexists. split.
  - apply handle_connection_break.
    + rewrite (handle_frame_read buf h p rest c Hlen Hparse Hpl Hin), Hv.
      cbn [negb]. unfold bind at 1.
      rewrite send_error_ok by assumption. reflexivity.
    + exact Hfh.
  - cbn. auto 10.
Qed.

(** A CHUNK frame that comes while no file is open (no FILE_META was
    accepted on the connection) is answered by the ERROR frame with code 2,
    after its payload was parsed and decrypted, and the connection is
    closed; nothing is written and no callback is called. *)
Theorem chunk_before_file_meta_refused (p : bytes) (i : Z) (data plain : bytes)
    (rest : list recv_item) (c : Conn) (fuel : nat) :
  len p <= 4294967295 ->
  parse_chunk_payload p = Ok (i, data) ->
  decrypt cryptography (_encryption self) data = Ok plain ->
  file_handle c = None ->
  sock_in (conn c) = map Rx (wire (MSG_CHUNK, p)) ++ rest ->
  next_send_ok (conn c) ->
  len (build_error_payload 2 "No file metadata received") <= 4294967295 ->
  exists c',
    _handle_connection cryptography self (S fuel) c = (Ok tt, c') /\
    sock_out (conn c') =
      sock_out (conn c) ++ [error_frame 2 "No file metadata received"] /\
    sock_closed (conn c') = true /\
    fs c' = fs c /\ file_info c' = file_info c /\
    progress_calls c' = progress_calls c /\
    received_calls c' = received_calls c.
Proof.
  intros Hlen Hparse Hdec Hfh Hin Hsend Hfit.
  assert (Hwf : well_formed (MSG_CHUNK, p))
    by (split; [cbn; unfold MSG_CHUNK; lia|exact Hlen]).
  eexists. split.
  - apply handle_connection_break.
    + rewrite (handle_frame_wire _ _ MSG_CHUNK p rest c Hwf Hin).
      unfold handle_message.
      change (MSG_CHUNK =? MSG_HANDSHAKE) with false.
      change (MSG_CHUNK =? MSG_FILE_META) with false.
      change (MSG_CHUNK =? MSG_CHUNK) with true. cbv iota.
      unfold bind at 1, lift. rewrite Hparse.
      unfold bind at 1, lift. cbn [fst snd]. rewrite Hdec.
      unfold bind at 1, gets. cbn [file_handle conn_with_in with_conn].
      rewrite Hfh. unfold bind at 1.
      rewrite send_error_ok by assumption. reflexivity.
    + exact Hfh.
  - cbn. auto 10.
Qed.

(** The listener hangs up without a reply, and without touching a file,
    the record or a callback, when the 256 bytes read as a header are
    refused by [parse_header], and when a frame that passed the integrity
    check carries a message type it does not handle (any byte but 1, 2, 3
    and 6: an ACK or ERROR frame, for one).  (No file is open here, so that
    the [finally] block has no file to close.) *)
Theorem unknown_frames_close_silently (rest : list recv_item) (c : Conn)
    (fuel : nat) :
  file_handle c = None ->
  (forall buf,
     len buf = 256 -> parse_header buf = Ok None ->
     sock_in (conn c) = map Rx buf ++ rest ->
     _handle_connection cryptography self (S fuel) c =
     (Ok tt, hung_up (conn_with_in rest c)))
  /\
  (forall t p,
     well_formed (t, p) ->
     t <> MSG_HANDSHAKE -> t <> MSG_FILE_META -> t <> MSG_CHUNK ->
     t <> MSG_DONE ->
     sock_in (conn c) = map Rx (wire (t, p)) ++ rest ->
     _handle_connection cryptography self (S fuel) c =
     (Ok tt, hung_up (conn_with_in rest c))).
Proof.
  intros Hfh. split.
  - intros buf Hlen Hparse Hin. apply handle_connection_break; [|exact Hfh].
    unfold handle_frame, bind at 1, _recv_exact, on_conn.
    change HEADER_SIZE with 256. rewrite <- Hlen.
    rewrite (sock_recv_exact_bytes buf rest) by exact Hin.
    unfold bind at 1, lift. rewrite Hparse. reflexivity.
  - intros t p Hwf H1 H2 H3 H6 Hin.
    apply handle_connection_break; [|exact Hfh].
    rewrite (handle_frame_wire _ _ t p rest c Hwf Hin).
    unfold handle_message.
    apply Z.eqb_neq in H1, H2, H3, H6. rewrite H1, H2, H3, H6.
    reflexivity.
Qed.

End ListenerErrors.

(** A frame of chunk 0 whose data was changed from [ab] to [xy] on the way:
    ERROR 1 and the connection is closed. *)
Lemma integrity_failure_closes_witness :
  exists c',
    _handle_connection (rt := MiniJson.runtime) None recv_listener 1
      (Conn_init (socket_holding (tampered_header ++ (example_chunk 0 "xy").2))
         empty_disk) = (Ok tt, c') /\
    sock_out (conn c') =
      [] ++ [error_frame (rt := MiniJson.runtime) 1 "Integrity check failed"] /\
    sock_closed (conn c') = true /\
    fs c' = empty_disk /\ file_info c' = ReceivedFileInfo_init /\
    progress_calls c' = [] /\ received_calls c' = [].
Proof.
  apply (integrity_failure_closes (rt := MiniJson.runtime) None recv_listener
           tampered_header
           {| message_type := 3; payload_length := 6;
              payload_hash := SHA256.digest (example_chunk 0 "ab").2;
              version := 2 |}
           (example_chunk 0 "xy").2 []
           (Conn_init
              (socket_holding (tampered_header ++ (example_chunk 0 "xy").2))
              empty_disk) 0).
  - vm_compute. reflexivity.
  - vm_compute. reflexivity.
  - vm_compute. reflexivity.
  - vm_compute. reflexivity.
  - reflexivity.
  - reflexivity.
  - exact I.
  - vm_compute. discriminate.
Defined.

(** A chunk as the first frame of a connection. *)
Lemma chunk_before_file_meta_refused_witness :
  exists c',
    _handle_connection (rt := MiniJson.runtime) None recv_listener 1
      (Conn_init (socket_holding (wire (example_chunk 0 "ab"))) empty_disk)
      = (Ok tt, c') /\
    sock_out (conn c') =
      [] ++ [error_frame (rt := MiniJson.runtime) 2 "No file metadata received"] /\
    sock_closed (conn c') = true /\
    fs c' = empty_disk /\ file_info c' = ReceivedFileInfo_init /\
    progress_calls c' = [] /\ received_calls c' = [].
Proof.
  apply (chunk_before_file_meta_refused (rt := MiniJson.runtime) None
           recv_listener (example_chunk 0 "ab").2 0 (encode_ascii "ab")
           (encode_ascii "ab") []
           (Conn_init (socket_holding (wire (example_chunk 0 "ab")))
              empty_disk) 0).
  - vm_compute. discriminate.
  - vm_compute. reflexivity.
  - reflexivity.
  - reflexivity.
  - reflexivity.
  - exact I.
  - vm_compute. discriminate.
Defined.

(** An ACK frame sent to the listener: the connection is closed and
    nothing is written back. *)
Lemma unknown_frames_close_silently_witness :
  _handle_connection (rt := MiniJson.runtime) None recv_listener 1
    (Conn_init (socket_holding (wire example_ack)) empty_disk) =
  (Ok tt,
   hung_up (conn_with_in []
              (Conn_init (socket_holding (wire example_ack)) empty_disk))).
Proof.
  apply (proj2 (unknown_frames_close_silently (rt := MiniJson.runtime) None
                  recv_listener []
                  (Conn_init (socket_holding (wire example_ack)) empty_disk) 0
                  eq_refl)
           MSG_ACK example_ack.2).
  - split; [vm_compute; split; discriminate|vm_compute; discriminate].
  - discriminate.
  - discriminate.
  - discriminate.
  - discriminate.
  - reflexivity.
Defined.

(** ** [_unique_path] on any file name *)

Lemma Forall_filter_keep {A} (P : A -> Prop) (Q : A -> Prop)
    `{forall x, Decision (Q x)} (l : list A) :
  Forall P l -> Forall P (filter Q l).
Proof.
  induction 1 as [|x l Hx Hl IH]; [constructor|].
  rewrite filter_cons. destruct (decide (Q x)); [constructor|]; assumption.
Qed.

Section PathShapes.
Import Pathlib.

Lemma split_slash_plain_parts s : Forall plain (split_slash s).
Proof.
  induction s as [|a s IH]; cbn [split_slash].
  - repeat constructor.
  - destruct (Ascii.eqb a "/") eqn:Ea.
    + constructor; [reflexivity|exact IH].
    + destruct (split_slash s) as [|h t].
      * repeat constructor. unfold plain. cbn [str_contains].
        now rewrite Ea.
      * apply Forall_cons in IH as [Hh Ht]. constructor; [|exact Ht].
        unfold plain in *. cbn [str_contains]. now rewrite Ea, Hh.
Qed.

Lemma root_of_cases s :
  root_of s = [] \/ root_of s = ["/"%string] \/ root_of s = ["//"%string].
Proof.
  unfold root_of. destruct (leading_slashes s) as [|[|[|n]]]; auto.
Qed.

Lemma parse_parts_parsed s : parsed_path (parse_parts s).
Proof.
  exists (root_of s), (filter (fun p => p <> EmptyString /\ p <> "."%string)
                         (split_slash s)).
  split; [reflexivity|]. split; [apply root_of_cases|].
  apply Forall_filter_keep, split_slash_plain_parts.
Qed.

Lemma joinpath_parsed dir s : parsed_path dir -> parsed_path (joinpath dir s).
Proof.
  intros (r & q & -> & Hr & Hq). unfold joinpath.
  destruct (root_of s) eqn:E; [|apply parse_parts_parsed].
  unfold parse_parts. rewrite E. cbn [app].
  exists r, (q ++ filter (fun p => p <> EmptyString /\ p <> "."%string)
                    (split_slash s)).
  split; [now rewrite app_assoc|]. split; [exact Hr|].
  apply Forall_app. split; [exact Hq|].
  apply Forall_filter_keep, split_slash_plain_parts.
Qed.

Lemma last_plain (q : list string) d :
  Forall plain q -> plain d -> plain (List.last q d).
Proof.
  induction 1 as [|x q Hx Hq IH]; intros Hd; [exact Hd|].
  destruct q as [|y q]; [exact Hx|]. apply IH, Hd.
Qed.

Lemma name_plain p : parsed_path p -> plain (name p).
Proof.
  intros (r & q & -> & Hr & Hq).
  assert (He : plain EmptyString) by reflexivity.
  assert (Hroot : forall (a x : string) l,
            Forall plain (x :: l) -> plain (name (a :: x :: l))).
  { intros a x l H. unfold name.
    change (List.last (a :: x :: l) EmptyString)
      with (List.last (x :: l) EmptyString).
    now apply last_plain. }
  destruct Hr as [->|[->| ->]]; cbn [app].
  - destruct q as [|x [|y q]]; [exact He| |].
    + unfold name. destruct (is_root x); [exact He|].
      now apply Forall_cons in Hq as [Hx _].
    + apply Hroot. now apply Forall_cons in Hq as [_ Hq].
  - destruct q as [|x q]; [reflexivity|]. now apply Hroot.
  - destruct q as [|x q]; [reflexivity|]. now apply Hroot.
Qed.

Lemma take_drop_str n s : take_str n s +:+ drop_str n s = s.
Proof.
  revert s. induction n as [|n IH]; intros [|a s]; try reflexivity.
  cbn [take_str drop_str]. rewrite str_cons_app. f_equal. apply IH.
Qed.

(** [Path.stem] and [Path.suffix] cut the name in two. *)
Lemma stem_suffix_name p : stem p +:+ suffix p = name p.
Proof.
  unfold stem, suffix. destruct (suffix_index (name p)) as [i|].
  - apply take_drop_str.
  - induction (name p) as [|a s IH]; [reflexivity|].
    rewrite str_cons_app. f_equal. exact IH.
Qed.

Lemma stem_suffix_plain p :
  parsed_path p -> plain (stem p) /\ plain (suffix p).
Proof.
  intros Hp. apply name_plain in Hp. unfold plain in *.
  rewrite <- stem_suffix_name, str_contains_app in Hp.
  now apply orb_false_elim in Hp.
Qed.

End PathShapes.

(** Searching below a bound. *)
Lemma least_below (P : nat -> Prop) `{forall i, Decision (P i)} (n : nat) :
  (forall i, (i < n)%nat -> ~ P i) \/
  (exists m, (m < n)%nat /\ P m /\ forall i, (i < m)%nat -> ~ P i).
Proof.
  induction n as [|n [IH|(m & Hm & Pm & Hmin)]].
  - left. intros i Hi. lia.
  - destruct (decide (P n)) as [Pn|Pn].
    + right. exists n. split; [lia|]. split; [exact Pn|].
      intros i Hi. apply IH. exact Hi.
    + left. intros i Hi. destruct (decide (i = n)) as [->|]; [exact Pn|].
      apply IH. lia.
  - right. exists m. split; [lia|]. split; assumption.
Qed.

Section UniquePathTotal.
Import Pathlib.
Variable self : FileListener.
Variable filename : string.
Hypothesis dir_parsed : parsed_path (_receive_dir self).

Let dir := _receive_dir self.
Let target := joinpath dir filename.

Lemma candidate_plain z : plain (candidate target z).
Proof.
  destruct (stem_suffix_plain target) as [Hs Hx];
    [apply joinpath_parsed, dir_parsed|].
  unfold plain, candidate in *. rewrite !str_contains_app, Hs, Hx.
  rewrite (pretty_Z_contains "/" _ slash_not_digit) by discriminate.
  reflexivity.
Qed.

Lemma candidate_proper z :
  candidate target z <> EmptyString /\ candidate target z <> "."%string.
Proof.
  unfold candidate. destruct (stem target) as [|a [|b s]].
  - rewrite str_nil_app, str_cons_app. split; discriminate.
  - rewrite !str_cons_app. split; discriminate.
  - rewrite !str_cons_app. split; discriminate.
Qed.

Lemma join_candidate z :
  joinpath dir (candidate target z) = dir ++ [candidate target z].
Proof.
  apply joinpath_plain; [apply candidate_plain|apply candidate_proper..].
Qed.

Lemma candidate_inj i j : candidate target i = candidate target j -> i = j.
Proof.
  unfold candidate. intros H. apply String.app_inj in H.
  rewrite !str_cons_app, !str_nil_app in H. injection H as H.
  apply str_app_inv_tail in H. now apply pretty_Z_inj in H.
Qed.

Lemma candidate_not_up z : candidate target z <> ".."%string.
Proof.
  intros E. apply (f_equal (str_contains "_")) in E.
  unfold candidate in E. rewrite !str_contains_app in E.
  cbn [str_contains] in E. change (Ascii.eqb "_" "_") with true in E.
  cbn in E. rewrite orb_true_r in E. discriminate.
Qed.

Lemma candidate_not_root z : is_root (candidate target z) = false.
Proof. apply is_root_plain, candidate_plain. Qed.

(** With the first choice taken, one of the next candidates is free: as
    many as there are files and directories cannot all exist. *)
Lemma free_candidate (c : Conn) :
  exists m,
    (m <= size (files (fs c)) + size (dirs (fs c)))%nat /\
    exists_at (fs c) (dir ++ [candidate target (1 + Z.of_nat m)]) = false /\
    forall i, (i < m)%nat ->
      exists_at (fs c) (dir ++ [candidate target (1 + Z.of_nat i)]) = true.
Proof.
  set (n := (size (files (fs c)) + size (dirs (fs c)))%nat).
  set (cand := fun i : nat => dir ++ [candidate target (1 + Z.of_nat i)]).
  destruct (least_below (fun i => exists_at (fs c) (cand i) = false) (S n))
    as [Hall|(m & Hm & Pm & Hmin)].
  - exfalso.
    assert (Hle : (S n <= n)%nat); [|lia].
    apply (existing_names_bounded (fs c) dir
             (fun i => candidate target (1 + Z.of_nat i)) (S n)).
    + intros i j H. apply candidate_inj in H. lia.
    + intros j. split; [apply candidate_not_up|apply candidate_not_root].
    + intros j Hj. specialize (Hall j Hj). fold (cand j).
      destruct (exists_at (fs c) (cand j)); [reflexivity|contradiction].
  - exists m. split; [lia|]. split; [exact Pm|].
    intros i Hi. specialize (Hmin i Hi). fold (cand i).
    destruct (exists_at (fs c) (cand i)); [reflexivity|contradiction].
Qed.

Lemma unique_path_finds (c : Conn) :
  exists p,
    _unique_path self (JStr filename) c = (Ok p, c) /\
    exists_at (fs c) p = false /\
    (p = joinpath (_receive_dir self) filename \/
     exists k, 1 <= k /\
       exists_at (fs c) (joinpath (_receive_dir self) filename) = true /\
       p = _receive_dir self
             ++ [candidate (joinpath (_receive_dir self) filename) k] /\
       forall j, 1 <= j < k ->
         exists_at (fs c)
           (_receive_dir self
              ++ [candidate (joinpath (_receive_dir self) filename) j])
         = true).
Proof.
  fold dir. fold target. unfold _unique_path, path_truediv.
  fold dir. fold target.
  unfold bind at 1, lift. unfold bind at 1. rewrite path_exists_eq.
  destruct (exists_at (fs c) target) eqn:Et.
  - cbn [negb]. unfold bind at 1, gets.
    destruct (free_candidate c) as (m & Hm & Hfree & Hex).
    pose proof (unique_path_loop_finds self c (stem target) (suffix target) m
                  (S (S (size (files (fs c)) + size (dirs (fs c)))))
                  target 1) as Hloop.
    cbv zeta in Hloop. fold dir in Hloop. fold (candidate target) in Hloop.
    assert (Hj : forall z, joinpath dir (stem target +:+ "_" +:+ pretty z
                                           +:+ suffix target)
                           = dir ++ [candidate target z])
      by (intros z; apply join_candidate).
    rewrite Hloop.
    + rewrite Hj. eexists. split; [reflexivity|]. split; [exact Hfree|].
      right. exists (1 + Z.of_nat m). split; [lia|]. split; [reflexivity|].
      split; [reflexivity|].
      intros j Hjk. specialize (Hex (Z.to_nat (j - 1)) ltac:(lia)).
      replace (1 + Z.of_nat (Z.to_nat (j - 1))) with j in Hex by lia.
      exact Hex.
    + lia.
    + exact Et.
    + intros i Hi. rewrite Hj. apply Hex, Hi.
    + rewrite Hj. exact Hfree.
  - cbn [negb]. eexists. split; [reflexivity|]. split; [exact Et|].
    left. reflexivity.
Qed.


End UniquePathTotal.


(** The names that lead to a directory: the empty name and [.] are the
    receive directory itself, [..] is the directory above it, and [sub] is
    a directory in it. *)
Example unique_path_directory_names :
  let disk :=
    {| files := ∅;
       dirs := {[ ["recv"%string]; ["recv"; "sub"]%string ]};
       io_faults := [] |} in
  let c := Conn_init idle_socket disk in
  _unique_path recv_listener (JStr EmptyString) c
    = (Ok ["recv"; "recv_1"]%string, c) /\
  _unique_path recv_listener (JStr ".") c
    = (Ok ["recv"; "recv_1"]%string, c) /\
  _unique_path recv_listener (JStr "..") c
    = (Ok ["recv"; ".._1"]%string, c) /\
  _unique_path recv_listener (JStr "sub") c
    = (Ok ["recv"; "sub_1"]%string, c) /\
  _unique_path recv_listener (JStr "sub/../sub") c
    = (Ok ["recv"; "sub_1"]%string, c).
Proof. vm_compute. repeat split; reflexivity. Qed.

(** A file name that is not a string cannot be joined to the receive
    directory. *)
Example unique_path_not_a_string :
  _unique_path recv_listener (JInt 5) (Conn_init idle_socket empty_disk)
  = (Raise (Exn TypeError
              "unsupported operand type(s) for /: 'PosixPath' and 'int'"),
     Conn_init idle_socket empty_disk).
Proof. reflexivity. Qed.

(** ** The listener: a transfer, frame by frame *)

Section ListenerTransfer.
Context {rt : PyRuntime}.
Variable cryptography : option CryptoBackend.
Variable self : FileListener.

Lemma send_ack_sent message c :
  len (build_ack_payload true message) <= 4294967295 ->
  next_send_ok (conn c) ->
  _send_ack true message c =
  (Ok tt, with_conn (socket_after_send (ack_frame message)) c).
Proof.
  intros Hlen Hf. unfold _send_ack, ack_frame, wire. cbn [fst snd].
  destruct (build_header_Ok MSG_ACK (build_ack_payload true message))
    as (l0 & l1 & l2 & l3 & _ & ->); [unfold MSG_ACK; lia|exact Hlen|].
  unfold bind, lift, on_conn.
  rewrite sock_sendall_ok by exact Hf.
  reflexivity.
Qed.

Lemma unique_path_loop_reads_files fuel stem suffix target counter c c1 :
  fs c1 = fs c ->
  (_unique_path_loop self fuel stem suffix target counter c1).1 =
  (_unique_path_loop self fuel stem suffix target counter c).1.
Proof.
  intros E. revert target counter.
  induction fuel as [|fuel IH]; intros target counter; [reflexivity|].
  cbn [_unique_path_loop]. unfold bind, path_exists, gets. rewrite E.
  destruct (exists_at _ _); [apply IH|reflexivity].
Qed.

(** [_unique_path] looks at the files only. *)
Lemma unique_path_reads_files (name : json) c c1 p :
  fs c1 = fs c ->
  _unique_path self name c = (Ok p, c) ->
  _unique_path self name c1 = (Ok p, c1).
Proof.
  intros E H.
  destruct (_unique_path self name c1) as [r c2] eqn:E1.
  pose proof (unique_path_pure _ _ _ _ _ E1) as ->.
  f_equal.
  assert (Hfst : (_unique_path self name c1).1 = (_unique_path self name c).1).
  { unfold _unique_path, bind, path_exists, gets, lift.
    destruct (path_truediv _ _); [|reflexivity..].
    cbv beta iota. rewrite !E.
    destruct (negb _); [reflexivity|]. rewrite E.
    apply unique_path_loop_reads_files. exact E. }
  rewrite E1, H in Hfst. exact Hfst.
Qed.

Lemma open_wb_ok p c :
  next_io_ok (fs c) ->
  open_wb p c =
  (Ok tt,
   {| conn := conn c;
      fs := {| files := <[p := []]> (files (fs c));
               dirs := dirs (fs c);
               io_faults := tail (io_faults (fs c)) |};
      file_info := file_info c; file_handle := Some p;
      progress_calls := progress_calls c;
      received_calls := received_calls c |}).
Proof.
  unfold next_io_ok, open_wb, next_io_fault, bind, modify.
  destruct (io_faults (fs c)) as [|[e|] l] eqn:E;
    [|contradiction|]; intros _.
  - unfold with_file_handle, with_fs, with_files. cbn. now rewrite E.
  - reflexivity.
Qed.

(** The FILE_META frame that the transmitter builds is taken by the
    listener as it was meant: the record gets the five values under the
    names the transmitter wrote them ([chunks_received] keeps its value),
    the file is created empty (or emptied) at the path that [_unique_path]
    chooses for the file name and stays open, and the reply is the ACK
    [Metadata accepted]. *)
Lemma file_meta_step (name : string) (size : Z) (mime : string)
    (count csize : Z) (p : Path) (c : Conn) :
  loads_utf8 (build_file_meta_payload name size mime count csize) =
    Ok (file_meta_dict name size mime count csize) ->
  _unique_path self (JStr name) c = (Ok p, c) ->
  next_io_ok (fs c) ->
  next_send_ok (conn c) ->
  len (build_ack_payload true "Metadata accepted") <= 4294967295 ->
  handle_message cryptography self MSG_FILE_META
    (build_file_meta_payload name size mime count csize) c =
  (Ok true,
   {| conn := socket_after_send (ack_frame "Metadata accepted") (conn c);
      fs := {| files := <[p := []]> (files (fs c));
               dirs := dirs (fs c);
               io_faults := tail (io_faults (fs c)) |};
      file_info :=
        {| filename := JStr name; file_size := JInt size;
           mime_type := JStr mime;
           chunk_count := JInt count; chunk_size := JInt csize;
           chunks_received := chunks_received (file_info c);
           save_path := p |};
      file_handle := Some p;
      progress_calls := progress_calls c;
      received_calls := received_calls c |}).
Proof.
  intros Hloads Hpath Hio Hsend Hfit.
  unfold handle_message.
  change (MSG_FILE_META =? MSG_HANDSHAKE) with false.
  change (MSG_FILE_META =? MSG_FILE_META) with true. cbv iota.
  unfold parse_file_meta_payload. unfold bind at 1, lift. rewrite Hloads.
  unfold file_meta_dict.
  change (py_getitem _ "filename") with (Ok (JStr name)).
  change (py_getitem _ "file_size") with (Ok (JInt size)).
  change (py_getitem _ "mime_type") with (Ok (JStr mime)).
  change (py_getitem _ "chunk_count") with (Ok (JInt count)).
  change (py_getitem _ "chunk_size") with (Ok (JInt csize)).
  unfold bind, lift, modify, gets. cbv beta iota.
  cbn [file_info with_file_info filename set_filename set_file_size
       set_mime_type set_chunk_count set_chunk_size].
  match goal with
  | |- context [_unique_path self (JStr name) ?c1] =>
      rewrite (unique_path_reads_files (JStr name) c c1 p eq_refl Hpath)
  end.
  rewrite open_wb_ok by exact Hio.
  rewrite send_ack_sent by (try exact Hfit; exact Hsend).
  reflexivity.
Qed.

Lemma file_write_ok path data c :
  next_io_ok (fs c) ->
  file_write path data c =
  (Ok tt,
   {| conn := conn c;
      fs := {| files := alter (fun old => old ++ data) path (files (fs c));
               dirs := dirs (fs c);
               io_faults := tail (io_faults (fs c)) |};
      file_info := file_info c; file_handle := file_handle c;
      progress_calls := progress_calls c;
      received_calls := received_calls c |}).
Proof.
  unfold next_io_ok, file_write, next_io_fault, bind, modify.
  destruct (io_faults (fs c)) as [|[e|] l] eqn:E;
    [|contradiction|]; intros _.
  - unfold with_fs, with_files. cbn. now rewrite E.
  - reflexivity.
Qed.

Lemma chunk_frame_payload idx data :
  0 <= idx <= 4294967295 ->
  exists bs, Struct.pack_I idx = Ok bs /\ length bs = 4%nat /\
    chunk_frame idx data = (MSG_CHUNK, bs ++ data) /\
    parse_chunk_payload (bs ++ data) = Ok (idx, data).
Proof.
  intros Hi. destruct (pack_I_Ok idx Hi) as [bs Hbs].
  pose proof (unpack_pack_I _ _ Hbs) as [Hlen Hval].
  exists bs. split; [exact Hbs|]. split; [exact Hlen|].
  unfold chunk_frame, build_chunk_payload, parse_chunk_payload.
  rewrite Hbs. cbn [rbind]. split; [reflexivity|].
  rewrite take_app_length' by (symmetry; exact Hlen).
  rewrite drop_app_length' by (symmetry; exact Hlen).
  unfold Struct.unpack_I.
  destruct (decide (length bs = 4%nat)); [|contradiction].
  cbn [rbind]. now rewrite Hval.
Qed.

Lemma chunk_step (idx : Z) (data : bytes) (path : Path)
    (rest : list recv_item) (c : Conn) :
  0 <= idx <= 4294967295 ->
  len data + 4 <= 4294967295 ->
  enabled (_encryption self) = false ->
  file_handle c = Some path ->
  next_io_ok (fs c) ->
  next_send_ok (conn c) ->
  len (build_ack_payload true ("Chunk " +:+ pretty idx +:+ " OK"))
    <= 4294967295 ->
  sock_in (conn c) = map Rx (wire (chunk_frame idx data)) ++ rest ->
  handle_frame cryptography self c =
  (Ok true, chunk_stored self idx data path rest c).
Proof.
  intros Hidx Hlen Hplain Hfh Hio Hsend Hfit Hin.
  destruct (chunk_frame_payload idx data Hidx)
    as (bs & Hbs & Hbl & Hframe & Hparse).
  rewrite Hframe in Hin.
  assert (Hwf : well_formed (MSG_CHUNK, bs ++ data)).
  { split; [cbn; unfold MSG_CHUNK; lia|].
    cbn [snd]. rewrite len_app. unfold len in *. lia. }
  rewrite (handle_frame_wire _ _ MSG_CHUNK (bs ++ data) rest c Hwf Hin).
  unfold handle_message.
  change (MSG_CHUNK =? MSG_HANDSHAKE) with false.
  change (MSG_CHUNK =? MSG_FILE_META) with false.
  change (MSG_CHUNK =? MSG_CHUNK) with true. cbv iota.
  unfold bind at 1, lift. rewrite Hparse.
  unfold bind at 1, lift, decrypt. cbn [fst snd]. rewrite Hplain. cbn [negb].
  unfold bind at 1, gets. cbn [file_handle conn_with_in with_conn].
  rewrite Hfh. unfold bind at 1.
  rewrite file_write_ok by exact Hio.
  unfold bind at 1, modify. unfold bind at 1.
  unfold chunk_stored. 
  destruct (_on_progress self); unfold modify, ret, bind at 1;
    rewrite send_ack_sent by (try exact Hfit; exact Hsend);
    unfold call_on_progress, with_file_info, conn_with_in;
    cbn [conn fs file_info file_handle progress_calls received_calls
         with_conn];
    rewrite Hfh; reflexivity.
Qed.

Lemma chunks_run (path : Path) (rest : list recv_item) cs :
  chunks_fit cs ->
  enabled (_encryption self) = false ->
  forall c fuel,
  file_handle c = Some path ->
  io_faults (fs c) = [] ->
  sock_send_faults (conn c) = [] ->
  sock_in (conn c) =
    stream (map (fun ix => chunk_frame ix.1 ix.2) cs) ++ rest ->
  handle_loop cryptography self (length cs + fuel) c =
  handle_loop cryptography self fuel (chunks_stored self cs path rest c).
Proof.
  intros Hfit Hplain. induction Hfit as [|[idx data] cs (Hi & Hl & Ha) _ IH];
    intros c fuel Hfh Hio Hsend Hin; [reflexivity|].
  cbn [length Nat.add handle_loop map chunks_stored fst snd] in *.
  rewrite stream_cons in Hin.
  unfold bind at 1.
  rewrite (chunk_step idx data path _ c Hi Hl Hplain Hfh) by
    (try exact Ha; try exact Hin;
     unfold next_io_ok, next_send_ok; rewrite ?Hio, ?Hsend; exact I).
  apply IH.
  - reflexivity.
  - cbn. now rewrite Hio.
  - cbn. now rewrite Hsend.
  - reflexivity.
Qed.

Lemma chunks_stored_fields (path : Path) (rest : list recv_item) cs :
  forall c acc m0,
  file_handle c = Some path ->
  io_faults (fs c) = [] ->
  sock_send_faults (conn c) = [] ->
  files (fs c) = <[path := acc]> m0 ->
  let c' := chunks_stored self cs path rest c in
  (cs <> [] -> sock_in (conn c') = rest) /\
  sock_out (conn c') =
    sock_out (conn c)
      ++ map (fun ix : Z * bytes =>
                ack_frame ("Chunk " +:+ pretty ix.1 +:+ " OK")) cs /\
  sock_send_faults (conn c') = [] /\
  sock_closed (conn c') = sock_closed (conn c) /\
  files (fs c') = <[path := acc ++ concat (map snd cs)]> m0 /\
  io_faults (fs c') = [] /\
  file_info c' =
    set_chunks_received (chunks_received (file_info c) + len cs)
      (file_info c) /\
  file_handle c' = Some path /\
  received_calls c' = received_calls c /\
  length (progress_calls c') =
    (length (progress_calls c)
     + if _on_progress self then length cs else 0)%nat.
Proof.
  induction cs as [|[idx data] cs IH]; intros c acc m0 Hfh Hio Hsend Hfiles;
    cbv zeta.
  - cbn [chunks_stored map concat]. rewrite !app_nil_r, Hfiles.
    repeat split; try assumption; try congruence.
    + destruct (file_info c). unfold set_chunks_received, len. cbn.
      now rewrite Z.add_0_r.
    + destruct (_on_progress self); simpl; lia.
  - cbn [chunks_stored fst snd].
    set (c1 := chunk_stored self idx data path _ c).
    specialize (IH c1 (acc ++ data) m0 eq_refl).
    assert (Hio1 : io_faults (fs c1) = [])
      by (unfold c1, chunk_stored; cbn [fs io_faults]; now rewrite Hio).
    assert (Hs1 : sock_send_faults (conn c1) = [])
      by (unfold c1, chunk_stored; cbn; now rewrite Hsend).
    assert (Hf1 : files (fs c1) = <[path := acc ++ data]> m0).
    { unfold c1, chunk_stored. cbn [fs files]. rewrite Hfiles.
      exact (alter_insert_eq m0 path (fun old => old ++ data) acc). }
    specialize (IH Hio1 Hs1 Hf1). cbv zeta in IH.
    destruct IH as (Hin & Hout & Hsf & Hcl & Hfs & Hiof & Hinfo & Hh & Hrc & Hpc).
    split.
    { intros _. destruct cs as [|ix cs]; [|apply Hin; discriminate].
      reflexivity. }
    split.
    { rewrite Hout. cbn [map fst]. cbn [c1 chunk_stored conn sock_out
        socket_after_send socket_with_in].
      now rewrite <- app_assoc. }
    split; [exact Hsf|]. split; [exact Hcl|].
    split.
    { rewrite Hfs. cbn [map concat snd]. now rewrite app_assoc. }
    split; [exact Hiof|].
    split.
    { rewrite Hinfo. cbn [c1 chunk_stored file_info].
      unfold set_chunks_received, len. cbn. f_equal. lia. }
    split; [exact Hh|]. split; [exact Hrc|].
    rewrite Hpc. cbn [c1 chunk_stored progress_calls].
    destruct (_on_progress self); [rewrite length_app|]; simpl; lia.
Qed.

Lemma file_close_ok c :
  next_io_ok (fs c) ->
  file_close c = (Ok tt, with_file_handle None (with_fs after_io c)).
Proof.
  unfold next_io_ok, file_close, next_io_fault, bind, ret, modify.
  destruct c as [s d i h pc rc]. destruct d as [f ds io]. cbn.
  destruct io as [|[e|] l]; [|contradiction|]; intros _; reflexivity.
Qed.

Lemma done_step (p : bytes) (rest : list recv_item) (c : Conn) :
  len p <= 4294967295 ->
  next_io_ok (fs c) ->
  next_send_ok (conn c) ->
  len (build_ack_payload true "File saved") <= 4294967295 ->
  sock_in (conn c) = map Rx (wire (MSG_DONE, p)) ++ rest ->
  handle_frame cryptography self c = (Ok false, done_handled self rest c).
Proof.
  intros Hlen Hio Hsend Hfit Hin.
  assert (Hwf : well_formed (MSG_DONE, p))
    by (split; [cbn; unfold MSG_DONE; lia|exact Hlen]).
  rewrite (handle_frame_wire _ _ MSG_DONE p rest c Hwf Hin).
  unfold handle_message.
  change (MSG_DONE =? MSG_HANDSHAKE) with false.
  change (MSG_DONE =? MSG_FILE_META) with false.
  change (MSG_DONE =? MSG_CHUNK) with false.
  change (MSG_DONE =? MSG_DONE) with true. cbv iota.
  unfold bind at 1, gets. cbn [conn_with_in with_conn file_handle].
  unfold done_handled.
  destruct (file_handle c) as [path|] eqn:Hfh.
  - unfold bind at 1.
    rewrite file_close_ok by exact Hio.
    unfold bind at 1.
    rewrite send_ack_sent by (try exact Hfit; exact Hsend).
    destruct (_on_file_received self); reflexivity.
  - unfold bind at 1, ret. unfold bind at 1.
    rewrite send_ack_sent by (try exact Hfit; exact Hsend).
    destruct (_on_file_received self);
      unfold bind, modify, ret, call_on_file_received, with_conn,
        conn_with_in;
      cbn [conn fs file_info file_handle progress_calls received_calls];
      unfold with_conn;
      cbn [conn fs file_info file_handle progress_calls received_calls];
      rewrite Hfh; reflexivity.
Qed.

Lemma stream_app l k rest :
  stream (l ++ k) ++ rest = stream l ++ (stream k ++ rest).
Proof.
  unfold stream. now rewrite map_app, concat_app, map_app, <- app_assoc.
Qed.

(** A whole transfer, as the listener sees it. *)
Lemma transfer_run (name : string) (size : Z) (mime : string)
    (count csize : Z) (cs : list (Z * bytes)) (p_done : bytes)
    (rest : list recv_item) (p : Path) (c : Conn) (fuel : nat) :
  let meta := build_file_meta_payload name size mime count csize in
  loads_utf8 meta = Ok (file_meta_dict name size mime count csize) ->
  len meta <= 4294967295 ->
  len p_done <= 4294967295 ->
  chunks_fit cs ->
  len (build_ack_payload true "Metadata accepted") <= 4294967295 ->
  len (build_ack_payload true "File saved") <= 4294967295 ->
  enabled (_encryption self) = false ->
  _unique_path self (JStr name) c = (Ok p, c) ->
  io_faults (fs c) = [] ->
  sock_send_faults (conn c) = [] ->
  sock_in (conn c) =
    stream ((MSG_FILE_META, meta)
              :: map (fun ix => chunk_frame ix.1 ix.2) cs
              ++ [(MSG_DONE, p_done)]) ++ rest ->
  (length cs + 2 <= fuel)%nat ->
  exists c',
    _handle_connection cryptography self fuel c = (Ok tt, c') /\
    files (fs c') = <[p := concat (map snd cs)]> (files (fs c)) /\
    file_info c' =
      {| filename := JStr name; file_size := JInt size;
         mime_type := JStr mime;
         chunk_count := JInt count; chunk_size := JInt csize;
         chunks_received := chunks_received (file_info c) + len cs;
         save_path := p |} /\
    received_calls c' =
      received_calls c
        ++ (if _on_file_received self then [(p, JStr mime)] else []) /\
    length (progress_calls c') =
      (length (progress_calls c)
       + if _on_progress self then length cs else 0)%nat /\
    sock_out (conn c') =
      sock_out (conn c)
        ++ [ack_frame "Metadata accepted"]
        ++ map (fun ix : Z * bytes =>
                  ack_frame ("Chunk " +:+ pretty ix.1 +:+ " OK")) cs
        ++ [ack_frame "File saved"] /\
    sock_in (conn c') = rest /\
    sock_closed (conn c') = true /\
    file_handle c' = None.
Proof.
  intros meta Hloads Hmeta Hdone Hfit Hack1 Hack2 Hplain Hpath Hio Hsend Hin
    Hfuel.
  destruct fuel as [|fuel]; [lia|].
  replace fuel with (length cs + S (fuel - length cs - 1))%nat by lia.
  set (k := (fuel - length cs - 1)%nat). clearbody k. clear Hfuel.
  rewrite stream_cons, stream_app in Hin.
  assert (Hwf : well_formed (MSG_FILE_META, meta))
    by (split; [cbn; unfold MSG_FILE_META; lia|exact Hmeta]).
  unfold _handle_connection. cbn [handle_loop]. unfold bind at 1.
  rewrite (handle_frame_wire _ _ MSG_FILE_META meta _ c Hwf Hin).
  assert (Hpath' : _unique_path self (JStr name)
                     (conn_with_in
                        (stream (map (fun ix => chunk_frame ix.1 ix.2) cs)
                           ++ stream [(MSG_DONE, p_done)] ++ rest) c)
                   = (Ok p, conn_with_in
                        (stream (map (fun ix => chunk_frame ix.1 ix.2) cs)
                           ++ stream [(MSG_DONE, p_done)] ++ rest) c))
    by (apply (unique_path_reads_files (JStr name) c);
        [reflexivity|exact Hpath]).
  unfold meta.
  rewrite (file_meta_step name size mime count csize p _ Hloads Hpath')
    by (try exact Hack1; unfold next_io_ok, next_send_ok; cbn;
        rewrite ?Hio, ?Hsend; exact I).
  cbn [conn_with_in with_conn conn fs file_info file_handle progress_calls
       received_calls].
  match goal with
  | |- context [handle_loop _ _ _ ?c1] => set (c1' := c1)
  end.
  assert (Hio1 : io_faults (fs c1') = []) by (cbn; now rewrite Hio).
  assert (Hs1 : sock_send_faults (conn c1') = []) by (cbn; now rewrite Hsend).
  rewrite (chunks_run p (stream [(MSG_DONE, p_done)] ++ rest) cs Hfit Hplain
             c1' (S k) eq_refl Hio1 Hs1 eq_refl).
  destruct (chunks_stored_fields p (stream [(MSG_DONE, p_done)] ++ rest) cs
              c1' [] (files (fs c)) eq_refl Hio1 Hs1 eq_refl)
    as (Hin2 & Hout2 & Hsf2 & Hcl2 & Hfs2 & Hiof2 & Hinfo2 & Hh2 & Hrc2 & Hpc2).
  set (c2 := chunks_stored self cs p _ c1') in *.
  assert (Hin2' : sock_in (conn c2) = map Rx (wire (MSG_DONE, p_done)) ++ rest).
  { destruct cs as [|ix cs'].
    - unfold c2. cbn [chunks_stored]. unfold c1'. cbn.
      unfold stream. cbn. now rewrite app_nil_r.
    - rewrite Hin2 by discriminate. unfold stream. cbn [map concat].
      now rewrite app_nil_r. }
  cbn [handle_loop]. unfold bind at 1.
  rewrite (done_step p_done rest c2 Hdone) by
    (try exact Hack2; try exact Hin2';
     unfold next_io_ok, next_send_ok; rewrite ?Hiof2, ?Hsf2; exact I).
  unfold ret. rewrite handle_finally_closed by reflexivity.
  eexists. split; [reflexivity|]. unfold hung_up.
  cbn [with_conn with_file_handle done_handled conn fs file_info file_handle
       progress_calls received_calls sock_close sock_out sock_in sock_closed
       socket_after_send socket_with_in].
  rewrite Hh2. cbn [after_io files].
  rewrite Hfs2, Hinfo2, Hrc2, Hpc2, Hout2.
  cbn [c1' conn fs file_info file_handle progress_calls received_calls
       sock_out socket_after_send socket_with_in set_chunks_received
       chunks_received save_path mime_type app].
  repeat split.
  - destruct (_on_file_received self); [reflexivity|now rewrite app_nil_r].
  - now rewrite <- !app_assoc.
Qed.

End ListenerTransfer.

(** ** The listener: every connection is closed *)

Lemma returns_bind {St A B} (m : M St A) (k : A -> M St B) :
  returns m -> (forall a, returns (k a)) -> returns (bind m k).
Proof.
  intros Hm Hk s s' H. unfold bind in H.
  destruct (m s) as [[a|e|] s1] eqn:E.
  - exact (Hk a _ _ H).
  - discriminate.
  - exact (Hm _ _ E).
Qed.

Lemma returns_ret {St A} (a : A) : returns (ret (St := St) a).
Proof. intros s s' H. discriminate. Qed.

Lemma returns_raise {St A} e : returns (raise (St := St) (A := A) e).
Proof. intros s s' H. discriminate. Qed.

Lemma returns_gets {St A} (f : St -> A) : returns (gets f).
Proof. intros s s' H. discriminate. Qed.

Lemma returns_modify {St} (f : St -> St) : returns (modify f).
Proof. intros s s' H. discriminate. Qed.

Lemma returns_lift {St A} (x : result A) :
  x <> OutOfFuel -> returns (lift (St := St) x).
Proof. intros Hx s s' [= H _]. contradiction. Qed.

Lemma rbind_returns {A B} (x : result A) (k : A -> result B) :
  x <> OutOfFuel -> (forall a, k a <> OutOfFuel) ->
  rbind x k <> OutOfFuel.
Proof. intros Hx Hk. destruct x; [apply Hk|discriminate|contradiction]. Qed.

Lemma on_conn_recv_spec n c r c' :
  on_conn (sock_recv_exact n) c = (r, c') ->
  r <> OutOfFuel /\
  fs c' = fs c /\ file_info c' = file_info c /\
  file_handle c' = file_handle c /\
  (length (sock_in (conn c')) <= length (sock_in (conn c)))%nat /\
  forall buf, r = Ok buf ->
    len buf = Z.max 0 n /\ sock_in (conn c) = map Rx buf ++ sock_in (conn c').
Proof.
  unfold on_conn. destruct (sock_recv_exact n (conn c)) as [r0 s'] eqn:E.
  intros [= <- <-]. apply sock_recv_exact_spec in E as (_ & _ & E).
  cbn [with_conn conn fs file_info file_handle].
  destruct r0 as [buf|e|]; [| |contradiction].
  - destruct E as [Hl Hin]. repeat split; try discriminate.
    + rewrite Hin, length_app. lia.
    + injection H as <-. exact Hl.
    + injection H as <-. exact Hin.
  - destruct E as (bs & _ & [(Hin & Hr & _)| Hin]);
      repeat split; try discriminate.
    + rewrite Hr. simpl. lia.
    + rewrite Hin, length_app. simpl. lia.
Qed.

(** What every step of the handler keeps. *)
Lemma kept_refl c : kept c c.
Proof. split; auto. Qed.

Lemma kept_trans c1 c2 c3 : kept c1 c2 -> kept c2 c3 -> kept c1 c3.
Proof.
  intros [H1 H2] [H3 H4]. split; [congruence|auto].
Qed.

Lemma keeping_bind {A B} (m : M Conn A) (k : A -> M Conn B) :
  keeping m -> (forall a, keeping (k a)) -> keeping (bind m k).
Proof.
  intros Hm Hk c r c' H.
  apply bind_inv in H as [(a & c1 & H1 & H)|[(e & H1 & _)|[H1 _]]].
  - eapply kept_trans; [exact (Hm _ _ _ H1)|exact (Hk _ _ _ _ H)].
  - exact (Hm _ _ _ H1).
  - exact (Hm _ _ _ H1).
Qed.

Lemma keeping_same {A} (m : M Conn A) :
  (forall c r c', m c = (r, c') -> c' = c) -> keeping m.
Proof. intros Hm c r c' H. rewrite (Hm _ _ _ H). apply kept_refl. Qed.

Lemma keeping_ret {A} (a : A) : keeping (ret a).
Proof. apply keeping_same. now intros c r c' [= _ <-]. Qed.

Lemma keeping_raise {A} e : keeping (raise (A := A) e).
Proof. apply keeping_same. now intros c r c' [= _ <-]. Qed.

Lemma keeping_lift {A} (x : result A) : keeping (lift x).
Proof. apply keeping_same. now intros c r c' [= _ <-]. Qed.

Lemma keeping_gets {A} (f : Conn -> A) : keeping (gets f).
Proof. apply keeping_same. now intros c r c' [= _ <-]. Qed.

Lemma keeping_modify (f : Conn -> Conn) :
  (forall c, kept c (f c)) -> keeping (modify f).
Proof. intros Hf c r c' [= _ <-]. apply Hf. Qed.

Lemma keeping_file_ops p data :
  keeping (open_wb p) /\ keeping (file_write p data) /\ keeping file_close.
Proof.
  split; [|split]; intros c r c' E;
    unfold open_wb, file_write, file_close, next_io_fault, bind, raise,
      modify, ret in E;
    destruct (io_faults (fs c)) as [|[e|] l] eqn:Hio;
    injection E as _ <-; split; cbn; rewrite ?Hio;
    first [reflexivity | discriminate | auto].
Qed.

Lemma keeping_recv n : keeping (on_conn (sock_recv_exact n)).
Proof.
  intros c r c'. unfold on_conn.
  destruct (sock_recv_exact n (conn c)) as [r0 s'] eqn:E.
  intros [= _ <-]. apply sock_recv_exact_spec in E as (_ & Hc & _).
  split; [exact Hc|auto].
Qed.

Lemma keeping_sendall data : keeping (on_conn (sock_sendall data)).
Proof.
  intros c r c'. unfold on_conn, sock_sendall.
  destruct (sock_send_faults (conn c)) as [|[e|] l]; intros [= _ <-];
    split; auto.
Qed.

Section ListenerEnds.
Context {rt : PyRuntime}.
Variable cryptography : option CryptoBackend.
Variable self : FileListener.

Lemma keeping_send_ack b m : keeping (_send_ack b m).
Proof.
  unfold _send_ack. apply keeping_bind;
    [apply keeping_lift|intros; apply keeping_sendall].
Qed.

Lemma keeping_send_error code m : keeping (_send_error code m).
Proof.
  unfold _send_error. apply keeping_bind;
    [apply keeping_lift|intros; apply keeping_sendall].
Qed.

Lemma keeping_unique_path name : keeping (_unique_path self name).
Proof. apply keeping_same. intros c r c'. apply unique_path_pure. Qed.

Ltac keep_all :=
  repeat first
    [ apply keeping_ret | apply keeping_raise | apply keeping_gets
    | apply keeping_lift | apply keeping_send_ack | apply keeping_send_error
    | apply keeping_unique_path | apply keeping_recv
    | apply (proj1 (keeping_file_ops _ []))
    | apply (proj1 (proj2 (keeping_file_ops _ _)))
    | apply (proj2 (proj2 (keeping_file_ops [] [])))
    | apply keeping_modify; intros ?; split; [reflexivity|auto]
    | apply keeping_bind; [|intros ?]
    | match goal with
      | |- keeping (if ?b then _ else _) => destruct b
      | |- keeping (match ?x with _ => _ end) => destruct x
      end ].

Lemma keeping_handle_message t p :
  keeping (handle_message cryptography self t p).
Proof. unfold handle_message. keep_all. Qed.

Lemma keeping_handle_frame : keeping (handle_frame cryptography self).
Proof.
  unfold handle_frame, _recv_exact. keep_all. apply keeping_handle_message.
Qed.

Lemma keeping_handle_loop fuel : keeping (handle_loop cryptography self fuel).
Proof.
  induction fuel as [|fuel IH]; cbn [handle_loop]; [apply keeping_lift|].
  apply keeping_bind; [apply keeping_handle_frame|].
  intros [|]; [exact IH|apply keeping_ret].
Qed.


(** The receive directory is a path, as [Path(config.receive_directory)]
    makes it; decoding JSON and decrypting end. *)
Hypothesis dir_parsed : parsed_path (_receive_dir self).
Hypothesis loads_ends : forall b, loads_utf8 b <> OutOfFuel.
Hypothesis decrypt_ends :
  forall lib key nonce data,
    cryptography = Some lib -> AESGCM_decrypt lib key nonce data <> OutOfFuel.

Lemma returns_on_conn_sendall data : returns (on_conn (sock_sendall data)).
Proof.
  intros c c'. unfold on_conn, sock_sendall.
  destruct (sock_send_faults (conn c)) as [|[e|] l]; discriminate.
Qed.

Lemma build_header_ends t p : build_header t p <> OutOfFuel.
Proof.
  unfold build_header, _HEADER_STRUCT_pack, Struct.pack_B, Struct.pack_I.
  repeat (destruct (_ && _)); discriminate.
Qed.

Lemma returns_send_ack b m : returns (_send_ack b m).
Proof.
  unfold _send_ack. apply returns_bind;
    [apply returns_lift, build_header_ends|intros; apply returns_on_conn_sendall].
Qed.

Lemma returns_send_error code m : returns (_send_error code m).
Proof.
  unfold _send_error. apply returns_bind;
    [apply returns_lift, build_header_ends|intros; apply returns_on_conn_sendall].
Qed.

Lemma returns_unique_path name : returns (_unique_path self name).
Proof.
  intros c c' H.
  destruct name as [| | | |name| |]; try discriminate H.
  destruct (unique_path_finds self name dir_parsed c) as (p & E & _).
  rewrite E in H. discriminate.
Qed.

Lemma returns_file_ops p data : returns (open_wb p) /\ returns (file_write p data).
Proof.
  split; intros c c'; unfold open_wb, file_write, next_io_fault, bind, raise,
    modify; destruct (io_faults (fs c)) as [|[e|] l]; discriminate.
Qed.

Lemma returns_file_close : returns file_close.
Proof.
  intros c c'. unfold file_close, next_io_fault, bind, raise, ret, modify.
  destruct (io_faults (fs c)) as [|[e|] l]; discriminate.
Qed.

Lemma decrypt_ends' data :
  decrypt cryptography (_encryption self) data <> OutOfFuel.
Proof.
  unfold decrypt, decrypt_chunk.
  destruct (negb _); [discriminate|].
  destruct cryptography as [lib|] eqn:E; [|discriminate].
  now apply decrypt_ends.
Qed.

Lemma py_ends v k d :
  py_get v k d <> OutOfFuel /\ py_getitem v k <> OutOfFuel.
Proof.
  split; destruct v as [| | | | | |dict]; try discriminate.
  cbn [py_getitem]. destruct (dict_lookup dict k); discriminate.
Qed.

Lemma parse_chunk_payload_ends p : parse_chunk_payload p <> OutOfFuel.
Proof.
  unfold parse_chunk_payload, Struct.unpack_I.
  destruct (decide _); discriminate.
Qed.

Lemma returns_handle_message t p :
  returns (handle_message cryptography self t p).
Proof.
  pose proof returns_send_ack. pose proof returns_send_error.
  pose proof returns_unique_path.
  pose proof (fun p => proj1 (returns_file_ops p [])).
  pose proof (fun p d => proj2 (returns_file_ops p d)).
  pose proof returns_file_close.
  pose proof loads_ends. pose proof decrypt_ends'.
  pose proof parse_chunk_payload_ends.
  pose proof (fun v k d => proj1 (py_ends v k d)).
  pose proof (fun v k => proj2 (py_ends v k JNull)).
  unfold handle_message, parse_handshake_payload, parse_file_meta_payload.
  repeat first
    [ apply returns_ret | apply returns_raise | apply returns_gets
    | apply returns_modify | apply returns_lift; solve [auto]
    | solve [auto]
    | apply returns_bind; [|intros ?]
    | match goal with
      | |- returns (if ?b then _ else _) => destruct b
      | |- returns (match ?x with _ => _ end) => destruct x
      end ].
Qed.

Lemma returns_handle_frame : returns (handle_frame cryptography self).
Proof.
  intros c c' H. unfold handle_frame in H.
  apply bind_inv in H as [(hd & c1 & H1 & H)|[(e & H1 & ?)|[H1 _]]];
    [|discriminate|now apply on_conn_recv_spec in H1 as (? & _)].
  unfold parse_header in H.
  apply bind_inv in H as [(hdr & c2 & H2 & H)|[(e & H2 & ?)|[H2 _]]];
    [|discriminate|].
  - destruct hdr as [hdr|]; [|discriminate].
    apply bind_inv in H as [(pl & c3 & H3 & H)|[(e & H3 & ?)|[H3 _]]];
      [|discriminate|now apply on_conn_recv_spec in H3 as (? & _)].
    destruct (negb _).
    + apply bind_inv in H as [(u & c4 & H4 & H)|[(e & H4 & ?)|[H4 _]]];
        [discriminate|discriminate|].
      exact (returns_send_error _ _ _ _ H4).
    + exact (returns_handle_message _ _ _ _ H).
  - apply lift_inv in H2 as [H2 _].
    destruct (decide _); [discriminate|].
    unfold _HEADER_STRUCT_unpack_from in H2.
    destruct (decide _); [discriminate|]. cbn [rbind] in H2.
    repeat destruct (decide _); discriminate.
Qed.

Lemma handle_frame_consumes c c' :
  handle_frame cryptography self c = (Ok true, c') ->
  (length (sock_in (conn c')) < length (sock_in (conn c)))%nat.
Proof.
  intros H. unfold handle_frame in H.
  apply bind_inv in H as [(hd & c1 & H1 & H)|[(e & _ & ?)|[_ ?]]];
    [|discriminate..].
  apply on_conn_recv_spec in H1 as (_ & _ & _ & _ & _ & H1).
  destruct (H1 hd eq_refl) as [Hl1 Hin1]. change HEADER_SIZE with 256 in Hl1.
  apply bind_inv in H as [(hdr & c2 & H2 & H)|[(e & _ & ?)|[_ ?]]];
    [|discriminate..].
  apply lift_inv in H2 as [_ ->].
  destruct hdr as [hdr|]; [|discriminate].
  apply bind_inv in H as [(pl & c3 & H3 & H)|[(e & _ & ?)|[_ ?]]];
    [|discriminate..].
  apply on_conn_recv_spec in H3 as (_ & _ & _ & _ & Hle & _).
  assert (Hlast : sock_in (conn c') = sock_in (conn c3)).
  { destruct (negb _).
    - apply bind_inv in H as [(u & c4 & _ & H)|[(e & _ & ?)|[_ ?]]];
        discriminate.
    - now apply handle_message_effect in H as [H _]. }
  rewrite Hlast, Hin1, length_app, length_map.
  unfold len in Hl1. lia.
Qed.

Lemma handle_loop_ends fuel :
  forall c r c',
  (length (sock_in (conn c)) < fuel)%nat ->
  handle_loop cryptography self fuel c = (r, c') -> r <> OutOfFuel.
Proof.
  induction fuel as [|fuel IH]; intros c r c' Hf H; [lia|].
  cbn [handle_loop] in H. unfold bind in H.
  destruct (handle_frame cryptography self c) as [[[|]|e|] c1] eqn:E.
  - apply handle_frame_consumes in E as Hlt.
    apply (IH c1 r c'); [lia|exact H].
  - injection H as <- _. discriminate.
  - injection H as <- _. discriminate.
  - exfalso. exact (returns_handle_frame _ _ E).
Qed.

(** The [finally] block after a loop that ended in [c1]. *)
Lemma handle_finally_spec c1 :
  exists r c',
    handle_finally c1 = (r, c') /\
    file_handle c' = None /\
    ((r = Ok tt /\ sock_closed (conn c') = true) \/
     (exists e, r = Raise e /\
        sock_closed (conn c') = sock_closed (conn c1))) /\
    (io_faults (fs c1) = [] -> r = Ok tt).
Proof.
  unfold handle_finally, bind, gets.
  destruct (file_handle c1) as [path|] eqn:Hfh.
  - unfold file_close, next_io_fault, bind, raise, ret, modify.
    destruct (io_faults (fs c1)) as [|[e|] l] eqn:E.
    + do 2 eexists. split; [reflexivity|]. split; [reflexivity|].
      split; [left; auto|auto].
    + do 2 eexists. split; [reflexivity|]. split; [reflexivity|].
      split; [|discriminate]. right. exists e. auto.
    + do 2 eexists. split; [reflexivity|]. split; [reflexivity|].
      split; [left; auto|auto].
  - unfold ret, modify. do 2 eexists. split; [reflexivity|].
    split; [exact Hfh|]. split; [left; cbn; auto|auto].
Qed.

Lemma handler_ends (c : Conn) (fuel : nat) :
  (length (sock_in (conn c)) < fuel)%nat ->
  exists r c',
    _handle_connection cryptography self fuel c = (r, c') /\
    file_handle c' = None /\
    ((r = Ok tt /\ sock_closed (conn c') = true) \/
     (exists e, r = Raise e /\
        sock_closed (conn c') = sock_closed (conn c))) /\
    (io_faults (fs c) = [] -> r = Ok tt).
Proof.
  intros Hf. unfold _handle_connection.
  destruct (handle_loop cryptography self fuel c) as [r1 c1] eqn:E.
  pose proof (handle_loop_ends fuel c r1 c1 Hf E) as Hr.
  destruct (keeping_handle_loop fuel c r1 c1 E) as [Hcl Hio].
  destruct (handle_finally_spec c1) as (r & c' & Hfin & Hfh & Hcase & Hok).
  assert (Hgoal : (r = Ok tt /\ sock_closed (conn c') = true) \/
                  (exists e, r = Raise e /\
                     sock_closed (conn c') = sock_closed (conn c))).
  { destruct Hcase as [H|(e & H1 & H2)]; [now left|].
    right. exists e. rewrite H2, Hcl. auto. }
  destruct r1 as [u|e|]; [| |contradiction];
    exists r, c'; (split; [exact Hfin|]); (split; [exact Hfh|]);
    (split; [exact Hgoal|]); auto.
Qed.

(** Whatever comes in on a connection (frames of any kind, in any order,
    well formed or not, a peer that closes or a read that fails), and
    whatever the file operations and the replies do, [_handle_connection]
    ends: it reads at most as many frames as there are bytes to read, and
    no file is left open.  It returns normally with the socket closed,
    unless the [close] of the file that the loop left open raises in the
    [finally] block: that exception leaves the handler with the socket as
    it was, since [conn.close()] is not reached.  When no file operation
    is scheduled to fail, the handler returns normally. *)
Theorem handler_always_hangs_up (c : Conn) (fuel : nat) :
  (length (sock_in (conn c)) < fuel)%nat ->
  exists r c',
    _handle_connection cryptography self fuel c = (r, c') /\
    file_handle c' = None /\
    ((r = Ok tt /\ sock_closed (conn c') = true) \/
     (exists e, r = Raise e /\
        sock_closed (conn c') = sock_closed (conn c))) /\
    (io_faults (fs c) = [] -> r = Ok tt).
Proof. apply handler_ends. Qed.

End ListenerEnds.

(** ** The listener's counters, whatever comes in *)

Lemma py_int_le_mono a b v :
  a <= b -> py_int_le b v = Some true -> py_int_le a v = Some true.
Proof.
  intros Hab. destruct v as [|[|]|n|x| | |]; cbn [py_int_le];
    try discriminate; intros [= H]; f_equal.
  - apply Z.leb_le in H. apply Z.leb_le. lia.
  - apply Z.leb_le in H. apply Z.leb_le. lia.
  - apply Z.leb_le in H. apply Z.leb_le. lia.
  - destruct (0 <=? PyFloat.expo x).
    + apply Z.leb_le in H. apply Z.leb_le. lia.
    + apply Z.leb_le in H. apply Z.leb_le.
      assert (0 <= 2 ^ (- PyFloat.expo x)) by apply Z.pow_nonneg, Z.le_0_2.
      nia.
Qed.

Lemma frames_read_enough n : forall m items,
  (length items <= n)%nat -> (length items <= m)%nat ->
  frames_read n items = frames_read m items.
Proof.
  assert (Hnil : forall k, frames_read k [] = []).
  { intros [|k]; [reflexivity|]. cbn [frames_read].
    now rewrite recv_loop_unfold. }
  induction n as [|n IH]; intros m items Hn Hm.
  - destruct items; [|simpl in Hn; lia]. now rewrite !Hnil.
  - destruct m as [|m].
    { destruct items; [|simpl in Hm; lia]. now rewrite !Hnil. }
    cbn [frames_read].
    destruct (recv_loop items HEADER_SIZE []) as [[hd|e|] rest] eqn:E1;
      try reflexivity.
    apply recv_loop_spec in E1 as (bs & -> & Hitems & Hl). cbn [app] in *.
    destruct (parse_header bs) as [[hdr|]|e|]; try reflexivity.
    destruct (recv_loop rest (payload_length hdr) []) as [[pl|e|] rest'] eqn:E2;
      try reflexivity.
    apply recv_loop_spec in E2 as (ps & -> & Hrest & _). cbn [app] in *.
    destruct (validate_payload hdr ps); [|reflexivity].
    f_equal.
    assert (Hlen : (length rest' < length items)%nat).
    { rewrite Hitems, Hrest, !length_app, !length_map.
      change HEADER_SIZE with 256 in Hl. unfold len in Hl. simpl in Hl. lia. }
    apply IH; lia.
Qed.

(** The frames that come in, one turn at a time. *)
Lemma incoming_unfold items :
  incoming items =
  match recv_loop items HEADER_SIZE [] with
  | (Ok header_data, rest) =>
      match parse_header header_data with
      | Ok (Some hdr) =>
          match recv_loop rest (payload_length hdr) [] with
          | (Ok payload, rest') =>
              if validate_payload hdr payload
              then (message_type hdr, payload) :: incoming rest'
              else []
          | _ => []
          end
      | _ => []
      end
  | _ => []
  end.
Proof.
  unfold incoming.
  rewrite (frames_read_enough (length items) (S (length items)) items)
    by lia.
  cbn [frames_read].
  destruct (recv_loop items HEADER_SIZE []) as [[hd|e|] rest] eqn:E1;
    try reflexivity.
  apply recv_loop_spec in E1 as (bs & -> & Hitems & Hl). cbn [app] in *.
  destruct (parse_header bs) as [[hdr|]|e|]; try reflexivity.
  destruct (recv_loop rest (payload_length hdr) []) as [[pl|e|] rest'] eqn:E2;
    try reflexivity.
  apply recv_loop_spec in E2 as (ps & -> & Hrest & _). cbn [app] in *.
  destruct (validate_payload hdr ps); [|reflexivity].
  f_equal. apply frames_read_enough; [|lia].
  rewrite Hitems, Hrest, !length_app, !length_map. lia.
Qed.

Section ChunkCount.
Context {rt : PyRuntime}.
Variable cryptography : option CryptoBackend.
Variable self : FileListener.

(** A turn of the loop either finds no frame and leaves the record alone,
    or takes the next frame that comes in and dispatches it. *)
Lemma handle_frame_incoming c r c' :
  handle_frame cryptography self c = (r, c') ->
  (incoming (sock_in (conn c)) = [] /\ file_info c' = file_info c /\
   r <> Ok true) \/
  (exists t p rest,
     incoming (sock_in (conn c)) = (t, p) :: incoming rest /\
     handle_message cryptography self t p (conn_with_in rest c) = (r, c')).
Proof.
  intros H. rewrite incoming_unfold.
  unfold handle_frame, _recv_exact, on_conn, sock_recv_exact in H.
  unfold bind at 1 in H.
  destruct (recv_loop (sock_in (conn c)) HEADER_SIZE []) as [r1 rest] eqn:E1.
  destruct r1 as [hd|e|].
  - unfold bind at 1, lift in H.
    destruct (parse_header hd) as [[hdr|]|e|] eqn:Eh.
    + unfold bind at 1 in H. cbn [conn with_conn sock_in] in H.
      destruct (recv_loop rest (payload_length hdr) []) as [r2 rest'] eqn:E2.
      destruct r2 as [pl|e|].
      * destruct (validate_payload hdr pl) eqn:Ev; cbn [negb] in H.
        -- right. exists (message_type hdr), pl, rest'. split; [reflexivity|].
           rewrite <- H. reflexivity.
        -- left. split; [reflexivity|].
           apply bind_inv in H as [(u & c1 & H1 & H)|[(e & H1 & ->)|[H1 ->]]].
           ++ apply send_error_effect in H1 as (_ & _ & Hi & _).
              apply ret_inv in H as [-> ->]. split; [exact Hi|discriminate].
           ++ apply send_error_effect in H1 as (_ & _ & Hi & _).
              split; [exact Hi|discriminate].
           ++ apply send_error_effect in H1 as (_ & _ & Hi & _).
              split; [exact Hi|discriminate].
      * left. injection H as <- <-. repeat split. discriminate.
      * left. injection H as <- <-. repeat split. discriminate.
    + left. injection H as <- <-. repeat split. discriminate.
    + left. injection H as <- <-. repeat split. discriminate.
    + left. injection H as <- <-. repeat split. discriminate.
  - left. injection H as <- <-. repeat split. discriminate.
  - left. injection H as <- <-. repeat split. discriminate.
Qed.

Variable s : Socket.
Let frames := incoming (sock_in s).
Let total := count_chunks frames.

(** Each FILE_META frame that comes in declares a chunk count that the
    number of CHUNK frames on the connection does not exceed. *)
Hypothesis declared_enough :
  forall payload meta v,
    (MSG_FILE_META, payload) ∈ frames ->
    parse_file_meta_payload payload = Ok meta ->
    py_getitem meta "chunk_count" = Ok v ->
    py_int_le total v = Some true.

Let inv_run (c : Conn) : Prop :=
  exists k,
    incoming (sock_in (conn c)) = drop k frames /\
    chunks_received (file_info c) <= count_chunks (take k frames) /\
    ((chunks_received (file_info c) = 0 /\
      chunk_count (file_info c) = JInt 0 /\ file_handle c = None)
     \/ py_int_le total (chunk_count (file_info c)) = Some true).

Let inv_info (c : Conn) : Prop :=
  (chunks_received (file_info c) = 0 /\ chunk_count (file_info c) = JInt 0)
  \/ (chunks_received (file_info c) <= total /\
      py_int_le total (chunk_count (file_info c)) = Some true).

Lemma count_take_le k : count_chunks (take k frames) <= total.
Proof.
  unfold total. rewrite <- (take_drop k frames) at 2.
  rewrite count_chunks_app. pose proof (count_chunks_nonneg (drop k frames)). lia.
Qed.

Lemma inv_step c r c' :
  inv_run c -> handle_frame cryptography self c = (r, c') ->
  inv_info c' /\ (r = Ok true -> inv_run c').
Proof.
  intros (k & Hin & Hcnt & Hcase) H.
  pose proof (count_take_le k) as Hk.
  apply handle_frame_incoming in H
    as [(_ & Hinfo & Hr)|(t & p & rest & Hnext & H)].
  - split; [|intros ->; contradiction].
    unfold inv_info. rewrite Hinfo.
    destruct Hcase as [(? & ? & _)|?]; [left; auto|right; split; [lia|auto]].
  - rewrite Hin in Hnext.
    assert (Hf : frames !! k = Some (t, p)).
    { rewrite <- (Nat.add_0_r k), <- lookup_drop, Hnext. reflexivity. }
    assert (Hrest : incoming rest = drop (S k) frames).
    { rewrite (drop_S _ _ _ Hf) in Hnext. now injection Hnext as <-. }
    assert (Htake : count_chunks (take (S k) frames) =
                    count_chunks (take k frames)
                    + (if decide (t = MSG_CHUNK) then 1 else 0)).
    { rewrite (take_S_r _ _ _ Hf), count_chunks_app, count_chunks_one.
      reflexivity. }
    pose proof (count_take_le (S k)) as HSk.
    apply handle_message_effect in H as [Hin' Heff].
    cbn [conn_with_in with_conn conn file_info file_handle socket_with_in sock_in]
      in Hin', Heff.
    assert (Hrun : inv_info c' /\ inv_run c'); [|tauto].
    destruct Heff as [(-> & Hopen & Hfh & Hcc & Hcr)
                     |(Hcr & [(Hcc & Hfh)|(-> & meta & v & Hl & Hv & Hcc)])].
    + (* a chunk was written *)
      destruct (decide (MSG_CHUNK = MSG_CHUNK)); [|contradiction].
      destruct Hcase as [(_ & _ & Hnone)|Htot]; [contradiction|].
      rewrite <- Hcc in Htot.
      split; [right; split; [lia|exact Htot]|].
      exists (S k). rewrite Hin', <- Hrest. split; [reflexivity|].
      split; [lia|right; exact Htot].
    + (* the counters did not move *)
      assert (0 <= (if decide (t = MSG_CHUNK) then 1 else 0))
        by (destruct (decide _); lia).
      rewrite <- Hcc in Hcase. rewrite <- Hcr in Hcase, Hcnt.
      split.
      * destruct Hcase as [(? & ? & _)|?]; [left; auto|right; split; [lia|auto]].
      * exists (S k). rewrite Hin', <- Hrest. split; [reflexivity|].
        split; [lia|].
        destruct Hcase as [(? & ? & Hnone)|?]; [|right; assumption].
        left. repeat split; try assumption.
        destruct Hfh as [Hfh|Hfh]; congruence.
    + (* a FILE_META frame declared its chunk count *)
      assert (Hdecl : py_int_le total v = Some true).
      { apply (declared_enough p meta v);
          [eapply list_elem_of_lookup_2; eassumption|exact Hl|exact Hv]. }
      destruct (decide (MSG_FILE_META = MSG_CHUNK)); [discriminate|].
      rewrite <- Hcc in Hdecl. rewrite <- Hcr in Hcnt.
      split; [right; split; [lia|exact Hdecl]|].
      exists (S k). rewrite Hin', <- Hrest. split; [reflexivity|].
      split; [lia|right; exact Hdecl].
Qed.

Lemma running_inv c0 c :
  sock_in (conn c0) = sock_in s ->
  file_info c0 = ReceivedFileInfo_init -> file_handle c0 = None ->
  running cryptography self c0 c -> inv_run c.
Proof.
  intros Hin Hinfo Hfh Hrun. induction Hrun as [|c c' _ IH Hturn].
  - exists 0%nat. rewrite drop_0, take_0, Hinfo, Hin. cbn.
    split; [reflexivity|]. split; [reflexivity|]. left. auto.
  - now apply (inv_step c (Ok true) c' IH Hturn).
Qed.

(** C7, as amended: for every incoming stream of bytes, when no FILE_META
    frame that comes in declares a chunk count below the number of CHUNK
    frames that come in on the connection, every state the handler reaches
    has [chunks_received <= chunk_count], as Python compares the counter
    with the value that the payload declared. *)
Theorem chunks_received_bounded (disk : FileSystem) (c : Conn) :
  reachable cryptography self (Conn_init s disk) c ->
  py_int_le (chunks_received (file_info c)) (chunk_count (file_info c))
    = Some true.
Proof.
  intros Hreach.
  assert (Hinfo : inv_info c).
  { destruct Hreach as [c Hrun|c r c' Hrun Hturn].
    - apply (running_inv (Conn_init s disk) _ eq_refl eq_refl eq_refl) in Hrun
        as (k & _ & Hcnt & Hcase).
      pose proof (count_take_le k). unfold inv_info.
      destruct Hcase as [(? & ? & _)|?]; [left; auto|right; split; [lia|auto]].
    - apply (running_inv (Conn_init s disk) _ eq_refl eq_refl eq_refl) in Hrun.
      now apply (inv_step c r c' Hrun Hturn). }
  destruct Hinfo as [[-> ->]|[Hle Htot]]; [reflexivity|].
  exact (py_int_le_mono _ _ _ Hle Htot).
Qed.

End ChunkCount.

(** C7, witness: a peer that announces two chunks and sends two; the state
    in which the handler ends has both counters at 2. *)
Lemma chunks_received_bounded_witness :
  let c := turn (turn (turn (turn (turn
             (Conn_init (socket_reading honest_frames) empty_disk))))) in
  py_int_le (chunks_received (file_info c)) (chunk_count (file_info c))
    = Some true.
Proof.
  set (c0 := Conn_init (socket_reading honest_frames) empty_disk).
  cbv zeta.
  apply (chunks_received_bounded (rt := MiniJson.runtime) None recv_listener
           (socket_reading honest_frames))
    with (disk := empty_disk).
  - intros payload meta v Hf Hl Hv.
    assert (Hin : incoming (sock_in (socket_reading honest_frames))
                  = honest_frames) by (vm_compute; reflexivity).
    rewrite Hin in Hf |- *. unfold honest_frames in Hf.
    repeat (apply elem_of_cons in Hf as [Hf|Hf]);
      try discriminate Hf; [|inversion Hf].
    injection Hf as ->.
    vm_compute in Hl. injection Hl as <-.
    vm_compute in Hv. injection Hv as <-.
    vm_compute. reflexivity.
  - apply reachable_turn
      with (c := turn (turn (turn (turn c0)))) (r := Ok false);
      [|vm_compute; reflexivity].
    apply running_turn with (turn (turn (turn c0))); [|vm_compute; reflexivity].
    apply running_turn with (turn (turn c0)); [|vm_compute; reflexivity].
    apply running_turn with (turn c0); [|vm_compute; reflexivity].
    apply running_turn with c0; [|vm_compute; reflexivity].
    apply running_start.
Defined.

(** The handler counts on when the payload declares [true] as its chunk
    count: after two chunks, [2 <= True] is false. *)
Example chunk_count_true_overrun :
  let frames :=
    [(MSG_FILE_META,
      @dumps_utf8 MiniJson.runtime
        (JDict [("filename"%string, JStr "a.txt");
                ("file_size"%string, JInt 2);
                ("mime_type"%string, JStr "text/plain");
                ("chunk_count"%string, JBool true);
                ("chunk_size"%string, JInt 65536)]));
     example_chunk 0 "a"; example_chunk 1 "b"] in
  let c := turn (turn (turn (Conn_init (socket_reading frames) empty_disk))) in
  chunk_count (file_info c) = JBool true /\
  chunks_received (file_info c) = 2 /\
  py_int_le (chunks_received (file_info c)) (chunk_count (file_info c))
    = Some false.
Proof. vm_compute. repeat split; reflexivity. Qed.

(** ** The transmitter: waiting for an acknowledgement *)

Section WaitForAck.
Import Transmitter.
Context {rt : PyRuntime}.

Lemma on_sock_recv_spec n w r w' :
  on_sock (sock_recv_exact n) w = (r, w') ->
  r <> OutOfFuel /\
  progress_queue w' = progress_queue w /\
  sock_out (sock w') = sock_out (sock w) /\
  forall buf, r = Ok buf ->
    len buf = Z.max 0 n /\ sock_in (sock w) = map Rx buf ++ sock_in (sock w').
Proof.
  unfold on_sock. destruct (sock_recv_exact n (sock w)) as [r0 s'] eqn:E.
  intros [= <- <-]. apply sock_recv_exact_spec in E as (Ho & _ & E).
  cbn [with_sock sock progress_queue].
  destruct r0 as [buf|e|]; [| |contradiction].
  - destruct E as [Hl Hin]. repeat split; try discriminate; try exact Ho.
    + injection H as <-. exact Hl.
    + injection H as <-. exact Hin.
  - repeat split; try discriminate. exact Ho.
Qed.

Lemma payload_length_nonneg hdr h :
  parse_header hdr = Ok (Some h) -> 0 <= payload_length h.
Proof.
  rewrite parse_header_unfold. intros H.
  destruct (decide (len hdr < 256)) as [|Hlen]; [discriminate|].
  repeat (destruct (decide _); [discriminate|]).
  injection H as <-. cbn [payload_length].
  assert (H4 : length (take 4 (drop 6 hdr)) = 4%nat)
    by (unfold len in Hlen; rewrite length_take, length_drop; lia).
  destruct (take 4 (drop 6 hdr)) as [|b0 [|b1 [|b2 [|b3 [|? ?]]]]];
    try discriminate H4.
  apply be_value_4_range.
Qed.

Lemma wait_for_ack_inv w ack w' :
  _wait_for_ack w = (Ok ack, w') ->
  exists hdr h p d,
    sock_in (sock w) = map Rx (hdr ++ p) ++ sock_in (sock w') /\
    len hdr = 256 /\ parse_header hdr = Ok (Some h) /\
    message_type h = MSG_ACK /\ payload_length h = len p /\
    loads_utf8 p = Ok ack /\ ack = JDict d /\ ack_success d = true /\
    sock_out (sock w') = sock_out (sock w) /\
    progress_queue w' = progress_queue w.
Proof.
  intros H. unfold _wait_for_ack, _recv_exact in H.
  apply bind_inv in H as [(hdr & w1 & H1 & H)|[(e & _ & ?)|[_ ?]]];
    [|discriminate..].
  apply on_sock_recv_spec in H1 as (_ & Hq1 & Ho1 & H1).
  destruct (H1 hdr eq_refl) as [Hl1 Hin1]. change HEADER_SIZE with 256 in Hl1.
  apply bind_inv in H as [(oh & w2 & H2 & H)|[(e & _ & ?)|[_ ?]]];
    [|discriminate..].
  apply lift_inv in H2 as [Hparse ->].
  destruct oh as [h|]; [|discriminate].
  apply bind_inv in H as [(p & w3 & H3 & H)|[(e & _ & ?)|[_ ?]]];
    [|discriminate..].
  apply on_sock_recv_spec in H3 as (_ & Hq3 & Ho3 & H3).
  destruct (H3 p eq_refl) as [Hl3 Hin3].
  pose proof (payload_length_nonneg hdr h (eq_sym Hparse)) as Hnn.
  destruct (message_type h =? MSG_ERROR) eqn:Eerr.
  { apply bind_inv in H as [(a & w4 & _ & H)|[(e & _ & ?)|[_ ?]]];
      [|discriminate..].
    apply bind_inv in H as [(b & w5 & _ & H)|[(e & _ & ?)|[_ ?]]];
      discriminate. }
  destruct (message_type h =? MSG_ACK) eqn:Eack; cbn [negb] in H;
    [|discriminate].
  apply Z.eqb_eq in Eack.
  apply bind_inv in H as [(a & w4 & H4 & H)|[(e & _ & ?)|[_ ?]]];
    [|discriminate..].
  apply lift_inv in H4 as [Hloads ->].
  apply bind_inv in H as [(sc & w5 & H5 & H)|[(e & _ & ?)|[_ ?]]];
    [|discriminate..].
  apply lift_inv in H5 as [Hget ->].
  destruct (truthy sc) eqn:Etr; cbn [negb] in H.
  - apply ret_inv in H as [[= <-] ->].
    destruct ack as [| | | | | |d]; try discriminate Hget.
    cbn [py_get] in Hget. injection Hget as Hget. subst sc.
    exists hdr, h, p, d.
    rewrite map_app, <- app_assoc, <- Hin3.
    unfold parse_ack_payload in Hloads.
    repeat split; try congruence; try lia; exact Etr.
  - apply bind_inv in H as [(b & w6 & _ & H)|[(e & _ & ?)|[_ ?]]];
      discriminate.
Qed.

(** [_wait_for_ack] returns only on a frame that [parse_header] accepts,
    whose message type is ACK and whose payload decodes to a dictionary
    with a true [success]; it has then read the header and the payload,
    and nothing more. *)
Theorem wait_for_ack_sound (w : World) (ack : json) (w' : World) :
  _wait_for_ack w = (Ok ack, w') ->
  exists hdr h p d,
    sock_in (sock w) = map Rx (hdr ++ p) ++ sock_in (sock w') /\
    len hdr = 256 /\ parse_header hdr = Ok (Some h) /\
    message_type h = MSG_ACK /\ payload_length h = len p /\
    loads_utf8 p = Ok ack /\ ack = JDict d /\ ack_success d = true /\
    sock_out (sock w') = sock_out (sock w) /\
    progress_queue w' = progress_queue w.
Proof. apply wait_for_ack_inv. Qed.

Lemma wait_for_ack_frame hdr h p d rest w :
  len hdr = 256 ->
  parse_header hdr = Ok (Some h) ->
  message_type h = MSG_ACK ->
  payload_length h = len p ->
  loads_utf8 p = Ok (JDict d) ->
  sock_in (sock w) = map Rx (hdr ++ p) ++ rest ->
  _wait_for_ack w =
  (if ack_success d then Ok (JDict d) else Raise (nack_error d),
   with_sock (socket_with_in rest) w).
Proof.
  intros Hlen Hparse Hty Hpl Hd Hin.
  rewrite map_app, <- app_assoc in Hin.
  unfold _wait_for_ack, bind at 1, _recv_exact, on_sock.
  change HEADER_SIZE with 256. rewrite <- Hlen.
  rewrite (sock_recv_exact_bytes hdr (map Rx p ++ rest)) by exact Hin.
  unfold bind at 1, lift. rewrite Hparse.
  unfold bind at 1, on_sock. rewrite Hpl. cbn [sock with_sock].
  rewrite (sock_recv_exact_bytes p rest) by reflexivity.
  rewrite Hty. change (MSG_ACK =? MSG_ERROR) with false.
  change (MSG_ACK =? MSG_ACK) with true. cbv iota. cbn [negb].
  unfold parse_ack_payload, bind at 1. rewrite Hd.
  cbn [py_get]. unfold bind at 1. fold (ack_success d).
  destruct (ack_success d); cbn [negb]; [reflexivity|].
  unfold bind, raise. reflexivity.
Qed.

(** The transmitter does not check the digest of a reply: an ACK frame
    is accepted on its message type and its [success] field, whatever the
    digest field of its header holds. *)
Theorem ack_digest_not_checked (hdr : bytes) (h : ProtocolHeader) (p : bytes)
    (d : list (string * json)) (rest : list recv_item) (w : World) :
  len hdr = 256 ->
  parse_header hdr = Ok (Some h) ->
  message_type h = MSG_ACK ->
  payload_length h = len p ->
  validate_payload h p = false ->
  loads_utf8 p = Ok (JDict d) ->
  ack_success d = true ->
  sock_in (sock w) = map Rx (hdr ++ p) ++ rest ->
  _wait_for_ack w = (Ok (JDict d), with_sock (socket_with_in rest) w).
Proof.
  intros Hlen Hparse Hty Hpl _ Hd Hs Hin.
  rewrite (wait_for_ack_frame hdr h p d rest w) by assumption.
  now rewrite Hs.
Qed.

End WaitForAck.

(** ** The transmitter: how a transfer is reported *)

Section WorkerOutcome.
Import Transmitter.
Context {rt : PyRuntime}.
Variable cryptography : option CryptoBackend.
Variable self : FileTransmitter.

(** Decoding JSON and encrypting end. *)
Hypothesis loads_ends : forall b, loads_utf8 b <> OutOfFuel.
Hypothesis encrypt_ends :
  forall lib key nonce data,
    cryptography = Some lib -> AESGCM_encrypt lib key nonce data <> OutOfFuel.

Lemma quiet_bind {A B} (m : M World A) (k : A -> M World B) :
  quiet m -> (forall a, quiet (k a)) -> quiet (bind m k).
Proof.
  intros Hm Hk w r w' H. unfold bind in H.
  destruct (m w) as [[a|e|] w1] eqn:E; apply Hm in E as [Hr Hq].
  - apply Hk in H as [Hr' Hq']. split; [exact Hr'|congruence].
  - injection H as <- <-. split; [discriminate|exact Hq].
  - contradiction.
Qed.

Lemma quiet_ret {A} (a : A) : quiet (ret a).
Proof. intros w r w' [= <- <-]. split; [discriminate|reflexivity]. Qed.

Lemma quiet_raise {A} e : quiet (raise (A := A) e).
Proof. intros w r w' [= <- <-]. split; [discriminate|reflexivity]. Qed.

Lemma quiet_gets {A} (f : World -> A) : quiet (gets f).
Proof. intros w r w' [= <- <-]. split; [discriminate|reflexivity]. Qed.

Lemma quiet_lift {A} (x : result A) : x <> OutOfFuel -> quiet (lift x).
Proof. intros Hx w r w' [= <- <-]. split; [exact Hx|reflexivity]. Qed.

Lemma quiet_sendall data : quiet (on_sock (sock_sendall data)).
Proof.
  intros w r w'. unfold on_sock, sock_sendall.
  destruct (sock_send_faults (sock w)) as [|[e|] l]; intros [= <- <-];
    (split; [discriminate|reflexivity]).
Qed.

Lemma quiet_recv n : quiet (on_sock (sock_recv_exact n)).
Proof.
  intros w r w' H. now apply on_sock_recv_spec in H as (Hr & Hq & _).
Qed.

Lemma quiet_cancel_is_set : quiet cancel_is_set.
Proof.
  intros w r w'. unfold cancel_is_set.
  destruct (cancel_polls w); intros [= <- <-];
    (split; [discriminate|reflexivity]).
Qed.

Lemma quiet_os_urandom : quiet os_urandom.
Proof.
  intros w r w'. unfold os_urandom.
  destruct (urandom w); intros [= <- <-];
    (split; [discriminate|reflexivity]).
Qed.

Lemma quiet_file_op {A} (value : World -> A) : quiet (file_op value).
Proof.
  intros w r w'. unfold file_op.
  destruct (file_faults w) as [|[e|] l]; intros [= <- <-];
    (split; [discriminate|reflexivity]).
Qed.

Lemma quiet_connect : quiet connect.
Proof.
  intros w r w'. unfold connect.
  destruct (connect_fault w); intros [= <- <-];
    (split; [discriminate|reflexivity]).
Qed.

Lemma build_header_returns t p : build_header t p <> OutOfFuel.
Proof.
  unfold build_header, _HEADER_STRUCT_pack, Struct.pack_B, Struct.pack_I.
  repeat (destruct (_ && _)); discriminate.
Qed.

Lemma py_get_returns v k d : py_get v k d <> OutOfFuel.
Proof. destruct v; discriminate. Qed.

Lemma parse_header_returns b : parse_header b <> OutOfFuel.
Proof. rewrite parse_header_unfold. discriminate. Qed.

Ltac quiet_steps :=
  repeat first
    [ apply quiet_ret | apply quiet_raise | apply quiet_gets
    | apply quiet_sendall | apply quiet_recv | apply quiet_cancel_is_set
    | apply quiet_os_urandom | apply quiet_file_op | apply quiet_connect
    | apply quiet_lift;
      first [ apply build_header_returns | apply py_get_returns
            | apply parse_header_returns | apply loads_ends ]
    | assumption
    | apply quiet_bind; [|intros ?]
    | match goal with
      | |- quiet (if ?b then _ else _) => destruct b
      | |- quiet (match ?x with _ => _ end) => destruct x
      end ].

Lemma quiet_send_message t payload : quiet (_send_message t payload).
Proof. unfold _send_message. quiet_steps. Qed.

Lemma quiet_wait_for_ack : quiet _wait_for_ack.
Proof.
  unfold _wait_for_ack, _recv_exact, parse_error_payload, parse_ack_payload.
  quiet_steps.
Qed.

Lemma quiet_retry_loop n attempt t payload :
  quiet (retry_loop n attempt t payload).
Proof.
  revert attempt. induction n as [|n IH]; intros attempt; cbn [retry_loop].
  - apply quiet_ret.
  - intros w r w' H.
    assert (Hstep : quiet (_send_message t payload ;;; _wait_for_ack)).
    { apply quiet_bind;
        [apply quiet_send_message|intros _; apply quiet_wait_for_ack]. }
    destruct ((_send_message t payload ;;; _wait_for_ack) w)
      as [[a|e|] w1] eqn:E; apply Hstep in E as [Hr Hq].
    + injection H as <- <-. split; [discriminate|exact Hq].
    + destruct (retriable e);
        [|injection H as <- <-; split; [discriminate|exact Hq]].
      destruct (attempt =? Z.of_nat MAX_RETRIES - 1);
        [injection H as <- <-; split; [discriminate|exact Hq]|].
      apply IH in H as [Hr' Hq']. split; [exact Hr'|congruence].
    + contradiction.
Qed.

Lemma quiet_encrypt_data raw : quiet (encrypt_data cryptography self raw).
Proof.
  unfold encrypt_data. destruct (negb _); [apply quiet_ret|].
  apply quiet_bind; [apply quiet_os_urandom|intros nonce].
  apply quiet_lift. unfold encrypt, encrypt_chunk.
  destruct (negb _); [discriminate|].
  destruct cryptography as [lib|] eqn:E; [|discriminate].
  pose proof (encrypt_ends lib (_aes_key (_encryption self)) nonce raw
                eq_refl) as Hne.
  destruct (AESGCM_encrypt lib _ nonce raw); [discriminate..|contradiction].
Qed.

Lemma build_chunk_payload_returns i d : build_chunk_payload i d <> OutOfFuel.
Proof.
  unfold build_chunk_payload, Struct.pack_I.
  destruct (_ && _); discriminate.
Qed.

(** A chunk is reported once it was acknowledged, and only then. *)
Lemma send_chunk_reports total file_size idx raw sent w r w' :
  send_chunk cryptography self total file_size idx raw sent w = (r, w') ->
  r <> OutOfFuel /\
  exists l,
    progress_queue w' = progress_queue w ++ l /\ Forall progress_report l /\
    ((exists v, r = Ok v) -> length l = 1%nat) /\
    ((exists e, r = Raise e) -> l = []).
Proof.
  intros H. unfold send_chunk in H.
  assert (Hpre : quiet (data <- encrypt_data cryptography self raw ;;
                        payload <- lift (build_chunk_payload idx data) ;;
                        _send_with_retry MSG_CHUNK payload)).
  { apply quiet_bind; [apply quiet_encrypt_data|intros data].
    apply quiet_bind;
      [apply quiet_lift, build_chunk_payload_returns|intros payload].
    apply quiet_retry_loop. }
  unfold quiet in Hpre.
  apply bind_inv in H as [(data & w1 & H1 & H)|[(e & H1 & ->)|[H1 ->]]].
  - apply bind_inv in H as [(cp & w2 & H2 & H)|[(e & H2 & ->)|[H2 ->]]].
    + apply lift_inv in H2 as [H2 ->].
      apply bind_inv in H as [(u & w3 & H3 & H)|[(e & H3 & ->)|[H3 ->]]].
      * assert (Hq : progress_queue w3 = progress_queue w).
        { apply (Hpre w (Ok u) w3). unfold bind. rewrite H1.
          unfold lift. rewrite <- H2. exact H3. }
        unfold bind, modify, ret in H. injection H as <- <-.
        split; [discriminate|]. eexists. cbn [queue_put progress_queue].
        rewrite Hq. split; [reflexivity|].
        split; [repeat constructor|].
        split; [reflexivity|]. intros [e He]. discriminate.
      * assert (Hq : progress_queue w' = progress_queue w).
        { apply (Hpre w (Raise e) w'). unfold bind. rewrite H1.
          unfold lift. rewrite <- H2. exact H3. }
        split; [discriminate|]. exists []. rewrite app_nil_r.
        split; [exact Hq|]. split; [constructor|].
        split; [intros [v Hv]; discriminate|reflexivity].
      * exfalso. apply (Hpre w OutOfFuel w'); [|reflexivity].
        unfold bind. rewrite H1. unfold lift. rewrite <- H2. exact H3.
    + apply lift_inv in H2 as [H2 ->].
      apply quiet_encrypt_data in H1 as [_ Hq].
      split; [discriminate|]. exists []. rewrite app_nil_r.
      split; [exact Hq|]. split; [constructor|].
      split; [intros [v Hv]; discriminate|reflexivity].
    + apply lift_inv in H2 as [H2 _]. exfalso.
      exact (build_chunk_payload_returns _ _ (eq_sym H2)).
  - apply quiet_encrypt_data in H1 as [_ Hq].
    split; [discriminate|]. exists []. rewrite app_nil_r.
    split; [exact Hq|]. split; [constructor|].
    split; [intros [v Hv]; discriminate|reflexivity].
  - now apply quiet_encrypt_data in H1 as [Hr _].
Qed.

Lemma chunk_loop_reports n total file_size csize idx f sent w r w' :
  chunk_loop cryptography self n total file_size csize idx f sent w = (r, w') ->
  r <> OutOfFuel /\
  exists l,
    Forall progress_report l /\
    progress_queue w' =
      progress_queue w ++ l
        ++ match r with
           | Ok false => [error_report "Cancelled by user"]
           | _ => []
           end.
Proof.
  revert idx f sent w. induction n as [|n IH]; intros idx f sent w H;
    cbn [chunk_loop] in H.
  - apply ret_inv in H as [-> ->]. split; [discriminate|].
    exists []. split; [constructor|]. cbn. now rewrite app_nil_r.
  - apply bind_inv in H as [(cancelled & w1 & H1 & H)|[(e & H1 & ->)|[H1 ->]]];
      apply quiet_cancel_is_set in H1 as [Hr1 Hq1]; [| |contradiction].
    + destruct cancelled.
      * unfold bind, modify, ret in H. injection H as <- <-.
        split; [discriminate|]. exists []. split; [constructor|].
        cbn [queue_put progress_queue app]. now rewrite Hq1.
      * apply bind_inv in H as [(rd & w2 & H2 & H)|[(e & H2 & ->)|[H2 ->]]];
          apply quiet_file_op in H2 as [Hr2 Hq2]; [| |contradiction].
        -- destruct rd as [raw rest]. destruct raw as [|b raw].
           ++ apply ret_inv in H as [-> ->]. split; [discriminate|].
              exists []. split; [constructor|]. cbn.
              rewrite app_nil_r. congruence.
           ++ apply bind_inv in H
                as [(sent' & w3 & H3 & H)|[(e & H3 & ->)|[H3 ->]]];
                apply send_chunk_reports in H3
                  as (Hr3 & l3 & Hq3 & Hf3 & _); [| |contradiction].
              ** apply IH in H as (Hr & l & Hf & Hq). split; [exact Hr|].
                 exists (l3 ++ l). split; [now apply Forall_app|].
                 rewrite Hq, Hq3, Hq2, Hq1, <- !app_assoc. reflexivity.
              ** split; [discriminate|]. exists l3. split; [exact Hf3|].
                 cbn. rewrite app_nil_r. congruence.
        -- split; [discriminate|]. exists []. split; [constructor|].
           cbn. rewrite app_nil_r. congruence.
    + split; [discriminate|]. exists []. split; [constructor|].
      cbn. now rewrite app_nil_r.
Qed.

Lemma compute_total_chunks_returns s c : compute_total_chunks s c <> OutOfFuel.
Proof.
  unfold compute_total_chunks, PyFloat.true_divide.
  destruct (0 <? s); [|discriminate].
  destruct (c =? 0); [discriminate|]. destruct (s =? 0); [discriminate|].
  cbv zeta. destruct (_ <=? _); discriminate.
Qed.

(** What the body of the worker leaves on the queue: the reports of the
    chunks, then the report of completion or of cancellation when it
    returns. *)
Lemma transfer_body_reports filepath w r w' :
  transfer_body cryptography self filepath w = (r, w') ->
  r <> OutOfFuel /\
  exists l,
    Forall progress_report l /\
    ((exists e, r = Raise e) -> progress_queue w' = progress_queue w ++ l) /\
    (r = Ok tt ->
     exists last,
       progress_queue w' = progress_queue w ++ l ++ [last] /\
       (last = error_report "Cancelled by user" \/
        exists total size,
          last = {| chunks_sent := total; total_chunks := total;
                    bytes_sent := size; total_bytes := size;
                    done := true; error := EmptyString |})).
Proof.
  intros H. unfold transfer_body in H.
  pose proof quiet_send_message as Qs. pose proof quiet_wait_for_ack as Qw.
  set (post := fun (r : result unit) (wq : World) =>
        r <> OutOfFuel /\
        exists l,
          Forall progress_report l /\
          ((exists e, r = Raise e) -> progress_queue wq = progress_queue w ++ l) /\
          (r = Ok tt ->
           exists last,
             progress_queue wq = progress_queue w ++ l ++ [last] /\
             (last = error_report "Cancelled by user" \/
              exists total size,
                last = {| chunks_sent := total; total_chunks := total;
                          bytes_sent := size; total_bytes := size;
                          done := true; error := EmptyString |}))).
  change (post r w').
  assert (Hraise : forall l e wq,
            Forall progress_report l ->
            progress_queue wq = progress_queue w ++ l ->
            post (Raise e) wq).
  { intros l e wq Hf Hq. split; [discriminate|]. exists l.
    split; [exact Hf|]. split; [intros _; exact Hq|discriminate]. }
  assert (Hquiet : forall e wq,
            progress_queue wq = progress_queue w -> post (Raise e) wq).
  { intros e wq Hq. apply (Hraise []); [constructor|].
    now rewrite app_nil_r. }
  apply bind_inv in H as [(size & w1 & H1 & H)|[(e & H1 & ->)|[H1 ->]]];
    apply quiet_file_op in H1 as [Hr1 Hq1]; [|now apply Hquiet|contradiction].
  apply bind_inv in H as [(total & w2 & H2 & H)|[(e & H2 & ->)|[H2 ->]]];
    apply lift_inv in H2 as [H2 ->];
    [|now apply Hquiet
     |exfalso; exact (compute_total_chunks_returns _ _ (eq_sym H2))].
  apply bind_inv in H as [(u3 & w3 & H3 & H)|[(e & H3 & ->)|[H3 ->]]];
    apply quiet_connect in H3 as [Hr3 Hq3];
    [|apply Hquiet; congruence|contradiction].
  apply bind_inv in H as [(u4 & w4 & H4 & H)|[(e & H4 & ->)|[H4 ->]]];
    apply Qs in H4 as [Hr4 Hq4];
    [|apply Hquiet; congruence|contradiction].
  apply bind_inv in H as [(u5 & w5 & H5 & H)|[(e & H5 & ->)|[H5 ->]]];
    apply Qw in H5 as [Hr5 Hq5];
    [|apply Hquiet; congruence|contradiction].
  apply bind_inv in H as [(guess & w6 & H6 & H)|[(e & H6 & ->)|[H6 ->]]];
    apply gets_inv in H6 as [H6 ->]; [|discriminate..].
  apply bind_inv in H as [(u7 & w7 & H7 & H)|[(e & H7 & ->)|[H7 ->]]];
    apply Qs in H7 as [Hr7 Hq7];
    [|apply Hquiet; congruence|contradiction].
  apply bind_inv in H as [(u8 & w8 & H8 & H)|[(e & H8 & ->)|[H8 ->]]];
    apply Qw in H8 as [Hr8 Hq8];
    [|apply Hquiet; congruence|contradiction].
  apply bind_inv in H as [(content & w9 & H9 & H)|[(e & H9 & ->)|[H9 ->]]];
    apply quiet_file_op in H9 as [Hr9 Hq9];
    [|apply Hquiet; congruence|contradiction].
  assert (Hq0 : progress_queue w9 = progress_queue w) by congruence.
  apply bind_inv in H as [(go_on & w10 & H10 & H)|[(e & H10 & ->)|[H10 ->]]];
    apply chunk_loop_reports in H10 as (Hr10 & l & Hf & Hq10);
    [| |contradiction].
  - destruct go_on.
    + (* all chunks sent, DONE follows *)
      rewrite app_nil_r, Hq0 in Hq10.
      apply bind_inv in H as [(u11 & w11 & H11 & H)|[(e & H11 & ->)|[H11 ->]]];
        apply Qs in H11 as [Hr11 Hq11];
        [|apply (Hraise l); [exact Hf|congruence]|contradiction].
      apply bind_inv in H as [(u12 & w12 & H12 & H)|[(e & H12 & ->)|[H12 ->]]];
        apply Qw in H12 as [Hr12 Hq12];
        [|apply (Hraise l); [exact Hf|congruence]|contradiction].
      apply modify_inv in H as [-> ->].
      split; [discriminate|]. exists l. split; [exact Hf|].
      split; [intros [e He]; discriminate|]. intros _.
      eexists. cbn [queue_put progress_queue].
      split; [rewrite Hq12, Hq11, Hq10, <- app_assoc; reflexivity|].
      right. eauto.
    + (* cancelled *)
      apply ret_inv in H as [-> ->].
      split; [discriminate|]. exists l. split; [exact Hf|].
      split; [intros [e He]; discriminate|]. intros _.
      eexists. split; [rewrite Hq10, Hq0; reflexivity|]. now left.
  - rewrite app_nil_r, Hq0 in Hq10. now apply (Hraise l).
Qed.

Lemma worker_outcome (filepath : Path) (w : World) :
  exists reports last,
    progress_queue (_transfer_worker cryptography self filepath w) =
      progress_queue w ++ reports ++ [last] /\
    Forall progress_report reports /\
    (last = error_report "Cancelled by user" \/
     (exists e w',
        transfer_body cryptography self filepath w = (Raise e, w') /\
        last = error_report (exn_str e)) \/
     exists total size,
       last = {| chunks_sent := total; total_chunks := total;
                 bytes_sent := size; total_bytes := size;
                 done := true; error := EmptyString |}).
Proof.
  unfold _transfer_worker.
  destruct (transfer_body cryptography self filepath w) as [r w1] eqn:E.
  pose proof (transfer_body_reports _ _ _ _ E) as (Hr & l & Hf & Hraise & Hok).
  assert (Hq : forall w2, progress_queue
                 (if sock_created w2 then with_sock sock_close w2 else w2)
               = progress_queue w2).
  { intros w2. now destruct (sock_created w2). }
  rewrite Hq. destruct r as [[]|e|]; [| |contradiction].
  - destruct (Hok eq_refl) as (last & Hlast & Hform).
    exists l, last. split; [exact Hlast|]. split; [exact Hf|].
    destruct Hform as [->|Hdone]; [now left|right; right; exact Hdone].
  - exists l, (error_report (exn_str e)).
    cbn [queue_put progress_queue]. rewrite (Hraise (ex_intro _ e eq_refl)).
    split; [now rewrite <- app_assoc|]. split; [exact Hf|].
    right. left. eauto.
Qed.

(** Whatever happens to a transfer, [_transfer_worker] ends and tells the
    outcome with the last snapshot it queues: the snapshot of completion
    ([done], counters at their totals), [Cancelled by user], or the text of
    the exception that stopped it.  Every snapshot before that one is the
    report of a chunk, with [done] false and no error. *)
Theorem worker_reports_outcome (filepath : Path) (w : World) :
  exists reports last,
    progress_queue (_transfer_worker cryptography self filepath w) =
      progress_queue w ++ reports ++ [last] /\
    Forall progress_report reports /\
    (last = error_report "Cancelled by user" \/
     (exists e w',
        transfer_body cryptography self filepath w = (Raise e, w') /\
        last = error_report (exn_str e)) \/
     exists total size,
       last = {| chunks_sent := total; total_chunks := total;
                 bytes_sent := size; total_bytes := size;
                 done := true; error := EmptyString |}).
Proof. apply worker_outcome. Qed.

End WorkerOutcome.

(** ** The transmitter: failures before the connection *)

Section BeforeConnecting.
Import Transmitter.
Context {rt : PyRuntime}.
Variable cryptography : option CryptoBackend.
Variable self : FileTransmitter.

(** When [filepath.stat()] raises (the file is not there, say), the worker
    queues the text of the exception as the error of the transfer and does
    nothing else: no socket is created, nothing is sent. *)
Theorem stat_failure_reported (filepath : Path) (w : World) (e : exn)
    (later : list (option exn)) :
  file_faults w = Some e :: later ->
  sock_created w = false ->
  _transfer_worker cryptography self filepath w =
  queue_put (error_report (exn_str e)) (with_file_faults later w).
Proof.
  intros Hf Hs. unfold _transfer_worker, transfer_body, stat_size.
  unfold bind at 1, file_op. rewrite Hf.
  cbn [queue_put with_file_faults sock_created]. now rewrite Hs.
Qed.

(** With a configured chunk size of zero, a file that is not empty and
    below the large-file threshold is not sent: the division that sizes the
    transfer raises, the worker queues [division by zero] as the error, and
    no socket is created. *)
Theorem zero_chunk_size_reported (filepath : Path) (w : World) :
  chunk_size (config self) = 0 ->
  0 < len (source w) < LARGE_FILE_THRESHOLD ->
  file_faults w = [] ->
  sock_created w = false ->
  _transfer_worker cryptography self filepath w =
  queue_put (error_report "division by zero") w.
Proof.
  intros Hc [Hpos Hsmall] Hf Hs.
  unfold _transfer_worker, transfer_body, stat_size.
  unfold bind at 1, file_op. rewrite Hf.
  unfold bind at 1, lift, choose_chunk_size.
  destruct (Z.leb_spec LARGE_FILE_THRESHOLD (len (source w))) as [?|_]; [lia|].
  rewrite Hc. unfold compute_total_chunks.
  destruct (Z.ltb_spec 0 (len (source w))) as [_|?]; [|lia].
  cbn [PyFloat.true_divide Z.eqb rbind queue_put sock_created].
  now rewrite Hs.
Qed.

End BeforeConnecting.

Lemma stat_failure_reported_witness :
  Transmitter._transfer_worker (rt := MiniJson.runtime) None
    default_transmitter ["send"; "gone.txt"]%string missing_file_world =
  Transmitter.queue_put
    (error_report "[Errno 2] No such file or directory: 'send/gone.txt'")
    (Transmitter.with_file_faults [] missing_file_world).
Proof.
  apply (stat_failure_reported (rt := MiniJson.runtime) None
           default_transmitter ["send"; "gone.txt"]%string missing_file_world
           (Exn OSError "[Errno 2] No such file or directory: 'send/gone.txt'")
           []); reflexivity.
Defined.

Lemma zero_chunk_size_reported_witness :
  Transmitter._transfer_worker (rt := MiniJson.runtime) None
    zero_chunk_transmitter ["send"; "hello.txt"]%string hello_world =
  Transmitter.queue_put (error_report "division by zero") hello_world.
Proof.
  apply (zero_chunk_size_reported (rt := MiniJson.runtime) None
           zero_chunk_transmitter ["send"; "hello.txt"]%string hello_world).
  - reflexivity.
  - vm_compute. split; reflexivity.
  - reflexivity.
  - reflexivity.
Defined.

(** ** The listener: entries on the transfer *)

Section ListenerEntries.
Context {rt : PyRuntime}.
Variable cryptography : option CryptoBackend.
Variable self : FileListener.

(** The FILE_META frame that the transmitter builds is taken by the
    listener as it was meant: the record gets the five values under the
    names the transmitter wrote them ([chunks_received] keeps its value),
    the file is created empty (or emptied) at the path that [_unique_path]
    chooses for the file name and stays open, and the reply is the ACK
    [Metadata accepted]. *)
Theorem file_meta_accepted (name : string) (size : Z) (mime : string)
    (count csize : Z) (p : Path) (c : Conn) :
  loads_utf8 (build_file_meta_payload name size mime count csize) =
    Ok (file_meta_dict name size mime count csize) ->
  _unique_path self (JStr name) c = (Ok p, c) ->
  next_io_ok (fs c) ->
  next_send_ok (conn c) ->
  len (build_ack_payload true "Metadata accepted") <= 4294967295 ->
  handle_message cryptography self MSG_FILE_META
    (build_file_meta_payload name size mime count csize) c =
  (Ok true,
   {| conn := socket_after_send (ack_frame "Metadata accepted") (conn c);
      fs := {| files := <[p := []]> (files (fs c));
               dirs := dirs (fs c);
               io_faults := tail (io_faults (fs c)) |};
      file_info :=
        {| filename := JStr name; file_size := JInt size;
           mime_type := JStr mime;
           chunk_count := JInt count; chunk_size := JInt csize;
           chunks_received := chunks_received (file_info c);
           save_path := p |};
      file_handle := Some p;
      progress_calls := progress_calls c;
      received_calls := received_calls c |}).
Proof. apply file_meta_step. Qed.

(** The file name of a FILE_META frame is joined to the receive directory
    as it comes: when it is absolute and nothing exists under it (neither
    a regular file nor a directory), the file is created at that absolute
    path, and the receive directory plays no part. *)
Theorem absolute_filename_leaves_receive_dir (name : string) (size : Z)
    (mime : string) (count csize : Z) (c : Conn) :
  Pathlib.root_of name <> [] ->
  exists_at (fs c) (Pathlib.parse_parts name) = false ->
  loads_utf8 (build_file_meta_payload name size mime count csize) =
    Ok (file_meta_dict name size mime count csize) ->
  next_io_ok (fs c) ->
  next_send_ok (conn c) ->
  len (build_ack_payload true "Metadata accepted") <= 4294967295 ->
  exists c',
    handle_message cryptography self MSG_FILE_META
      (build_file_meta_payload name size mime count csize) c = (Ok true, c') /\
    file_handle c' = Some (Pathlib.parse_parts name) /\
    save_path (file_info c') = Pathlib.parse_parts name /\
    files (fs c') = <[Pathlib.parse_parts name := []]> (files (fs c)).
Proof.
  intros Hroot Hfree Hloads Hio Hsend Hfit.
  assert (Hpath : _unique_path self (JStr name) c
                  = (Ok (Pathlib.parse_parts name), c)).
  { unfold _unique_path, path_truediv, Pathlib.joinpath.
    destruct (Pathlib.root_of name) as [|r l] eqn:E; [contradiction|].
    unfold bind at 1, lift. unfold bind at 1, path_exists, gets.
    rewrite Hfree. reflexivity. }
  eexists. split;
    [exact (file_meta_step cryptography self name size mime count csize _ c
              Hloads Hpath Hio Hsend Hfit)|].
  cbn. auto.
Qed.

(** A CHUNK frame is appended to the open file whatever its index says:
    the index is parsed and echoed in the reply, and is compared with
    nothing.  The data goes to the end of the file, [chunks_received]
    grows by one, and the reply is the ACK [Chunk i OK]. *)
Theorem chunk_appended_whatever_index (idx : Z) (data old : bytes)
    (path : Path) (rest : list recv_item) (c : Conn) :
  0 <= idx <= 4294967295 ->
  len data + 4 <= 4294967295 ->
  enabled (_encryption self) = false ->
  file_handle c = Some path ->
  files (fs c) !! path = Some old ->
  next_io_ok (fs c) ->
  next_send_ok (conn c) ->
  len (build_ack_payload true ("Chunk " +:+ pretty idx +:+ " OK"))
    <= 4294967295 ->
  sock_in (conn c) = map Rx (wire (chunk_frame idx data)) ++ rest ->
  exists c',
    handle_frame cryptography self c = (Ok true, c') /\
    files (fs c') = <[path := old ++ data]> (files (fs c)) /\
    chunks_received (file_info c') = chunks_received (file_info c) + 1 /\
    chunk_count (file_info c') = chunk_count (file_info c) /\
    file_handle c' = Some path /\
    sock_in (conn c') = rest /\
    sock_out (conn c') =
      sock_out (conn c) ++ [ack_frame ("Chunk " +:+ pretty idx +:+ " OK")].
Proof.
  intros Hidx Hlen Hplain Hfh Hold Hio Hsend Hfit Hin.
  eexists. split;
    [exact (chunk_step cryptography self idx data path rest c Hidx Hlen
              Hplain Hfh Hio Hsend Hfit Hin)|].
  cbn. repeat split.
  exact (alter_alt_Some (fun o => o ++ data) (files (fs c)) path old Hold).
Qed.

(** A whole transfer on the listener's side: a FILE_META frame, CHUNK
    frames and a DONE frame leave, at the path chosen for the file name, a
    file that holds the data of the chunks in the order of their arrival;
    every frame is acknowledged, [on_file_received] is called with the path
    and the announced mime type, and the connection is closed.  The
    announced [file_size] and [chunk_count], and the indices of the
    chunks, are compared with nothing. *)
Theorem transfer_saved (name : string) (size : Z) (mime : string)
    (count csize : Z) (cs : list (Z * bytes)) (p_done : bytes)
    (rest : list recv_item) (p : Path) (c : Conn) (fuel : nat) :
  let meta := build_file_meta_payload name size mime count csize in
  loads_utf8 meta = Ok (file_meta_dict name size mime count csize) ->
  len meta <= 4294967295 ->
  len p_done <= 4294967295 ->
  chunks_fit cs ->
  len (build_ack_payload true "Metadata accepted") <= 4294967295 ->
  len (build_ack_payload true "File saved") <= 4294967295 ->
  enabled (_encryption self) = false ->
  _unique_path self (JStr name) c = (Ok p, c) ->
  io_faults (fs c) = [] ->
  sock_send_faults (conn c) = [] ->
  sock_in (conn c) =
    stream ((MSG_FILE_META, meta)
              :: map (fun ix => chunk_frame ix.1 ix.2) cs
              ++ [(MSG_DONE, p_done)]) ++ rest ->
  (length cs + 2 <= fuel)%nat ->
  exists c',
    _handle_connection cryptography self fuel c = (Ok tt, c') /\
    files (fs c') = <[p := concat (map snd cs)]> (files (fs c)) /\
    file_info c' =
      {| filename := JStr name; file_size := JInt size;
         mime_type := JStr mime;
         chunk_count := JInt count; chunk_size := JInt csize;
         chunks_received := chunks_received (file_info c) + len cs;
         save_path := p |} /\
    received_calls c' =
      received_calls c
        ++ (if _on_file_received self then [(p, JStr mime)] else []) /\
    length (progress_calls c') =
      (length (progress_calls c)
       + if _on_progress self then length cs else 0)%nat /\
    sock_out (conn c') =
      sock_out (conn c)
        ++ [ack_frame "Metadata accepted"]
        ++ map (fun ix : Z * bytes =>
                  ack_frame ("Chunk " +:+ pretty ix.1 +:+ " OK")) cs
        ++ [ack_frame "File saved"] /\
    sock_in (conn c') = rest /\
    sock_closed (conn c') = true /\
    file_handle c' = None.
Proof. apply transfer_run. Qed.

End ListenerEntries.

(** ** Worked examples of the further properties *)

Lemma mini_loads_ends (b : bytes) :
  @loads_utf8 MiniJson.runtime b <> OutOfFuel.
Proof.
  cbn [loads_utf8 MiniJson.runtime]. unfold MiniJson.loads.
  destruct (MiniJson.parse_value _ _) as [[v rest]|]; [|discriminate].
  destruct (MiniJson.skip_ws rest); discriminate.
Qed.

Lemma recv_dir_parsed : parsed_path (_receive_dir recv_listener).
Proof.
  exists [], ["recv"%string]. split; [reflexivity|]. split; [now left|].
  repeat constructor.
Qed.

(** [report.pdf] is announced to a directory that has it twice. *)
Lemma file_meta_accepted_witness :
  handle_message (rt := MiniJson.runtime) None recv_listener MSG_FILE_META
    (@build_file_meta_payload MiniJson.runtime "report.pdf" 5
       "application/pdf" 1 65536)
    (Conn_init idle_socket report_files) =
  (Ok true,
   {| conn := socket_after_send
                (ack_frame (rt := MiniJson.runtime) "Metadata accepted")
                idle_socket;
      fs := {| files := <[ ["recv"; "report_2.pdf"]%string := [] ]>
                          (files report_files);
               dirs := dirs report_files;
               io_faults := [] |};
      file_info :=
        {| filename := JStr "report.pdf"; file_size := JInt 5;
           mime_type := JStr "application/pdf"; chunk_count := JInt 1;
           chunk_size := JInt 65536; chunks_received := 0;
           save_path := ["recv"; "report_2.pdf"]%string |};
      file_handle := Some ["recv"; "report_2.pdf"]%string;
      progress_calls := []; received_calls := [] |}).
Proof.
  apply (file_meta_accepted (rt := MiniJson.runtime) None recv_listener
           "report.pdf" 5 "application/pdf" 1 65536
           ["recv"; "report_2.pdf"]%string
           (Conn_init idle_socket report_files)).
  - vm_compute. reflexivity.
  - vm_compute. reflexivity.
  - exact I.
  - exact I.
  - vm_compute. discriminate.
Defined.

(** The file name [/etc/cron.d/job] sent to the listener on [recv]. *)
Lemma absolute_filename_leaves_receive_dir_witness :
  exists c',
    handle_message (rt := MiniJson.runtime) None recv_listener MSG_FILE_META
      (@build_file_meta_payload MiniJson.runtime "/etc/cron.d/job" 5
         "text/plain" 1 65536)
      (Conn_init idle_socket report_files) = (Ok true, c') /\
    file_handle c' = Some (Pathlib.parse_parts "/etc/cron.d/job") /\
    save_path (file_info c') = Pathlib.parse_parts "/etc/cron.d/job" /\
    files (fs c') =
      <[Pathlib.parse_parts "/etc/cron.d/job" := []]> (files report_files).
Proof.
  apply (absolute_filename_leaves_receive_dir (rt := MiniJson.runtime) None
           recv_listener "/etc/cron.d/job" 5 "text/plain" 1 65536
           (Conn_init idle_socket report_files)).
  - discriminate.
  - vm_compute. reflexivity.
  - vm_compute. reflexivity.
  - exact I.
  - exact I.
  - vm_compute. discriminate.
Defined.

Example absolute_filename_parts :
  Pathlib.parse_parts "/etc/cron.d/job" = ["/"; "etc"; "cron.d"; "job"]%string.
Proof. reflexivity. Qed.

(** An absolute name under which a directory exists (the root always
    does) is replaced by a numbered name in the receive directory. *)
Example absolute_directory_names :
  let disk :=
    {| files := ∅;
       dirs := {[ ["recv"%string]; ["/"; "etc"]%string ]};
       io_faults := [] |} in
  let c := Conn_init idle_socket disk in
  _unique_path recv_listener (JStr "/") c = (Ok ["recv"; "_1"]%string, c) /\
  _unique_path recv_listener (JStr "/etc") c
    = (Ok ["recv"; "etc_1"]%string, c) /\
  _unique_path recv_listener (JStr "/etc/passwd") c
    = (Ok ["/"; "etc"; "passwd"]%string, c).
Proof. vm_compute. repeat split; reflexivity. Qed.

(** Chunk 7 comes first on a connection that announced one chunk. *)
Lemma chunk_appended_whatever_index_witness :
  exists c',
    handle_frame (rt := MiniJson.runtime) None recv_listener open_transfer
      = (Ok true, c') /\
    files (fs c') =
      <[ ["recv"; "a.txt"]%string := [] ++ [x61; x62] ]>
        (files (fs open_transfer)) /\
    chunks_received (file_info c') =
      chunks_received (file_info open_transfer) + 1 /\
    chunk_count (file_info c') = chunk_count (file_info open_transfer) /\
    file_handle c' = Some ["recv"; "a.txt"]%string /\
    sock_in (conn c') = [] /\
    sock_out (conn c') =
      sock_out (conn open_transfer)
        ++ [ack_frame (rt := MiniJson.runtime)
              ("Chunk " +:+ pretty 7 +:+ " OK")].
Proof.
  apply (chunk_appended_whatever_index (rt := MiniJson.runtime) None
           recv_listener 7 [x61; x62] [] ["recv"; "a.txt"]%string []
           open_transfer).
  - lia.
  - vm_compute. discriminate.
  - reflexivity.
  - vm_compute. reflexivity.
  - vm_compute. reflexivity.
  - exact I.
  - exact I.
  - vm_compute. discriminate.
  - vm_compute. reflexivity.
Defined.

(** [a.txt] in two chunks. *)
Lemma transfer_saved_witness :
  exists c',
    _handle_connection (rt := MiniJson.runtime) None recv_listener 4
      (Conn_init (socket_reading transfer_frames) empty_disk) = (Ok tt, c') /\
    files (fs c') =
      <[ ["recv"; "a.txt"]%string := [x61; x62] ]> (files empty_disk) /\
    file_info c' =
      {| filename := JStr "a.txt"; file_size := JInt 2;
         mime_type := JStr "text/plain";
         chunk_count := JInt 2; chunk_size := JInt 65536;
         chunks_received := 0 + 2;
         save_path := ["recv"; "a.txt"]%string |} /\
    received_calls c' = [] ++ [(["recv"; "a.txt"]%string, JStr "text/plain")] /\
    length (progress_calls c') = (0 + 2)%nat /\
    sock_out (conn c') =
      [] ++ [ack_frame (rt := MiniJson.runtime) "Metadata accepted"]
        ++ [ack_frame (rt := MiniJson.runtime) ("Chunk " +:+ pretty 0 +:+ " OK");
            ack_frame (rt := MiniJson.runtime) ("Chunk " +:+ pretty 1 +:+ " OK")]
        ++ [ack_frame (rt := MiniJson.runtime) "File saved"] /\
    sock_in (conn c') = [] /\
    sock_closed (conn c') = true /\
    file_handle c' = None.
Proof.
  apply (transfer_saved (rt := MiniJson.runtime) None recv_listener
           "a.txt" 2 "text/plain" 2 65536 [(0, [x61]); (1, [x62])]
           example_done.2 [] ["recv"; "a.txt"]%string
           (Conn_init (socket_reading transfer_frames) empty_disk) 4).
  - vm_compute. reflexivity.
  - vm_compute. discriminate.
  - vm_compute. discriminate.
  - repeat constructor; try (vm_compute; discriminate); lia.
  - vm_compute. discriminate.
  - vm_compute. discriminate.
  - reflexivity.
  - vm_compute. reflexivity.
  - reflexivity.
  - reflexivity.
  - unfold socket_reading, transfer_frames. cbn [sock_in conn Conn_init].
    now rewrite app_nil_r.
  - simpl. lia.
Defined.

(** The frames of a whole transfer, then the peer closes. *)
Lemma handler_always_hangs_up_witness :
  exists r c',
    _handle_connection (rt := MiniJson.runtime) None recv_listener 2000
      (Conn_init (socket_reading honest_frames) empty_disk) = (r, c') /\
    file_handle c' = None /\
    ((r = Ok tt /\ sock_closed (conn c') = true) \/
     (exists e, r = Raise e /\
        sock_closed (conn c') =
          sock_closed
            (conn (Conn_init (socket_reading honest_frames) empty_disk)))) /\
    (io_faults (fs (Conn_init (socket_reading honest_frames) empty_disk)) = []
     -> r = Ok tt).
Proof.
  apply (handler_always_hangs_up (rt := MiniJson.runtime) None recv_listener
           recv_dir_parsed mini_loads_ends
           ltac:(intros lib key nonce data H; discriminate H)
           (Conn_init (socket_reading honest_frames) empty_disk) 2000).
  apply Nat.ltb_lt. vm_compute. reflexivity.
Defined.

Lemma wait_for_ack_sound_witness :
  exists hdr h p d,
    sock_in (Transmitter.sock acked_world) = map Rx (hdr ++ p) ++ [] /\
    len hdr = 256 /\ parse_header hdr = Ok (Some h) /\
    message_type h = MSG_ACK /\ payload_length h = len p /\
    @loads_utf8 MiniJson.runtime p =
      Ok (JDict [("success"%string, JBool true);
                 ("message"%string, JStr "Chunk 0 OK")]) /\
    JDict [("success"%string, JBool true);
           ("message"%string, JStr "Chunk 0 OK")] = JDict d /\
    ack_success d = true /\
    sock_out (Transmitter.sock
                (Transmitter.with_sock (socket_with_in []) acked_world)) =
      sock_out (Transmitter.sock acked_world) /\
    Transmitter.progress_queue
      (Transmitter.with_sock (socket_with_in []) acked_world) =
      Transmitter.progress_queue acked_world.
Proof.
  apply (wait_for_ack_sound (rt := MiniJson.runtime) acked_world
           (JDict [("success"%string, JBool true);
                   ("message"%string, JStr "Chunk 0 OK")])
           (Transmitter.with_sock (socket_with_in []) acked_world)).
  vm_compute. reflexivity.
Defined.

(** The peer closes after its FILE_META frame, and the [close] of the file
    fails: the exception leaves the handler, and the socket stays open. *)
Example close_failure_escapes :
  let disk :=
    {| files := ∅; dirs := {[ ["recv"%string] ]};
       io_faults := [None; Some (Exn OSError "No space left on device")] |} in
  let out :=
    _handle_connection (rt := MiniJson.runtime) None recv_listener 2
      (Conn_init (socket_reading [example_meta 1]) disk) in
  out.1 = Raise (Exn OSError "No space left on device") /\
  sock_closed (conn out.2) = false /\
  file_handle out.2 = None.
Proof. vm_compute. repeat split; reflexivity. Qed.

(** The [close] of the file fails when the DONE frame comes: the loop ends
    without the last reply and without the callback, and the [finally]
    block, which finds the file closed, closes the socket. *)
Example close_failure_at_done :
  let disk :=
    {| files := ∅; dirs := {[ ["recv"%string] ]};
       io_faults :=
         [None; None; Some (Exn OSError "No space left on device")] |} in
  let out :=
    _handle_connection (rt := MiniJson.runtime) None recv_listener 4
      (Conn_init
         (socket_reading [example_meta 1; example_chunk 0 "a"; example_done])
         disk) in
  out.1 = Ok tt /\
  sock_closed (conn out.2) = true /\
  length (sock_out (conn out.2)) = 2%nat /\
  received_calls out.2 = [].
Proof. vm_compute. repeat split; reflexivity. Qed.

(** The digest in the header is that of another payload. *)
Lemma ack_digest_not_checked_witness :
  Transmitter._wait_for_ack (rt := MiniJson.runtime) mismatched_world =
  (Ok (JDict [("success"%string, JBool true);
              ("message"%string, JStr "Chunk 9 OK")]),
   Transmitter.with_sock (socket_with_in []) mismatched_world).
Proof.
  apply (ack_digest_not_checked (rt := MiniJson.runtime)
           (take 256 (wire example_ack))
           {| message_type := 4; payload_length := 42;
              payload_hash := SHA256.digest example_ack.2; version := 2 |}
           (@build_ack_payload MiniJson.runtime true "Chunk 9 OK")
           [("success"%string, JBool true);
            ("message"%string, JStr "Chunk 9 OK")]
           [] mismatched_world).
  - vm_compute. reflexivity.
  - vm_compute. reflexivity.
  - reflexivity.
  - vm_compute. reflexivity.
  - vm_compute. reflexivity.
  - vm_compute. reflexivity.
  - vm_compute. reflexivity.
  - reflexivity.
Defined.

(** Scenario S1 once more: one report for the chunk, then completion. *)
Lemma worker_reports_outcome_witness :
  exists reports last,
    Transmitter.progress_queue
      (Transmitter._transfer_worker (rt := MiniJson.runtime) None
         default_transmitter ["send"; "hello.txt"]%string hello_world) =
      Transmitter.progress_queue hello_world ++ reports ++ [last] /\
    Forall progress_report reports /\
    (last = error_report "Cancelled by user" \/
     (exists e w',
        Transmitter.transfer_body (rt := MiniJson.runtime) None
          default_transmitter ["send"; "hello.txt"]%string hello_world =
          (Raise e, w') /\
        last = error_report (exn_str e)) \/
     exists total size,
       last = {| Transmitter.chunks_sent := total;
                 Transmitter.total_chunks := total;
                 Transmitter.bytes_sent := size;
                 Transmitter.total_bytes := size;
                 Transmitter.done := true;
                 Transmitter.error := EmptyString |}).
Proof.
  apply (worker_reports_outcome (rt := MiniJson.runtime) None
           default_transmitter mini_loads_ends
           ltac:(intros lib key nonce data H; discriminate H)
           ["send"; "hello.txt"]%string hello_world).
Defined.

(** ** The cryptographic session: keys and round trips *)

Section SessionPairs.
Variable lib : CryptoBackend.

(** What is assumed of the backend: [AESGCM.decrypt] undoes
    [AESGCM.encrypt] under the same key and nonce, and the X25519 exchange
    followed by HKDF gives both sides the same key. *)
Hypothesis aead_correct :
  forall key nonce plaintext ciphertext,
    AESGCM_encrypt lib key nonce plaintext = Ok ciphertext ->
    AESGCM_decrypt lib key nonce ciphertext = Ok plaintext.
Hypothesis key_agreement :
  forall entropy_a entropy_b,
    X25519_HKDF lib (X25519_generate lib entropy_a).1
                    (X25519_generate lib entropy_b).2 =
    X25519_HKDF lib (X25519_generate lib entropy_b).1
                    (X25519_generate lib entropy_a).2.

Lemma chunk_roundtrip key nonce data ct :
  length nonce = NONCE_SIZE ->
  encrypt_chunk (Some lib) key nonce data = Ok ct ->
  decrypt_chunk (Some lib) key ct = Ok data /\ take NONCE_SIZE ct = nonce.
Proof.
  intros Hn H. unfold encrypt_chunk in H. unfold decrypt_chunk.
  destruct (AESGCM_encrypt lib key nonce data) as [c| |] eqn:E;
    try discriminate H.
  cbn [rbind] in H. injection H as <-.
  rewrite take_app_length' by (symmetry; exact Hn).
  rewrite drop_app_length' by (symmetry; exact Hn).
  split; [now apply aead_correct|reflexivity].
Qed.

(** Two sessions built with the same enable flag, each completing the
    handshake with the public key of the other, understand each other:
    what one encrypts (with a nonce of [NONCE_SIZE] bytes, as [os.urandom]
    gives) the other decrypts to the same data.  With the flag on, the
    encrypted chunk starts with the nonce. *)
Theorem paired_sessions_roundtrip (flag : bool)
    (entropy_a entropy_b nonce data ct : bytes)
    (a b a' b' : EncryptionContext) :
  EncryptionContext_init (Some lib) entropy_a flag = Ok a ->
  EncryptionContext_init (Some lib) entropy_b flag = Ok b ->
  complete_handshake (Some lib) a (public_key_bytes b) = Ok a' ->
  complete_handshake (Some lib) b (public_key_bytes a) = Ok b' ->
  length nonce = NONCE_SIZE ->
  encrypt (Some lib) a' nonce data = Ok ct ->
  decrypt (Some lib) b' ct = Ok data /\
  (if flag then take NONCE_SIZE ct = nonce else ct = data).
Proof.
  intros Ha Hb Ha' Hb' Hn Hct.
  unfold EncryptionContext_init, CRYPTO_AVAILABLE, generate_keypair in Ha, Hb.
  rewrite andb_true_r in Ha, Hb. cbn [enabled] in Ha, Hb.
  destruct flag.
  - cbn [rbind] in Ha, Hb. injection Ha as <-. injection Hb as <-.
    unfold complete_handshake, derive_shared_key, public_key_bytes in Ha', Hb'.
    cbn [enabled negb _private_bytes _public_bytes fst snd] in Ha', Hb'.
    rewrite (key_agreement entropy_b entropy_a) in Hb'.
    destruct (X25519_HKDF lib (X25519_generate lib entropy_a).1
                (X25519_generate lib entropy_b).2) as [k| |];
      try discriminate Ha'.
    cbn [rbind] in Ha', Hb'. injection Ha' as <-. injection Hb' as <-.
    unfold encrypt in Hct. unfold decrypt. cbn [enabled negb _aes_key] in *.
    exact (chunk_roundtrip k nonce data ct Hn Hct).
  - injection Ha as <-. injection Hb as <-.
    unfold complete_handshake in Ha', Hb'. cbn [enabled negb] in Ha', Hb'.
    injection Ha' as <-. injection Hb' as <-.
    unfold encrypt in Hct. unfold decrypt. cbn [enabled negb] in *.
    injection Hct as <-. split; reflexivity.
Qed.

End SessionPairs.

Section NoKeyExchange.
Import Transmitter.
Context {rt : PyRuntime}.
Variable lib : CryptoBackend.
Variable key_error : exn.

(** What is assumed of the backend: [AESGCM] refuses the empty key. *)
Hypothesis empty_key_refused :
  forall nonce data, AESGCM_encrypt lib [] nonce data = Raise key_error.

(** The transmitter builds its session with [EncryptionContext(enabled=...)]
    and never calls [complete_handshake] on it: with encryption asked for
    and the backend there, the session is enabled with an empty AES key,
    so that every chunk is refused by the cipher before anything is put on
    the wire, and none is reported. *)
Theorem transmitter_encrypts_with_empty_key (entropy : bytes)
    (config : SenderConfig) (self : FileTransmitter) :
  FileTransmitter_init (Some lib) entropy config = Ok self ->
  encryption_enabled config = true ->
  enabled (_encryption self) = true /\
  _aes_key (_encryption self) = [] /\
  forall total file_size idx raw sent w,
  exists w',
    send_chunk (Some lib) self total file_size idx raw sent w
      = (Raise key_error, w') /\
    sock w' = sock w /\ progress_queue w' = progress_queue w.
Proof.
  intros Hinit Hflag. unfold FileTransmitter_init in Hinit.
  rewrite Hflag in Hinit. cbn in Hinit. injection Hinit as <-.
  cbn [_encryption enabled _aes_key]. split; [reflexivity|].
  split; [reflexivity|].
  intros total file_size idx raw sent w.
  unfold send_chunk, encrypt_data, encrypt, encrypt_chunk.
  cbn [_encryption enabled _aes_key negb].
  unfold bind at 1. unfold bind at 1, os_urandom.
  destruct (urandom w) as [|nonce l]; unfold lift;
    rewrite empty_key_refused; cbn [rbind]; eexists;
    (split; [reflexivity|]); split; reflexivity.
Qed.

End NoKeyExchange.

Lemma mirror_aead_correct key nonce plaintext ciphertext :
  AESGCM_encrypt mirror_backend key nonce plaintext = Ok ciphertext ->
  AESGCM_decrypt mirror_backend key nonce ciphertext = Ok plaintext.
Proof.
  cbn. destruct (mirror_key_ok key); [|discriminate].
  intros [= <-]. now rewrite rev_involutive.
Qed.

Lemma mirror_key_agreement entropy_a entropy_b :
  X25519_HKDF mirror_backend (X25519_generate mirror_backend entropy_a).1
    (X25519_generate mirror_backend entropy_b).2 =
  X25519_HKDF mirror_backend (X25519_generate mirror_backend entropy_b).1
    (X25519_generate mirror_backend entropy_a).2.
Proof. cbn. now rewrite Z.add_comm. Qed.

(** Two sessions over the stand-in backend. *)
Lemma paired_sessions_roundtrip_witness :
  decrypt (Some mirror_backend)
    {| enabled := true; _aes_key := replicate 32 x03;
       _private_bytes := [x02]; _public_bytes := [x02] |}
    (replicate 12 x07 ++ [x63; x62; x61]) = Ok [x61; x62; x63] /\
  take NONCE_SIZE (replicate 12 x07 ++ [x63; x62; x61]) = replicate 12 x07.
Proof.
  apply (paired_sessions_roundtrip mirror_backend mirror_aead_correct
           mirror_key_agreement true [x01; x01] [x02] (replicate 12 x07)
           [x61; x62; x63] (replicate 12 x07 ++ [x63; x62; x61])
           {| enabled := true; _aes_key := [];
              _private_bytes := [x01; x01]; _public_bytes := [x01; x01] |}
           {| enabled := true; _aes_key := [];
              _private_bytes := [x02]; _public_bytes := [x02] |}
           {| enabled := true; _aes_key := replicate 32 x03;
              _private_bytes := [x01; x01]; _public_bytes := [x01; x01] |}
           {| enabled := true; _aes_key := replicate 32 x03;
              _private_bytes := [x02]; _public_bytes := [x02] |});
    reflexivity.
Defined.

(** A transmitter asked to encrypt, over the stand-in backend. *)
Lemma transmitter_encrypts_with_empty_key_witness :
  let self :=
    {| Transmitter.config := encrypting_config;
       Transmitter._encryption :=
         {| enabled := true; _aes_key := [];
            _private_bytes := [x01]; _public_bytes := [x01] |} |} in
  enabled (Transmitter._encryption self) = true /\
  _aes_key (Transmitter._encryption self) = [] /\
  forall total file_size idx raw sent w,
  exists w',
    Transmitter.send_chunk (rt := MiniJson.runtime) (Some mirror_backend)
      self total file_size idx raw sent w = (Raise mirror_key_error, w') /\
    Transmitter.sock w' = Transmitter.sock w /\
    Transmitter.progress_queue w' = Transmitter.progress_queue w.
Proof.
  apply (transmitter_encrypts_with_empty_key (rt := MiniJson.runtime)
           mirror_backend mirror_key_error
           ltac:(reflexivity) [x01] encrypting_config);
    reflexivity.
Defined.

(** ** The file browser *)

Section BrowserFacts.
Import Browser.

Lemma py_index_in_range {A} (l : list A) (i : Z) :
  0 <= i < len l -> py_index l i = l !! Z.to_nat i /\ is_Some (l !! Z.to_nat i).
Proof.
  intros [H0 H1]. unfold py_index.
  destruct (Z.ltb_spec i 0); [lia|].
  destruct (Z.leb_spec 0 i); [|lia]. destruct (Z.ltb_spec i (len l)); [|lia].
  split; [reflexivity|]. apply lookup_lt_is_Some. unfold len in H1. lia.
Qed.

Lemma refresh_in_range scan b : 0 <= _current_index b -> in_range (refresh scan b).
Proof.
  intros Hb. unfold in_range, refresh. cbn [_files _current_index].
  destruct (default [] scan) as [|e l] eqn:E; [reflexivity|].
  unfold len. cbn [length]. lia.
Qed.

Lemma in_range_nonneg b : in_range b -> 0 <= _current_index b.
Proof. unfold in_range. destruct (_files b); lia. Qed.

Lemma moved_in_range b d :
  in_range b ->
  in_range (match _files b with
            | [] => b
            | _ => with_index ((_current_index b + d) mod len (_files b)) b
            end).
Proof.
  intros Hb. unfold in_range in *.
  destruct (_files b) as [|e l] eqn:E; [now rewrite E|].
  cbn [with_index _files _current_index]. rewrite E.
  apply Z.mod_pos_bound. unfold len. cbn [length]. lia.
Qed.

Lemma next_file_state b :
  (next_file b).2 =
  match _files b with
  | [] => b
  | _ => with_index ((_current_index b + 1) mod len (_files b)) b
  end.
Proof. unfold next_file. now destruct (_files b). Qed.

Lemma previous_file_state b :
  (previous_file b).2 =
  match _files b with
  | [] => b
  | _ => with_index ((_current_index b + -1) mod len (_files b)) b
  end.
Proof. unfold previous_file. now destruct (_files b). Qed.

Lemma moved_nonempty b (c : FileBrowser) :
  _files b <> [] ->
  match _files b with [] => b | _ => c end = c.
Proof. now destruct (_files b). Qed.

Lemma reachable_in_range b : reachable b -> in_range b.
Proof.
  induction 1 as [scan|scan b _ IH|b _ IH|b _ IH].
  - apply refresh_in_range. cbn. lia.
  - apply refresh_in_range, in_range_nonneg, IH.
  - rewrite next_file_state. now apply moved_in_range.
  - rewrite previous_file_state. now apply moved_in_range.
Qed.

Lemma current_file_in_range b :
  in_range b -> current_file b = Some (_files b !! Z.to_nat (_current_index b)).
Proof.
  unfold in_range, current_file. destruct (_files b) as [|e l] eqn:E.
  - intros ->. reflexivity.
  - intros H. destruct (py_index_in_range (e :: l) _ H) as [-> [x ->]].
    reflexivity.
Qed.

(** In every browser that the constructor, [refresh], [next_file] and
    [previous_file] can produce, the index points into the list of files (or
    is 0 when there is none): [current_file] never raises [IndexError], it
    returns [None] exactly when there is no file, and the file under the
    index otherwise; [next_file] and [previous_file] return the file they
    moved to. *)
Theorem browser_index_in_range (b : FileBrowser) :
  reachable b ->
  in_range b /\
  current_file b = Some (_files b !! Z.to_nat (_current_index b)) /\
  (current_file b = Some None <-> _files b = []) /\
  (next_file b).1 = current_file (next_file b).2 /\
  (previous_file b).1 = current_file (previous_file b).2.
Proof.
  intros Hr. pose proof (reachable_in_range b Hr) as Hb.
  split; [exact Hb|]. split; [now apply current_file_in_range|].
  split; [|split].
  - rewrite (current_file_in_range b Hb). unfold in_range in Hb.
    destruct (_files b) as [|e l] eqn:E; [now split|].
    split; [|discriminate]. intros [= H].
    apply lookup_ge_None in H. unfold len in Hb. cbn [length] in *. lia.
  - unfold next_file. destruct (_files b) eqn:E; [|reflexivity].
    cbn. unfold current_file. now rewrite E.
  - unfold previous_file. destruct (_files b) eqn:E; [|reflexivity].
    cbn. unfold current_file. now rewrite E.
Qed.

Lemma with_index_same b : with_index (_current_index b) b = b.
Proof. now destruct b. Qed.

Lemma next_iter_index (k : nat) b :
  _files b <> [] ->
  Nat.iter k (fun x => (next_file x).2) b =
  with_index (if k is O then _current_index b
              else (_current_index b + Z.of_nat k) mod len (_files b)) b.
Proof.
  intros Hne. induction k as [|k IH]; [symmetry; apply with_index_same|].
  rewrite Nat.iter_succ, IH, next_file_state.
  cbn [with_index _files _current_index].
  destruct (_files b) as [|e l] eqn:E; [contradiction|].
  unfold with_index. cbn [_files]. f_equal.
  destruct k as [|k].
  - now replace (Z.of_nat 1) with 1 by reflexivity.
  - rewrite Zplus_mod_idemp_l. f_equal. lia.
Qed.

(** The list is a ring for the two moves: [previous_file] undoes
    [next_file] and the other way round, and as many calls of [next_file]
    as there are files bring the browser back to where it was. *)
Theorem browser_moves_wrap_around (b : FileBrowser) :
  in_range b ->
  (previous_file (next_file b).2).2 = b /\
  (next_file (previous_file b).2).2 = b /\
  Nat.iter (length (_files b)) (fun x => (next_file x).2) b = b.
Proof.
  intros Hb.
  assert (Hcase : _files b = [] \/ _files b <> []).
  { destruct (_files b); [now left | now right]. }
  destruct Hcase as [E|Hne].
  { unfold next_file, previous_file. rewrite E. cbn. rewrite E. auto. }
  assert (Hi : 0 <= _current_index b < len (_files b)).
  { unfold in_range in Hb. destruct (_files b); [contradiction | exact Hb]. }
  assert (Hmove : forall d1 d2,
            d1 + d2 = 0 ->
            with_index
              (((_current_index b + d1) mod len (_files b) + d2)
                 mod len (_files b))
              (with_index ((_current_index b + d1) mod len (_files b)) b) = b).
  { intros d1 d2 Hd. unfold with_index. cbn [_files].
    rewrite Zplus_mod_idemp_l.
    replace (_current_index b + d1 + d2) with (_current_index b) by lia.
    rewrite Z.mod_small by exact Hi. now destruct b. }
  split; [|split].
  - rewrite previous_file_state, next_file_state.
    rewrite !(moved_nonempty b) by exact Hne.
    rewrite moved_nonempty by exact Hne.
    cbn [with_index _files _current_index]. now apply (Hmove 1 (-1)).
  - rewrite next_file_state, previous_file_state.
    rewrite !(moved_nonempty b) by exact Hne.
    rewrite moved_nonempty by exact Hne.
    cbn [with_index _files _current_index]. now apply (Hmove (-1) 1).
  - rewrite next_iter_index by exact Hne.
    destruct (length (_files b)) as [|n] eqn:En.
    { destruct (_files b); [contradiction | discriminate]. }
    replace (Z.of_nat (S n)) with (len (_files b)) by (unfold len; now rewrite En).
    rewrite Z.add_mod, Z_mod_same_full, Z.add_0_r, Z.mod_mod by lia.
    rewrite Z.mod_small by exact Hi. apply with_index_same.
Qed.

Lemma py_index_mod {A} (l : list A) (z : Z) :
  l <> [] ->
  py_index l (z mod len l) = l !! Z.to_nat (z mod len l) /\
  is_Some (l !! Z.to_nat (z mod len l)).
Proof.
  intros Hne. apply py_index_in_range, Z.mod_pos_bound.
  destruct l; [contradiction|]. unfold len. cbn [length]. lia.
Qed.

Lemma mapM_lookups {A B} (f : A -> option B) (g : A -> option B) (xs : list A) :
  (forall x, x ∈ xs -> f x = g x /\ is_Some (g x)) ->
  exists l, mapM f xs = Some l /\ length l = length xs /\
            forall i x, xs !! i = Some x -> Some <$> l !! i = Some (g x).
Proof.
  induction xs as [|x xs IH]; intros H.
  - exists []. repeat split. intros i x Hx. now rewrite lookup_nil in Hx.
  - destruct (H x) as [Hf [y Hy]]; [left|].
    destruct IH as (l & Hl & Hlen & Hget).
    { intros x' Hx'. apply H. now right. }
    exists (y :: l). cbn [mapM]. rewrite Hf, Hy. cbn. rewrite Hl. cbn.
    repeat split; [now rewrite Hlen|].
    intros [|i] x' Hx'; cbn in *.
    + injection Hx' as <-. now rewrite Hy.
    + now apply Hget.
Qed.

(** [get_visible_window] never raises, whatever the index and the window
    size: it gives min(number of files, window size) entries (none for a
    window size below 1), all the files in order when they fit, and
    otherwise the files at the consecutive positions
    [current - window_size // 2 + i], counted around the ring.  When the
    index is in range and the list is longer than the window, the entry at
    position [window_size // 2] is the current file. *)
Theorem visible_window_spec (b : FileBrowser) (w : Z) :
  exists l,
    get_visible_window b w = Some l /\
    length l = Z.to_nat (Z.min (len (_files b)) w) /\
    (forall i : nat, (i < length l)%nat ->
       l !! i =
       _files b !! (if len (_files b) <=? w then i
                    else Z.to_nat ((_current_index b - w / 2 + Z.of_nat i)
                                     mod len (_files b)))) /\
    (in_range b -> 0 < w < len (_files b) ->
     Some (l !! Z.to_nat (w / 2)) = current_file b).
Proof.
  unfold get_visible_window.
  destruct (_files b) as [|e fs] eqn:E.
  { exists []. change (len (@nil FileEntry)) with 0.
    split; [reflexivity|]. split; [cbn [length]; lia|]. split.
    - intros i Hi. cbn in Hi. lia.
    - intros _ Hw. lia. }
  rewrite <- E.
  assert (Hne : _files b <> []) by (rewrite E; discriminate).
  assert (Hpos : 0 < len (_files b)).
  { rewrite E. unfold len. cbn [length]. lia. }
  destruct (Z.leb_spec (len (_files b)) w) as [Hle|Hgt].
  { exists (_files b). repeat split; [unfold len in *; lia|lia]. }
  set (ixs := map (fun i : nat => (_current_index b - w / 2 + Z.of_nat i)
                                    mod len (_files b))
                  (seq 0 (Z.to_nat w))).
  destruct (mapM_lookups (py_index (_files b))
              (fun z => _files b !! Z.to_nat z) ixs) as (l & Hl & Hlen & Hget).
  { intros z Hz. unfold ixs in Hz. apply list_elem_of_fmap in Hz as (i & -> & _).
    now apply py_index_mod. }
  assert (Hlen' : length l = Z.to_nat w).
  { rewrite Hlen. unfold ixs. now rewrite length_map, length_seq. }
  assert (Hat : forall i : nat, (i < length l)%nat ->
            l !! i = _files b !! Z.to_nat ((_current_index b - w / 2 + Z.of_nat i)
                                            mod len (_files b))).
  { intros i Hi.
    assert (Hix : ixs !! i = Some ((_current_index b - w / 2 + Z.of_nat i)
                                     mod len (_files b))).
    { unfold ixs. rewrite list_lookup_fmap, lookup_seq_lt by lia. reflexivity. }
    specialize (Hget _ _ Hix). cbn in Hget.
    destruct (l !! i); cbn in Hget; [now injection Hget|discriminate]. }
  exists l. split; [exact Hl|]. split; [lia|]. split; [exact Hat|].
  intros Hb Hw. rewrite current_file_in_range by exact Hb. f_equal.
  assert (Hhalf : 0 <= w / 2 < w).
  { split; [apply Z.div_pos; lia | apply Z.div_lt; lia]. }
  rewrite Hat by lia. rewrite Z2Nat.id by lia.
  replace (_current_index b - w / 2 + w / 2) with (_current_index b) by lia.
  rewrite Z.mod_small; [reflexivity|].
  unfold in_range in Hb. destruct (_files b); [contradiction | exact Hb].
Qed.

End BrowserFacts.

Lemma browser_index_in_range_witness :
  Browser.in_range second_of_three /\
  Browser.current_file second_of_three =
    Some (Browser._files second_of_three
            !! Z.to_nat (Browser._current_index second_of_three)) /\
  (Browser.current_file second_of_three = Some None <->
   Browser._files second_of_three = []) /\
  (Browser.next_file second_of_three).1 =
    Browser.current_file (Browser.next_file second_of_three).2 /\
  (Browser.previous_file second_of_three).1 =
    Browser.current_file (Browser.previous_file second_of_three).2.
Proof.
  apply (browser_index_in_range second_of_three).
  apply Browser.reach_next, Browser.reach_init.
Defined.

Lemma browser_moves_wrap_around_witness :
  (Browser.previous_file (Browser.next_file second_of_three).2).2
    = second_of_three /\
  (Browser.next_file (Browser.previous_file second_of_three).2).2
    = second_of_three /\
  Nat.iter (length (Browser._files second_of_three))
    (fun x => (Browser.next_file x).2) second_of_three = second_of_three.
Proof.
  apply (browser_moves_wrap_around second_of_three).
  vm_compute. split; [discriminate | reflexivity].
Defined.

(** On [three_files] the second file is current after one move, and a
    window of two shows the first and the second file. *)
Example second_of_three_window :
  Browser.name <$> default None (Browser.current_file second_of_three)
    = Some "b.txt"%string /\
  fmap (M := list) Browser.name
    <$> Browser.get_visible_window second_of_three 2
    = Some ["a.txt"; "b.txt"]%string.
Proof. split; reflexivity. Qed.

(** ** The transmitter when nothing disturbs the transfer *)

Lemma file_chunks_bounded n csize : forall f,
  0 < csize ->
  Forall (fun data => 0 < len data <= csize) (file_chunks n csize f).
Proof.
  induction n as [|n IH]; intros f Hc; [constructor|].
  cbn [file_chunks]. unfold Transmitter.file_read.
  destruct (Z.ltb_spec csize 0); [lia|].
  destruct (take (Z.to_nat csize) f) as [|b raw] eqn:E; [constructor|].
  constructor; [|now apply IH].
  rewrite <- E. unfold len. rewrite length_take. split; [|lia].
  assert (length (take (Z.to_nat csize) f) <> 0%nat) by now rewrite E.
  rewrite length_take in *. lia.
Qed.

Lemma file_chunks_concat n csize : forall f,
  0 < csize ->
  concat (file_chunks n csize f) = take (n * Z.to_nat csize) f.
Proof.
  induction n as [|n IH]; intros f Hc; [now rewrite take_0|].
  cbn [file_chunks]. unfold Transmitter.file_read.
  destruct (Z.ltb_spec csize 0); [lia|].
  destruct (take (Z.to_nat csize) f) as [|b raw] eqn:E.
  - destruct f as [|x f]; [now rewrite take_nil|].
    destruct (Z.to_nat csize) eqn:En; [lia|discriminate].
  - cbn [concat]. rewrite IH by exact Hc. rewrite <- E.
    rewrite take_take_drop. f_equal.
Qed.

Lemma numbered_data idx cs : map snd (numbered idx cs) = cs.
Proof.
  revert idx. induction cs as [|d cs IH]; intros idx; [reflexivity|].
  cbn. now rewrite IH.
Qed.

Lemma numbered_length idx cs : length (numbered idx cs) = length cs.
Proof.
  revert idx. induction cs as [|d cs IH]; intros idx; [reflexivity|].
  cbn. now rewrite IH.
Qed.

Lemma numbered_bounds idx cs :
  Forall (fun ix : Z * bytes => idx <= ix.1 < idx + len cs) (numbered idx cs).
Proof.
  revert idx. induction cs as [|d cs IH]; intros idx; [constructor|].
  cbn [numbered]. constructor.
  - cbn. unfold len. cbn [length]. lia.
  - eapply Forall_impl; [apply IH|]. intros ix. cbn beta.
    unfold len. cbn [length]. lia.
Qed.

Lemma bind_assoc {St A B C} (m : M St A) (f : A -> M St B) (g : B -> M St C)
    (s : St) :
  bind (bind m f) g s = bind m (fun a => bind (f a) g) s.
Proof.
  unfold bind. destruct (m s) as [[a|e|] s1]; reflexivity.
Qed.

Section SenderRun.
Import Transmitter.
Context {rt : PyRuntime}.
Variable cryptography : option CryptoBackend.
Variable self : FileTransmitter.

Hypothesis session_off : enabled (_encryption self) = false.

Lemma advanced_refl w : clean w -> advanced [] (sock_in (sock w)) [] w w.
Proof.
  intros Hw. unfold advanced. rewrite !app_nil_r. auto 10.
Qed.

Lemma advanced_trans f1 f2 r1 r2 p1 p2 w w1 w2 :
  advanced f1 r1 p1 w w1 -> advanced f2 r2 p2 w1 w2 ->
  advanced (f1 ++ f2) r2 (p1 ++ p2) w w2.
Proof.
  intros (_ & S1 & M1 & C1 & L1 & O1 & _ & Q1)
         (Hc & S2 & M2 & C2 & L2 & O2 & I2 & Q2).
  unfold advanced. rewrite !app_assoc, <- O1, <- Q1.
  repeat split; try congruence; apply Hc.
Qed.

Lemma advanced_put p w :
  clean w -> advanced [] (sock_in (sock w)) [p] w (queue_put p w).
Proof.
  intros Hw. unfold advanced, clean, queue_put in *. cbn.
  rewrite app_nil_r. auto 10.
Qed.

Lemma file_op_clean {A} (value : World -> A) w :
  clean w -> file_op value w = (Ok (value w), w).
Proof. intros (Hf & _). unfold file_op. now rewrite Hf. Qed.

Lemma cancel_clean w :
  clean w ->
  exists w1, cancel_is_set w = (Ok false, w1) /\
             advanced [] (sock_in (sock w)) [] w w1.
Proof.
  intros Hw. pose proof Hw as (Hf & Hc & Hp & Hs). unfold cancel_is_set.
  destruct (cancel_polls w) as [|b l] eqn:E.
  - exists w. split; [reflexivity|now apply advanced_refl].
  - inversion Hp as [|? ? -> Hl]; subst.
    eexists. split; [reflexivity|].
    unfold advanced, clean, with_cancel_polls. cbn.
    rewrite !app_nil_r. auto 10.
Qed.

Lemma connect_clean w :
  clean w ->
  connect w = (Ok tt, with_sock_created w) /\ clean (with_sock_created w).
Proof.
  intros (Hf & Hc & Hp & Hs). unfold connect. rewrite Hc.
  split; [reflexivity|]. unfold clean, with_sock_created. cbn. auto.
Qed.

(** One frame written and its positive reply read. *)
Lemma exchange t payload p rest w :
  clean w ->
  well_formed (t, payload) ->
  accepted_ack p ->
  sock_in (sock w) = map Rx (wire (MSG_ACK, p)) ++ rest ->
  exists a w',
    (_send_message t payload ;;; _wait_for_ack) w = (Ok a, w') /\
    advanced [wire (t, payload)] rest [] w w'.
Proof.
  intros Hw Hwf (Hp & d & Hd & Hs) Hin.
  pose proof Hw as (Hf & Hc & Hpolls & Hsend).
  exists (JDict d), (answered (wire (t, payload)) rest w).
  split.
  - rewrite (attempt_answered t payload p d rest w Hwf Hp Hd Hsend Hin).
    now rewrite Hs.
  - unfold advanced, clean, answered, with_sock. cbn.
    rewrite app_nil_r. auto 10.
Qed.

Lemma exchange_then {B} t payload p rest (k : json -> M World B) w :
  clean w ->
  well_formed (t, payload) ->
  accepted_ack p ->
  sock_in (sock w) = map Rx (wire (MSG_ACK, p)) ++ rest ->
  exists a w',
    advanced [wire (t, payload)] rest [] w w' /\
    bind (_send_message t payload) (fun _ => bind _wait_for_ack k) w = k a w'.
Proof.
  intros Hw Hwf Hp Hin.
  destruct (exchange t payload p rest w Hw Hwf Hp Hin) as (a & w' & E & Adv).
  exists a, w'. split; [exact Adv|].
  rewrite <- (bind_assoc (_send_message t payload) (fun _ => _wait_for_ack) k).
  unfold bind at 1. now rewrite E.
Qed.

Lemma send_with_retry_first t payload a w w' :
  (_send_message t payload ;;; _wait_for_ack) w = (Ok a, w') ->
  _send_with_retry t payload w = (Ok tt, w').
Proof.
  intros E. unfold _send_with_retry, MAX_RETRIES. cbn [retry_loop].
  now rewrite E.
Qed.

Lemma build_chunk_payload_frame idx data :
  0 <= idx <= 4294967295 ->
  build_chunk_payload idx data = Ok (chunk_frame idx data).2 /\
  len (chunk_frame idx data).2 = 4 + len data /\
  (chunk_frame idx data).1 = MSG_CHUNK.
Proof.
  intros Hi. destruct (chunk_frame_payload idx data Hi) as (bs & Hb & Hl & Hc & _).
  rewrite Hc. cbn [fst snd]. unfold build_chunk_payload. rewrite Hb.
  cbn [rbind]. split; [reflexivity|]. split; [|reflexivity].
  rewrite len_app. unfold len. rewrite Hl. lia.
Qed.

(** One chunk that is acknowledged at once. *)
Lemma send_chunk_run total file_size idx raw sent p rest w :
  clean w ->
  0 <= idx <= 4294967295 ->
  len raw + 4 <= 4294967295 ->
  accepted_ack p ->
  sock_in (sock w) = map Rx (wire (MSG_ACK, p)) ++ rest ->
  exists w',
    send_chunk cryptography self total file_size idx raw sent w
      = (Ok (sent + len raw), w') /\
    advanced [wire (chunk_frame idx raw)] rest
      (chunk_reports total file_size idx sent [raw]) w w'.
Proof.
  intros Hw Hi Hfit Hp Hin.
  destruct (build_chunk_payload_frame idx raw Hi) as (Hb & Hl & Ht).
  assert (Hwf : well_formed (MSG_CHUNK, (chunk_frame idx raw).2)).
  { split; [cbn; unfold MSG_CHUNK; lia|]. cbn [snd fst]. lia. }
  destruct (exchange MSG_CHUNK _ p rest w Hw Hwf Hp Hin) as (a & w1 & E & Adv).
  exists (queue_put
            {| chunks_sent := idx + 1; total_chunks := total;
               bytes_sent := sent + len raw; total_bytes := file_size;
               done := false; error := EmptyString |} w1).
  split.
  - unfold send_chunk, encrypt_data. rewrite session_off. cbn [negb].
    unfold bind at 1, ret. unfold bind at 1, lift. rewrite Hb.
    unfold bind at 1. rewrite (send_with_retry_first _ _ _ _ _ E).
    unfold bind, modify, ret. reflexivity.
  - replace (wire (chunk_frame idx raw))
      with (wire (MSG_CHUNK, (chunk_frame idx raw).2))
      by (destruct (chunk_frame idx raw) as [t q]; cbn in *; now subst t).
    replace [wire (MSG_CHUNK, (chunk_frame idx raw).2)]
      with ([wire (MSG_CHUNK, (chunk_frame idx raw).2)] ++ []) by apply app_nil_r.
    replace (chunk_reports total file_size idx sent [raw])
      with ([] ++ chunk_reports total file_size idx sent [raw]) by reflexivity.
    eapply advanced_trans; [exact Adv|].
    destruct Adv as (Hc1 & _ & _ & _ & _ & _ & I1 & _).
    rewrite <- I1. apply advanced_put. exact Hc1.
Qed.

Lemma acks_in_cons p replies rest :
  acks_in (p :: replies) ++ rest =
  map Rx (wire (MSG_ACK, p)) ++ (acks_in replies ++ rest).
Proof. unfold acks_in. cbn [map]. apply stream_cons. Qed.

(** The loop over the chunks, each acknowledged at once. *)
Lemma chunk_loop_run total file_size csize n :
  forall idx f sent replies rest w,
  clean w ->
  0 <= idx ->
  idx + len (file_chunks n csize f) <= 4294967296 ->
  Forall (fun data => len data + 4 <= 4294967295) (file_chunks n csize f) ->
  length replies = length (file_chunks n csize f) ->
  Forall accepted_ack replies ->
  sock_in (sock w) = acks_in replies ++ rest ->
  exists w',
    chunk_loop cryptography self n total file_size csize idx f sent w
      = (Ok true, w') /\
    advanced
      (map (fun ix : Z * bytes => wire (chunk_frame ix.1 ix.2))
         (numbered idx (file_chunks n csize f)))
      rest
      (chunk_reports total file_size idx sent (file_chunks n csize f))
      w w'.
Proof.
  induction n as [|n IH]; intros idx f sent replies rest w Hw Hi Hmax Hfit
    Hlen Hacks Hin.
  { cbn in *. destruct replies; [|discriminate]. exists w.
    split; [reflexivity|]. unfold acks_in, stream in Hin. cbn in Hin.
    rewrite <- Hin. now apply advanced_refl. }
  cbn [file_chunks chunk_loop] in *.
  destruct (cancel_clean w Hw) as (w1 & Ecancel & Adv1).
  unfold bind at 1. rewrite Ecancel. cbv iota beta.
  pose proof Adv1 as (Hw1 & _ & _ & _ & _ & _ & Hin1 & _).
  unfold bind at 1. rewrite (file_op_clean _ w1 Hw1).
  destruct (file_read csize f) as [raw tail_] eqn:Eread.
  destruct raw as [|b raw].
  { destruct replies; [|discriminate]. exists w1. split; [reflexivity|].
    unfold acks_in, stream in Hin. cbn in Hin. rewrite <- Hin.
    exact Adv1. }
  destruct replies as [|p replies]; [discriminate|].
  cbn [length] in Hlen. injection Hlen as Hlen.
  inversion Hacks as [|? ? Hp Hacks']; subst.
  inversion Hfit as [|? ? Hfit1 Hfit']; subst.
  rewrite acks_in_cons in Hin. rewrite <- Hin1 in Hin.
  assert (Hlen1 : len ((b :: raw) :: file_chunks n csize tail_)
                  = 1 + len (file_chunks n csize tail_)).
  { unfold len. cbn [length]. lia. }
  rewrite Hlen1 in Hmax.
  pose proof (len_nonneg (file_chunks n csize tail_)) as Hnn.
  destruct (send_chunk_run total file_size idx (b :: raw) sent p
              (acks_in replies ++ rest) w1 Hw1 ltac:(lia) Hfit1 Hp Hin)
    as (w2 & Esend & Adv2).
  pose proof Adv2 as (Hw2 & _ & _ & _ & _ & _ & Hin2 & _).
  destruct (IH (idx + 1) tail_ (sent + len (b :: raw)) replies rest w2 Hw2
              ltac:(lia) ltac:(lia) Hfit' Hlen Hacks' Hin2)
    as (w3 & Eloop & Adv3).
  exists w3. split.
  - unfold bind at 1. rewrite Esend. exact Eloop.
  - cbn [numbered map chunk_reports fst snd].
    change (wire (chunk_frame idx (b :: raw)) :: ?l)
      with ([] ++ [wire (chunk_frame idx (b :: raw))] ++ l).
    match goal with
    | |- advanced _ _ (?r :: ?l) _ _ =>
        change (r :: l) with ([] ++ [r] ++ l)
    end.
    eapply advanced_trans; [exact Adv1|].
    eapply advanced_trans; [exact Adv2|exact Adv3].
Qed.

Lemma acks_in_app l k rest :
  acks_in (l ++ k) ++ rest = acks_in l ++ (acks_in k ++ rest).
Proof. unfold acks_in. rewrite map_app. apply stream_app. Qed.

Lemma acks_in_one p rest :
  acks_in [p] ++ rest = map Rx (wire (MSG_ACK, p)) ++ rest.
Proof. unfold acks_in, stream. cbn. now rewrite app_nil_r. Qed.

(** The body of the worker, every frame acknowledged at once. *)
Lemma transfer_body_run (filepath : Path) (total : Z)
    (p_hello p_meta p_done : bytes) (replies : list bytes)
    (rest : list recv_item) (w : World) :
  let file_size := len (source w) in
  let csize := choose_chunk_size (chunk_size (config self)) file_size in
  let cs := file_chunks (Z.to_nat total) csize (source w) in
  clean w ->
  compute_total_chunks file_size csize = Ok total ->
  len cs <= 4294967296 ->
  Forall (fun data => len data + 4 <= 4294967295) cs ->
  Forall well_formed
    [(MSG_HANDSHAKE,
      build_handshake_payload "sender" (encryption_enabled (config self)));
     (MSG_FILE_META,
      build_file_meta_payload (Pathlib.name filepath) file_size
        (default "application/octet-stream"%string (mime_guess w))
        total csize);
     (MSG_DONE, build_done_payload)] ->
  length replies = length cs ->
  Forall accepted_ack (p_hello :: p_meta :: replies ++ [p_done]) ->
  sock_in (sock w) = acks_in (p_hello :: p_meta :: replies ++ [p_done]) ++ rest ->
  exists w',
    transfer_body cryptography self filepath w = (Ok tt, w') /\
    advanced (map wire (sender_frames self filepath w total)) rest
      (chunk_reports total file_size 0 0 cs
         ++ [completion_report total file_size])
      (with_sock_created w) w'.
Proof.
  intros file_size csize cs Hw Htotal Hcount Hfit Hwf Hlen Hacks Hin.
  inversion Hwf as [|? ? Hwf1 Hwf']; subst.
  inversion Hwf' as [|? ? Hwf2 Hwf'']; subst.
  inversion Hwf'' as [|? ? Hwf3 _]; subst. clear Hwf Hwf' Hwf''.
  inversion Hacks as [|? ? Ha1 Hacks']; subst.
  inversion Hacks' as [|? ? Ha2 Hacks'']; subst. clear Hacks Hacks'.
  apply Forall_app in Hacks'' as [Hacks Ha3].
  inversion Ha3 as [|? ? Ha3' _]; subst. clear Ha3.
  rewrite !acks_in_cons, acks_in_app, acks_in_one in Hin.
  unfold transfer_body.
  unfold bind at 1, stat_size. rewrite (file_op_clean _ w Hw).
  fold file_size. fold csize.
  unfold bind at 1, lift. rewrite Htotal.
  destruct (connect_clean w Hw) as [Econn Hw1].
  unfold bind at 1. rewrite Econn.
  set (w1 := with_sock_created w) in *.
  assert (Hin1 : sock_in (sock w1) = sock_in (sock w)) by reflexivity.
  rewrite <- Hin1 in Hin.
  (* handshake *)
  match goal with
  | |- context [bind (_send_message ?t ?pl) (fun _ => bind _wait_for_ack ?k) w1] =>
      destruct (exchange_then t pl p_hello _ k w1 Hw1 Hwf1 Ha1 Hin)
        as (a1 & w2 & Adv2 & E2)
  end.
  rewrite E2. clear E2.
  pose proof Adv2 as (Hw2 & Hsrc2 & Hmime2 & _ & _ & _ & Hin2 & _).
  unfold bind at 1, gets. rewrite Hmime2.
  change (mime_guess w1) with (mime_guess w).
  (* metadata *)
  match goal with
  | |- context [bind (_send_message ?t ?pl) (fun _ => bind _wait_for_ack ?k) w2] =>
      destruct (exchange_then t pl p_meta _ k w2 Hw2 Hwf2 Ha2 Hin2)
        as (a2 & w3 & Adv3 & E3)
  end.
  rewrite E3. clear E3.
  pose proof Adv3 as (Hw3 & Hsrc3 & _ & _ & _ & _ & Hin3 & _).
  (* the file *)
  unfold bind at 1, open_rb. rewrite (file_op_clean _ w3 Hw3).
  rewrite Hsrc3, Hsrc2. change (source w1) with (source w).
  destruct (chunk_loop_run total file_size csize (Z.to_nat total) 0
              (source w) 0 replies
              (map Rx (wire (MSG_ACK, p_done)) ++ rest) w3 Hw3
              ltac:(lia) ltac:(fold cs; lia) Hfit Hlen Hacks Hin3)
    as (w4 & Eloop & Adv4).
  fold cs in Adv4.
  unfold bind at 1. rewrite Eloop. cbv iota beta.
  pose proof Adv4 as (Hw4 & _ & _ & _ & _ & _ & Hin4 & _).
  (* DONE *)
  match goal with
  | |- context [bind (_send_message ?t ?pl) (fun _ => bind _wait_for_ack ?k) w4] =>
      destruct (exchange_then t pl p_done _ k w4 Hw4 Hwf3 Ha3' Hin4)
        as (a3 & w5 & Adv5 & E5)
  end.
  rewrite E5. clear E5.
  pose proof Adv5 as (Hw5 & _ & _ & _ & _ & _ & Hin5 & _).
  unfold modify. eexists. split; [reflexivity|].
  fold (completion_report total file_size).
  pose proof (advanced_put (completion_report total file_size) w5 Hw5) as Adv6.
  rewrite Hin5 in Adv6.
  pose proof (advanced_trans _ _ _ _ _ _ _ _ _ Adv2
                (advanced_trans _ _ _ _ _ _ _ _ _ Adv3
                   (advanced_trans _ _ _ _ _ _ _ _ _ Adv4
                      (advanced_trans _ _ _ _ _ _ _ _ _ Adv5 Adv6)))) as Adv.
  unfold sender_frames. fold file_size. fold csize. fold cs.
  rewrite !map_app, map_map. cbn [map app] in *.
  exact Adv.
Qed.

Lemma file_chunks_length n csize f : (length (file_chunks n csize f) <= n)%nat.
Proof.
  revert f. induction n as [|n IH]; intros f; [reflexivity|].
  cbn [file_chunks]. destruct (file_read csize f) as [[|b raw] tail_].
  - cbn. lia.
  - cbn [length]. specialize (IH tail_). lia.
Qed.

(** The number of chunks that the worker announces for a file of at most
    2^53 bytes. *)
Lemma total_chunks_value (file_size csize : Z) :
  0 <= file_size <= 2 ^ 53 -> 0 < csize <= 4294967291 ->
  compute_total_chunks file_size csize =
  Ok (if file_size =? 0 then 1 else ceil_div file_size csize).
Proof.
  intros Hs Hc. destruct (Z.eqb_spec file_size 0) as [->|Hne]; [reflexivity|].
  apply compute_total_chunks_exact; [lia|]. split; [lia|].
  apply Z.le_trans with (2 ^ 32); [lia|]. apply Z.pow_le_mono_r; lia.
Qed.

Lemma file_chunks_whole (f : bytes) (csize : Z) :
  0 < csize ->
  let total := if len f =? 0 then 1 else ceil_div (len f) csize in
  concat (file_chunks (Z.to_nat total) csize f) = f.
Proof.
  intros Hc total. rewrite file_chunks_concat by exact Hc.
  apply take_ge. unfold total.
  destruct (Z.eqb_spec (len f) 0) as [E|Hne].
  - unfold len in E. lia.
  - pose proof (ceil_div_bounds (len f) csize Hc) as [_ Hb].
    pose proof (len_nonneg f).
    assert (0 <= ceil_div (len f) csize) by nia.
    unfold len in *. nia.
Qed.

(** The worker on a transfer that nothing disturbs. *)
Lemma worker_run (filepath : Path) (p_hello p_meta p_done : bytes)
    (replies : list bytes) (rest : list recv_item) (w : World) :
  let file_size := len (source w) in
  let csize := choose_chunk_size (chunk_size (config self)) file_size in
  let total := if file_size =? 0 then 1 else ceil_div file_size csize in
  let cs := file_chunks (Z.to_nat total) csize (source w) in
  clean w ->
  0 < csize <= 4294967291 ->
  file_size <= 2 ^ 53 ->
  file_size <= 4294967296 * csize ->
  Forall well_formed
    [(MSG_HANDSHAKE,
      build_handshake_payload "sender" (encryption_enabled (config self)));
     (MSG_FILE_META,
      build_file_meta_payload (Pathlib.name filepath) file_size
        (default "application/octet-stream"%string (mime_guess w))
        total csize);
     (MSG_DONE, build_done_payload)] ->
  length replies = length cs ->
  Forall accepted_ack (p_hello :: p_meta :: replies ++ [p_done]) ->
  sock_in (sock w) = acks_in (p_hello :: p_meta :: replies ++ [p_done]) ++ rest ->
  let w' := _transfer_worker cryptography self filepath w in
  concat cs = source w /\
  Forall (fun data => 0 < len data <= csize) cs /\
  sock_out (sock w') =
    sock_out (sock w) ++ map wire (sender_frames self filepath w total) /\
  sock_in (sock w') = rest /\
  sock_closed (sock w') = true /\
  progress_queue w' =
    progress_queue w
      ++ chunk_reports total file_size 0 0 cs
      ++ [completion_report total file_size].
Proof.
  intros file_size csize total cs Hw Hc Hsize Hidx Hwf Hlen Hacks Hin w'.
  pose proof (len_nonneg (source w)) as Hnn. fold file_size in Hnn.
  assert (Htotal : compute_total_chunks file_size csize = Ok total)
    by (apply total_chunks_value; lia).
  assert (Htot : 0 <= total <= 4294967296).
  { unfold total. destruct (Z.eqb_spec file_size 0); [lia|].
    pose proof (ceil_div_bounds file_size csize ltac:(lia)) as [Hlo Hhi].
    split; nia. }
  pose proof (file_chunks_bounded (Z.to_nat total) csize (source w)
                ltac:(lia)) as Hb.
  fold cs in Hb.
  assert (Hcount : len cs <= 4294967296).
  { pose proof (file_chunks_length (Z.to_nat total) csize (source w)).
    fold cs in H. unfold len. lia. }
  assert (Hfit : Forall (fun data => len data + 4 <= 4294967295) cs).
  { eapply Forall_impl; [exact Hb|]. cbn beta. intros d Hd. lia. }
  destruct (transfer_body_run filepath total p_hello p_meta p_done replies
              rest w Hw Htotal Hcount Hfit Hwf Hlen Hacks Hin)
    as (w1 & Ebody & Adv).
  destruct Adv as (_ & _ & _ & Hcr & Hcl & Hout & Hin' & Hq).
  split; [apply (file_chunks_whole (source w) csize); lia|].
  split; [exact Hb|].
  subst w'. unfold _transfer_worker. rewrite Ebody.
  cbn [sock_created with_sock_created] in Hcr. rewrite Hcr.
  unfold with_sock. cbn [sock progress_queue sock_close sock_out sock_in
                         sock_closed].
  repeat split; assumption.
Qed.

(** When nothing disturbs the transfer (encryption off, no failure of the
    file or the socket, no cancellation, every frame acknowledged at once),
    the worker writes HANDSHAKE, FILE_META, one CHUNK frame per piece of
    [chunk_size] bytes of the file, numbered from 0, and DONE; the pieces
    put together are the file; it reads the replies and nothing more,
    reports every chunk and then the completion, and closes the socket.
    The file has at most 2^53 bytes and at most 2^32 chunks. *)
Theorem undisturbed_transfer_sends_file (filepath : Path)
    (p_hello p_meta p_done : bytes) (replies : list bytes)
    (rest : list recv_item) (w : World) :
  let file_size := len (source w) in
  let csize := choose_chunk_size (chunk_size (config self)) file_size in
  let total := if file_size =? 0 then 1 else ceil_div file_size csize in
  let cs := file_chunks (Z.to_nat total) csize (source w) in
  clean w ->
  0 < csize <= 4294967291 ->
  file_size <= 2 ^ 53 ->
  file_size <= 4294967296 * csize ->
  Forall well_formed
    [(MSG_HANDSHAKE,
      build_handshake_payload "sender" (encryption_enabled (config self)));
     (MSG_FILE_META,
      build_file_meta_payload (Pathlib.name filepath) file_size
        (default "application/octet-stream"%string (mime_guess w))
        total csize);
     (MSG_DONE, build_done_payload)] ->
  length replies = length cs ->
  Forall accepted_ack (p_hello :: p_meta :: replies ++ [p_done]) ->
  sock_in (sock w) = acks_in (p_hello :: p_meta :: replies ++ [p_done]) ++ rest ->
  let w' := _transfer_worker cryptography self filepath w in
  concat cs = source w /\
  Forall (fun data => 0 < len data <= csize) cs /\
  sock_out (sock w') =
    sock_out (sock w) ++ map wire (sender_frames self filepath w total) /\
  sock_in (sock w') = rest /\
  sock_closed (sock w') = true /\
  progress_queue w' =
    progress_queue w
      ++ chunk_reports total file_size 0 0 cs
      ++ [completion_report total file_size].
Proof. apply worker_run. Qed.

End SenderRun.

(** ** Both ends of a transfer *)

Lemma numbered_Forall (P : bytes -> Prop) idx cs :
  Forall P cs -> Forall (fun ix : Z * bytes => P ix.2) (numbered idx cs).
Proof.
  intros H. revert idx. induction H as [|d cs Hd _ IH]; intros idx;
    cbn [numbered]; constructor; auto.
Qed.

Section WholeTransfer.
Context {rt : PyRuntime}.
Variables sender_crypto receiver_crypto : option CryptoBackend.
Variable tx : Transmitter.FileTransmitter.
Variable rx : FileListener.

Lemma reads_back_ack message :
  reads_back (ack_dict message) -> accepted_ack (build_ack_payload true message).
Proof.
  intros [Hl Hb]. split; [exact Hb|].
  eexists. split; [exact Hl|]. reflexivity.
Qed.

(** A HANDSHAKE frame is answered with the ACK [Ready]; nothing else
    changes. *)
Lemma handshake_step (payload : bytes) d rest c :
  len payload <= 4294967295 ->
  loads_utf8 payload = Ok (JDict d) ->
  len (build_ack_payload true "Ready") <= 4294967295 ->
  sock_send_faults (conn c) = [] ->
  sock_in (conn c) = map Rx (wire (MSG_HANDSHAKE, payload)) ++ rest ->
  handle_frame receiver_crypto rx c =
  (Ok true,
   with_conn (socket_after_send (ack_frame "Ready")) (conn_with_in rest c)).
Proof.
  intros Hp Hd Hack Hsend Hin.
  assert (Hwf : well_formed (MSG_HANDSHAKE, payload))
    by (split; [cbn; unfold MSG_HANDSHAKE; lia|exact Hp]).
  rewrite (handle_frame_wire _ _ MSG_HANDSHAKE payload rest c Hwf Hin).
  unfold handle_message.
  change (MSG_HANDSHAKE =? MSG_HANDSHAKE) with true. cbv iota.
  unfold parse_handshake_payload. unfold bind at 1, lift. rewrite Hd.
  cbn [py_get]. unfold bind at 1. unfold bind at 1. unfold bind at 1.
  rewrite send_ack_sent
    by (try exact Hack; unfold next_send_ok; cbn; now rewrite Hsend).
  reflexivity.
Qed.

Lemma handle_connection_turn fuel c c1 :
  handle_frame receiver_crypto rx c = (Ok true, c1) ->
  _handle_connection receiver_crypto rx (S fuel) c =
  _handle_connection receiver_crypto rx fuel c1.
Proof.
  intros H. unfold _handle_connection. cbn [handle_loop].
  unfold bind at 1. now rewrite H.
Qed.

(** A transmitter and a listener, each reading what the other writes, with
    encryption off and nothing that fails or cancels: both run to the end,
    the file that the listener creates at the path chosen by [_unique_path]
    holds the bytes of the sender's file, the worker's last report is the
    completion, and [on_file_received] is called for that path.  The file
    has at most 2^53 bytes and 2^32 chunks, and the runtime reads back the
    JSON payloads that it wrote. *)
Theorem file_arrives_intact (filepath : Path) (w : Transmitter.World)
    (c : Conn) (p : Path) (rest_tx rest_rx : list recv_item) (fuel : nat) :
  let file_size := len (Transmitter.source w) in
  let csize :=
    choose_chunk_size (Transmitter.chunk_size (Transmitter.config tx))
      file_size in
  let total := if file_size =? 0 then 1 else ceil_div file_size csize in
  let mime :=
    default "application/octet-stream"%string (Transmitter.mime_guess w) in
  let cs :=
    numbered 0 (file_chunks (Z.to_nat total) csize (Transmitter.source w)) in
  enabled (Transmitter._encryption tx) = false ->
  enabled (_encryption rx) = false ->
  clean w ->
  io_faults (fs c) = [] ->
  sock_send_faults (conn c) = [] ->
  0 < csize <= 4294967291 ->
  file_size <= 2 ^ 53 ->
  file_size <= 4294967296 * csize ->
  reads_back
    (JDict [("sender_id"%string, JStr "sender");
            ("encryption"%string,
             JBool (Transmitter.encryption_enabled (Transmitter.config tx)))]) ->
  reads_back
    (file_meta_dict (Pathlib.name filepath) file_size mime total csize) ->
  len build_done_payload <= 4294967295 ->
  Forall (fun m => reads_back (ack_dict m)) (ack_messages cs) ->
  _unique_path rx (JStr (Pathlib.name filepath)) c = (Ok p, c) ->
  sock_in (Transmitter.sock w) = stream (listener_acks cs) ++ rest_tx ->
  sock_in (conn c) = stream (sender_frames tx filepath w total) ++ rest_rx ->
  (length cs + 3 <= fuel)%nat ->
  let w' := Transmitter._transfer_worker sender_crypto tx filepath w in
  exists c',
    _handle_connection receiver_crypto rx fuel c = (Ok tt, c') /\
    files (fs c') = <[p := Transmitter.source w]> (files (fs c)) /\
    sock_out (Transmitter.sock w') =
      sock_out (Transmitter.sock w)
        ++ map wire (sender_frames tx filepath w total) /\
    sock_out (conn c') = sock_out (conn c) ++ map wire (listener_acks cs) /\
    sock_in (Transmitter.sock w') = rest_tx /\
    sock_in (conn c') = rest_rx /\
    sock_closed (Transmitter.sock w') = true /\
    sock_closed (conn c') = true /\
    Transmitter.progress_queue w' =
      Transmitter.progress_queue w
        ++ chunk_reports total file_size 0 0 (map snd cs)
        ++ [completion_report total file_size] /\
    received_calls c' =
      received_calls c
        ++ (if _on_file_received rx then [(p, JStr mime)] else []) /\
    file_info c' =
      {| filename := JStr (Pathlib.name filepath);
         file_size := JInt file_size; mime_type := JStr mime;
         chunk_count := JInt total; chunk_size := JInt csize;
         chunks_received := chunks_received (file_info c) + len cs;
         save_path := p |}.
Proof.
  intros file_size csize total mime cs Htx Hrx Hw Hio Hsend Hc Hsize Hidx
    [Hhs_l Hhs_b] [Hmeta_l Hmeta_b] Hdone Hacks Hpath Hin_tx Hin_rx Hfuel w'.
  set (chunks := file_chunks (Z.to_nat total) csize (Transmitter.source w))
    in *.
  (* the replies *)
  unfold ack_messages in Hacks.
  apply Forall_app in Hacks as [Hacks12 Hacks].
  apply Forall_app in Hacks as [Hacks_c Hack3].
  inversion Hacks12 as [|? ? Hack1 Hacks2]; subst.
  inversion Hacks2 as [|? ? Hack2 _]; subst.
  inversion Hack3 as [|? ? Hack3' _]; subst. clear Hacks12 Hacks2 Hack3.
  apply (proj1 (List.Forall_map _ _ _)) in Hacks_c.
  set (replies :=
         map (fun ix : Z * bytes =>
                build_ack_payload true ("Chunk " +:+ pretty ix.1 +:+ " OK")) cs).
  assert (Hstream :
            stream (listener_acks cs) =
            acks_in (build_ack_payload true "Ready"
                       :: build_ack_payload true "Metadata accepted"
                       :: replies ++ [build_ack_payload true "File saved"])).
  { unfold listener_acks, acks_in, ack_messages, replies. f_equal.
    cbn [app map]. rewrite !map_app, !map_map. reflexivity. }
  rewrite Hstream in Hin_tx.
  (* the sender *)
  destruct (worker_run sender_crypto tx Htx filepath
              (build_ack_payload true "Ready")
              (build_ack_payload true "Metadata accepted")
              (build_ack_payload true "File saved") replies rest_tx w
              Hw Hc Hsize Hidx)
    as (Hwhole & Hb & Hout & Hin' & Hcl & Hq).
  { constructor; [split; [cbn; unfold MSG_HANDSHAKE; lia|exact Hhs_b]|].
    constructor; [split; [cbn; unfold MSG_FILE_META; lia|exact Hmeta_b]|].
    constructor; [split; [cbn; unfold MSG_DONE; lia|exact Hdone]|].
    constructor. }
  { unfold replies, cs. now rewrite length_map, numbered_length. }
  { constructor; [now apply reads_back_ack|].
    constructor; [now apply reads_back_ack|].
    apply Forall_app. split.
    - unfold replies. apply List.Forall_map.
      eapply Forall_impl; [exact Hacks_c|]. intros ix Hix.
      now apply reads_back_ack.
    - constructor; [now apply reads_back_ack|constructor]. }
  { exact Hin_tx. }
  change (concat chunks = Transmitter.source w) in Hwhole.
  change (Forall (fun data => 0 < len data <= csize) chunks) in Hb.
  fold chunks in Hq.
  (* the listener *)
  unfold sender_frames in Hin_rx. fold file_size csize mime chunks cs in Hin_rx.
  cbn [app] in Hin_rx. rewrite stream_cons in Hin_rx.
  pose proof (handshake_step _ _ _ c Hhs_b Hhs_l (proj2 Hack1) Hsend Hin_rx)
    as Hstep.
  destruct fuel as [|fuel]; [lia|].
  rewrite (handle_connection_turn fuel c _ Hstep).
  set (c1 := with_conn (socket_after_send (ack_frame "Ready"))
               (conn_with_in _ c)) in *.
  assert (Hcount : len chunks <= 4294967296).
  { pose proof (file_chunks_length (Z.to_nat total) csize
                  (Transmitter.source w)) as Hl.
    fold chunks in Hl.
    assert (total <= 4294967296).
    { unfold total. destruct (Z.eqb_spec file_size 0); [lia|].
      pose proof (ceil_div_bounds file_size csize ltac:(lia)) as [Hlo Hhi].
      nia. }
    unfold len. lia. }
  assert (Hfit : chunks_fit cs).
  { unfold chunks_fit.
    apply Forall_and. split; [|apply Forall_and; split].
    - eapply Forall_impl; [apply (numbered_bounds 0 chunks)|].
      intros ix. cbn beta. lia.
    - apply (numbered_Forall (fun d => len d + 4 <= 4294967295)).
      eapply Forall_impl; [exact Hb|]. intros d. cbn beta. lia.
    - eapply Forall_impl; [exact Hacks_c|]. intros ix [_ H]. exact H. }
  destruct (transfer_run receiver_crypto rx (Pathlib.name filepath) file_size
              mime total csize cs build_done_payload rest_rx p c1 fuel
              Hmeta_l Hmeta_b Hdone Hfit (proj2 Hack2) (proj2 Hack3') Hrx)
    as (c' & Erun & Hfiles & Hinfo & Hrc & _ & Hout_rx & Hin_rx' & Hcl_rx & _).
  { apply (unique_path_reads_files rx (JStr (Pathlib.name filepath)) c c1 p);
      [reflexivity|exact Hpath]. }
  { cbn. exact Hio. }
  { cbn. now rewrite Hsend. }
  { reflexivity. }
  { lia. }
  exists c'. split; [exact Erun|].
  split.
  { rewrite Hfiles. unfold cs. rewrite numbered_data, Hwhole. reflexivity. }
  split; [exact Hout|].
  split.
  { rewrite Hout_rx. unfold c1. cbn [conn with_conn conn_with_in sock_out
                                    socket_after_send socket_with_in].
    unfold listener_acks, ack_messages. cbn [app map].
    rewrite <- !app_assoc. cbn [app]. rewrite !map_app, !map_map.
    reflexivity. }
  split; [exact Hin'|]. split; [exact Hin_rx'|].
  split; [exact Hcl|]. split; [exact Hcl_rx|].
  split.
  { unfold cs. rewrite numbered_data. exact Hq. }
  split; [exact Hrc|]. exact Hinfo.
Qed.

End WholeTransfer.

(** Scenario S1, the five bytes of [hello.txt]: the sender's end. *)
Lemma undisturbed_transfer_sends_file_witness :
  concat [encode_ascii "hello"] = Transmitter.source hello_world /\
  Forall (fun data => 0 < len data <= 65536) [encode_ascii "hello"] /\
  sock_out (Transmitter.sock hello_sent) =
    sock_out (Transmitter.sock hello_world)
      ++ map wire
           (@sender_frames MiniJson.runtime default_transmitter
              ["send"; "hello.txt"]%string hello_world 1) /\
  sock_in (Transmitter.sock hello_sent) = [] /\
  sock_closed (Transmitter.sock hello_sent) = true /\
  Transmitter.progress_queue hello_sent =
    Transmitter.progress_queue hello_world
      ++ chunk_reports 1 5 0 0 [encode_ascii "hello"]
      ++ [completion_report 1 5].
Proof.
  apply (undisturbed_transfer_sends_file (rt := MiniJson.runtime) None
           default_transmitter eq_refl ["send"; "hello.txt"]%string
           (@build_ack_payload MiniJson.runtime true "Ready")
           (@build_ack_payload MiniJson.runtime true "Metadata accepted")
           (@build_ack_payload MiniJson.runtime true "File saved")
           [@build_ack_payload MiniJson.runtime true "Chunk 0 OK"]
           [] hello_world).
  - split; [reflexivity|]. split; [reflexivity|].
    split; [constructor|reflexivity].
  - vm_compute. split; [reflexivity|discriminate].
  - vm_compute. discriminate.
  - vm_compute. discriminate.
  - repeat (apply List.Forall_cons;
            [split; [vm_compute; split; discriminate
                    |vm_compute; discriminate]|]).
    apply List.Forall_nil.
  - reflexivity.
  - repeat (apply List.Forall_cons;
            [split; [vm_compute; discriminate
                    |eexists; split; [vm_compute; reflexivity|reflexivity]]|]).
    apply List.Forall_nil.
  - vm_compute. reflexivity.
Defined.

(** Scenario S1, both ends. *)
Lemma file_arrives_intact_witness :
  exists c',
    _handle_connection (rt := MiniJson.runtime) None recv_listener 5
      hello_listening = (Ok tt, c') /\
    files (fs c') =
      <[ ["recv"; "hello.txt"]%string := Transmitter.source hello_world ]>
        (files (fs hello_listening)) /\
    sock_out (Transmitter.sock hello_sent) =
      sock_out (Transmitter.sock hello_world)
        ++ map wire
             (@sender_frames MiniJson.runtime default_transmitter
                ["send"; "hello.txt"]%string hello_world 1) /\
    sock_out (conn c') =
      sock_out (conn hello_listening)
        ++ map wire
             (@listener_acks MiniJson.runtime [(0, encode_ascii "hello")]) /\
    sock_in (Transmitter.sock hello_sent) = [] /\
    sock_in (conn c') = [] /\
    sock_closed (Transmitter.sock hello_sent) = true /\
    sock_closed (conn c') = true /\
    Transmitter.progress_queue hello_sent =
      Transmitter.progress_queue hello_world
        ++ chunk_reports 1 5 0 0 [encode_ascii "hello"]
        ++ [completion_report 1 5] /\
    received_calls c' =
      received_calls hello_listening
        ++ [(["recv"; "hello.txt"]%string, JStr "text/plain")] /\
    file_info c' =
      {| filename := JStr "hello.txt"; file_size := JInt 5;
         mime_type := JStr "text/plain";
         chunk_count := JInt 1; chunk_size := JInt 65536;
         chunks_received := chunks_received (file_info hello_listening) + 1;
         save_path := ["recv"; "hello.txt"]%string |}.
Proof.
  apply (file_arrives_intact (rt := MiniJson.runtime) None None
           default_transmitter recv_listener ["send"; "hello.txt"]%string
           hello_world hello_listening ["recv"; "hello.txt"]%string [] [] 5).
  - reflexivity.
  - reflexivity.
  - split; [reflexivity|]. split; [reflexivity|].
    split; [constructor|reflexivity].
  - reflexivity.
  - reflexivity.
  - vm_compute. split; [reflexivity|discriminate].
  - vm_compute. discriminate.
  - vm_compute. discriminate.
  - split; [vm_compute; reflexivity|vm_compute; discriminate].
  - split; [vm_compute; reflexivity|vm_compute; discriminate].
  - vm_compute. discriminate.
  - repeat (apply List.Forall_cons;
            [split; [vm_compute; reflexivity|vm_compute; discriminate]|]).
    apply List.Forall_nil.
  - vm_compute. reflexivity.
  - vm_compute. reflexivity.
  - vm_compute. reflexivity.
  - vm_compute. lia.
Defined.

(** ** The gesture state machine *)

Section GestureFacts.
Import Gesture.
Context {fl : PyFloats}.

Lemma valid_gestures_table s :
  valid_gestures s =
  if decide (STATE_IDLE = s) then {[GESTURE_OPEN_PALM]}
  else if decide (STATE_BROWSING = s) then
    {[GESTURE_SWIPE_LEFT; GESTURE_SWIPE_RIGHT; GESTURE_PINCH; GESTURE_FIST]}
  else if decide (STATE_FILE_SELECTED = s) then
    {[GESTURE_OPEN_PALM; GESTURE_SWIPE_LEFT; GESTURE_SWIPE_RIGHT;
      GESTURE_FIST; GESTURE_TWO_FINGER]}
  else if decide (STATE_CONFIRMING_SEND = s) then
    {[GESTURE_PINCH; GESTURE_FIST]}
  else if decide (STATE_SENDING = s) then {[GESTURE_FIST]}
  else ∅.
Proof.
  unfold valid_gestures, _VALID_GESTURES.
  rewrite !lookup_insert, lookup_empty.
  repeat case_decide; reflexivity.
Qed.

Lemma valid_gestures_known s g :
  g ∈ valid_gestures s -> In s states /\ In g gestures /\ g <> GESTURE_NONE.
Proof.
  rewrite valid_gestures_table. unfold states, gestures.
  repeat case_decide; subst; rewrite ?elem_of_union, ?elem_of_singleton;
    intros Hg; repeat destruct Hg as [Hg|Hg]; subst; cbn;
    try (split; [tauto|split; [tauto|discriminate]]).
  now apply elem_of_empty in Hg.
Qed.

(** [_process_transition] touches the state only, and the state machine
    agrees with the table [_VALID_GESTURES]: a gesture changes the state
    only if the table lists it for the state, and then one of the six
    states leads to one of the six states; SENDING is entered from
    CONFIRMING_SEND by a pinch and in no other way; and the gestures that
    the table lists without a change of state are the two swipes in
    BROWSING and the two-finger point in FILE_SELECTED. *)
Theorem transitions_need_valid_gestures (gesture : string)
    (self : GestureEngine) :
  let self' := _process_transition gesture self in
  self' = set_state (_state self') self /\
  (_state self' <> _state self ->
   gesture ∈ valid_gestures (_state self) /\
   In (_state self) states /\ In (_state self') states) /\
  (_state self' = STATE_SENDING ->
   _state self = STATE_SENDING \/
   _state self = STATE_CONFIRMING_SEND /\ gesture = GESTURE_PINCH) /\
  (gesture ∈ valid_gestures (_state self) ->
   _state self' = _state self ->
   _state self = STATE_BROWSING /\
     (gesture = GESTURE_SWIPE_LEFT \/ gesture = GESTURE_SWIPE_RIGHT) \/
   _state self = STATE_FILE_SELECTED /\ gesture = GESTURE_TWO_FINGER).
Proof.
  cbv zeta. rewrite valid_gestures_table. unfold _process_transition.
  destruct self as [st cd du hy th ph sct lg]. cbn [_state].
  repeat case_bool_decide; subst; cbn [_state set_state];
    (split; [reflexivity|]);
    repeat case_decide; try discriminate; try congruence;
    rewrite ?elem_of_union, ?elem_of_singleton; unfold states;
    (split; [intros Hne; try congruence; cbn; tauto|]);
    (split; [intros Hs; try discriminate Hs; auto|]);
    intros Hg Hsame; try discriminate Hsame;
    repeat destruct Hg as [Hg|Hg]; subst;
    try congruence; try (exfalso; tauto); auto.
  all: try (now apply elem_of_empty in Hg).
Qed.

(** *** The hysteresis counters *)

Variable config : GestureConfig.

Lemma run_back_nonneg g l : 0 <= run_back g l.
Proof.
  induction l as [|c l IH]; cbn; [lia|].
  destruct c; try case_bool_decide; lia.
Qed.

Lemma held_for_nonneg g history : 0 <= held_for g history.
Proof. apply run_back_nonneg. Qed.

Lemma held_for_snoc g history c :
  held_for g (history ++ [c]) = run_back g (c :: rev history).
Proof. unfold held_for. now rewrite rev_unit. Qed.

Lemma counters_bounded_init : counters_bounded config (GestureEngine_init config) [].
Proof.
  unfold counters_bounded, GestureEngine_init. cbn [_hysteresis _hysteresis_threshold].
  split; [|split; [|reflexivity]].
  - intros g Hg. rewrite lookup_fmap, !lookup_insert.
    unfold gestures in Hg. cbn in Hg.
    repeat case_decide; cbn; eauto. exfalso. intuition congruence.
  - intros g n. rewrite lookup_fmap. intros H.
    destruct (_ !! g); cbn in H; [|discriminate]. injection H as <-.
    cbn. lia.
Qed.

Lemma counters_bounded_reset self history history' :
  counters_bounded config self history ->
  counters_bounded config (_reset_hysteresis self) history'.
Proof.
  intros (Hk & Hv & Ht). unfold counters_bounded, _reset_hysteresis.
  cbn [_hysteresis _hysteresis_threshold with_hysteresis].
  split; [|split; [|exact Ht]].
  - intros g Hg. rewrite lookup_fmap. destruct (Hk g Hg) as [n ->]. cbn. eauto.
  - intros g n. rewrite lookup_fmap. intros H.
    destruct (_ !! g); cbn in H; [|discriminate]. injection H as <-.
    pose proof (held_for_nonneg g history'). lia.
Qed.

Lemma counters_bounded_same self self' history c :
  _hysteresis self' = _hysteresis self ->
  _hysteresis_threshold self' = _hysteresis_threshold self ->
  (forall g, run_back g (c :: rev history) = run_back g (rev history)) ->
  counters_bounded config self history ->
  counters_bounded config self' (history ++ [c]).
Proof.
  intros Hh Ht Hrun (Hk & Hv & Hth). unfold counters_bounded.
  rewrite Hh, Ht. split; [exact Hk|]. split; [|exact Hth].
  intros g n Hn. rewrite held_for_snoc, Hrun. exact (Hv g n Hn).
Qed.

Lemma process_transition_counters gesture self :
  _hysteresis (_process_transition gesture self) = _hysteresis self /\
  _hysteresis_threshold (_process_transition gesture self)
    = _hysteresis_threshold self.
Proof.
  unfold _process_transition. repeat case_bool_decide; split; reflexivity.
Qed.

(** One call of [_apply_hysteresis]. *)
Lemma apply_hysteresis_step gesture now self history :
  counters_bounded config self history ->
  exists out self',
    _apply_hysteresis gesture now self = (Ok out, self') /\
    counters_bounded config self' (history ++ [apply_hysteresis gesture now]) /\
    forall g, out = Some g ->
      g = gesture /\
      gesture ∈ valid_gestures (_state self) /\
      hysteresis_frames config
        <= held_for gesture (history ++ [apply_hysteresis gesture now]) /\
      flt (fsub now (default f_zero (_cooldowns self !! gesture)))
          (default f_half (_cooldown_durations self !! gesture)) = false /\
      (forall g' n, _hysteresis self' !! g' = Some n -> n = 0) /\
      _cooldowns self' !! gesture = Some now /\
      _state self' = _state self.
Proof.
  intros Hinv. pose proof Hinv as (Hk & Hv & Ht).
  unfold _apply_hysteresis.
  case_bool_decide as Hnone.
  { eexists _, _. split; [reflexivity|].
    split; [now apply (counters_bounded_reset self history)|]. discriminate. }
  case_bool_decide as Hvalid; cbn [negb].
  2:{ eexists _, _. split; [reflexivity|].
      split; [now apply (counters_bounded_reset self history)|]. discriminate. }
  destruct (valid_gestures_known _ _ Hvalid) as (_ & Hg & _).
  destruct (Hk gesture Hg) as [n0 Hn0].
  set (self1 := with_hysteresis _ self).
  assert (Hlook : forall g,
            _hysteresis self1 !! g =
            (fun n => if bool_decide (g = gesture) then n + 1 else 0)
              <$> _hysteresis self !! g).
  { intros g. unfold self1. cbn [_hysteresis with_hysteresis].
    rewrite map_lookup_imap. now destruct (_hysteresis self !! g). }
  assert (Hinv1 : counters_bounded config self1
                    (history ++ [apply_hysteresis gesture now])).
  { split; [|split; [|exact Ht]].
    - intros g Hin. rewrite Hlook. destruct (Hk g Hin) as [m ->]. cbn. eauto.
    - intros g n. rewrite Hlook. intros H.
      destruct (_hysteresis self !! g) as [m|] eqn:Em; cbn in H;
        [|discriminate].
      injection H as <-. specialize (Hv g m Em).
      rewrite held_for_snoc. cbn [run_back]. fold (held_for g history).
      case_bool_decide as E1; case_bool_decide as E2; subst;
        try congruence; lia. }
  rewrite Hlook, Hn0. cbn [fmap option_fmap option_map].
  rewrite bool_decide_eq_true_2 by reflexivity.
  destruct (Z.ltb_spec (n0 + 1) (_hysteresis_threshold self1)) as [Hlt|Hge].
  { eexists _, _. split; [reflexivity|]. split; [exact Hinv1|]. discriminate. }
  cbv zeta.
  destruct (flt _ _) eqn:Ecool.
  { eexists _, _. split; [reflexivity|]. split; [exact Hinv1|]. discriminate. }
  eexists _, _. split; [reflexivity|]. split.
  { unfold confirm.
    apply (counters_bounded_reset _ (history ++ [apply_hysteresis gesture now])).
    destruct Hinv1 as (Hk1 & Hv1 & Ht1). split; [exact Hk1|].
    split; [exact Hv1|exact Ht1]. }
  intros g [= <-]. split; [reflexivity|]. split; [exact Hvalid|].
  split.
  { destruct Hinv1 as (_ & Hv1 & _).
    specialize (Hv1 gesture (n0 + 1)).
    rewrite Hlook, Hn0 in Hv1. cbn in Hv1.
    rewrite bool_decide_eq_true_2 in Hv1 by reflexivity.
    specialize (Hv1 eq_refl).
    change (_hysteresis_threshold self1) with (_hysteresis_threshold self)
      in Hge. lia. }
  split; [first [exact Ecool|reflexivity]|].
  split.
  { intros g' n. unfold confirm, _reset_hysteresis.
    cbn [_hysteresis with_hysteresis]. rewrite lookup_fmap. intros H.
    destruct (_ !! g'); cbn in H; [|discriminate]. now injection H as <-. }
  split; [|reflexivity].
  unfold confirm, _reset_hysteresis. cbn [_cooldowns with_hysteresis].
  apply lookup_insert_eq.
Qed.

Lemma make_step c self history :
  counters_bounded config self history ->
  exists out self',
    make c self = (Ok out, self') /\ counters_bounded config self' (history ++ [c]).
Proof.
  intros Hinv. destruct c as [g now| |g|now|]; cbn [make].
  - destruct (apply_hysteresis_step g now self history Hinv)
      as (out & self' & E & Hinv' & _). eauto.
  - eexists _, _. split; [reflexivity|].
    now apply (counters_bounded_reset self history).
  - eexists _, _. split; [reflexivity|].
    destruct (process_transition_counters g self) as [Hh Ht].
    now apply (counters_bounded_same self).
  - eexists _, _. split; [reflexivity|].
    now apply (counters_bounded_same self).
  - eexists _, _. split; [reflexivity|].
    now apply (counters_bounded_same self).
Qed.

Lemma make_all_bounded cs :
  forall latest self history,
  counters_bounded config self history ->
  exists out self',
    make_all cs latest self = (Ok out, self') /\
    counters_bounded config self' (history ++ cs).
Proof.
  induction cs as [|c cs IH]; intros latest self history Hinv.
  - exists latest, self. rewrite app_nil_r. split; [reflexivity|exact Hinv].
  - destruct (make_step c self history Hinv) as (r & self1 & E & Hinv1).
    destruct (IH r self1 _ Hinv1) as (out & self' & E' & Hinv').
    exists out, self'. cbn [make_all]. unfold bind. rewrite E.
    rewrite <- app_assoc in Hinv'. split; [exact E'|exact Hinv'].
Qed.

Lemma make_all_snoc cs c latest self r self1 :
  make_all cs latest self = (Ok r, self1) ->
  make_all (cs ++ [c]) latest self = make c self1.
Proof.
  revert latest self. induction cs as [|c0 cs IH]; intros latest self H.
  - cbn in H. injection H as <- <-. cbn [app make_all]. unfold bind.
    destruct (make c self) as [[x|e|] s]; reflexivity.
  - cbn [app make_all] in *. unfold bind in *.
    destruct (make c0 self) as [[x|e|] s]; try discriminate.
    now apply IH.
Qed.

(** Whatever calls the engine has served since it was built, a call of
    [_apply_hysteresis] never fails for a missing counter, and it confirms
    a gesture only if this is the gesture it was called with, the table
    lists it for the current state, the cooldown of the gesture has passed,
    and the latest [hysteresis_frames] calls in a row were calls with this
    gesture; the counters are then all zero again, the time of the
    confirmation is recorded, and the state is as it was. *)
Theorem confirmation_needs_held_gesture (cs : list call) (gesture : string)
    (now : pyfloat) :
  let before := (make_all cs None (GestureEngine_init config)).2 in
  let calls := cs ++ [apply_hysteresis gesture now] in
  exists out self',
    make_all calls None (GestureEngine_init config) = (Ok out, self') /\
    forall g, out = Some g ->
      g = gesture /\
      gesture ∈ valid_gestures (_state before) /\
      hysteresis_frames config <= held_for gesture calls /\
      flt (fsub now (default f_zero (_cooldowns before !! gesture)))
          (default f_half (_cooldown_durations before !! gesture)) = false /\
      (forall g' n, _hysteresis self' !! g' = Some n -> n = 0) /\
      _cooldowns self' !! gesture = Some now /\
      _state self' = _state before.
Proof.
  cbv zeta.
  destruct (make_all_bounded cs None (GestureEngine_init config) []
              counters_bounded_init) as (r & self1 & E & Hinv).
  rewrite (make_all_snoc cs _ None _ r self1 E). rewrite E. cbn [snd make].
  cbn [app] in Hinv.
  destruct (apply_hysteresis_step gesture now self1 cs Hinv)
    as (out & self' & E' & _ & Hout).
  exists out, self'. split; [exact E'|exact Hout].
Qed.

End GestureFacts.

(** With the default three frames, an open palm held from 2.0 s on is
    confirmed on the third frame and not on the second. *)
Example palm_confirmed_on_third_frame :
  (Gesture.make_all
     [Gesture.apply_hysteresis Gesture.GESTURE_OPEN_PALM
        (2000 : @Gesture.pyfloat Gesture.millis);
      Gesture.apply_hysteresis Gesture.GESTURE_OPEN_PALM
        (2033 : @Gesture.pyfloat Gesture.millis);
      Gesture.apply_hysteresis Gesture.GESTURE_OPEN_PALM
        (2066 : @Gesture.pyfloat Gesture.millis)] None
     (Gesture.GestureEngine_init default_gestures)).1
  = Ok (Some Gesture.GESTURE_OPEN_PALM) /\
  (Gesture.make_all
     [Gesture.apply_hysteresis Gesture.GESTURE_OPEN_PALM
        (2000 : @Gesture.pyfloat Gesture.millis);
      Gesture.apply_hysteresis Gesture.GESTURE_OPEN_PALM
        (2033 : @Gesture.pyfloat Gesture.millis)] None
     (Gesture.GestureEngine_init default_gestures)).1
  = Ok None.
Proof. split; vm_compute; reflexivity. Qed.

(** ** The application reads the outcome of a transfer *)

Lemma drain_snoc q p latest : drain (q ++ [p]) latest = Some p.
Proof.
  revert latest. induction q as [|x q IH]; intros latest; [reflexivity|].
  cbn. apply IH.
Qed.

Section PollAfterWorker.
Import Transmitter.
Context {rt : PyRuntime} {fl : Gesture.PyFloats}.
Variable cryptography : option CryptoBackend.
Variable self : FileTransmitter.

Hypothesis loads_ends : forall b, loads_utf8 b <> OutOfFuel.
Hypothesis encrypt_ends :
  forall lib key nonce data,
    cryptography = Some lib -> AESGCM_encrypt lib key nonce data <> OutOfFuel.

(** Once the worker has ended, what the first poll in state SENDING does
    depends on what the reads of the queue have left of it: every poll,
    and in state SENDING every rendering of the progress arc, empties the
    queue, so that the first [k] snapshots are gone when these reads took
    them while the worker ran.  The poll empties the queue.  When the last
    snapshot is still there, the poll acts on it alone: a snapshot with an
    error text (cancellation, or an exception with a message) brings the
    engine to FILE_SELECTED, the completion brings it to SEND_COMPLETE and
    records the time, and an exception whose text is empty leaves the
    engine in SENDING.  When the last snapshot is gone as well (a
    rendering took it), the poll changes nothing: the engine stays in
    SENDING and the outcome is lost. *)
Theorem poll_after_worker (filepath : Path) (w : World) (gui : App.App)
    (now : Gesture.pyfloat) (k : nat) :
  progress_queue w = [] ->
  Gesture._state (App.gesture_engine gui) = Gesture.STATE_SENDING ->
  let w' := _transfer_worker cryptography self filepath w in
  let left := with_progress_queue (drop k (progress_queue w')) w' in
  let gui' := App._poll_transfer false now (App.after_worker left gui) in
  progress_queue (App.transmitter gui') = [] /\
  (get_latest_progress (App.transmitter gui')).1 = None /\
  exists last_report,
    List.last (progress_queue w') last_report = last_report /\
    progress_queue w' <> [] /\
    ((length (progress_queue w') <= k)%nat ->
     App.gesture_engine gui' = App.gesture_engine gui /\
     App._connection_status gui' = App._connection_status gui /\
     App.sounds gui' = App.sounds gui) /\
    ((k < length (progress_queue w'))%nat ->
     (error last_report <> EmptyString ->
      App.gesture_engine gui'
        = Gesture.notify_transfer_error (App.gesture_engine gui) /\
      Gesture._state (App.gesture_engine gui') = Gesture.STATE_FILE_SELECTED /\
      App._connection_status gui' = "disconnected"%string /\
      App.sounds gui' = App.sounds gui ++ ["error"%string]) /\
     (error last_report = EmptyString ->
      (done last_report = true /\
       App.gesture_engine gui'
         = Gesture.notify_transfer_complete now (App.gesture_engine gui) /\
       Gesture._state (App.gesture_engine gui') = Gesture.STATE_SEND_COMPLETE /\
       App._connection_status gui' = "connected"%string /\
       App.sounds gui' = App.sounds gui ++ ["complete"%string]) \/
      (exists e w1,
         transfer_body cryptography self filepath w = (Raise e, w1) /\
         exn_str e = EmptyString /\
         App.gesture_engine gui' = App.gesture_engine gui /\
         App._connection_status gui' = "connected"%string /\
         App.sounds gui' = App.sounds gui))).
Proof.
  intros Hq Hstate w' left gui'.
  destruct (worker_outcome cryptography self loads_ends encrypt_ends filepath w)
    as (reports & last_report & Hqueue & _ & Hlast).
  fold w' in Hqueue. rewrite Hq in Hqueue. cbn [app] in Hqueue.
  assert (Hlen : length (progress_queue w') = S (length reports))
    by (rewrite Hqueue, length_app; simpl; lia).
  assert (Happ' : gui' =
            match drain (drop k (progress_queue w')) None with
            | None => App.after_worker (with_progress_queue [] left) gui
            | Some progress =>
                if negb (bool_decide (error progress = EmptyString)) then
                  {| App.gesture_engine :=
                       Gesture.notify_transfer_error (App.gesture_engine gui);
                     App.transmitter := with_progress_queue [] left;
                     App._connection_status := "disconnected";
                     App.sounds := App.sounds gui ++ ["error"%string] |}
                else if done progress then
                  {| App.gesture_engine :=
                       Gesture.notify_transfer_complete now
                         (App.gesture_engine gui);
                     App.transmitter := with_progress_queue [] left;
                     App._connection_status := "connected";
                     App.sounds := App.sounds gui ++ ["complete"%string] |}
                else
                  {| App.gesture_engine := App.gesture_engine gui;
                     App.transmitter := with_progress_queue [] left;
                     App._connection_status := "connected";
                     App.sounds := App.sounds gui |}
            end).
  { unfold gui', App._poll_transfer, App.after_worker.
    cbn [App.gesture_engine App.transmitter App._connection_status App.sounds].
    rewrite Hstate. rewrite bool_decide_eq_true_2 by reflexivity.
    cbn [negb andb]. unfold get_latest_progress, left.
    cbn [progress_queue with_progress_queue]. reflexivity. }
  assert (Hempty : progress_queue (App.transmitter gui') = []).
  { rewrite Happ'. destruct (drain _ None) as [pr|]; [|reflexivity].
    case_bool_decide; cbn [negb]; [destruct (done pr)|]; reflexivity. }
  split; [exact Hempty|].
  split; [unfold get_latest_progress; cbn [fst]; now rewrite Hempty|].
  exists last_report.
  split; [rewrite Hqueue; apply last_last|].
  split; [rewrite Hqueue; intros H; now apply app_eq_nil in H as [_ H]|].
  split.
  - intros Hk. rewrite Happ', drop_ge by exact Hk. cbn [drain].
    repeat split.
  - intros Hk.
    assert (Hdrain : drain (drop k (progress_queue w')) None
                     = Some last_report).
    { rewrite Hqueue, drop_app_le by lia. apply drain_snoc. }
    rewrite Hdrain in Happ'. split.
    + intros Herr. rewrite Happ'.
      rewrite bool_decide_eq_false_2 by exact Herr. cbn [negb].
      cbn [App.gesture_engine App._connection_status App.sounds].
      repeat split; reflexivity.
    + intros Herr. rewrite Happ'.
      rewrite bool_decide_eq_true_2 by exact Herr. cbn [negb].
      destruct Hlast as [->|[(e & w1 & Ebody & ->)|(total & size & ->)]].
      * discriminate Herr.
      * right. exists e, w1. cbn [done error_report].
        cbn [App.gesture_engine App._connection_status App.sounds].
        repeat split; try reflexivity; [exact Ebody|exact Herr].
      * left. cbn [done].
        cbn [App.gesture_engine App._connection_status App.sounds].
        repeat split; reflexivity.
Qed.

End PollAfterWorker.

(** Scenario S1 seen from the application: after the worker has sent
    [hello.txt], with the report of the chunk read before, the poll finds
    the completion. *)
Lemma poll_after_worker_witness :
  let left :=
    with_progress_queue (drop 1 (Transmitter.progress_queue hello_sent))
      hello_sent in
  let gui' :=
    @App._poll_transfer Gesture.millis false 5000
      (App.after_worker left sending_app) in
  Transmitter.progress_queue (App.transmitter gui') = [] /\
  (get_latest_progress (App.transmitter gui')).1 = None /\
  exists last_report,
    List.last (Transmitter.progress_queue hello_sent) last_report
      = last_report /\
    Transmitter.progress_queue hello_sent <> [] /\
    ((length (Transmitter.progress_queue hello_sent) <= 1)%nat ->
     App.gesture_engine gui' = App.gesture_engine sending_app /\
     App._connection_status gui' = App._connection_status sending_app /\
     App.sounds gui' = App.sounds sending_app) /\
    ((1 < length (Transmitter.progress_queue hello_sent))%nat ->
     (Transmitter.error last_report <> EmptyString ->
      App.gesture_engine gui'
        = Gesture.notify_transfer_error (App.gesture_engine sending_app) /\
      Gesture._state (App.gesture_engine gui') = Gesture.STATE_FILE_SELECTED /\
      App._connection_status gui' = "disconnected"%string /\
      App.sounds gui' = App.sounds sending_app ++ ["error"%string]) /\
     (Transmitter.error last_report = EmptyString ->
      (Transmitter.done last_report = true /\
       App.gesture_engine gui'
         = Gesture.notify_transfer_complete
             (5000 : @Gesture.pyfloat Gesture.millis)
             (App.gesture_engine sending_app) /\
       Gesture._state (App.gesture_engine gui') = Gesture.STATE_SEND_COMPLETE /\
       App._connection_status gui' = "connected"%string /\
       App.sounds gui' = App.sounds sending_app ++ ["complete"%string]) \/
      (exists e w1,
         Transmitter.transfer_body (rt := MiniJson.runtime) None
           default_transmitter ["send"; "hello.txt"]%string hello_world
           = (Raise e, w1) /\
         exn_str e = EmptyString /\
         App.gesture_engine gui' = App.gesture_engine sending_app /\
         App._connection_status gui' = "connected"%string /\
         App.sounds gui' = App.sounds sending_app))).
Proof.
  apply (poll_after_worker (rt := MiniJson.runtime) (fl := Gesture.millis)
           None default_transmitter mini_loads_ends
           ltac:(intros; discriminate) ["send"; "hello.txt"]%string
           hello_world sending_app
           (5000 : @Gesture.pyfloat Gesture.millis) 1);
    reflexivity.
Defined.

(** In scenario S1 the poll brings the engine to SEND_COMPLETE. *)
Example hello_poll_completes :
  Gesture._state
    (App.gesture_engine
       (@App._poll_transfer Gesture.millis false 5000
          (App.after_worker hello_sent sending_app)))
  = Gesture.STATE_SEND_COMPLETE.
Proof. vm_compute. reflexivity. Qed.

(** In scenario S1 again, the worker ends between the poll and the
    rendering of one frame: the rendering takes the completion off the
    queue, and the poll of the next frame leaves the engine in SENDING. *)
Example hello_outcome_lost :
  let rendered :=
    @App.render_state Gesture.millis (App.after_worker hello_sent sending_app) in
  Transmitter.progress_queue (App.transmitter rendered) = [] /\
  Gesture._state
    (App.gesture_engine
       (@App._poll_transfer Gesture.millis false 5000 rendered))
  = Gesture.STATE_SENDING.
Proof. vm_compute. split; reflexivity. Qed.

(** ** The progress values lie between 0 and 1 *)

Section Ratio.
Import PyFloat.

Lemma round_half_even_nonneg n d : 0 <= n -> 0 < d -> 0 <= round_half_even n d.
Proof.
  intros Hn Hd. unfold round_half_even.
  assert (0 <= n / d) by (apply Z.div_pos; lia).
  destruct (2 * (n mod d) <? d); [lia|].
  destruct (d <? 2 * (n mod d)); [lia|]. destruct (Z.even (n / d)); lia.
Qed.

Lemma exponent_nonpos a b : 0 < a <= b -> exponent a b <= 0.
Proof.
  intros [Ha Hab].
  pose proof (exponent_lower a b Ha ltac:(lia)) as L.
  destruct (Z_le_gt_dec (exponent a b) 0) as [|Hpos]; [assumption|exfalso].
  rewrite scale_nonneg, scale_nonpos in L by lia.
  assert (2 ^ 1 <= 2 ^ exponent a b) by (apply Z.pow_le_mono_r; lia).
  change (2 ^ 1) with 2 in *. nia.
Qed.

(** [a / b] for [0 < a <= b]. *)
Lemma true_divide_below a b :
  0 < a <= b ->
  exists m s,
    true_divide a b = Ok {| mant := m; expo := s |} /\
    s <= 0 /\ 0 <= m <= 2 ^ (- s).
Proof.
  intros [Ha Hab]. assert (Hb : 0 < b) by lia.
  rewrite true_divide_pos by lia. cbv zeta.
  pose proof (exponent_nonpos a b ltac:(lia)) as He.
  pose proof (exponent_upper a b Ha Hb) as U.
  remember (exponent a b) as e eqn:Ee.
  set (s := Z.max (e - 52) (- 1074)).
  assert (Hs : s <= - 52) by lia.
  assert (Hs' : e - 52 <= s) by lia.
  rewrite (scale_nonneg a (- s)), (scale_nonpos b s) by lia.
  set (t := 2 ^ (- s)).
  assert (Ht : 0 < t) by (apply Z.pow_pos_nonneg; lia).
  set (m := round_half_even (a * t) b).
  assert (Hm0 : 0 <= m) by (apply round_half_even_nonneg; nia).
  assert (Hm1 : m <= t) by (apply round_half_even_le; [lia|nia]).
  assert (Hm53 : m <= 2 ^ 53).
  { apply round_half_even_le; [lia|].
    assert (Ht' : t <= 2 ^ (52 - e)) by (apply Z.pow_le_mono_r; lia).
    destruct (Z.eq_dec e 0) as [E0|E0].
    - rewrite E0 in *. change (scale a (- (0 + 1))) with (scale a (-1)) in U.
      rewrite scale_nonpos, scale_nonneg in U by lia.
      change (2 ^ (0 + 1)) with 2 in U. change (2 ^ (52 - 0)) with (2 ^ 52) in Ht'.
      change (2 ^ 53) with (2 * 2 ^ 52). nia.
    - rewrite (scale_nonneg a (- (e + 1))), (scale_nonpos b (e + 1)) in U
        by lia.
      replace (52 - e) with (53 + (- (e + 1))) in Ht' by lia.
      rewrite Z.pow_add_r in Ht' by lia.
      assert (0 < 2 ^ 53) by (apply Z.pow_pos_nonneg; lia).
      assert (0 < 2 ^ (- (e + 1))) by (apply Z.pow_pos_nonneg; lia).
      nia. }
  rewrite (scale_nonpos m s) by lia.
  assert (H1024 : 2 ^ 53 < 2 ^ 1024) by (apply Z.pow_lt_mono_r; lia).
  destruct (Z.leb_spec (2 ^ 1024) m) as [Hov|_]; [lia|].
  exists m, s. split; [reflexivity|]. split; [lia|]. fold t. lia.
Qed.

(** [a / a] is 1.0. *)
Lemma true_divide_same a :
  0 < a -> true_divide a a = Ok {| mant := 2 ^ 52; expo := - 52 |}.
Proof.
  intros Ha. rewrite true_divide_pos by lia. cbv zeta.
  assert (He : exponent a a = 0).
  { unfold exponent. rewrite Z.sub_diag. cbn [Z.opp].
    now rewrite Z.ltb_irrefl. }
  rewrite He. change (Z.max (0 - 52) (- 1074)) with (- 52).
  rewrite (scale_nonneg a (- - 52)), (scale_nonpos a (- 52)) by lia.
  change (- - 52) with 52. rewrite (Z.mul_comm a).
  rewrite round_half_even_exact by lia.
  rewrite scale_nonpos by lia.
  destruct (Z.leb_spec (2 ^ 1024) (2 ^ 52)) as [Hov|_]; [|reflexivity].
  assert (2 ^ 52 < 2 ^ 1024) by (apply Z.pow_lt_mono_r; lia). lia.
Qed.

Lemma ratio_in_unit_interval a b :
  0 <= a <= b -> b <> 0 ->
  exists x,
    true_divide a b = Ok x /\ in_unit_interval x /\
    (a = 0 -> is_zero x) /\ (a = b -> is_one x).
Proof.
  intros [Ha Hab] Hb. destruct (Z.eq_dec a 0) as [->|Ha0].
  - exists {| mant := 0; expo := 0 |}. unfold true_divide.
    destruct (Z.eqb_spec b 0); [contradiction|]. cbn [Z.eqb].
    split; [reflexivity|]. unfold in_unit_interval, is_zero, is_one. cbn.
    repeat split; lia.
  - destruct (Z.eq_dec a b) as [<-|Hne].
    + exists {| mant := 2 ^ 52; expo := - 52 |}.
      split; [apply true_divide_same; lia|].
      unfold in_unit_interval, is_zero, is_one. cbn [mant expo].
      change (- - 52) with 52.
      assert (0 < 2 ^ 52) by (apply Z.pow_pos_nonneg; lia).
      repeat split; lia.
    + destruct (true_divide_below a b ltac:(lia)) as (m & s & E & Hs & Hm).
      exists {| mant := m; expo := s |}. split; [exact E|].
      unfold in_unit_interval, is_zero, is_one. cbn [mant expo].
      repeat split; lia.
Qed.

End Ratio.

(** [TransferProgress.fraction] and [ReceivedFileInfo.progress]: with the
    count at 0 the value is 0.0; with the counter between 0 and the count
    the division does not raise and the value lies between 0 and 1, is 0.0
    for the counter 0 and exactly 1.0 when the counter has reached the
    count, however large both are.  (For the listener's record the count
    is the integer that the FILE_META payload announced.) *)
Theorem progress_values_in_unit_interval :
  (forall p : Transmitter.TransferProgress,
     0 <= Transmitter.chunks_sent p <= Transmitter.total_chunks p ->
     exists x,
       fraction p = Ok x /\ in_unit_interval x /\
       (Transmitter.chunks_sent p = 0 \/ Transmitter.total_chunks p = 0 ->
        is_zero x) /\
       (Transmitter.total_chunks p <> 0 ->
        Transmitter.chunks_sent p = Transmitter.total_chunks p -> is_one x)) /\
  (forall (i : ReceivedFileInfo) (n : Z),
     chunk_count i = JInt n ->
     0 <= chunks_received i <= n ->
     exists x,
       progress i = Ok (PyFloat.Finite x) /\ in_unit_interval x /\
       (chunks_received i = 0 \/ n = 0 -> is_zero x) /\
       (n <> 0 -> chunks_received i = n -> is_one x)).
Proof.
  assert (H : forall a b, 0 <= a <= b ->
            exists x,
              (if b =? 0 then Ok {| PyFloat.mant := 0; PyFloat.expo := 0 |}
               else PyFloat.true_divide a b) = Ok x /\
              in_unit_interval x /\
              (a = 0 \/ b = 0 -> is_zero x) /\
              (b <> 0 -> a = b -> is_one x)).
  { intros a b Hb. destruct (Z.eqb_spec b 0) as [E|Hne].
    - exists {| PyFloat.mant := 0; PyFloat.expo := 0 |}.
      unfold in_unit_interval, is_zero. cbn.
      repeat split; try lia; try reflexivity.
    - destruct (ratio_in_unit_interval _ _ Hb Hne) as (x & E & Hu & H0 & H1).
      exists x. split; [exact E|]. split; [exact Hu|]. split.
      + intros [H|H]; [now apply H0|contradiction].
      + intros _. exact H1. }
  split; [intros p Hp; apply (H _ _ Hp)|].
  intros i n Hn Hi. destruct (H _ _ Hi) as (x & E & Hx).
  exists x. split; [|exact Hx].
  unfold progress. rewrite Hn. cbn [py_eq_zero py_int_truediv].
  destruct (n =? 0); [now injection E as <-|].
  now rewrite E.
Qed.

(** What the listener's record answers when the payload declared [true],
    a float or a string as its chunk count. *)
Example progress_of_untyped_counts :
  let info v :=
    set_chunks_received 2 (set_chunk_count v ReceivedFileInfo_init) in
  progress (info (JBool true))
    = Ok (PyFloat.Finite {| PyFloat.mant := 4503599627370496;
                            PyFloat.expo := - 51 |}) /\
  progress (info (JBool false))
    = Ok (PyFloat.Finite {| PyFloat.mant := 0; PyFloat.expo := 0 |}) /\
  progress (info (JFloat {| PyFloat.mant := 1; PyFloat.expo := - 1 |}))
    = Ok (PyFloat.Finite {| PyFloat.mant := 4503599627370496;
                            PyFloat.expo := - 50 |}) /\
  progress (info (JFloat {| PyFloat.mant := 1; PyFloat.expo := - 1074 |}))
    = Ok (PyFloat.Infinity false) /\
  progress (info (JStr "3"))
    = Raise (Exn TypeError
               "unsupported operand type(s) for /: 'int' and 'str'").
Proof. vm_compute. repeat split; reflexivity. Qed.

(** The second of three chunks is two thirds of the way, rounded to the
    nearest float. *)
Example fraction_two_thirds :
  fraction {| Transmitter.chunks_sent := 2; Transmitter.total_chunks := 3;
              Transmitter.bytes_sent := 131072;
              Transmitter.total_bytes := 150000;
              Transmitter.done := false;
              Transmitter.error := EmptyString |}
  = Ok {| PyFloat.mant := 6004799503160661; PyFloat.expo := - 53 |}.
Proof. vm_compute. reflexivity. Qed.
